(* ===== verification/_CoqProject ===== *)
-Q . S2P
Prelude.v
Unicode.v
PyStr.v
Json.v
Errors.v
Effects.v
Bytes.v
Sha256.v
PyFloat.v
Models.v
Evaluation.v
Lifecycle.v
Repository.v
InMemory.v
Postgres.v
Sessions.v
Contract.v
Migrations.v
Metrics.v
Counting.v
Exposition.v
Logging.v
LogConfig.v
AuditTrail.v
Tracing.v
RateLimit.v
Config.v
Factory.v
Auth.v
MigrationEnv.v
World.v
Resilience.v
Evaluator.v
Queue.v
JobService.v
Worker.v
Safety.v
DataSafety.v
Processing.v
Api.v
App.v
Assembly.v
OpenApi.v
Boot.v
Service.v
Cluster.v
Deployment.v
Runs.v
Stopping.v
EndToEnd.v
Serving.v
Liveness.v
Scaling.v
Scripts.v
Tools.v
