(* ===== verification/Prelude.v ===== *)
(** * llm-evaluation-service: a verification library

    The service accepts evaluation requests (question, answer, optional rubric), stores
    them as jobs, scores them in the background and reports the results, over HTTP and for
    several tenants.  This library models its Python code ([src/app], [src/migrations],
    [src/scripts]) and proves what makes it correct.

    ** How the program is put together

    - A request enters through the middlewares and exception handlers of [app/main.py] and
      reaches a handler of [app/api/routes.py], which authenticates it ([app/core/auth.py]),
      resolves its tenant, counts it against a limit ([app/core/rate_limit.py]) and calls the
      job service ([app/services/job_service.py]).
    - The job service keeps jobs in a repository ([app/storage/base.py]) with two
      implementations, [in_memory.py] and [postgres.py], and puts new jobs on a queue.
    - Jobs are processed by the queue's runner in a combined process
      ([app/services/queue.py]) or by a polling worker in a worker process
      ([app/services/worker.py], [app/worker.py]); both score with the evaluator
      ([app/services/evaluator.py], [app/domain/evaluation.py]) under timeouts and retries
      ([app/core/resilience.py]).
    - Everything leaves logs, spans, metrics and audit events ([app/core/logging.py],
      [tracing.py], [metrics.py], [audit.py]).
    - Settings ([app/core/config.py]) decide what a process is made of: [create_app] and
      [lifespan] ([app/main.py]) or [run_worker] ([app/worker.py]) configure logging and
      tracing, build the repository ([app/storage/factory.py]), wire the objects and start the
      background task.  Several processes may share one database.
    - Alembic migrations ([migrations/versions]) evolve the table, run by [migrations/env.py];
      scripts check deployment files, print demo tokens and export the API's schema
      ([scripts]).

    ** Files

    Foundations, without a counterpart under [src]:
    - [Prelude]: tactics, slices, sorting, dictionaries as association lists, streams of
      readings.
    - [Unicode], [PyStr]: Python strings as lists of code points; [str.split], [strip],
      [lower], [upper], [splitlines], [replace], [partition], [join] with the Unicode tables.
    - [Json]: JSON values, [json.dumps] with and without indentation, [json.loads].  [Bytes]: UTF-8/16/32, base64.
      [Sha256]: SHA-256 and HMAC, executable.  [PyFloat]: IEEE doubles and the format [g].
    - [Effects]: the three levels of code.  [res A] is a value or an exception.  [M S A] is
      code that runs without giving up control, on a state that survives exceptions.
      [co S A] is a coroutine: a tree of atomic pieces between which other tasks may run;
      [run] runs it alone, [schedule] and [pool_step] interleave a pool of tasks, and
      [steps_along P R Q] says that from any state of [P], whatever others do along [R], each
      piece keeps [P] and moves along [R], and the outcome satisfies [Q].  [under_rely R Q]
      asks nothing of the pieces themselves: such a task ends in [Q] under every [fair]
      schedule beside tasks whose pieces ([each_piece]) move along [R] ([rely_ends]).

    Components (one file each, names as in the code):
    - [Errors] ([core/errors.py]), [Models] ([domain/models.py]), [Evaluation]
      ([domain/evaluation.py]), [Config] ([core/config.py]), [Metrics], [Logging],
      [AuditTrail], [Tracing], [RateLimit], [Auth] (the [core/] modules).  [Counting]: what
      the counters of [Metrics] count, over sums of doubles.  [LogConfig]:
      [configure_logging], the levels and the text on the standard output.
    - [Lifecycle]: the abstract life of a job ([lstep]) and store.  [Repository]: the
      protocol as the class [JobRepository], its contract as [RepositoryLaws], its use of the
      clock as [ClockedRepository].  [InMemory] (objects in a heap, returned by reference) and
      [Postgres] (rows, payloads, row locks of others, round trips that fail before or after
      their effect; the scan order is the class [QueryPlan]) implement them; [Contract] states
      the refinement.  [Factory]
      ([storage/factory.py]): a repository of either kind is one too ([AnyRepository]), so
      every theorem over [RepositoryLaws] holds of the one the settings name.
    - [Sessions]: several worker processes on one database, their transactions interleaved
      step by step (locking read, commit, rollback); calls of the methods of [Postgres], in any
      sequence and with any failures, are runs of it ([Sessions.method_is_transaction]).
    - [Migrations]: both migrations and [init_schema] over the class [Alembic];
      [MigrationEnv] ([migrations/env.py]): the database, transaction and engine they run in,
      and the revision Alembic records.
    - [World]: the state of one process.  [Resilience], [Evaluator] (interface [Scorer],
      [ScorerLaws]), [Queue], [JobService], [Worker]: the services on that state.
    - [Api]: the route handlers.  [App]: endpoints, handlers of exceptions, middleware, start
      and stop of both processes.  [Assembly]: [create_app] and the stack its registrations
      make.  [Boot]: [lifespan] and [run_worker] from the settings ([process_starts]) to the
      end of their [finally] clauses ([shutdown_outcome]).
    - [Scripts]: the two policy checks, one Module each.  [Tools]: [create_demo_jwt.py].
      [OpenApi]: [export_openapi.py], from the environment to the written file.

    Theorems about the composition:
    - [Safety]: the invariant of the state under every interleaving.  [Service]: a process from
      its settings on, its requests, background task and shutdown interleaved.  [Cluster]:
      any number of processes on one storage, as a step relation with its invariant;
      [Deployment]: such processes started from settings.  [DataSafety]: two runs over the
      in-memory repository that differ in content emit the same telemetry; over Postgres the
      text of a storage error reaches the log.  [Processing]: the outcome of
      processing one job, branch by branch.  [Runs]: what the runner and the worker achieve,
      and how a worker ends.  [Stopping]: the runner's end while requests are answered.
      [EndToEnd]: one evaluation from its submission over HTTP to the answer with its score,
      in a combined process and across processes.  [Serving]: what requests leave
      alone, and one job beside them.  [Liveness]: the runner of a combined process finishes
      what waits while requests go on arriving.  [Scaling]: so does a worker process beside API
      processes that come and go.

    ** What the theorems show

    - Invariants and safety: whatever the interleaving, storage failures and timeouts,
      stored jobs stay well formed, none is lost, each moves along its life only, and the
      audit trail is true of the store: for any pool of tasks ([Safety.service_safety]), for
      a process started from any settings that answers HTTP requests until it is shut down
      ([Service.configured_service_safety]), and for several such processes on one database,
      any of which may be killed ([Deployment.deployment_safety]); every job in a response
      belongs to the tenant of the request ([Api.tenant_isolation]); no window admits more
      than its limit ([RateLimit.window_limit]); between two claims of a job a recovery took it
      back, however worker processes interleave ([Sessions.claims_exclusive]); over the in-memory
      repository and the mock evaluator telemetry carries no content
      ([DataSafety.content_stays_out_of_telemetry]).
    - Refinement: both repositories refine the abstract store
      ([Contract.memory_refines_store], [Contract.postgres_refines_store]).
    - End to end: what is submitted over HTTP is processed, by the runner or by a worker process,
      and from then on answered with exactly the score of its content
      ([EndToEnd.runner_serves], [EndToEnd.worker_serves]), on a reliable storage and when no
      scoring runs out of time; what happens otherwise, [Processing] and
      [Runs.worker_stops_on_failure] say.
    - Functional behaviour on every branch: processing, scoring, retries, submitting, reading,
      listing, authenticating, answering; [App.request_status] and [App.request_answered]
      give the answer to every request, failures included.
    - Types: every answer has the status and the model its route declares, with the models'
      constraints on the jobs in it, or is an error body of one of the error classes
      ([App.answers_typed]).
    - Start and end: a process starts exactly from usable settings ([Boot.process_starts]); what
      a shutdown does is decided by how the tasks ended ([Boot.shutdown_outcome]); an online
      migration works on the configured database only and takes it from the revision it records
      to the head ([MigrationEnv.online_migrates]).
    - Liveness and termination, each on the conditions its comment names: while a combined
      process serves requests, under every fair schedule, its runner finishes the jobs it has
      accepted ([Liveness.accepted_jobs_finish]); while API processes accept evaluations on one
      database, start and die, a worker process finishes the jobs that wait
      ([Scaling.waiting_jobs_finish]); left alone they drain queue and store
      ([Runs.runner_finishes], failures included, [Runs.worker_drains], [Queue.runner_drains]); lives are finite ([Lifecycle.job_life_bounded]); a runner told to
      stop ends, alone ([Queue.runner_stops]) and under every fair schedule beside requests
      ([Stopping.runner_stops_among_requests]).
    - Bounds: scores stay within 0 and 100 ([Evaluation.score_mock_response_total]); counters
      are exact up to [2 ^ 53] ([Counting.counters_count]).
    - Round trips and equivalence: tokens, log lines, rows, migrations, the layout of a
      Dockerfile, the Prometheus text ([Exposition], with a reader of the format); the ways to
      set up the schema agree ([Migrations.schema_paths_agree]); the output of a process loads
      back as the records at or above its level ([LogConfig.log_stream]); the exported schema
      loads back, and its file changes exactly when the schema does
      ([OpenApi.exported_schema]); the application
      [create_app] assembles is [handle_request] ([Assembly.assembled_application]).
    - Some theorems state behaviour the code hardly means: a timeout ends the worker for good
      ([Runs.worker_stops_on_failure]), a second delivery fails a running job
      ([Processing.process_outcome]), a nested token gets a 500
      ([Auth.nested_token_recursion]), a bad Dockerfile passes its check
      ([Scripts.dockerfile_check_misses]).

    ** Bounds, fuel and the environment

    Loops without end ([Queue._run], [Worker.run_loop], [App.await_task]) take the number of
    their turns, return whether they have ended, and are stated for every number; the
    liveness theorems say how many turns are enough.  Histories of a cluster
    ([Cluster.history]) are endless.  Parsers and encoders recurse on their input.  Integers are unbounded as in Python; database columns are 32 bits wide
    ([Postgres.int32]), the hash works on 32-bit words, floats are IEEE doubles.  The
    environment of a process ([World.Environment]) gives the identifiers [uuid4] returns, the
    clocks, and which operations outlive their timeout; clocks may go back.

    ** Failures

    - Every awaited call to the database is a round trip, a refresh after a commit too, and
      [Postgres.faults] says of each whether it succeeds, fails ([Fails], the transaction is
      rolled back) or takes effect while its answer is lost ([Lost]).  A method can therefore
      raise although its change is stored, and the laws of [RepositoryLaws] allow it to.  Errors
      of the database arrive as [SQLAlchemyError] ([StorageExn]); a refresh that succeeds reads
      the row as its session has just committed it.
    - [StorageExn] carries the text of the error, which holds the parameters of the statement,
      and [ValidationExn] the model and its input; log records and spans keep the exception.
    - Strings with a length constraint are valid Unicode: pydantic refuses lone surrogates
      ([Models.len_ok]).  A stored payload is loaded with pydantic's lax conversions
      ([Postgres.lax_int], [Postgres.lax_bool]).
    - [Config.Settings] has the types of the code, so an exporter is one of the three the setting
      admits ([Tracing.OtelExporter]).

    ** What is not modelled

    - FastAPI's parsing and validation of requests (handlers receive typed parameters;
      [Models.valid_submit] and [Api.valid_listing_query] are the declared constraints), CORS,
      the ASGI server, signal handling, asyncio itself beyond its interleavings: libraries.
    - pydantic-settings' reading of the environment: theorems take any [Settings].
    - OpenTelemetry's processing of spans, handlers of the logging library other than the
      one the service installs, the text of a traceback (a parameter of [Logging]).
    - Starlette's middleware stack, SQLAlchemy's engine and [create_all], Alembic's context:
      parameters with their documented behaviour as hypotheses ([Assembly], [Factory],
      [Boot.sound_storage], [MigrationEnv]).  Of the command [alembic upgrade head] the steps
      are spelled out ([MigrationEnv.run_upgrade_head]): it reads the recorded revision, makes
      the version table when none is recorded, runs the revisions above and records each.
    - [InMemoryJobQueue.join]: nothing calls it, and it only waits on an event inside
      [asyncio.Queue].
    - The SQL engine: tables, locking reads and commits are modelled, not SQL's execution; that
      a locked row keeps its value until its session ends is Postgres' documented behaviour.
    - Texts PostgreSQL refuses (a NUL character): such a refusal is one of the faults
      [Postgres.faults] decides, so a reliable database is one that takes its texts.
    - The schema [export_openapi.py] writes is FastAPI's ([OpenApi] takes the generator as a
      parameter); [argparse] reads the arguments of [create_demo_jwt.py].
    - Tests, deployment files and the user interface: not the program's logic. *)
From stdpp Require Export base list numbers gmap sets strings sorting.

(** ** Tactics shared by the development *)

(** Destruct the scrutinee of a [match]/[if] of the goal or of [H], keeping the
    equation, and clear the impossible branches. *)
Ltac split_match :=
  match goal with
  | |- context [match ?x with _ => _ end] => destruct x eqn:?; simplify_eq/=
  end.
Ltac split_match_in H :=
  match type of H with
  | context [match ?x with _ => _ end] => destruct x eqn:?; simplify_eq/=
  end.

(** Turn the boolean comparisons of the hypotheses into propositions. *)
Ltac to_prop :=
  repeat match goal with
  | H : andb _ _ = true |- _ => apply andb_true_iff in H as [? ?]
  | H : orb _ _ = false |- _ => apply orb_false_iff in H as [? ?]
  | H : negb _ = true |- _ => apply negb_true_iff in H
  | H : negb _ = false |- _ => apply negb_false_iff in H
  | H : bool_decide _ = true |- _ => apply bool_decide_eq_true_1 in H
  | H : bool_decide _ = false |- _ => apply bool_decide_eq_false_1 in H
  | H : (_ <=? _)%Z = true |- _ => apply Z.leb_le in H
  | H : (_ <=? _)%Z = false |- _ => apply Z.leb_gt in H
  | H : (_ <? _)%Z = true |- _ => apply Z.ltb_lt in H
  | H : (_ <? _)%Z = false |- _ => apply Z.ltb_ge in H
  | H : (_ >=? _)%Z = _ |- _ => rewrite Z.geb_leb in H
  | H : (_ =? _)%Z = true |- _ => apply Z.eqb_eq in H
  | H : (_ =? _)%Z = false |- _ => apply Z.eqb_neq in H
  end.

Create HintDb pylib.

(** ** Python slices [l[:n]] *)

Section Slice.
Context {A : Type}.
Implicit Types l : list A.

(** [l[:n]]; a negative bound counts from the end, as in Python. *)
Definition slice_to (n : Z) l : list A :=
  take (Z.to_nat (if (0 <=? n)%Z then n else n + Z.of_nat (length l))) l.

Lemma slice_to_prefix n l : slice_to n l `prefix_of` l.
Proof. apply prefix_take. Qed.

Lemma slice_to_length n l :
  (0 ≤ n)%Z → Z.of_nat (length (slice_to n l)) = (n `min` Z.of_nat (length l))%Z.
Proof.
  intros ?. unfold slice_to. rewrite length_take. destruct (Z.leb_spec 0 n); lia.
Qed.

Lemma slice_to_all n l : (Z.of_nat (length l) ≤ n)%Z → slice_to n l = l.
Proof. intros. unfold slice_to. rewrite take_ge; [done | destruct (Z.leb_spec 0 n); lia]. Qed.

Lemma elem_of_slice_to n l x : x ∈ slice_to n l → x ∈ l.
Proof. intros H. by apply (elem_of_prefix (slice_to n l)), slice_to_prefix. Qed.
End Slice.

(** ** Lists and maps *)

Lemma fmap_slice_to {A B} (f : A → B) n l : f <$> slice_to n l = slice_to n (f <$> l).
Proof. unfold slice_to. by rewrite length_fmap, fmap_take. Qed.

Lemma filter_fmap {A B} (f : A → B) (P : B → Prop) `{!∀ x, Decision (P x)} (l : list A) :
  filter P (f <$> l) = f <$> filter (λ x, P (f x)) l.
Proof.
  induction l as [|x l IH]; [done|]. rewrite fmap_cons, !filter_cons, IH. by case_decide.
Qed.

Lemma filter_ext_elem {A} (P Q : A → Prop) `{!∀ x, Decision (P x), !∀ x, Decision (Q x)} (l : list A) :
  (∀ x, x ∈ l → P x ↔ Q x) → filter P l = filter Q l.
Proof.
  induction l as [|x l IH]; intros HPQs; [done|]. rewrite !filter_cons, IH by set_solver.
  assert (P x ↔ Q x) as HPQ by set_solver. repeat case_decide; naive_solver.
Qed.

Lemma NoDup_fmap_filter {A B} (f : A → B) (P : A → Prop) `{!∀ x, Decision (P x)} (l : list A) :
  NoDup (f <$> l) → NoDup (f <$> filter P l).
Proof.
  induction l as [|x l IH]; [done|]. rewrite fmap_cons, NoDup_cons, filter_cons.
  intros [Hx Hl]. case_decide; [|auto]. rewrite fmap_cons, NoDup_cons. split; [|auto].
  intros (y & Hy & Hin)%list_elem_of_fmap. apply Hx. rewrite Hy. apply list_elem_of_fmap_2.
  by apply list_elem_of_filter in Hin as [_ ?].
Qed.

Lemma alter_alter {V} (m : gmap N V) k (f g : V → V) :
  alter g k (alter f k m) = alter (g ∘ f) k m.
Proof.
  apply map_eq. intros i. rewrite !lookup_alter. repeat case_decide; simplify_eq; try done.
  by destruct (m !! i).
Qed.

(** ** Python's stable [sorted] *)

(** Insertion sort by a boolean comparison: elements the comparison ties keep
    their order, as [sorted] (also with [reverse=True]) guarantees. *)
Section StableSort.
Context {A : Type} (leb : A → A → bool).

Fixpoint insert_by (x : A) (l : list A) : list A :=
  match l with
  | [] => [x]
  | y :: l' => if leb x y then x :: y :: l' else y :: insert_by x l'
  end.

Definition sort_by (l : list A) : list A := foldr insert_by [] l.

Lemma insert_by_perm x l : insert_by x l ≡ₚ x :: l.
Proof.
  induction l as [|y l IH]; simpl; [done|]. case_match; [done|].
  rewrite IH. apply Permutation_swap.
Qed.

Lemma sort_by_perm l : sort_by l ≡ₚ l.
Proof. induction l as [|x l IH]; simpl; [done|]. by rewrite insert_by_perm, IH. Qed.

Lemma elem_of_sort_by x l : x ∈ sort_by l ↔ x ∈ l.
Proof. by rewrite sort_by_perm. Qed.

Lemma length_sort_by l : length (sort_by l) = length l.
Proof. by rewrite sort_by_perm. Qed.

Lemma sort_by_nil l : sort_by l = [] ↔ l = [].
Proof.
  rewrite <- !length_zero_iff_nil. by rewrite length_sort_by.
Qed.

Context (leb_total : ∀ x y, leb x y = true ∨ leb y x = true)
        (leb_trans : ∀ x y z, leb x y = true → leb y z = true → leb x z = true).

Let R x y := leb x y = true.

Lemma insert_by_sorted x l : StronglySorted R l → StronglySorted R (insert_by x l).
Proof.
  induction 1 as [|y l Hl IH Hy]; simpl; [repeat constructor|].
  destruct (leb x y) eqn:Hxy.
  - constructor; [by constructor|]. constructor; [done|].
    eapply Forall_impl; [exact Hy|]. intros z ?. by eapply leb_trans.
  - constructor; [done|]. rewrite insert_by_perm. constructor; [|done].
    destruct (leb_total x y) as [?|?]; [congruence|done].
Qed.

Lemma sort_by_sorted l : StronglySorted R (sort_by l).
Proof. induction l; simpl; [constructor | by apply insert_by_sorted]. Qed.

(** Stability: on a set [P] of mutually tied elements the order is kept. *)
Lemma sort_by_stable (P : A → Prop) `{!∀ x, Decision (P x)} l :
  (∀ x y, P x → P y → leb x y = true) → filter P (sort_by l) = filter P l.
Proof.
  intros Htie. induction l as [|x l IH]; simpl; [done|].
  assert (∀ k, filter P (insert_by x k) = filter P (x :: k)) as Hins.
  { induction k as [|y k IHk]; simpl; [done|]. destruct (leb x y) eqn:Hxy; [done|].
    rewrite !filter_cons in *. rewrite IHk. repeat case_decide; try done.
    by rewrite Htie in Hxy. }
  rewrite Hins, !filter_cons. by rewrite IH.
Qed.

(** The head of the sorted list is the first minimal element. *)
Lemma sort_by_head l m s :
  sort_by l = m :: s →
  ∃ l1 l2, l = l1 ++ m :: l2 ∧ (∀ x, x ∈ l1 → leb x m = false)
           ∧ (∀ x, x ∈ l → leb m x = true).
Proof.
  revert m s. induction l as [|x l IH]; simpl; intros m s Hs; [done|].
  assert (leb_refl : ∀ y, leb y y = true) by (intros y; by destruct (leb_total y y)).
  destruct (sort_by l) as [|y s'] eqn:Hl; simpl in Hs.
  - apply (proj1 (sort_by_nil l)) in Hl. simplify_eq. exists [], []. split_and!; [done|by intros ? ?%not_elem_of_nil|].
    by intros y ->%list_elem_of_singleton.
  - destruct (IH y s' eq_refl) as (l1 & l2 & -> & Hbefore & Hmin). clear IH.
    destruct (leb x y) eqn:Hxy; simplify_eq.
    + exists [], (l1 ++ y :: l2). split_and!; [done|by intros ? ?%not_elem_of_nil|].
      intros z [->|Hz]%elem_of_cons; [done|]. by eapply leb_trans, Hmin.
    + exists (x :: l1), l2. split_and!; [done| |].
      * intros z [->|Hz]%elem_of_cons; [done|by apply Hbefore].
      * intros z [->|Hz]%elem_of_cons; [|by apply Hmin].
        destruct (leb_total x m) as [?|?]; [congruence|done].
Qed.
End StableSort.

(** Sorting by an integer key, ascending and descending. *)
Definition sorted_by {A} (key : A → Z) : list A → list A :=
  sort_by (λ x y, (key x <=? key y)%Z).
Definition sorted_by_reverse {A} (key : A → Z) : list A → list A :=
  sort_by (λ x y, (key y <=? key x)%Z).

Lemma sorted_by_reverse_sorted {A} (key : A → Z) (l : list A) :
  StronglySorted (λ x y, (key y ≤ key x)%Z) (sorted_by_reverse key l).
Proof.
  rewrite <- (list_fmap_id (sorted_by_reverse key l)).
  eapply (StronglySorted_fmap _ (λ x y, (key y <=? key x)%Z = true)).
  { intros x y. by rewrite Z.leb_le. }
  apply sort_by_sorted; intros; rewrite !Z.leb_le in *; lia.
Qed.

Lemma insert_by_fmap {A B} (leb : B → B → bool) (f : A → B) x l :
  insert_by leb (f x) (f <$> l) = f <$> insert_by (λ a b, leb (f a) (f b)) x l.
Proof. induction l as [|y l IH]; csimpl; [done|]. case_match; [done|]. by rewrite IH. Qed.

Lemma sort_by_fmap {A B} (leb : B → B → bool) (f : A → B) l :
  sort_by leb (f <$> l) = f <$> sort_by (λ a b, leb (f a) (f b)) l.
Proof.
  unfold sort_by. induction l as [|x l IH]; [done|]. csimpl. rewrite IH. apply insert_by_fmap.
Qed.

(** ** Python dictionaries as association lists in insertion order *)

Section Dict.
Context {K V : Type} `{EqDecision K}.
Implicit Types d : list (K * V).

Fixpoint dict_get (k : K) d : option V :=
  match d with
  | [] => None
  | (k', v) :: d' => if decide (k = k') then Some v else dict_get k d'
  end.

(** [d[k] = v]: an existing key keeps its position, a new one goes last. *)
Fixpoint dict_set (k : K) (v : V) d : list (K * V) :=
  match d with
  | [] => [(k, v)]
  | (k', v') :: d' => if decide (k = k') then (k', v) :: d' else (k', v') :: dict_set k v d'
  end.

Lemma dict_get_Some k v d : dict_get k d = Some v → (k, v) ∈ d.
Proof.
  induction d as [|[k' v'] d IH]; simpl; [done|]. case_decide; intros; simplify_eq; set_solver.
Qed.

Lemma dict_get_None k d : dict_get k d = None ↔ k ∉ d.*1.
Proof.
  induction d as [|[k' v'] d IH]; simpl; [set_solver|]. case_decide; [set_solver|].
  rewrite IH. set_solver.
Qed.

Lemma elem_of_dict_get k v d : NoDup d.*1 → (k, v) ∈ d → dict_get k d = Some v.
Proof.
  induction d as [|[k' v'] d IH]; simpl; [set_solver|].
  rewrite NoDup_cons. intros [Hk ?] [?|?]%elem_of_cons; simplify_eq.
  - by rewrite decide_True.
  - rewrite decide_False; [by apply IH|]. intros ->. apply Hk.
    apply list_elem_of_fmap. by exists (k', v).
Qed.

Lemma dict_get_set k k' v d :
  dict_get k (dict_set k' v d) = if decide (k = k') then Some v else dict_get k d.
Proof.
  induction d as [|[k2 v2] d IH]; simpl; [done|].
  destruct (decide (k' = k2)) as [<-|]; simpl; repeat case_decide; simplify_eq; done.
Qed.

Lemma dict_set_new k v d : k ∉ d.*1 → dict_set k v d = d ++ [(k, v)].
Proof.
  induction d as [|[k' v'] d IH]; simpl; [done|]. intros Hk.
  rewrite decide_False by set_solver. f_equal. apply IH. set_solver.
Qed.

Lemma dict_set_same k v d : dict_get k d = Some v → dict_set k v d = d.
Proof.
  induction d as [|[k' v'] d IH]; simpl; [done|]. case_decide; intros; simplify_eq; [done|].
  f_equal. by apply IH.
Qed.

Lemma dict_set_keys k v d :
  (dict_set k v d).*1 = if decide (k ∈ d.*1) then d.*1 else d.*1 ++ [k].
Proof.
  destruct (decide (k ∈ d.*1)) as [Hin|Hin].
  - induction d as [|[k' v'] d IH]; simpl in *; [set_solver|].
    case_decide; simplify_eq/=; [done|]. f_equal. apply IH. set_solver.
  - rewrite dict_set_new by done. by rewrite fmap_app.
Qed.

Lemma NoDup_dict_set k v d : NoDup d.*1 → NoDup (dict_set k v d).*1.
Proof.
  intros. rewrite dict_set_keys. case_decide; [done|].
  apply NoDup_app. split_and!; [done|set_solver|apply NoDup_singleton].
Qed.
End Dict.
#[export] Hint Resolve NoDup_dict_set : pylib.

(** ** Filters that keep everything *)

Lemma filter_keeps {A} (P : A → Prop) `{!∀ x, Decision (P x)} l : Forall P l → filter P l = l.
Proof. induction 1 as [|x l Hx _ IH]; [done|]. by rewrite filter_cons_True, IH. Qed.

(** ** Streams of readings *)

(** [g] is what is left of the readings [f] after some of them were taken. *)
Definition rest_of {A} (f g : nat → A) : Prop := ∃ k, ∀ n, g n = f (k + n).

#[export] Instance rest_of_preorder {A} : PreOrder (@rest_of A).
Proof.
  split; [by exists 0|]. intros f g h [k Hk] [l Hl]. exists (k + l). intros n.
  by rewrite Hl, Hk, Nat.add_assoc.
Qed.

Lemma rest_of_refl {A} (f : nat → A) : rest_of f f.
Proof. reflexivity. Qed.
Lemma rest_of_next {A} (f : nat → A) : rest_of f (λ n, f (S n)).
Proof. by exists 1. Qed.
Lemma rest_of_all {A} (P : A → Prop) f g : rest_of f g → (∀ n, P (f n)) → ∀ n, P (g n).
Proof. intros [k Hk] Hf n. rewrite Hk. apply Hf. Qed.

Create HintDb frames.
#[export] Hint Resolve rest_of_refl rest_of_next : frames.
