(* ===== verification/Unicode.v ===== *)
(** Unicode character data used by the methods of Python's [str].

    Code points are [N].  [is_space] is the set tested by [str.isspace],
    [str.split] and [str.strip]; [lower_ranges] is the one-character lower-case
    mapping as rows (first, last, step, offset); [cased_ranges] and
    [ignorable_ranges] are the two character properties the final-sigma rule of
    [str.lower] reads; [upper_ranges] and [upper_special] are the upper-case mapping.  The tables are those of Unicode 14. *)
From stdpp Require Import base list numbers.

(** The white space of Python's [str]. *)
Local Open Scope N_scope.
Definition is_space (c : N) : bool :=
  let between a b := ((a <=? c) && (c <=? b))%N in
  between 9 13 || between 28 32 || (c =? 133) || (c =? 160)
  || (c =? 5760) || between 8192 8202 || between 8232 8233
  || (c =? 8239) || (c =? 8287) || (c =? 12288).

(** Does [c] lie in one of the closed intervals of [t]? *)
Definition in_ranges (t : list (N * N)) (c : N) : bool :=
  existsb (λ '(a, b), (a <=? c) && (c <=? b))%N t.

Definition lower_ranges : list (N * N * N * Z) :=
  [
   (65, 90, 1, 32%Z); (192, 214, 1, 32%Z); (216, 222, 1, 32%Z); (256, 302, 2, 1%Z); (306, 310, 2, 1%Z);
   (313, 327, 2, 1%Z); (330, 374, 2, 1%Z); (376, 376, 1, (-121)%Z); (377, 381, 2, 1%Z);
   (385, 385, 1, 210%Z); (386, 388, 2, 1%Z); (390, 390, 1, 206%Z); (391, 391, 1, 1%Z);
   (393, 394, 1, 205%Z); (395, 395, 1, 1%Z); (398, 398, 1, 79%Z); (399, 399, 1, 202%Z);
   (400, 400, 1, 203%Z); (401, 401, 1, 1%Z); (403, 403, 1, 205%Z); (404, 404, 1, 207%Z);
   (406, 406, 1, 211%Z); (407, 407, 1, 209%Z); (408, 408, 1, 1%Z); (412, 412, 1, 211%Z);
   (413, 413, 1, 213%Z); (415, 415, 1, 214%Z); (416, 420, 2, 1%Z); (422, 422, 1, 218%Z);
   (423, 423, 1, 1%Z); (425, 425, 1, 218%Z); (428, 428, 1, 1%Z); (430, 430, 1, 218%Z);
   (431, 431, 1, 1%Z); (433, 434, 1, 217%Z); (435, 437, 2, 1%Z); (439, 439, 1, 219%Z);
   (440, 440, 1, 1%Z); (444, 444, 1, 1%Z); (452, 452, 1, 2%Z); (453, 453, 1, 1%Z); (455, 455, 1, 2%Z);
   (456, 456, 1, 1%Z); (458, 458, 1, 2%Z); (459, 475, 2, 1%Z); (478, 494, 2, 1%Z); (497, 497, 1, 2%Z);
   (498, 500, 2, 1%Z); (502, 502, 1, (-97)%Z); (503, 503, 1, (-56)%Z); (504, 542, 2, 1%Z);
   (544, 544, 1, (-130)%Z); (546, 562, 2, 1%Z); (570, 570, 1, 10795%Z); (571, 571, 1, 1%Z);
   (573, 573, 1, (-163)%Z); (574, 574, 1, 10792%Z); (577, 577, 1, 1%Z); (579, 579, 1, (-195)%Z);
   (580, 580, 1, 69%Z); (581, 581, 1, 71%Z); (582, 590, 2, 1%Z); (880, 882, 2, 1%Z); (886, 886, 1, 1%Z);
   (895, 895, 1, 116%Z); (902, 902, 1, 38%Z); (904, 906, 1, 37%Z); (908, 908, 1, 64%Z);
   (910, 911, 1, 63%Z); (913, 929, 1, 32%Z); (931, 939, 1, 32%Z); (975, 975, 1, 8%Z);
   (984, 1006, 2, 1%Z); (1012, 1012, 1, (-60)%Z); (1015, 1015, 1, 1%Z); (1017, 1017, 1, (-7)%Z);
   (1018, 1018, 1, 1%Z); (1021, 1023, 1, (-130)%Z); (1024, 1039, 1, 80%Z); (1040, 1071, 1, 32%Z);
   (1120, 1152, 2, 1%Z); (1162, 1214, 2, 1%Z); (1216, 1216, 1, 15%Z); (1217, 1229, 2, 1%Z);
   (1232, 1326, 2, 1%Z); (1329, 1366, 1, 48%Z); (4256, 4293, 1, 7264%Z); (4295, 4295, 1, 7264%Z);
   (4301, 4301, 1, 7264%Z); (5024, 5103, 1, 38864%Z); (5104, 5109, 1, 8%Z); (7312, 7354, 1, (-3008)%Z);
   (7357, 7359, 1, (-3008)%Z); (7680, 7828, 2, 1%Z); (7838, 7838, 1, (-7615)%Z); (7840, 7934, 2, 1%Z);
   (7944, 7951, 1, (-8)%Z); (7960, 7965, 1, (-8)%Z); (7976, 7983, 1, (-8)%Z); (7992, 7999, 1, (-8)%Z);
   (8008, 8013, 1, (-8)%Z); (8025, 8031, 2, (-8)%Z); (8040, 8047, 1, (-8)%Z); (8072, 8079, 1, (-8)%Z);
   (8088, 8095, 1, (-8)%Z); (8104, 8111, 1, (-8)%Z); (8120, 8121, 1, (-8)%Z); (8122, 8123, 1, (-74)%Z);
   (8124, 8124, 1, (-9)%Z); (8136, 8139, 1, (-86)%Z); (8140, 8140, 1, (-9)%Z); (8152, 8153, 1, (-8)%Z);
   (8154, 8155, 1, (-100)%Z); (8168, 8169, 1, (-8)%Z); (8170, 8171, 1, (-112)%Z);
   (8172, 8172, 1, (-7)%Z); (8184, 8185, 1, (-128)%Z); (8186, 8187, 1, (-126)%Z);
   (8188, 8188, 1, (-9)%Z); (8486, 8486, 1, (-7517)%Z); (8490, 8490, 1, (-8383)%Z);
   (8491, 8491, 1, (-8262)%Z); (8498, 8498, 1, 28%Z); (8544, 8559, 1, 16%Z); (8579, 8579, 1, 1%Z);
   (9398, 9423, 1, 26%Z); (11264, 11311, 1, 48%Z); (11360, 11360, 1, 1%Z);
   (11362, 11362, 1, (-10743)%Z); (11363, 11363, 1, (-3814)%Z); (11364, 11364, 1, (-10727)%Z);
   (11367, 11371, 2, 1%Z); (11373, 11373, 1, (-10780)%Z); (11374, 11374, 1, (-10749)%Z);
   (11375, 11375, 1, (-10783)%Z); (11376, 11376, 1, (-10782)%Z); (11378, 11378, 1, 1%Z);
   (11381, 11381, 1, 1%Z); (11390, 11391, 1, (-10815)%Z); (11392, 11490, 2, 1%Z);
   (11499, 11501, 2, 1%Z); (11506, 11506, 1, 1%Z); (42560, 42604, 2, 1%Z); (42624, 42650, 2, 1%Z);
   (42786, 42798, 2, 1%Z); (42802, 42862, 2, 1%Z); (42873, 42875, 2, 1%Z);
   (42877, 42877, 1, (-35332)%Z); (42878, 42886, 2, 1%Z); (42891, 42891, 1, 1%Z);
   (42893, 42893, 1, (-42280)%Z); (42896, 42898, 2, 1%Z); (42902, 42920, 2, 1%Z);
   (42922, 42922, 1, (-42308)%Z); (42923, 42923, 1, (-42319)%Z); (42924, 42924, 1, (-42315)%Z);
   (42925, 42925, 1, (-42305)%Z); (42926, 42926, 1, (-42308)%Z); (42928, 42928, 1, (-42258)%Z);
   (42929, 42929, 1, (-42282)%Z); (42930, 42930, 1, (-42261)%Z); (42931, 42931, 1, 928%Z);
   (42932, 42946, 2, 1%Z); (42948, 42948, 1, (-48)%Z); (42949, 42949, 1, (-42307)%Z);
   (42950, 42950, 1, (-35384)%Z); (42951, 42953, 2, 1%Z); (42960, 42960, 1, 1%Z);
   (42966, 42968, 2, 1%Z); (42997, 42997, 1, 1%Z); (65313, 65338, 1, 32%Z); (66560, 66599, 1, 40%Z);
   (66736, 66771, 1, 40%Z); (66928, 66938, 1, 39%Z); (66940, 66954, 1, 39%Z); (66956, 66962, 1, 39%Z);
   (66964, 66965, 1, 39%Z); (68736, 68786, 1, 64%Z); (71840, 71871, 1, 32%Z); (93760, 93791, 1, 32%Z);
   (125184, 125217, 1, 34%Z)
  ]%N.

Definition cased_ranges : list (N * N) :=
  [
   (65, 90); (97, 122); (170, 170); (181, 181); (186, 186); (192, 214); (216, 246); (248, 442);
   (444, 447); (452, 659); (661, 687); (880, 883); (886, 887); (891, 893); (895, 895);
   (902, 902); (904, 906); (908, 908); (910, 929); (931, 1013); (1015, 1153); (1162, 1327);
   (1329, 1366); (1376, 1416); (4256, 4293); (4295, 4295); (4301, 4301); (4304, 4346);
   (4349, 4351); (5024, 5109); (5112, 5117); (7296, 7304); (7312, 7354); (7357, 7359);
   (7424, 7467); (7531, 7543); (7545, 7578); (7680, 7957); (7960, 7965); (7968, 8005);
   (8008, 8013); (8016, 8023); (8025, 8025); (8027, 8027); (8029, 8029); (8031, 8061);
   (8064, 8116); (8118, 8124); (8126, 8126); (8130, 8132); (8134, 8140); (8144, 8147);
   (8150, 8155); (8160, 8172); (8178, 8180); (8182, 8188); (8450, 8450); (8455, 8455);
   (8458, 8467); (8469, 8469); (8473, 8477); (8484, 8484); (8486, 8486); (8488, 8488);
   (8490, 8493); (8495, 8500); (8505, 8505); (8508, 8511); (8517, 8521); (8526, 8526);
   (8544, 8575); (8579, 8580); (9398, 9449); (11264, 11387); (11390, 11492); (11499, 11502);
   (11506, 11507); (11520, 11557); (11559, 11559); (11565, 11565); (42560, 42605);
   (42624, 42651); (42786, 42863); (42865, 42887); (42891, 42894); (42896, 42954);
   (42960, 42961); (42963, 42963); (42965, 42969); (42997, 42998); (43002, 43002);
   (43824, 43866); (43872, 43880); (43888, 43967); (64256, 64262); (64275, 64279);
   (65313, 65338); (65345, 65370); (66560, 66639); (66736, 66771); (66776, 66811);
   (66928, 66938); (66940, 66954); (66956, 66962); (66964, 66965); (66967, 66977);
   (66979, 66993); (66995, 67001); (67003, 67004); (68736, 68786); (68800, 68850);
   (71840, 71903); (93760, 93823); (119808, 119892); (119894, 119964); (119966, 119967);
   (119970, 119970); (119973, 119974); (119977, 119980); (119982, 119993); (119995, 119995);
   (119997, 120003); (120005, 120069); (120071, 120074); (120077, 120084); (120086, 120092);
   (120094, 120121); (120123, 120126); (120128, 120132); (120134, 120134); (120138, 120144);
   (120146, 120485); (120488, 120512); (120514, 120538); (120540, 120570); (120572, 120596);
   (120598, 120628); (120630, 120654); (120656, 120686); (120688, 120712); (120714, 120744);
   (120746, 120770); (120772, 120779); (122624, 122633); (122635, 122654); (125184, 125251);
   (127280, 127305); (127312, 127337); (127344, 127369)
  ]%N.

Definition ignorable_ranges : list (N * N) :=
  [
   (39, 39); (46, 46); (58, 58); (94, 94); (96, 96); (168, 168); (173, 173); (175, 175);
   (180, 180); (183, 184); (688, 879); (884, 885); (890, 890); (900, 901); (903, 903);
   (1155, 1161); (1369, 1369); (1375, 1375); (1425, 1469); (1471, 1471); (1473, 1474);
   (1476, 1477); (1479, 1479); (1524, 1524); (1536, 1541); (1552, 1562); (1564, 1564);
   (1600, 1600); (1611, 1631); (1648, 1648); (1750, 1757); (1759, 1768); (1770, 1773);
   (1807, 1807); (1809, 1809); (1840, 1866); (1958, 1968); (2027, 2037); (2042, 2042);
   (2045, 2045); (2070, 2093); (2137, 2139); (2184, 2184); (2192, 2193); (2200, 2207);
   (2249, 2306); (2362, 2362); (2364, 2364); (2369, 2376); (2381, 2381); (2385, 2391);
   (2402, 2403); (2417, 2417); (2433, 2433); (2492, 2492); (2497, 2500); (2509, 2509);
   (2530, 2531); (2558, 2558); (2561, 2562); (2620, 2620); (2625, 2626); (2631, 2632);
   (2635, 2637); (2641, 2641); (2672, 2673); (2677, 2677); (2689, 2690); (2748, 2748);
   (2753, 2757); (2759, 2760); (2765, 2765); (2786, 2787); (2810, 2815); (2817, 2817);
   (2876, 2876); (2879, 2879); (2881, 2884); (2893, 2893); (2901, 2902); (2914, 2915);
   (2946, 2946); (3008, 3008); (3021, 3021); (3072, 3072); (3076, 3076); (3132, 3132);
   (3134, 3136); (3142, 3144); (3146, 3149); (3157, 3158); (3170, 3171); (3201, 3201);
   (3260, 3260); (3263, 3263); (3270, 3270); (3276, 3277); (3298, 3299); (3328, 3329);
   (3387, 3388); (3393, 3396); (3405, 3405); (3426, 3427); (3457, 3457); (3530, 3530);
   (3538, 3540); (3542, 3542); (3633, 3633); (3636, 3642); (3654, 3662); (3761, 3761);
   (3764, 3772); (3782, 3782); (3784, 3789); (3864, 3865); (3893, 3893); (3895, 3895);
   (3897, 3897); (3953, 3966); (3968, 3972); (3974, 3975); (3981, 3991); (3993, 4028);
   (4038, 4038); (4141, 4144); (4146, 4151); (4153, 4154); (4157, 4158); (4184, 4185);
   (4190, 4192); (4209, 4212); (4226, 4226); (4229, 4230); (4237, 4237); (4253, 4253);
   (4348, 4348); (4957, 4959); (5906, 5908); (5938, 5939); (5970, 5971); (6002, 6003);
   (6068, 6069); (6071, 6077); (6086, 6086); (6089, 6099); (6103, 6103); (6109, 6109);
   (6155, 6159); (6211, 6211); (6277, 6278); (6313, 6313); (6432, 6434); (6439, 6440);
   (6450, 6450); (6457, 6459); (6679, 6680); (6683, 6683); (6742, 6742); (6744, 6750);
   (6752, 6752); (6754, 6754); (6757, 6764); (6771, 6780); (6783, 6783); (6823, 6823);
   (6832, 6862); (6912, 6915); (6964, 6964); (6966, 6970); (6972, 6972); (6978, 6978);
   (7019, 7027); (7040, 7041); (7074, 7077); (7080, 7081); (7083, 7085); (7142, 7142);
   (7144, 7145); (7149, 7149); (7151, 7153); (7212, 7219); (7222, 7223); (7288, 7293);
   (7376, 7378); (7380, 7392); (7394, 7400); (7405, 7405); (7412, 7412); (7416, 7417);
   (7468, 7530); (7544, 7544); (7579, 7679); (8125, 8125); (8127, 8129); (8141, 8143);
   (8157, 8159); (8173, 8175); (8189, 8190); (8203, 8207); (8216, 8217); (8228, 8228);
   (8231, 8231); (8234, 8238); (8288, 8292); (8294, 8303); (8305, 8305); (8319, 8319);
   (8336, 8348); (8400, 8432); (11388, 11389); (11503, 11505); (11631, 11631); (11647, 11647);
   (11744, 11775); (11823, 11823); (12293, 12293); (12330, 12333); (12337, 12341);
   (12347, 12347); (12441, 12446); (12540, 12542); (40981, 40981); (42232, 42237);
   (42508, 42508); (42607, 42610); (42612, 42621); (42623, 42623); (42652, 42655);
   (42736, 42737); (42752, 42785); (42864, 42864); (42888, 42890); (42994, 42996);
   (43000, 43001); (43010, 43010); (43014, 43014); (43019, 43019); (43045, 43046);
   (43052, 43052); (43204, 43205); (43232, 43249); (43263, 43263); (43302, 43309);
   (43335, 43345); (43392, 43394); (43443, 43443); (43446, 43449); (43452, 43453);
   (43471, 43471); (43493, 43494); (43561, 43566); (43569, 43570); (43573, 43574);
   (43587, 43587); (43596, 43596); (43632, 43632); (43644, 43644); (43696, 43696);
   (43698, 43700); (43703, 43704); (43710, 43711); (43713, 43713); (43741, 43741);
   (43756, 43757); (43763, 43764); (43766, 43766); (43867, 43871); (43881, 43883);
   (44005, 44005); (44008, 44008); (44013, 44013); (64286, 64286); (64434, 64450);
   (65024, 65039); (65043, 65043); (65056, 65071); (65106, 65106); (65109, 65109);
   (65279, 65279); (65287, 65287); (65294, 65294); (65306, 65306); (65342, 65342);
   (65344, 65344); (65392, 65392); (65438, 65439); (65507, 65507); (65529, 65531);
   (66045, 66045); (66272, 66272); (66422, 66426); (67456, 67461); (67463, 67504);
   (67506, 67514); (68097, 68099); (68101, 68102); (68108, 68111); (68152, 68154);
   (68159, 68159); (68325, 68326); (68900, 68903); (69291, 69292); (69446, 69456);
   (69506, 69509); (69633, 69633); (69688, 69702); (69744, 69744); (69747, 69748);
   (69759, 69761); (69811, 69814); (69817, 69818); (69821, 69821); (69826, 69826);
   (69837, 69837); (69888, 69890); (69927, 69931); (69933, 69940); (70003, 70003);
   (70016, 70017); (70070, 70078); (70089, 70092); (70095, 70095); (70191, 70193);
   (70196, 70196); (70198, 70199); (70206, 70206); (70367, 70367); (70371, 70378);
   (70400, 70401); (70459, 70460); (70464, 70464); (70502, 70508); (70512, 70516);
   (70712, 70719); (70722, 70724); (70726, 70726); (70750, 70750); (70835, 70840);
   (70842, 70842); (70847, 70848); (70850, 70851); (71090, 71093); (71100, 71101);
   (71103, 71104); (71132, 71133); (71219, 71226); (71229, 71229); (71231, 71232);
   (71339, 71339); (71341, 71341); (71344, 71349); (71351, 71351); (71453, 71455);
   (71458, 71461); (71463, 71467); (71727, 71735); (71737, 71738); (71995, 71996);
   (71998, 71998); (72003, 72003); (72148, 72151); (72154, 72155); (72160, 72160);
   (72193, 72202); (72243, 72248); (72251, 72254); (72263, 72263); (72273, 72278);
   (72281, 72283); (72330, 72342); (72344, 72345); (72752, 72758); (72760, 72765);
   (72767, 72767); (72850, 72871); (72874, 72880); (72882, 72883); (72885, 72886);
   (73009, 73014); (73018, 73018); (73020, 73021); (73023, 73029); (73031, 73031);
   (73104, 73105); (73109, 73109); (73111, 73111); (73459, 73460); (78896, 78904);
   (92912, 92916); (92976, 92982); (92992, 92995); (94031, 94031); (94095, 94111);
   (94176, 94177); (94179, 94180); (110576, 110579); (110581, 110587); (110589, 110590);
   (113821, 113822); (113824, 113827); (118528, 118573); (118576, 118598); (119143, 119145);
   (119155, 119170); (119173, 119179); (119210, 119213); (119362, 119364); (121344, 121398);
   (121403, 121452); (121461, 121461); (121476, 121476); (121499, 121503); (121505, 121519);
   (122880, 122886); (122888, 122904); (122907, 122913); (122915, 122916); (122918, 122922);
   (123184, 123197); (123566, 123566); (123628, 123631); (125136, 125142); (125252, 125259);
   (127995, 127999); (917505, 917505); (917536, 917631); (917760, 917999)
  ]%N.

(** The lower-case mapping of one character (a capital sigma and the dotted
    capital I, code point 304, are special: see [PyStr.lower]). *)
Definition to_lower (c : N) : N :=
  match find (λ '(a, b, step, _), (a <=? c)%N && (c <=? b)%N && ((c - a) `mod` step =? 0))
             lower_ranges with
  | Some (_, _, _, offset) => Z.to_N (Z.of_N c + offset)
  | None => c
  end.

Definition is_cased (c : N) : bool := in_ranges cased_ranges c.
Definition is_case_ignorable (c : N) : bool := in_ranges ignorable_ranges c.

(** *** Upper case *)

Definition upper_ranges : list (N * N * N * Z) :=
  [
   (97, 122, 1, (-32)%Z); (181, 181, 1, 743%Z); (224, 246, 1, (-32)%Z); (248, 254, 1, (-32)%Z);
   (255, 255, 1, 121%Z); (257, 303, 2, (-1)%Z); (305, 305, 1, (-232)%Z); (307, 311, 2, (-1)%Z);
   (314, 328, 2, (-1)%Z); (331, 375, 2, (-1)%Z); (378, 382, 2, (-1)%Z); (383, 383, 1, (-300)%Z);
   (384, 384, 1, 195%Z); (387, 389, 2, (-1)%Z); (392, 392, 1, (-1)%Z); (396, 396, 1, (-1)%Z);
   (402, 402, 1, (-1)%Z); (405, 405, 1, 97%Z); (409, 409, 1, (-1)%Z); (410, 410, 1, 163%Z);
   (414, 414, 1, 130%Z); (417, 421, 2, (-1)%Z); (424, 424, 1, (-1)%Z); (429, 429, 1, (-1)%Z);
   (432, 432, 1, (-1)%Z); (436, 438, 2, (-1)%Z); (441, 441, 1, (-1)%Z); (445, 445, 1, (-1)%Z);
   (447, 447, 1, 56%Z); (453, 453, 1, (-1)%Z); (454, 454, 1, (-2)%Z); (456, 456, 1, (-1)%Z);
   (457, 457, 1, (-2)%Z); (459, 459, 1, (-1)%Z); (460, 460, 1, (-2)%Z); (462, 476, 2, (-1)%Z);
   (477, 477, 1, (-79)%Z); (479, 495, 2, (-1)%Z); (498, 498, 1, (-1)%Z); (499, 499, 1, (-2)%Z);
   (501, 501, 1, (-1)%Z); (505, 543, 2, (-1)%Z); (547, 563, 2, (-1)%Z); (572, 572, 1, (-1)%Z);
   (575, 576, 1, 10815%Z); (578, 578, 1, (-1)%Z); (583, 591, 2, (-1)%Z); (592, 592, 1, 10783%Z);
   (593, 593, 1, 10780%Z); (594, 594, 1, 10782%Z); (595, 595, 1, (-210)%Z);
   (596, 596, 1, (-206)%Z); (598, 599, 1, (-205)%Z); (601, 601, 1, (-202)%Z);
   (603, 603, 1, (-203)%Z); (604, 604, 1, 42319%Z); (608, 608, 1, (-205)%Z);
   (609, 609, 1, 42315%Z); (611, 611, 1, (-207)%Z); (613, 613, 1, 42280%Z); (614, 614, 1, 42308%Z);
   (616, 616, 1, (-209)%Z); (617, 617, 1, (-211)%Z); (618, 618, 1, 42308%Z);
   (619, 619, 1, 10743%Z); (620, 620, 1, 42305%Z); (623, 623, 1, (-211)%Z); (625, 625, 1, 10749%Z);
   (626, 626, 1, (-213)%Z); (629, 629, 1, (-214)%Z); (637, 637, 1, 10727%Z);
   (640, 640, 1, (-218)%Z); (642, 642, 1, 42307%Z); (643, 643, 1, (-218)%Z);
   (647, 647, 1, 42282%Z); (648, 648, 1, (-218)%Z); (649, 649, 1, (-69)%Z);
   (650, 651, 1, (-217)%Z); (652, 652, 1, (-71)%Z); (658, 658, 1, (-219)%Z);
   (669, 669, 1, 42261%Z); (670, 670, 1, 42258%Z); (837, 837, 1, 84%Z); (881, 883, 2, (-1)%Z);
   (887, 887, 1, (-1)%Z); (891, 893, 1, 130%Z); (940, 940, 1, (-38)%Z); (941, 943, 1, (-37)%Z);
   (945, 961, 1, (-32)%Z); (962, 962, 1, (-31)%Z); (963, 971, 1, (-32)%Z); (972, 972, 1, (-64)%Z);
   (973, 974, 1, (-63)%Z); (976, 976, 1, (-62)%Z); (977, 977, 1, (-57)%Z); (981, 981, 1, (-47)%Z);
   (982, 982, 1, (-54)%Z); (983, 983, 1, (-8)%Z); (985, 1007, 2, (-1)%Z); (1008, 1008, 1, (-86)%Z);
   (1009, 1009, 1, (-80)%Z); (1010, 1010, 1, 7%Z); (1011, 1011, 1, (-116)%Z);
   (1013, 1013, 1, (-96)%Z); (1016, 1016, 1, (-1)%Z); (1019, 1019, 1, (-1)%Z);
   (1072, 1103, 1, (-32)%Z); (1104, 1119, 1, (-80)%Z); (1121, 1153, 2, (-1)%Z);
   (1163, 1215, 2, (-1)%Z); (1218, 1230, 2, (-1)%Z); (1231, 1231, 1, (-15)%Z);
   (1233, 1327, 2, (-1)%Z); (1377, 1414, 1, (-48)%Z); (4304, 4346, 1, 3008%Z);
   (4349, 4351, 1, 3008%Z); (5112, 5117, 1, (-8)%Z); (7296, 7296, 1, (-6254)%Z);
   (7297, 7297, 1, (-6253)%Z); (7298, 7298, 1, (-6244)%Z); (7299, 7300, 1, (-6242)%Z);
   (7301, 7301, 1, (-6243)%Z); (7302, 7302, 1, (-6236)%Z); (7303, 7303, 1, (-6181)%Z);
   (7304, 7304, 1, 35266%Z); (7545, 7545, 1, 35332%Z); (7549, 7549, 1, 3814%Z);
   (7566, 7566, 1, 35384%Z); (7681, 7829, 2, (-1)%Z); (7835, 7835, 1, (-59)%Z);
   (7841, 7935, 2, (-1)%Z); (7936, 7943, 1, 8%Z); (7952, 7957, 1, 8%Z); (7968, 7975, 1, 8%Z);
   (7984, 7991, 1, 8%Z); (8000, 8005, 1, 8%Z); (8017, 8023, 2, 8%Z); (8032, 8039, 1, 8%Z);
   (8048, 8049, 1, 74%Z); (8050, 8053, 1, 86%Z); (8054, 8055, 1, 100%Z); (8056, 8057, 1, 128%Z);
   (8058, 8059, 1, 112%Z); (8060, 8061, 1, 126%Z); (8112, 8113, 1, 8%Z);
   (8126, 8126, 1, (-7205)%Z); (8144, 8145, 1, 8%Z); (8160, 8161, 1, 8%Z); (8165, 8165, 1, 7%Z);
   (8526, 8526, 1, (-28)%Z); (8560, 8575, 1, (-16)%Z); (8580, 8580, 1, (-1)%Z);
   (9424, 9449, 1, (-26)%Z); (11312, 11359, 1, (-48)%Z); (11361, 11361, 1, (-1)%Z);
   (11365, 11365, 1, (-10795)%Z); (11366, 11366, 1, (-10792)%Z); (11368, 11372, 2, (-1)%Z);
   (11379, 11379, 1, (-1)%Z); (11382, 11382, 1, (-1)%Z); (11393, 11491, 2, (-1)%Z);
   (11500, 11502, 2, (-1)%Z); (11507, 11507, 1, (-1)%Z); (11520, 11557, 1, (-7264)%Z);
   (11559, 11559, 1, (-7264)%Z); (11565, 11565, 1, (-7264)%Z); (42561, 42605, 2, (-1)%Z);
   (42625, 42651, 2, (-1)%Z); (42787, 42799, 2, (-1)%Z); (42803, 42863, 2, (-1)%Z);
   (42874, 42876, 2, (-1)%Z); (42879, 42887, 2, (-1)%Z); (42892, 42892, 1, (-1)%Z);
   (42897, 42899, 2, (-1)%Z); (42900, 42900, 1, 48%Z); (42903, 42921, 2, (-1)%Z);
   (42933, 42947, 2, (-1)%Z); (42952, 42954, 2, (-1)%Z); (42961, 42961, 1, (-1)%Z);
   (42967, 42969, 2, (-1)%Z); (42998, 42998, 1, (-1)%Z); (43859, 43859, 1, (-928)%Z);
   (43888, 43967, 1, (-38864)%Z); (65345, 65370, 1, (-32)%Z); (66600, 66639, 1, (-40)%Z);
   (66776, 66811, 1, (-40)%Z); (66967, 66977, 1, (-39)%Z); (66979, 66993, 1, (-39)%Z);
   (66995, 67001, 1, (-39)%Z); (67003, 67004, 1, (-39)%Z); (68800, 68850, 1, (-64)%Z);
   (71872, 71903, 1, (-32)%Z); (93792, 93823, 1, (-32)%Z); (125218, 125251, 1, (-34)%Z)
  ]%N.

(** The letters whose upper case is several letters long. *)
Definition upper_special : list (N * list N) :=
  [
   (223, [83; 83]); (329, [700; 78]); (496, [74; 780]); (912, [921; 776; 769]);
   (944, [933; 776; 769]); (1415, [1333; 1362]); (7830, [72; 817]); (7831, [84; 776]);
   (7832, [87; 778]); (7833, [89; 778]); (7834, [65; 702]); (8016, [933; 787]);
   (8018, [933; 787; 768]); (8020, [933; 787; 769]); (8022, [933; 787; 834]); (8064, [7944; 921]);
   (8065, [7945; 921]); (8066, [7946; 921]); (8067, [7947; 921]); (8068, [7948; 921]);
   (8069, [7949; 921]); (8070, [7950; 921]); (8071, [7951; 921]); (8072, [7944; 921]);
   (8073, [7945; 921]); (8074, [7946; 921]); (8075, [7947; 921]); (8076, [7948; 921]);
   (8077, [7949; 921]); (8078, [7950; 921]); (8079, [7951; 921]); (8080, [7976; 921]);
   (8081, [7977; 921]); (8082, [7978; 921]); (8083, [7979; 921]); (8084, [7980; 921]);
   (8085, [7981; 921]); (8086, [7982; 921]); (8087, [7983; 921]); (8088, [7976; 921]);
   (8089, [7977; 921]); (8090, [7978; 921]); (8091, [7979; 921]); (8092, [7980; 921]);
   (8093, [7981; 921]); (8094, [7982; 921]); (8095, [7983; 921]); (8096, [8040; 921]);
   (8097, [8041; 921]); (8098, [8042; 921]); (8099, [8043; 921]); (8100, [8044; 921]);
   (8101, [8045; 921]); (8102, [8046; 921]); (8103, [8047; 921]); (8104, [8040; 921]);
   (8105, [8041; 921]); (8106, [8042; 921]); (8107, [8043; 921]); (8108, [8044; 921]);
   (8109, [8045; 921]); (8110, [8046; 921]); (8111, [8047; 921]); (8114, [8122; 921]);
   (8115, [913; 921]); (8116, [902; 921]); (8118, [913; 834]); (8119, [913; 834; 921]);
   (8124, [913; 921]); (8130, [8138; 921]); (8131, [919; 921]); (8132, [905; 921]);
   (8134, [919; 834]); (8135, [919; 834; 921]); (8140, [919; 921]); (8146, [921; 776; 768]);
   (8147, [921; 776; 769]); (8150, [921; 834]); (8151, [921; 776; 834]); (8162, [933; 776; 768]);
   (8163, [933; 776; 769]); (8164, [929; 787]); (8166, [933; 834]); (8167, [933; 776; 834]);
   (8178, [8186; 921]); (8179, [937; 921]); (8180, [911; 921]); (8182, [937; 834]);
   (8183, [937; 834; 921]); (8188, [937; 921]); (64256, [70; 70]); (64257, [70; 73]);
   (64258, [70; 76]); (64259, [70; 70; 73]); (64260, [70; 70; 76]); (64261, [83; 84]);
   (64262, [83; 84]); (64275, [1348; 1350]); (64276, [1348; 1333]); (64277, [1348; 1339]);
   (64278, [1358; 1350]); (64279, [1348; 1341])
  ]%N.

Definition to_upper (c : N) : list N :=
  match find (λ p, N.eqb c p.1) upper_special with
  | Some p => p.2
  | None =>
      match find (λ '(lo, hi, step, _), (lo <=? c)%N && (c <=? hi)%N && ((c - lo) `mod` step =? 0)%N)
              upper_ranges with
      | Some (_, _, _, d) => [Z.to_N (Z.of_N c + d)]
      | None => [c]
      end
  end.
