(* ===== verification/PyStr.v ===== *)
(** Python's [str]: a list of Unicode code points, with the methods the service
    calls ([strip], [split], [partition], [lower], [replace], [join], [in], ...)
    and their algebra.  [u"..."] writes an ASCII literal. *)
From S2P Require Export Prelude.
From S2P Require Export Unicode.

Notation pystr := (list N).

Fixpoint u (s : string) : pystr :=
  match s with
  | EmptyString => []
  | String a s' => Ascii.N_of_ascii a :: u s'
  end.
Arguments u _%_string : simpl never.

(** A surrogate code point: in a Python string it stands alone, and has no UTF-8 encoding. *)
Definition is_surrogate (c : N) : bool := ((0xd800 <=? c) && (c <=? 0xdfff))%N.

(** [len(s)], as the integer Python returns. *)
Definition str_len (s : pystr) : Z := Z.of_nat (length s).

(** ** Stripping *)

Fixpoint drop_while (p : N → bool) (s : pystr) : pystr :=
  match s with
  | [] => []
  | c :: s' => if p c then drop_while p s' else s
  end.

Definition lstrip_by (p : N → bool) (s : pystr) : pystr := drop_while p s.
Definition rstrip_by (p : N → bool) (s : pystr) : pystr := reverse (drop_while p (reverse s)).
Definition strip_by (p : N → bool) (s : pystr) : pystr := rstrip_by p (lstrip_by p s).

(** [s.strip()] and [s.strip(chars)]. *)
Definition strip (s : pystr) : pystr := strip_by is_space s.
Definition strip_chars (chars s : pystr) : pystr := strip_by (λ c, bool_decide (c ∈ chars)) s.

(** ** Splitting *)

(** Cut at every character satisfying [p], keeping empty pieces. *)
Fixpoint split_by (p : N → bool) (s : pystr) : list pystr :=
  match s with
  | [] => [[]]
  | c :: s' =>
      if p c then [] :: split_by p s'
      else match split_by p s' with
           | w :: ws => (c :: w) :: ws
           | [] => [[c]]
           end
  end.

(** [s.split()]: runs of white space separate, empty pieces are dropped. *)
Definition split (s : pystr) : list pystr :=
  filter (λ w, w ≠ []) (split_by is_space s).

(** [s.split(sep)] for a one-character separator. *)
Definition split_sep (sep : N) (s : pystr) : list pystr := split_by (N.eqb sep) s.

(** [sep.join(parts)]. *)
Fixpoint join (sep : pystr) (parts : list pystr) : pystr :=
  match parts with
  | [] => []
  | [w] => w
  | w :: ws => w ++ sep ++ join sep ws
  end.

(** [s.partition(sep)] for a one-character separator: (head, found, tail). *)
Fixpoint partition (sep : N) (s : pystr) : pystr * bool * pystr :=
  match s with
  | [] => ([], false, [])
  | c :: s' =>
      if (c =? sep)%N then ([], true, s')
      else let '(h, found, t) := partition sep s' in (c :: h, found, t)
  end.

(** ** Case *)

(** The characters [before] (nearest first) and [after] a capital sigma decide
    whether it is final (Unicode's Final_Sigma condition). *)
Definition cased_next (s : pystr) : bool :=
  match drop_while is_case_ignorable s with
  | c :: _ => is_cased c
  | [] => false
  end.

Fixpoint lower_from (before s : pystr) : pystr :=
  match s with
  | [] => []
  | c :: s' =>
      (if (c =? 931)%N then [if cased_next before && negb (cased_next s') then 962%N else 963%N]
       else if (c =? 304)%N then [105%N; 775%N]
       else [to_lower c]) ++ lower_from (c :: before) s'
  end.

(** [s.lower()]. *)
Definition lower (s : pystr) : pystr := lower_from [] s.

(** [s.upper()]. *)
Definition upper (s : pystr) : pystr := s ≫= to_upper.

(** ** Lines *)

(** The characters that end a line for [str.splitlines]. *)
Definition is_line_break (c : N) : bool :=
  bool_decide (c ∈ [10; 11; 12; 13; 28; 29; 30; 133; 8232; 8233]%N).

(** [s.splitlines()], the current line so far reversed. *)
Fixpoint splitlines_from (line s : pystr) : list pystr :=
  match s with
  | [] => match line with [] => [] | _ => [reverse line] end
  | c :: s' =>
      if is_line_break c then
        reverse line ::
          match s' with
          | d :: s'' => if (c =? 13)%N && (d =? 10)%N then splitlines_from [] s'' else splitlines_from [] s'
          | [] => []
          end
      else splitlines_from (c :: line) s'
  end.

Definition splitlines (s : pystr) : list pystr := splitlines_from [] s.

(** ** Searching and replacing *)

Fixpoint starts_with (p s : pystr) : bool :=
  match p, s with
  | [], _ => true
  | _, [] => false
  | a :: p', b :: s' => (a =? b)%N && starts_with p' s'
  end.

(** [s.endswith(p)] and [s.removesuffix(p)]. *)
Definition ends_with (p s : pystr) : bool := starts_with (reverse p) (reverse s).
Definition removesuffix (p s : pystr) : pystr :=
  if ends_with p s then take (length s - length p) s else s.

(** [p in s]. *)
Fixpoint substring_of (p s : pystr) : bool :=
  starts_with p s || match s with [] => false | _ :: s' => substring_of p s' end.

(** [s.replace(old, new)] for a one-character [old]. *)
Definition replace_char (old : N) (new : pystr) (s : pystr) : pystr :=
  s ≫= λ c, if (c =? old)%N then new else [c].

(** [str(n)] for an integer. *)
Fixpoint digits_of (fuel : nat) (n : N) : pystr :=
  match fuel with
  | 0 => []
  | S f => (if (n <? 10)%N then [] else digits_of f (n / 10)%N) ++ [48 + n `mod` 10]%N
  end.
Definition str_of_N (n : N) : pystr := digits_of (S (N.to_nat (N.log2 n))) n.
Definition str_of_Z (z : Z) : pystr :=
  if (z <? 0)%Z then u"-" ++ str_of_N (Z.to_N (- z)) else str_of_N (Z.to_N z).

(** ** Lemmas *)

Section Split.
Variable p : N → bool.

Lemma split_by_ne s : split_by p s ≠ [].
Proof. destruct s; simpl; repeat case_match; done. Qed.

Lemma split_by_app_sep s1 c s2 :
  p c = true → split_by p (s1 ++ c :: s2) = split_by p s1 ++ split_by p s2.
Proof.
  intros Hc. induction s1 as [|d s1 IH]; simpl; [by rewrite Hc|].
  case_match; rewrite IH; [done|].
  destruct (split_by p s1) eqn:E; [by apply split_by_ne in E|done].
Qed.

Lemma split_by_none s : Forall (λ c, p c = false) s → split_by p s = [s].
Proof. induction 1 as [|c s Hc Hs IH]; simpl; [done|]. by rewrite Hc, IH. Qed.

(** A prefix of separators only adds empty pieces. *)
Lemma split_by_drop_while s :
  filter (λ w, w ≠ []) (split_by p (drop_while p s)) = filter (λ w, w ≠ []) (split_by p s).
Proof. induction s as [|c s IH]; simpl; [done|]. case_match eqn:Hc; simpl; by rewrite ?Hc. Qed.

Lemma split_by_pieces s w : w ∈ split_by p s → Forall (λ c, p c = false) w.
Proof.
  revert w. induction s as [|c s IH]; simpl; intros w.
  - intros ->%list_elem_of_singleton. constructor.
  - destruct (p c) eqn:Hc.
    + intros [->|?]%elem_of_cons; [constructor|by apply IH].
    + destruct (split_by p s) as [|w' ws].
      * intros ->%list_elem_of_singleton. by constructor.
      * intros [->|?]%elem_of_cons; [|apply IH; set_solver].
        constructor; [done|]. apply IH. set_solver.
Qed.
End Split.

Lemma drop_while_app_all p s1 s2 :
  Forall (λ c, p c = true) s1 → drop_while p (s1 ++ s2) = drop_while p s2.
Proof. induction 1 as [|c s Hc Hs IH]; simpl; [done|]. by rewrite Hc. Qed.

Lemma drop_while_spec p s :
  ∃ s1, s = s1 ++ drop_while p s ∧ Forall (λ c, p c = true) s1.
Proof.
  induction s as [|c s (s1 & Hs & H1)]; simpl; [by exists []|].
  destruct (p c) eqn:Hc; [|by exists []].
  exists (c :: s1). split; [by rewrite Hs at 1|by constructor].
Qed.

Lemma drop_while_head p s c s' : drop_while p s = c :: s' → p c = false.
Proof. induction s as [|d s IH]; simpl; [done|]. case_match; intros; simplify_eq; auto. Qed.

Lemma drop_while_idem p s : drop_while p (drop_while p s) = drop_while p s.
Proof.
  destruct (drop_while p s) as [|c s'] eqn:E; [done|].
  simpl. by rewrite (drop_while_head _ _ _ _ E).
Qed.

Lemma rstrip_by_spec p s :
  ∃ s1, s = rstrip_by p s ++ s1 ∧ Forall (λ c, p c = true) s1.
Proof.
  unfold rstrip_by. destruct (drop_while_spec p (reverse s)) as (s1 & Hs & H1).
  exists (reverse s1). split; [|by apply Forall_reverse].
  by rewrite <- reverse_app, <- Hs, reverse_involutive.
Qed.

Lemma strip_by_spec p s :
  ∃ s1 s2, s = s1 ++ strip_by p s ++ s2
           ∧ Forall (λ c, p c = true) s1 ∧ Forall (λ c, p c = true) s2.
Proof.
  destruct (drop_while_spec p s) as (s1 & Hs & H1).
  destruct (rstrip_by_spec p (lstrip_by p s)) as (s2 & Hs2 & H2).
  exists s1, s2. split_and!; [|done..]. rewrite Hs at 1. f_equal. exact Hs2.
Qed.

Lemma rstrip_by_app_all p s1 s2 :
  Forall (λ c, p c = true) s2 → rstrip_by p (s1 ++ s2) = rstrip_by p s1.
Proof.
  intros H. unfold rstrip_by. rewrite reverse_app, drop_while_app_all; [done|].
  by apply Forall_reverse.
Qed.

Lemma rstrip_by_head p c s :
  p c = false → ∃ s', rstrip_by p (c :: s) = c :: s'.
Proof.
  intros Hc. destruct (rstrip_by_spec p (c :: s)) as (s2 & Hs & H2).
  destruct (rstrip_by p (c :: s)) as [|d s'] eqn:E; [|exists s'; by simplify_eq/=].
  simpl in Hs. subst s2. apply Forall_cons in H2 as [? _]. congruence.
Qed.

Lemma strip_by_idem p s : strip_by p (strip_by p s) = strip_by p s.
Proof.
  unfold strip_by, lstrip_by.
  assert (∀ t, rstrip_by p (rstrip_by p t) = rstrip_by p t) as Hr.
  { intros t. unfold rstrip_by. by rewrite reverse_involutive, drop_while_idem. }
  destruct (drop_while p s) as [|c s'] eqn:E; [done|].
  pose proof (drop_while_head _ _ _ _ E) as Hc.
  destruct (rstrip_by_head p c s' Hc) as [s2 Hs2].
  rewrite Hs2. simpl. rewrite Hc, <- Hs2. apply Hr.
Qed.

Lemma strip_idem s : strip (strip s) = strip s.
Proof. apply strip_by_idem. Qed.

Lemma filter_ne_nil_app_seps p s1 s2 :
  Forall (λ c, p c = true) s2 →
  filter (λ w, w ≠ []) (split_by p (s1 ++ s2)) = filter (λ w, w ≠ []) (split_by p s1).
Proof.
  intros H. destruct s2 as [|c s2]; [by rewrite app_nil_r|].
  apply Forall_cons in H as [Hc H]. rewrite split_by_app_sep, filter_app by done.
  rewrite <- (split_by_drop_while p s2), <- (app_nil_r s2), drop_while_app_all by done.
  simpl. rewrite (filter_cons_False _ []) by naive_solver. by rewrite filter_nil, app_nil_r.
Qed.

(** The words of a text do not depend on its surrounding white space. *)
Lemma split_strip s : split (strip s) = split s.
Proof.
  unfold split, strip, strip_by, lstrip_by.
  rewrite <- (split_by_drop_while _ s).
  destruct (rstrip_by_spec is_space (drop_while is_space s)) as (s2 & Hs & H2).
  rewrite Hs at 2. by rewrite filter_ne_nil_app_seps.
Qed.

Lemma split_app_space s1 c s2 :
  is_space c = true → split (s1 ++ c :: s2) = split s1 ++ split s2.
Proof. intros. unfold split. by rewrite split_by_app_sep, filter_app. Qed.

Lemma join_split_by sep s : join [sep] (split_sep sep s) = s.
Proof.
  unfold split_sep. induction s as [|c s IH]; simpl; [done|].
  destruct (N.eqb_spec sep c) as [<-|Hc].
  - destruct (split_by _ s) eqn:E; [by apply split_by_ne in E|]. simpl in *. by rewrite IH.
  - destruct (split_by _ s) as [|w [|w' ws]] eqn:E; [by apply split_by_ne in E|..];
      simpl in *; by rewrite IH.
Qed.

(** Joining pieces that do not hold the separator, then splitting, gives the
    pieces back. *)
Lemma split_by_join sep ws :
  ws ≠ [] → Forall (λ w, sep ∉ w) ws → split_sep sep (join [sep] ws) = ws.
Proof.
  intros Hne H. unfold split_sep.
  assert (∀ w, sep ∉ w → split_by (N.eqb sep) w = [w]) as Hone.
  { intros w Hw. apply split_by_none, Forall_forall. intros c Hc.
    apply N.eqb_neq. intros ->. done. }
  induction H as [|w ws Hw Hws IH]; [done|]. destruct ws as [|w' ws]; [by apply Hone|].
  simpl join. simpl app.
  rewrite split_by_app_sep by apply N.eqb_refl. rewrite Hone by done. simpl. f_equal.
  by apply IH.
Qed.

Lemma partition_spec sep s :
  let '(h, found, t) := partition sep s in
  sep ∉ h ∧ if found then s = h ++ sep :: t else t = [] ∧ s = h.
Proof.
  induction s as [|c s IH]; simpl; [split; [set_solver|done]|].
  destruct (N.eqb_spec c sep) as [->|Hne]; [split; [set_solver|done]|].
  destruct (partition sep s) as [[h found] t]. destruct IH as [Hh Hs].
  split; [set_solver|]. destruct found; [by rewrite Hs|]. destruct Hs as [-> ->]. done.
Qed.

Lemma partition_found sep h t :
  sep ∉ h → partition sep (h ++ sep :: t) = (h, true, t).
Proof.
  induction h as [|c h IH]; simpl; intros Hh; [by rewrite N.eqb_refl|].
  destruct (N.eqb_spec c sep) as [->|]; [set_solver|]. rewrite IH; [done|set_solver].
Qed.

Lemma starts_with_spec p s : starts_with p s = true ↔ ∃ t, s = p ++ t.
Proof.
  revert s. induction p as [|a p IH]; intros s; simpl; [naive_solver|].
  destruct s as [|b s]; [naive_solver|].
  rewrite andb_true_iff, IH, N.eqb_eq. naive_solver.
Qed.

Lemma substring_of_spec p s : substring_of p s = true ↔ ∃ a b, s = a ++ p ++ b.
Proof.
  induction s as [|c s IH]; simpl; rewrite orb_true_iff, starts_with_spec.
  - split.
    + intros [[t Ht]|?]; [|done]. by exists [], t.
    + intros (a & b & H). left. destruct a; [by exists b|done].
  - rewrite IH. split.
    + intros [[t Ht]|(a & b & ->)]; [by exists [], t|by exists (c :: a), b].
    + intros ([|a' a] & b & H); simplify_eq/=; [left; by eexists|right; eauto].
Qed.

(** ** Concrete checks of the string methods *)

Example strip_ex : strip (u"  a b ") = u"a b".
Proof. reflexivity. Qed.
Example split_ex : split (u" ab  c ") = [u"ab"; u"c"].
Proof. vm_compute. reflexivity. Qed.
Example lower_ex : lower (u"HeLLo, World 42") = u"hello, world 42".
Proof. vm_compute. reflexivity. Qed.
Example lower_sigma_ex : lower [927; 916; 927; 931]%N = [959; 948; 959; 962]%N.
Proof. vm_compute. reflexivity. Qed.
Example str_of_Z_ex : (str_of_Z 409, str_of_Z 0, str_of_Z (-17)) = (u"409", u"0", u"-17").
Proof. vm_compute. reflexivity. Qed.

(** ** Ordering of strings and of tuples of strings *)

Fixpoint str_leb (s t : pystr) : bool :=
  match s, t with
  | [], _ => true
  | _ :: _, [] => false
  | a :: s', b :: t' => if (a =? b)%N then str_leb s' t' else (a <? b)%N
  end.

(** Lexicographic order of tuples, from the order of their items. *)
Fixpoint tuple_leb {A} `{EqDecision A} (leb : A → A → bool) (s t : list A) : bool :=
  match s, t with
  | [], _ => true
  | _ :: _, [] => false
  | a :: s', b :: t' => if decide (a = b) then tuple_leb leb s' t' else leb a b
  end.
Definition pair_leb {A B} `{EqDecision A} (leA : A → A → bool) (leB : B → B → bool)
    (p q : A * B) : bool :=
  if decide (p.1 = q.1) then leB p.2 q.2 else leA p.1 q.1.

(** A decidable total order given by a boolean function. *)
Class TotalOrder {A} (leb : A → A → bool) : Prop := {
  leb_total x y : leb x y = true ∨ leb y x = true;
  leb_trans x y z : leb x y = true → leb y z = true → leb x z = true;
  leb_antisym x y : leb x y = true → leb y x = true → x = y;
}.

#[export] Instance str_leb_order : TotalOrder str_leb.
Proof.
  split.
  - intros x. induction x as [|a x IH]; intros [|b y]; simpl; auto.
    rewrite (N.eqb_sym b a). destruct (N.eqb_spec a b) as [->|]; [auto|].
    rewrite !N.ltb_lt. lia.
  - intros x. induction x as [|a x IH]; intros [|b y] [|c z]; simpl; auto; try done.
    destruct (N.eqb_spec a b), (N.eqb_spec b c), (N.eqb_spec a c); subst;
      rewrite ?N.ltb_lt; try done; try lia; eauto.
  - intros x. induction x as [|a x IH]; intros [|b y]; simpl; try done.
    rewrite (N.eqb_sym b a). destruct (N.eqb_spec a b) as [->|].
    + intros. f_equal. auto.
    + rewrite !N.ltb_lt. lia.
Qed.

(** Close a case of the order laws: by transitivity, or because antisymmetry
    contradicts a disequality. *)
Ltac solve_order :=
  first [ done | by eapply leb_trans
        | exfalso; match goal with H : ?p ≠ ?q |- _ => by apply H; apply leb_antisym end ].

#[export] Instance pair_leb_order {A B} `{EqDecision A} (leA : A → A → bool) (leB : B → B → bool)
    `{!TotalOrder leA, !TotalOrder leB} : TotalOrder (pair_leb leA leB).
Proof.
  split; unfold pair_leb.
  - intros [a b] [a' b']; simpl. destruct (decide (a = a')) as [->|Hne].
    + rewrite decide_True by done. apply leb_total.
    + rewrite decide_False by done. apply leb_total.
  - intros [a1 b1] [a2 b2] [a3 b3]; simpl. repeat case_decide; subst; intros; solve_order.
  - intros [a b] [a' b']; simpl. repeat case_decide; subst; try done; intros.
    + f_equal. by apply leb_antisym.
    + solve_order.
Qed.

#[export] Instance tuple_leb_order {A} `{EqDecision A} (leb : A → A → bool)
    `{!TotalOrder leb} : TotalOrder (tuple_leb leb).
Proof.
  split.
  - intros x. induction x as [|a x IH]; intros [|b y]; simpl; auto.
    destruct (decide (a = b)) as [->|].
    + rewrite decide_True by done. apply IH.
    + rewrite decide_False by done. apply leb_total.
  - intros x. induction x as [|a x IH]; intros [|b y] [|c z]; simpl; auto; try done.
    repeat case_decide; subst; eauto; intros; solve_order.
  - intros x. induction x as [|a x IH]; intros [|b y]; simpl; try done.
    repeat case_decide; subst; try done; intros.
    + f_equal. auto.
    + solve_order.
Qed.

(** ** Texts of lines *)

Definition one_line (line : pystr) : Prop := Forall (λ c, is_line_break c = false) line.

(** A text of lines, each ended by a newline. *)
Definition unlines (lines : list pystr) : pystr := lines ≫= λ line, line ++ [10%N].

Lemma splitlines_one_line acc line rest :
  one_line line →
  splitlines_from acc (line ++ 10%N :: rest) = reverse (reverse line ++ acc) :: splitlines rest.
Proof.
  intros H. revert acc. induction H as [|c line Hc _ IH]; intros acc; simpl.
  - destruct rest; [by destruct acc|done].
  - rewrite Hc, IH. by rewrite reverse_cons, <- (assoc_L (++)).
Qed.

Lemma splitlines_unlines lines rest :
  Forall one_line lines → splitlines (unlines lines ++ rest) = lines ++ splitlines rest.
Proof.
  induction 1 as [|line lines H _ IH]; [done|].
  unfold unlines. simpl. rewrite <- !(assoc_L (++)). simpl. unfold splitlines at 1.
  rewrite splitlines_one_line by done.
  rewrite app_nil_r, reverse_involutive. f_equal. exact IH.
Qed.

Example splitlines_ex :
  splitlines (u"a" ++ [13; 10; 10]%N ++ u"b" ++ [10]%N) = [u"a"; []; u"b"]
  ∧ upper (u"from" ++ [223; 8217]%N) = u"FROMSS" ++ [8217]%N
  ∧ removesuffix (u"\") (u"RUN x \") = u"RUN x ".
Proof. vm_compute. auto. Qed.
