(* ===== verification/Json.v ===== *)
(** JSON values, [json.dumps] and [json.loads], with the round trip between them.

    A value that [json.dumps] writes is one line of printable ASCII, and loads back
    as the same value: log records and token payloads rely on both.  The encoder with an
    indentation loads back too. *)
From S2P Require Export PyStr.

(** Objects keep the order of their keys; a float is kept as its literal. *)
Inductive json :=
| JNull
| JBool (b : bool)
| JInt (z : Z)
| JFloat (literal : pystr)
| JStr (s : pystr)
| JList (l : list json)
| JObj (fields : list (pystr * json)).

Section JsonInd.
Context (P : json → Prop).
Context (Hnull : P JNull) (Hbool : ∀ b, P (JBool b)) (Hint : ∀ z, P (JInt z))
  (Hfloat : ∀ l, P (JFloat l)) (Hstr : ∀ s, P (JStr s))
  (Hlist : ∀ l, Forall P l → P (JList l))
  (Hobj : ∀ fields, Forall (λ p, P p.2) fields → P (JObj fields)).

Fixpoint json_nested_ind (j : json) : P j :=
  match j with
  | JNull => Hnull
  | JBool b => Hbool b
  | JInt z => Hint z
  | JFloat l => Hfloat l
  | JStr s => Hstr s
  | JList l => Hlist l ((fix go l := match l return Forall P l with
                         | [] => Forall_nil_2 _
                         | x :: l' => Forall_cons_2 _ _ _ (json_nested_ind x) (go l')
                         end) l)
  | JObj l => Hobj l ((fix go l := match l return Forall (λ p, P p.2) l with
                       | [] => Forall_nil_2 _
                       | x :: l' => Forall_cons_2 _ _ _ (json_nested_ind x.2) (go l')
                       end) l)
  end.
End JsonInd.

Fixpoint json_eq (x y : json) {struct x} : Decision (x = y).
Proof.
  destruct x as [|b|z|l|s|l|l], y as [|b'|z'|l'|s'|l'|l'];
    try (right; discriminate); [by left|..].
  - refine (cast_if (decide (b = b'))); congruence.
  - refine (cast_if (decide (z = z'))); congruence.
  - refine (cast_if (decide (l = l'))); congruence.
  - refine (cast_if (decide (s = s'))); congruence.
  - refine (cast_if (@list_eq_dec _ json_eq l l')); congruence.
  - refine (cast_if (@list_eq_dec _ (@prod_eq_dec _ list_eq_dec _ json_eq) l l')); congruence.
Defined.
#[export] Instance json_eq_dec : EqDecision json := json_eq.

(** ** Printing *)

Definition hex_digit (d : N) : N := if (d <? 10)%N then (48 + d)%N else (87 + d)%N.

Definition hex4 (n : N) : pystr :=
  [hex_digit ((n / 4096) `mod` 16); hex_digit ((n / 256) `mod` 16);
   hex_digit ((n / 16) `mod` 16); hex_digit (n `mod` 16)]%N.

Definition u_escape (n : N) : pystr := 92%N :: 117%N :: hex4 n.

(** [ensure_ascii]: everything outside [ -~] is escaped, above the basic plane as a
    surrogate pair. *)
Definition escape_char (c : N) : pystr :=
  (if c =? 34 then [92; 34]
   else if c =? 92 then [92; 92]
   else if c =? 10 then [92; 110]
   else if c =? 13 then [92; 114]
   else if c =? 9 then [92; 116]
   else if c =? 12 then [92; 102]
   else if c =? 8 then [92; 98]
   else if (32 <=? c) && (c <=? 126) then [c]
   else if c <? 0x10000 then u_escape c
   else u_escape (0xd800 + (c - 0x10000) / 1024) ++ u_escape (0xdc00 + (c - 0x10000) `mod` 1024))%N.

Definition dump_str (s : pystr) : pystr := [34%N] ++ (s ≫= escape_char) ++ [34%N].

(** [json.dumps(j, separators=(isep, ksep))]. *)
Fixpoint dumps (isep ksep : pystr) (j : json) : pystr :=
  match j with
  | JNull => u"null"
  | JBool true => u"true"
  | JBool false => u"false"
  | JInt z => str_of_Z z
  | JFloat l => l
  | JStr s => dump_str s
  | JList l => u"[" ++ join isep (map (dumps isep ksep) l) ++ u"]"
  | JObj fs => u"{" ++ join isep (map (λ p, dump_str p.1 ++ ksep ++ dumps isep ksep p.2) fs) ++ u"}"
  end.

(** The default separators. *)
Definition json_dumps : json → pystr := dumps (u", ") (u": ").

(** The encoder with an indentation: [nl n] is the line break before what is nested [n]
    deep; an empty list or object is not broken. *)
Fixpoint write (nl : nat → pystr) (isep ksep : pystr) (level : nat) (j : json) : pystr :=
  match j with
  | JList [] => u"[]"
  | JList l =>
      u"[" ++ nl (S level) ++ join (isep ++ nl (S level)) (map (write nl isep ksep (S level)) l)
      ++ nl level ++ u"]"
  | JObj [] => u"{}"
  | JObj fs =>
      u"{" ++ nl (S level)
      ++ join (isep ++ nl (S level))
           (map (λ p, dump_str p.1 ++ ksep ++ write nl isep ksep (S level) p.2) fs)
      ++ nl level ++ u"}"
  | j => dumps isep ksep j
  end.

(** [json.dumps(j, indent=n)]: a comma, then a line break and [n] blanks per level. *)
Definition line_break (n level : nat) : pystr := 10%N :: replicate (n * level) 32%N.
Definition dumps_indent (n : nat) : json → pystr := write (line_break n) (u",") (u": ") 0.

(** ** Parsing *)

(** What [json.loads] does: a value, a [ValueError], or a [RecursionError]. *)
Inductive parsed (A : Type) :=
| Parsed (a : A)
| BadSyntax
| TooDeep.
Arguments Parsed {_} _.
Arguments BadSyntax {_}.
Arguments TooDeep {_}.

#[export] Instance parsed_ret : MRet parsed := λ A a, Parsed a.
#[export] Instance parsed_bind : MBind parsed := λ A B f m,
  match m with Parsed a => f a | BadSyntax => BadSyntax | TooDeep => TooDeep end.

Definition is_ws (c : N) : bool := ((c =? 32) || (c =? 9) || (c =? 10) || (c =? 13))%N.
Definition skip_ws : pystr → pystr := drop_while is_ws.

Definition is_digit (c : N) : bool := ((48 <=? c) && (c <=? 57))%N.

Definition hex_value (c : N) : option N :=
  (if is_digit c then Some (c - 48)
   else if (97 <=? c) && (c <=? 102) then Some (c - 87)
   else if (65 <=? c) && (c <=? 70) then Some (c - 55)
   else None)%N.

Definition hex4_value (a b c d : N) : option N :=
  x ← hex_value a; y ← hex_value b; z ← hex_value c; w ← hex_value d;
  Some (x * 4096 + y * 256 + z * 16 + w)%N.

Definition simple_escape (e : N) : option N :=
  (if e =? 34 then Some 34 else if e =? 92 then Some 92 else if e =? 47 then Some 47
   else if e =? 98 then Some 8 else if e =? 102 then Some 12 else if e =? 110 then Some 10
   else if e =? 114 then Some 13 else if e =? 116 then Some 9 else None)%N.

Definition is_high (n : N) : bool := ((0xd800 <=? n) && (n <=? 0xdbff))%N.
Definition is_low (n : N) : bool := ((0xdc00 <=? n) && (n <=? 0xdfff))%N.
Definition join_surrogates (hi lo : N) : N := (0x10000 + ((hi - 0xd800) * 1024 + (lo - 0xdc00)))%N.

Definition put {A} (c : N) (p : option (pystr * A)) : option (pystr * A) :=
  p ← p; Some (c :: p.1, p.2).

(** The rest of a string literal, after its opening quote: its contents and what
    follows the closing quote. *)
Fixpoint scan_string (s : pystr) : option (pystr * pystr) :=
  match s with
  | [] => None
  | c :: r =>
      if (c =? 34)%N then Some ([], r)
      else if (c =? 92)%N then
        match r with
        | [] => None
        | e :: r =>
            if (e =? 117)%N then
              match r with
              | a :: b :: c :: d :: r =>
                  match hex4_value a b c d with
                  | None => None
                  | Some n =>
                      match r with
                      | b1 :: b2 :: a' :: b' :: c' :: d' :: r' =>
                          if is_high n && (b1 =? 92)%N && (b2 =? 117)%N then
                            match hex4_value a' b' c' d' with
                            | None => None
                            | Some m => if is_low m then put (join_surrogates n m) (scan_string r')
                                        else put n (scan_string r)
                            end
                          else put n (scan_string r)
                      | _ => put n (scan_string r)
                      end
                  end
              | _ => None
              end
            else match simple_escape e with
                 | Some x => put x (scan_string r)
                 | None => None
                 end
        end
      else if (c <? 32)%N then None
      else put c (scan_string r)
  end.

Definition take_digits (s : pystr) : pystr * pystr :=
  let r := drop_while is_digit s in (take (length s - length r) s, r).

Definition digits_value (ds : pystr) : Z :=
  foldl (λ acc d, acc * 10 + (Z.of_N d - 48))%Z 0%Z ds.

(** The integer part of a number. *)
Definition scan_int (s : pystr) : option (pystr * pystr) :=
  match s with
  | [] => None
  | c :: r =>
      if (c =? 48)%N then Some ([c], r)
      else if is_digit c then Some (take_digits s) else None
  end.

(** An optional fraction: a point and at least one digit. *)
Definition scan_frac (s : pystr) : pystr * pystr :=
  match s with
  | c :: r =>
      if (c =? 46)%N then
        let '(ds, r') := take_digits r in
        if bool_decide (ds = []) then ([], s) else (c :: ds, r')
      else ([], s)
  | [] => ([], s)
  end.

(** An optional exponent. *)
Definition scan_exp (s : pystr) : pystr * pystr :=
  match s with
  | e :: r =>
      if ((e =? 101) || (e =? 69))%N then
        let '(sign, r) := match r with
                          | c :: r' => if ((c =? 43) || (c =? 45))%N then ([c], r') else ([], r)
                          | [] => ([], [])
                          end in
        let '(ds, r') := take_digits r in
        if bool_decide (ds = []) then ([], s) else (e :: sign ++ ds, r')
      else ([], s)
  | [] => ([], s)
  end.

(** [int(text)] refuses more than 4300 digits. *)
Definition max_int_digits : nat := 4300.

(** An optional minus sign. *)
Definition scan_sign (s : pystr) : bool * pystr :=
  match s with
  | c :: r => if (c =? 45)%N then (true, r) else (false, s)
  | [] => (false, [])
  end.

Definition scan_number (s : pystr) : parsed (json * pystr) :=
  let '(neg, s1) := scan_sign s in
  match scan_int s1 with
  | None => BadSyntax
  | Some (ds, r1) =>
      let '(frac, r2) := scan_frac r1 in
      let '(ex, r3) := scan_exp r2 in
      if bool_decide (frac = [] ∧ ex = []) then
        if bool_decide (max_int_digits < length ds) then BadSyntax
        else Parsed (JInt (if neg then - digits_value ds else digits_value ds), r3)
      else Parsed (JFloat ((if neg then [45%N] else []) ++ ds ++ frac ++ ex), r3)
  end.

Definition scan_literal (s : pystr) : parsed (json * pystr) :=
  if starts_with (u"null") s then Parsed (JNull, drop 4 s)
  else if starts_with (u"true") s then Parsed (JBool true, drop 4 s)
  else if starts_with (u"false") s then Parsed (JBool false, drop 5 s)
  else if starts_with (u"NaN") s then Parsed (JFloat (u"NaN"), drop 3 s)
  else if starts_with (u"Infinity") s then Parsed (JFloat (u"Infinity"), drop 8 s)
  else if starts_with (u"-Infinity") s then Parsed (JFloat (u"-Infinity"), drop 9 s)
  else scan_number s.

Definition of_option {A} (o : option A) : parsed A :=
  match o with Some a => Parsed a | None => BadSyntax end.

(** The elements of an array, up to and including its closing bracket. *)
Fixpoint parse_elems (value : pystr → parsed (json * pystr)) (fuel : nat) (s : pystr)
    : parsed (list json * pystr) :=
  match fuel with
  | 0 => BadSyntax
  | S fuel =>
      '(v, r) ← value s;
      match skip_ws r with
      | c :: r =>
          if (c =? 93)%N then mret ([v], r)
          else if (c =? 44)%N then '(vs, r) ← parse_elems value fuel (skip_ws r); mret (v :: vs, r)
          else BadSyntax
      | [] => BadSyntax
      end
  end.

(** The members of an object, added to the dictionary read so far. *)
Fixpoint parse_members (value : pystr → parsed (json * pystr)) (fuel : nat)
    (acc : list (pystr * json)) (s : pystr) : parsed (list (pystr * json) * pystr) :=
  match fuel with
  | 0 => BadSyntax
  | S fuel =>
      if starts_with [34%N] s then
        '(k, r) ← of_option (scan_string (drop 1 s));
        let r := skip_ws r in
        if starts_with [58%N] r then
          '(v, r) ← value (skip_ws (drop 1 r));
          let acc := dict_set k v acc in
          match skip_ws r with
          | c :: r =>
              if (c =? 125)%N then mret (acc, r)
              else if (c =? 44)%N then parse_members value fuel acc (skip_ws r)
              else BadSyntax
          | [] => BadSyntax
          end
        else BadSyntax
      else BadSyntax
  end.

(** One value at the start of [s]; [depth] is what is left of the recursion limit. *)
Fixpoint parse_value (depth : nat) (s : pystr) : parsed (json * pystr) :=
  match s with
  | [] => BadSyntax
  | c :: r =>
      if (c =? 34)%N then '(t, r) ← of_option (scan_string r); mret (JStr t, r)
      else if (c =? 91)%N then
        match depth with
        | 0 => TooDeep
        | S depth =>
            let r := skip_ws r in
            if starts_with [93%N] r then mret (JList [], drop 1 r)
            else '(l, r) ← parse_elems (parse_value depth) (S (length r)) r; mret (JList l, r)
        end
      else if (c =? 123)%N then
        match depth with
        | 0 => TooDeep
        | S depth =>
            let r := skip_ws r in
            if starts_with [125%N] r then mret (JObj [], drop 1 r)
            else '(l, r) ← parse_members (parse_value depth) (S (length r)) [] r; mret (JObj l, r)
        end
      else scan_literal s
  end.

(** [json.loads(s)]: one value between white space. *)
Definition json_loads (depth : nat) (s : pystr) : parsed json :=
  '(v, r) ← parse_value depth (skip_ws s);
  match skip_ws r with [] => mret v | _ => BadSyntax end.

Example json_dumps_ex :
  json_dumps (JObj [(u"a", JInt (-7)); ([34; 10; 233; 0x1F600]%N, JList [JNull; JBool true])])
  = [123]%N ++ dump_str (u"a") ++ u": -7, " ++ [34]%N ++ [92; 34]%N ++ [92; 110]%N ++ [92]%N ++ u"u00e9" ++ [92]%N ++ u"ud83d" ++ [92]%N ++ u"ude00"
    ++ [34]%N ++ u": [null, true]}".
Proof. vm_compute. reflexivity. Qed.

Example json_loads_ex :
  json_loads 10 (u" [1, -20 , 1.5e3, {}, [true,null ] ] ")
  = Parsed (JList [JInt 1; JInt (-20); JFloat (u"1.5e3"); JObj []; JList [JBool true; JNull]])
  ∧ json_loads 1 (u"[[]]") = TooDeep ∧ json_loads 10 (u"[1,]") = BadSyntax
  ∧ json_loads 10 (u"[01]") = BadSyntax.
Proof. vm_compute. auto. Qed.

(** ** The round trip *)

(** *** Decimal integers *)

Lemma digits_of_app f n :
  (N.to_nat n < 2 ^ f)%nat → Forall (λ c, is_digit c = true) (digits_of f n)
  ∧ digits_value (digits_of f n) = Z.of_N n
  ∧ (f ≠ 0 → ∃ c ds, digits_of f n = c :: ds ∧ (c = 48%N → n = 0%N ∧ ds = [])).
Proof.
  revert n. induction f as [|f IH]; intros n Hn.
  { simpl in *. assert (n = 0%N) as -> by lia. by split_and!. }
  simpl digits_of.
  assert (is_digit (48 + n `mod` 10) = true) as Hlast.
  { unfold is_digit. pose proof (N.mod_lt n 10 ltac:(lia)). apply andb_true_iff. rewrite !N.leb_le. clear Hn.
    generalize dependent (n `mod` 10)%N. lia. }
  destruct (N.ltb_spec n 10).
  - simpl. rewrite N.mod_small in * by done. split_and!.
    + by repeat constructor.
    + unfold digits_value; simpl. lia.
    + intros _. eexists _, _. split; [done|]. intros. split; [lia|done].
  - pose proof (N.div_mod n 10 ltac:(lia)) as Hdm. pose proof (N.mod_lt n 10 ltac:(lia)).
    assert (N.to_nat (n / 10) < 2 ^ f)%nat as Hf.
    { rewrite Nat.pow_succ_r' in Hn. clear IH Hlast.
      set (q := (n / 10)%N) in *. set (m := (n `mod` 10)%N) in *. clearbody q m. lia. }
    destruct (IH _ Hf) as (Hd & Hv & Hne). split_and!.
    + apply Forall_app. by repeat constructor.
    + unfold digits_value in *. rewrite foldl_app, Hv. simpl. lia.
    + intros _. destruct f as [|f']; [simpl in Hf; lia|].
      destruct Hne as (c & ds & -> & Hc); [done|]. eexists c, _. split; [done|].
      intros ->. destruct Hc as [Hc _]; [done|]. lia.
Qed.

Lemma str_of_N_spec n :
  Forall (λ c, is_digit c = true) (str_of_N n) ∧ digits_value (str_of_N n) = Z.of_N n
  ∧ ∃ c ds, str_of_N n = c :: ds ∧ (c = 48%N → n = 0%N ∧ ds = []).
Proof.
  unfold str_of_N. destruct (digits_of_app (S (N.to_nat (N.log2 n))) n) as (? & ? & Hne).
  - destruct (decide (n = 0%N)) as [->|]; [simpl; lia|].
    destruct (N.log2_spec n) as [_ Hlt]; [lia|].
    assert (N.to_nat n < N.to_nat (2 ^ N.succ (N.log2 n)))%nat as Hlt' by (clear - Hlt; lia).
    by rewrite N2Nat.inj_pow, N2Nat.inj_succ in Hlt'.
  - split_and!; [done..|]. by apply Hne.
Qed.

(** What may follow a number: no digit, point or exponent. *)
Definition ends_number (rest : pystr) : Prop :=
  match rest with
  | [] => True
  | c :: _ => is_digit c = false ∧ c ≠ 46%N ∧ c ≠ 101%N ∧ c ≠ 69%N
  end.

Definition no_digit (rest : pystr) : Prop :=
  match rest with [] => True | c :: _ => is_digit c = false end.

Lemma ends_number_digit rest : ends_number rest → no_digit rest.
Proof. destruct rest; [done|]. by intros []. Qed.
#[local] Hint Resolve ends_number_digit : core.

Lemma take_digits_app ds rest :
  Forall (λ c, is_digit c = true) ds → no_digit rest → take_digits (ds ++ rest) = (ds, rest).
Proof.
  intros Hds Hr. unfold take_digits. rewrite drop_while_app_all by done.
  assert (drop_while is_digit rest = rest) as ->.
  { destruct rest as [|c r]; [done|]. simpl in *. by rewrite Hr. }
  rewrite length_app. by rewrite Nat.add_sub, take_app_length.
Qed.

Lemma scan_tail rest : ends_number rest → scan_frac rest = ([], rest) ∧ scan_exp rest = ([], rest).
Proof.
  destruct rest as [|c r]; [done|]. intros (_ & H46 & H101 & H69). split.
  - unfold scan_frac. by rewrite (proj2 (N.eqb_neq _ _)) by done.
  - unfold scan_exp. by rewrite !(proj2 (N.eqb_neq _ _)) by done.
Qed.

Lemma scan_int_str_of_N n rest :
  no_digit rest → scan_int (str_of_N n ++ rest) = Some (str_of_N n, rest).
Proof.
  intros Hr. destruct (str_of_N_spec n) as (Hd & _ & c & ds & E & Hc). rewrite E in *.
  simpl. destruct (N.eqb_spec c 48) as [->|].
  - by destruct (Hc eq_refl) as [_ ->].
  - inversion_clear Hd as [|? ? Hc1 Hds]. rewrite Hc1.
    change (c :: ds ++ rest) with ((c :: ds) ++ rest). by rewrite take_digits_app by auto.
Qed.

Definition small_int (z : Z) : Prop := length (str_of_N (Z.to_N (Z.abs z))) ≤ max_int_digits.

Lemma scan_sign_str_of_Z z rest :
  scan_sign (str_of_Z z ++ rest) = ((z <? 0)%Z, str_of_N (Z.to_N (Z.abs z)) ++ rest).
Proof.
  unfold str_of_Z. destruct (Z.ltb_spec z 0); [by rewrite Z.abs_neq by lia|].
  rewrite Z.abs_eq by lia.
  destruct (str_of_N_spec (Z.to_N z)) as (Hd & _ & c & ds & E & _). rewrite E in *.
  apply Forall_cons in Hd as [Hc _]. simpl. by destruct (N.eqb_spec c 45) as [->|].
Qed.

Lemma scan_number_str_of_Z z rest :
  small_int z → ends_number rest → scan_number (str_of_Z z ++ rest) = Parsed (JInt z, rest).
Proof.
  intros Hz Hr. unfold small_int in Hz. destruct (scan_tail rest Hr) as [Hf He].
  destruct (str_of_N_spec (Z.to_N (Z.abs z))) as (_ & Hv & _).
  unfold scan_number. rewrite scan_sign_str_of_Z, scan_int_str_of_N by auto. rewrite Hf, He.
  rewrite bool_decide_eq_true_2 by done.
  rewrite bool_decide_eq_false_2 by (apply Nat.le_ngt, Hz).
  rewrite Hv. destruct (Z.ltb_spec z 0); repeat f_equal; lia.
Qed.

(** The text of a finite float: digits with a fraction, an exponent, or both. *)
Definition fraction_text (t : pystr) : Prop :=
  ∃ ds, t = 46%N :: ds ∧ ds ≠ [] ∧ Forall (λ c, is_digit c = true) ds.
Definition exponent_text (t : pystr) : Prop :=
  ∃ sign ds, t = 101%N :: sign ++ ds ∧ sign ∈ [[]; [43%N]; [45%N]] ∧ ds ≠ []
             ∧ Forall (λ c, is_digit c = true) ds.
Definition float_text (t : pystr) : Prop :=
  ∃ (neg : bool) n frac ex, t = (if neg then [45%N] else []) ++ str_of_N n ++ frac ++ ex
    ∧ (frac = [] ∨ fraction_text frac) ∧ (ex = [] ∨ exponent_text ex) ∧ ¬ (frac = [] ∧ ex = []).

Lemma scan_frac_text frac rest :
  fraction_text frac → no_digit rest → scan_frac (frac ++ rest) = (frac, rest).
Proof.
  intros (ds & -> & Hne & Hds) Hr. cbn [app scan_frac]. rewrite N.eqb_refl, take_digits_app by done.
  by rewrite bool_decide_eq_false_2.
Qed.

Lemma scan_exp_text ex rest :
  exponent_text ex → ends_number rest → scan_exp (ex ++ rest) = (ex, rest).
Proof.
  intros (sign & ds & -> & Hs & Hne & Hds) Hr. cbn [app scan_exp]. change ((101 =? 101)%N) with true.
  rewrite <- app_assoc. cbn [orb].
  assert (bool_decide (ds = []) = false) as Hb by (by apply bool_decide_eq_false_2).
  destruct ds as [|d ds]; [done|]. pose proof Hds as [Hd _]%Forall_cons.
  rewrite !elem_of_cons in Hs. destruct Hs as [-> | [-> | [-> |[]%elem_of_nil]]]; cbn [app].
  - assert ((d =? 43) || (d =? 45) = false)%N as ->.
    { unfold is_digit in Hd. apply andb_true_iff in Hd. rewrite !N.leb_le in Hd.
      rewrite !(proj2 (N.eqb_neq _ _)) by lia. done. }
    cbv iota beta. change (d :: ds ++ rest) with ((d :: ds) ++ rest). by rewrite take_digits_app, Hb by auto.
  - cbv iota beta. cbn [N.eqb orb Pos.eqb]. change (d :: ds ++ rest) with ((d :: ds) ++ rest). by rewrite take_digits_app, Hb by auto.
  - cbv iota beta. cbn [N.eqb orb Pos.eqb]. change (d :: ds ++ rest) with ((d :: ds) ++ rest). by rewrite take_digits_app, Hb by auto.
Qed.

Lemma scan_number_float t rest :
  float_text t → ends_number rest → scan_number (t ++ rest) = Parsed (JFloat t, rest).
Proof.
  intros (neg & n & frac & ex & -> & Hf & He & Hne) Hr. rewrite <- !app_assoc.
  assert (∀ s, scan_sign ((if neg then [45%N] else []) ++ str_of_N n ++ s) = (neg, str_of_N n ++ s)) as Hs.
  { intros s. destruct neg; [done|]. destruct (str_of_N_spec n) as (Hd & _ & c & ds & E & _). rewrite E in *.
    apply Forall_cons in Hd as [Hc _]. simpl. by destruct (N.eqb_spec c 45) as [->|]. }
  assert (scan_exp (ex ++ rest) = (ex, rest)) as Hexp.
  { destruct He as [->|He]; [by apply scan_tail|by apply scan_exp_text]. }
  assert (no_digit (ex ++ rest)) as Hde.
  { destruct He as [->|(? & ? & -> & _)]; [by auto|done]. }
  assert (scan_frac (frac ++ ex ++ rest) = (frac, ex ++ rest)) as Hfrac.
  { destruct Hf as [->|Hf]; [|by apply scan_frac_text].
    destruct He as [->|(? & ? & -> & _)]; [by apply scan_tail|done]. }
  assert (no_digit (frac ++ ex ++ rest)) as Hdf.
  { destruct Hf as [->|(? & -> & _)]; [done|done]. }
  unfold scan_number. rewrite Hs, scan_int_str_of_N, Hfrac, Hexp by done.
  by rewrite bool_decide_eq_false_2.
Qed.

(** *** Strings *)

(** Unicode scalar values: no surrogates. *)
Definition scalar (c : N) : Prop := (c < 0xd800 ∨ 0xe000 ≤ c < 0x110000)%N.

Lemma hex_value_digit d : (d < 16)%N → hex_value (hex_digit d) = Some d.
Proof.
  intros Hd. unfold hex_value, hex_digit, is_digit.
  destruct (N.ltb_spec d 10).
  - rewrite !(proj2 (N.leb_le _ _)) by lia. simpl. f_equal. lia.
  - rewrite (proj2 (N.leb_le 48 _)), (proj2 (N.leb_gt _ 57)) by lia. simpl.
    rewrite !(proj2 (N.leb_le _ _)) by lia. simpl. f_equal. lia.
Qed.

(** A four-digit hexadecimal number is its digits. *)
Lemma hex4_digits n :
  (n < 65536)%N →
  ((n / 4096) `mod` 16 * 4096 + (n / 256) `mod` 16 * 256 + (n / 16) `mod` 16 * 16 + n `mod` 16 = n)%N.
Proof.
  intros Hn.
  replace (n / 4096)%N with (n / 16 / 16 / 16)%N by (rewrite !N.Div0.div_div; done).
  replace (n / 256)%N with (n / 16 / 16)%N by (rewrite !N.Div0.div_div; done).
  pose proof (N.div_mod n 16 ltac:(lia)) as H1.
  pose proof (N.div_mod (n / 16) 16 ltac:(lia)) as H2.
  pose proof (N.div_mod (n / 16 / 16) 16 ltac:(lia)) as H3.
  assert (n / 16 / 16 / 16 < 16)%N as H4.
  { rewrite !N.Div0.div_div. apply N.Div0.div_lt_upper_bound. lia. }
  rewrite (N.mod_small (n / 16 / 16 / 16)) by done.
  generalize dependent (n `mod` 16)%N. generalize dependent ((n / 16) `mod` 16)%N.
  generalize dependent ((n / 16 / 16) `mod` 16)%N. generalize dependent (n / 16 / 16 / 16)%N.
  generalize dependent (n / 16 / 16)%N. generalize dependent (n / 16)%N. lia.
Qed.

Lemma scan_u_escape n rest :
  (n < 65536)%N →
  scan_string (u_escape n ++ rest) =
  match rest with
  | b1 :: b2 :: a' :: b' :: c' :: d' :: r' =>
      if is_high n && (b1 =? 92)%N && (b2 =? 117)%N then
        match hex4_value a' b' c' d' with
        | None => None
        | Some m => if is_low m then put (join_surrogates n m) (scan_string r')
                    else put n (scan_string rest)
        end
      else put n (scan_string rest)
  | _ => put n (scan_string rest)
  end.
Proof.
  intros Hn.
  assert (hex4_value (hex_digit ((n / 4096) `mod` 16)) (hex_digit ((n / 256) `mod` 16))
            (hex_digit ((n / 16) `mod` 16)) (hex_digit (n `mod` 16)) = Some n) as Hh.
  { unfold hex4_value.
    rewrite !hex_value_digit by (apply N.mod_lt; done). simpl. f_equal. by apply hex4_digits. }
  unfold u_escape, hex4. simpl app. simpl scan_string. by rewrite Hh.
Qed.

Lemma scan_u_plain n rest :
  (n < 65536)%N → is_high n = false → scan_string (u_escape n ++ rest) = put n (scan_string rest).
Proof. intros Hn Hh. rewrite scan_u_escape, Hh by done. by do 6 (destruct rest; [done|]). Qed.

Lemma scan_u_pair hi lo rest :
  is_high hi = true → is_low lo = true → 
  scan_string (u_escape hi ++ u_escape lo ++ rest) = put (join_surrogates hi lo) (scan_string rest).
Proof.
  intros Hh Hl. assert (hi < 65536 ∧ lo < 65536)%N as [? ?].
  { unfold is_high, is_low in *. apply andb_true_iff in Hh, Hl. rewrite !N.leb_le in *. lia. }
  rewrite scan_u_escape, Hh by done. unfold u_escape, hex4; simpl app. cbv beta iota.
  rewrite !N.eqb_refl. simpl andb. cbv iota.
  assert (hex4_value (hex_digit ((lo / 4096) `mod` 16)) (hex_digit ((lo / 256) `mod` 16))
            (hex_digit ((lo / 16) `mod` 16)) (hex_digit (lo `mod` 16)) = Some lo) as ->.
  { unfold hex4_value.
    rewrite !hex_value_digit by (apply N.mod_lt; done). simpl. f_equal. by apply hex4_digits. }
  by rewrite Hl.
Qed.

Lemma scan_escape_char c rest :
  scalar c → scan_string (escape_char c ++ rest) = put c (scan_string rest).
Proof.
  intros Hc. unfold escape_char.
  repeat match goal with
  | |- context [(c =? ?k)%N] =>
      destruct (N.eqb_spec c k); [subst c; reflexivity|]
  end.
  destruct ((32 <=? c) && (c <=? 126))%N eqn:Hp.
  - simpl. rewrite !(proj2 (N.eqb_neq _ _)) by done.
    apply andb_true_iff in Hp as [?%N.leb_le _]. by rewrite (proj2 (N.ltb_ge _ _)).
  - destruct (N.ltb_spec c 0x10000).
    + apply scan_u_plain; [done|]. unfold is_high.
      destruct Hc as [Hc|Hc]; [by rewrite (proj2 (N.leb_gt _ _))|].
      rewrite (proj2 (N.leb_le _ _)), (proj2 (N.leb_gt _ _)) by lia. done.
    + destruct Hc as [Hc|Hc]; [lia|].
      pose proof (N.div_mod (c - 0x10000) 1024 ltac:(lia)) as Hdm.
      pose proof (N.mod_lt (c - 0x10000) 1024 ltac:(lia)) as Hm.
      assert ((c - 0x10000) / 1024 < 1024)%N as Hd by (apply N.Div0.div_lt_upper_bound; lia).
      set (q := ((c - 0x10000) / 1024)%N) in *. set (m := ((c - 0x10000) `mod` 1024)%N) in *.
      clearbody q m. rewrite <- app_assoc, scan_u_pair.
      * unfold join_surrogates. f_equal. lia.
      * unfold is_high. rewrite !(proj2 (N.leb_le _ _)) by lia. done.
      * unfold is_low. rewrite !(proj2 (N.leb_le _ _)) by lia. done.
Qed.

Lemma scan_dump_str s rest :
  Forall scalar s → scan_string ((s ≫= escape_char) ++ 34%N :: rest) = Some (s, rest).
Proof.
  induction 1 as [|c s Hc Hs IH]; [done|]. csimpl. rewrite <- app_assoc.
  by rewrite scan_escape_char, IH.
Qed.

(** *** Values *)

Inductive plain : json → Prop :=
| plain_null : plain JNull
| plain_bool b : plain (JBool b)
| plain_int z : small_int z → plain (JInt z)
| plain_float t : float_text t → plain (JFloat t)
| plain_str s : Forall scalar s → plain (JStr s)
| plain_list l : Forall plain l → plain (JList l)
| plain_obj fs :
    NoDup fs.*1 → Forall (λ p, Forall scalar p.1) fs → Forall (λ p, plain p.2) fs →
    plain (JObj fs).

Fixpoint depth (j : json) : nat :=
  match j with
  | JList l => S (foldr (λ x n, depth x `max` n) 0 l)
  | JObj fs => S (foldr (λ p n, depth p.2 `max` n) 0 fs)
  | _ => 0
  end.

Local Notation blank := (Forall (λ c, is_ws c = true)).

Lemma skip_ws_cons c r : is_ws c = false → skip_ws (c :: r) = c :: r.
Proof. intros H. unfold skip_ws. simpl. by rewrite H. Qed.

Lemma skip_ws_app ws c r :
  blank ws → is_ws c = false → skip_ws (ws ++ c :: r) = c :: r.
Proof. intros Hw Hc. unfold skip_ws. rewrite drop_while_app_all by done. by apply skip_ws_cons. Qed.

(** The first character of a printed value. *)
Definition value_head (c : N) : Prop := is_ws c = false ∧ c ≠ 93%N ∧ c ≠ 125%N.

Lemma digit_cases c : is_digit c = true → (48 ≤ c ≤ 57)%N.
Proof. unfold is_digit. intros [??]%andb_true_iff. rewrite !N.leb_le in *. lia. Qed.

Lemma is_ws_false c : (33 ≤ c)%N → is_ws c = false.
Proof. intros H. unfold is_ws. by rewrite !(proj2 (N.eqb_neq _ _)) by lia. Qed.

Lemma str_of_Z_head z : ∃ c r, str_of_Z z = c :: r ∧ (c = 45%N ∨ is_digit c = true)
                              ∧ (c = 45%N → ∃ d r', r = d :: r' ∧ is_digit d = true).
Proof.
  unfold str_of_Z. case_match.
  - destruct (str_of_N_spec (Z.to_N (- z))) as (Hd & _ & c & ds & E & _). rewrite E in *.
    apply Forall_cons in Hd as [Hc _]. exists 45%N, (c :: ds). split; [done|].
    split; [by left|]. intros _. by exists c, ds.
  - destruct (str_of_N_spec (Z.to_N z)) as (Hd & _ & c & ds & E & _). rewrite E in *.
    apply Forall_cons in Hd as [Hc _]. eexists _, _. split; [done|]. split; [by right|].
    intros ->. done.
Qed.

Lemma starts_with_ne p x c r :
  match p with y :: _ => y = x | [] => False end → c ≠ x → starts_with p (c :: r) = false.
Proof.
  destruct p as [|y p]; [done|]. intros -> Hc. simpl. by rewrite (proj2 (N.eqb_neq x c)).
Qed.

(** What starts with a digit, or a minus sign and a digit, is a number. *)
Lemma parse_number d c r :
  c = 45%N ∨ is_digit c = true → (c = 45%N → ∃ x r', r = x :: r' ∧ is_digit x = true) →
  parse_value d (c :: r) = scan_number (c :: r).
Proof.
  intros Hc Hd.
  assert (c ≠ 34 ∧ c ≠ 91 ∧ c ≠ 123 ∧ c ≠ 110 ∧ c ≠ 116 ∧ c ≠ 102 ∧ c ≠ 78 ∧ c ≠ 73)%N
    as (? & ? & ? & ? & ? & ? & ? & ?).
  { destruct Hc as [->|?%digit_cases]; [done|]. split_and!; lia. }
  assert (scan_literal (c :: r) = scan_number (c :: r)) as Hs.
  { unfold scan_literal.
    rewrite (starts_with_ne (u"null") 110), (starts_with_ne (u"true") 116),
      (starts_with_ne (u"false") 102), (starts_with_ne (u"NaN") 78),
      (starts_with_ne (u"Infinity") 73) by done.
    destruct (decide (c = 45%N)) as [->|]; [|by rewrite (starts_with_ne (u"-Infinity") 45)].
    destruct (Hd eq_refl) as (x & r' & -> & Hx%digit_cases).
    change (starts_with (u"-Infinity") (45%N :: x :: r')) with (starts_with (u"Infinity") (x :: r')).
    rewrite (starts_with_ne (u"Infinity") 73); [done|done|lia]. }
  destruct d; simpl parse_value; rewrite !(proj2 (N.eqb_neq c _)) by done; exact Hs.
Qed.

Lemma parse_int d z rest :
  small_int z → ends_number rest → parse_value d (str_of_Z z ++ rest) = Parsed (JInt z, rest).
Proof.
  intros Hz Hr. rewrite <- (scan_number_str_of_Z z rest Hz Hr).
  destruct (str_of_Z_head z) as (c & r & -> & Hc & Hd). apply parse_number; [done|].
  intros H. destruct (Hd H) as (x & r' & -> & Hx). by exists x, (r' ++ rest).
Qed.

Lemma float_text_head t :
  float_text t → ∃ c r, t = c :: r ∧ (c = 45%N ∨ is_digit c = true)
                        ∧ (c = 45%N → ∃ d r', r = d :: r' ∧ is_digit d = true).
Proof.
  intros (neg & n & frac & ex & -> & _).
  destruct (str_of_N_spec n) as (Hd & _ & c & ds & E & _). rewrite E in *.
  apply Forall_cons in Hd as [Hc _]. destruct neg; (eexists _, _; split; [reflexivity|]).
  - split; [by left|]. intros _. by eexists _, _.
  - split; [by right|]. by intros ->.
Qed.

Lemma parse_float d t rest :
  float_text t → ends_number rest → parse_value d (t ++ rest) = Parsed (JFloat t, rest).
Proof.
  intros Ht Hr. rewrite <- (scan_number_float t rest Ht Hr).
  destruct (float_text_head t Ht) as (c & r & -> & Hc & Hd). apply parse_number; [done|].
  intros H. destruct (Hd H) as (x & r' & -> & Hx). by exists x, (r' ++ rest).
Qed.

Lemma dump_str_app s tail : dump_str s ++ tail = 34%N :: (s ≫= escape_char) ++ 34%N :: tail.
Proof. unfold dump_str. by rewrite <- !app_assoc. Qed.

(** A number may be followed by blanks and the end of the list or object. *)
Lemma ends_blank ws c rest :
  blank ws → ends_number (c :: rest) → ends_number (ws ++ c :: rest).
Proof.
  destruct ws as [|x ws]; [done|]. intros [Hx _]%Forall_cons _. simpl. unfold is_ws in Hx.
  repeat (apply orb_true_iff in Hx as [Hx|Hx]); apply N.eqb_eq in Hx; subst x; done.
Qed.

(** The elements of a list and the members of an object, printed by [print] with blanks
    after the separators and before the end. *)
Section Separated.
Context (print : json → pystr) (iws kws cws : pystr).
Hypothesis Hiws : blank iws.
Hypothesis Hkws : blank kws.
Hypothesis Hcws : blank cws.

Lemma parse_elems_print value l rest fuel :
  l ≠ [] → length l ≤ fuel →
  Forall (λ j, ∃ c r, print j = c :: r ∧ value_head c) l →
  Forall (λ j, ∀ rest, ends_number rest → value (print j ++ rest) = Parsed (j, rest)) l →
  parse_elems value fuel (join (44%N :: iws) (map print l) ++ cws ++ 93%N :: rest) = Parsed (l, rest).
Proof.
  revert fuel. induction l as [|j l IH]; intros fuel Hne Hf Hh Hv; [done|].
  destruct fuel as [|fuel]; simpl in Hf; [lia|].
  apply Forall_cons in Hh as [_ Hh]. apply Forall_cons in Hv as [Hj Hv].
  destruct l as [|j2 l].
  - simpl. rewrite Hj by (by apply ends_blank). unfold mbind, parsed_bind. by rewrite skip_ws_app.
  - change (join (44%N :: iws) (map print (j :: j2 :: l)))
      with (print j ++ (44%N :: iws) ++ join (44%N :: iws) (map print (j2 :: l))).
    rewrite <- !app_assoc.
    pose proof Hh as Hh2. apply Forall_cons in Hh2 as [(c & r & Hc & Hws & _) _].
    assert (skip_ws (iws ++ join (44%N :: iws) (map print (j2 :: l)) ++ cws ++ 93%N :: rest)
            = join (44%N :: iws) (map print (j2 :: l)) ++ cws ++ 93%N :: rest) as Hskip.
    { simpl. rewrite Hc. destruct (map print l); simpl; by rewrite skip_ws_app. }
    assert (parse_elems value fuel (join (44%N :: iws) (map print (j2 :: l)) ++ cws ++ 93%N :: rest)
            = Parsed (j2 :: l, rest)) as Hrest by (apply IH; [done|simpl in *; lia|done..]).
    clear IH. generalize dependent (join (44%N :: iws) (map print (j2 :: l)) ++ cws ++ 93%N :: rest).
    intros tail Hskip Hrest. simpl. rewrite Hj by done. unfold mbind, parsed_bind.
    rewrite skip_ws_cons by done. simpl. by rewrite Hskip, Hrest.
Qed.

Lemma parse_members_print value fs rest fuel acc :
  fs ≠ [] → length fs ≤ fuel → NoDup (acc ++ fs).*1 →
  Forall (λ p, Forall scalar p.1) fs →
  Forall (λ p, ∃ c r, print p.2 = c :: r ∧ value_head c) fs →
  Forall (λ p, ∀ rest, ends_number rest → value (print p.2 ++ rest) = Parsed (p.2, rest)) fs →
  parse_members value fuel acc
    (join (44%N :: iws) (map (λ p, dump_str p.1 ++ (58%N :: kws) ++ print p.2) fs) ++ cws ++ 125%N :: rest)
  = Parsed (acc ++ fs, rest).
Proof.
  revert fuel acc. induction fs as [|[k j] fs IH]; intros fuel acc Hne Hf Hnd Hk Hh Hv; [done|].
  destruct fuel as [|fuel]; simpl in Hf; [lia|].
  apply Forall_cons in Hh as [(c & r & Hc & Hws & _) Hh]. simpl in Hc.
  apply Forall_cons in Hv as [Hj Hv]. apply Forall_cons in Hk as [Hk1 Hk]. simpl in Hj, Hk1.
  assert (k ∉ acc.*1) as Hfresh.
  { rewrite fmap_app in Hnd. apply NoDup_app in Hnd as (_ & Hnd & _). intros Hin.
    apply (Hnd k Hin). simpl. set_solver. }
  assert (∀ tail, skip_ws ((kws ++ print j) ++ tail) = print j ++ tail) as Hskip.
  { intros tail. rewrite Hc, <- app_assoc. simpl. by rewrite skip_ws_app. }
  assert (∀ tail, parse_members value (S fuel) acc
            ((dump_str k ++ (58%N :: kws) ++ print j) ++ tail)
          = '(v, r) ← value (print j ++ tail);
            match skip_ws r with
            | c :: r =>
                if (c =? 125)%N then mret (dict_set k v acc, r)
                else if (c =? 44)%N then parse_members value fuel (dict_set k v acc) (skip_ws r)
                else BadSyntax
            | [] => BadSyntax
            end) as Hstep.
  { intros tail. rewrite <- app_assoc, dump_str_app.
    cbn [parse_members starts_with]. rewrite N.eqb_refl. cbn [andb].
    change (drop 1 (34%N :: ?x)) with x. rewrite scan_dump_str by done.
    unfold of_option, mbind at 1, parsed_bind at 1. cbn [app].
    rewrite skip_ws_cons by done. simpl. unfold drop. by rewrite Hskip. }
  destruct fs as [|[k2 j2] fs].
  - simpl join. rewrite Hstep, Hj by (by apply ends_blank). unfold mbind, parsed_bind.
    rewrite skip_ws_app by done. simpl. by rewrite dict_set_new.
  - change (join (44%N :: iws)
        (map (λ p, dump_str p.1 ++ (58%N :: kws) ++ print p.2) ((k, j) :: (k2, j2) :: fs)))
      with ((dump_str k ++ (58%N :: kws) ++ print j) ++ (44%N :: iws) ++
        join (44%N :: iws)
          (map (λ p, dump_str p.1 ++ (58%N :: kws) ++ print p.2) ((k2, j2) :: fs))).
    rewrite <- app_assoc, Hstep.
    assert (skip_ws (iws ++ join (44%N :: iws)
          (map (λ p, dump_str p.1 ++ (58%N :: kws) ++ print p.2) ((k2, j2) :: fs)) ++ cws ++ 125%N :: rest)
      = join (44%N :: iws)
          (map (λ p, dump_str p.1 ++ (58%N :: kws) ++ print p.2) ((k2, j2) :: fs)) ++ cws ++ 125%N :: rest)
      as Hs2.
    { simpl. unfold dump_str. destruct (map _ fs); simpl; by rewrite skip_ws_app. }
    assert (parse_members value fuel (acc ++ [(k, j)]) (join (44%N :: iws)
          (map (λ p, dump_str p.1 ++ (58%N :: kws) ++ print p.2) ((k2, j2) :: fs)) ++ cws ++ 125%N :: rest)
      = Parsed (acc ++ (k, j) :: (k2, j2) :: fs, rest)) as Hrest.
    { rewrite IH; [by rewrite <- app_assoc|done|simpl in *; lia| |done..].
      by rewrite <- app_assoc. }
    clear IH. rewrite <- app_assoc. generalize dependent (join (44%N :: iws)
          (map (λ p, dump_str p.1 ++ (58%N :: kws) ++ print p.2) ((k2, j2) :: fs)) ++ cws ++ 125%N :: rest).
    intros tail Hs2 Hrest. rewrite Hj by done. unfold mbind, parsed_bind. cbn [app].
    rewrite skip_ws_cons by done. simpl. by rewrite Hs2, dict_set_new, Hrest.
Qed.

End Separated.

Lemma join_length sep (parts : list pystr) :
  Forall (λ p, p ≠ []) parts → length parts ≤ length (join sep parts).
Proof.
  induction 1 as [|p parts Hp Hparts IH]; simpl; [done|].
  destruct p as [|c p]; [done|]. destruct parts; simpl in *; [lia|]. rewrite !length_app. lia.
Qed.

Lemma depth_elem (l : list json) j n :
  j ∈ l → foldr (λ x n, depth x `max` n) 0 l ≤ n → depth j ≤ n.
Proof. induction 1; simpl; intros; [lia|]. apply IHlist_elem_of. lia. Qed.

Lemma depth_member (fs : list (pystr * json)) p n :
  p ∈ fs → foldr (λ p n, depth p.2 `max` n) 0 fs ≤ n → depth p.2 ≤ n.
Proof. induction 1; simpl; intros; [lia|]. apply IHlist_elem_of. lia. Qed.

Lemma map_write_nil isep ksep l level :
  Forall (λ j, ∀ level, dumps isep ksep j = write (λ _, []) isep ksep level j) l →
  map (dumps isep ksep) l = map (write (λ _, []) isep ksep level) l.
Proof. intros H. apply map_ext_in. intros j Hj%list_elem_of_In. rewrite Forall_forall in H. by apply H. Qed.

(** Without an indentation the encoder is [dumps]. *)
Lemma dumps_write isep ksep j : ∀ level, dumps isep ksep j = write (λ _, []) isep ksep level j.
Proof.
  induction j as [|b|z|x|s|l IH|fs IH] using json_nested_ind; intros level; try done.
  - destruct l as [|j l]; [done|]. cbn [dumps write app]. rewrite app_nil_r. do 2 f_equal.
    by rewrite (map_write_nil _ _ _ (S level)).
  - destruct fs as [|p fs]; [done|]. cbn [dumps write app]. rewrite app_nil_r. do 3 f_equal.
    apply map_ext_in. intros q Hq%list_elem_of_In. rewrite Forall_forall in IH. by rewrite (IH q Hq (S level)).
Qed.

Section RoundTrip.
Context (nl : nat → pystr) (iws kws : pystr).
Hypothesis Hnl : ∀ n, blank (nl n).
Hypothesis Hiws : blank iws.
Hypothesis Hkws : blank kws.
Let print := write nl (44%N :: iws) (58%N :: kws).

Lemma print_head level j : plain j → ∃ c r, print level j = c :: r ∧ value_head c.
Proof.
  unfold value_head, print.
  destruct 1 as [|[]|z _|t Ht|s _|[] _|[] _ _ _]; simpl;
    try (eexists _, _; split; [reflexivity|done]).
  - destruct (str_of_Z_head z) as (c & r & -> & Hc & _). exists c, r. split; [done|].
    destruct Hc as [->|Hc%digit_cases]; [done|]. split_and!; [apply is_ws_false; lia|lia..].
  - destruct (float_text_head t Ht) as (c & r & -> & Hc & _). exists c, r. split; [done|].
    destruct Hc as [->|Hc%digit_cases]; [done|]. split_and!; [apply is_ws_false; lia|lia..].
Qed.

Lemma print_heads level l :
  Forall plain l → Forall (λ j, ∃ c r, print level j = c :: r ∧ value_head c) l.
Proof. intros H. eapply Forall_impl; [exact H|]. intros j. apply print_head. Qed.

(** What has been opened is read, the blanks after the bracket skipped. *)
Lemma skip_opened ws close parts sep tail :
  blank ws → parts ≠ [] → Forall (λ p, ∃ c r, p = c :: r ∧ is_ws c = false ∧ c ≠ close) parts →
  let body := join sep parts ++ tail in
  skip_ws (ws ++ body) = body ∧ starts_with [close] body = false.
Proof.
  intros Hws Hne Hp. destruct Hp as [|p parts (c & r & -> & Hc & Hcl) _]; [done|]. cbv zeta.
  assert (∃ r', join sep ((c :: r) :: parts) ++ tail = c :: r') as [r' ->].
  { destruct parts; cbn [join app]; by eexists. }
  split; [by rewrite skip_ws_app|by apply (starts_with_ne _ close)].
Qed.

Lemma parse_print j :
  plain j → ∀ d level rest, depth j ≤ d → ends_number rest →
  parse_value d (print level j ++ rest) = Parsed (j, rest).
Proof.
  induction j as [|b|z|x|s|l IH|fs IH] using json_nested_ind; intros Hp d level rest Hd Hr;
    inversion Hp; subst.
  - by destruct d.
  - by destruct b, d.
  - by apply parse_int.
  - by apply parse_float.
  - unfold print. cbn [write dumps]. rewrite dump_str_app.
    destruct d; simpl parse_value; by rewrite scan_dump_str.
  - destruct d as [|d]; simpl in Hd; [lia|]. destruct l as [|j l]; [done|].
    set (s := join (44%N :: iws ++ nl (S level)) (map (print (S level)) (j :: l))).
    replace (print level (JList (j :: l)) ++ rest) with (91%N :: nl (S level) ++ s ++ nl level ++ 93%N :: rest)
      by (unfold print, s; cbn [write]; by rewrite <- !app_assoc).
    assert (Forall plain (j :: l)) as Hps by done. pose proof (print_heads (S level) _ Hps) as Hh.
    assert (Forall (λ p, ∃ c r, p = c :: r ∧ is_ws c = false ∧ c ≠ 93%N) (map (print (S level)) (j :: l))) as Hh2.
    { apply Forall_map. eapply Forall_impl; [exact Hh|]. intros x (c & r & ? & ? & ? & _). by exists c, r. }
    destruct (skip_opened (nl (S level)) 93%N (map (print (S level)) (j :: l)) (44%N :: iws ++ nl (S level))
      (nl level ++ 93%N :: rest)) as [Hs1 Hs2]; [done|done|done|]. fold s in Hs1, Hs2.
    assert (length (j :: l) ≤ length s) as Hlen.
    { rewrite <- (length_map (print (S level)) (j :: l)). apply join_length.
      eapply Forall_impl; [exact Hh2|]. intros x (c & r & -> & _). done. }
    cbn [parse_value]. change ((91 =? 34)%N) with false. change ((91 =? 91)%N) with true.
    cbv iota zeta. rewrite Hs1, Hs2. subst s.
    rewrite parse_elems_print; [done|by apply Forall_app|done|done|rewrite length_app; lia|done|].
    apply Forall_forall. intros x Hx rest' Hr'.
    rewrite Forall_forall in IH, Hps. apply IH; auto. eapply depth_elem; [exact Hx|lia].
  - destruct d as [|d]; simpl in Hd; [lia|]. destruct fs as [|p fs]; [done|].
    set (mem := λ p : pystr * json, dump_str p.1 ++ (58%N :: kws) ++ print (S level) p.2).
    set (s := join (44%N :: iws ++ nl (S level)) (map mem (p :: fs))).
    replace (print level (JObj (p :: fs)) ++ rest) with (123%N :: nl (S level) ++ s ++ nl level ++ 125%N :: rest)
      by (unfold print, s; cbn [write]; by rewrite <- !app_assoc).
    assert (Forall (λ p, ∃ c r, p = c :: r ∧ is_ws c = false ∧ c ≠ 125%N) (map mem (p :: fs))) as Hh2.
    { apply Forall_map, Forall_true. intros x. by eexists _, _. }
    destruct (skip_opened (nl (S level)) 125%N (map mem (p :: fs)) (44%N :: iws ++ nl (S level))
      (nl level ++ 125%N :: rest)) as [Hs1 Hs2]; [done|done|done|]. fold s in Hs1, Hs2.
    assert (length (p :: fs) ≤ length s) as Hlen.
    { rewrite <- (length_map mem (p :: fs)). apply join_length.
      eapply Forall_impl; [exact Hh2|]. intros x (c & r & -> & _). done. }
    cbn [parse_value]. change ((123 =? 34)%N) with false. change ((123 =? 91)%N) with false.
    change ((123 =? 123)%N) with true.
    cbv iota zeta. rewrite Hs1, Hs2. subst s mem.
    rewrite parse_members_print;
      [done|by apply Forall_app|done|done|done|rewrite length_app; lia|done|done| |].
    + eapply Forall_impl; [eassumption|]. intros x. apply print_head.
    + rewrite Forall_forall in IH. rewrite Forall_forall in *. intros x Hx rest' Hr'.
      apply IH; auto. eapply depth_member; [exact Hx|lia].
Qed.

(** Printing with separators made of a comma or colon and white space, then loading,
    gives the value back, blanks around it or not. *)
Lemma json_loads_write tail j d level :
  blank tail → plain j → depth j ≤ d → json_loads d (print level j ++ tail) = Parsed j.
Proof.
  intros Ht Hp Hd. unfold json_loads. destruct (print_head level j Hp) as (c & r & Hc & Hw & _).
  assert (skip_ws (print level j ++ tail) = print level j ++ tail) as -> by (rewrite Hc; by apply skip_ws_cons).
  rewrite parse_print; [|done|done|].
  - cbn [mbind parsed_bind]. assert (skip_ws tail = []) as ->; [|done].
    rewrite <- (app_nil_r tail). unfold skip_ws. by rewrite drop_while_app_all.
  - destruct tail as [|x tail]; [done|]. apply Forall_cons in Ht as [Hx _].
    unfold is_ws in Hx. repeat (apply orb_true_iff in Hx as [Hx|Hx]); apply N.eqb_eq in Hx; by subst x.
Qed.
End RoundTrip.

Lemma json_loads_print iws kws j d :
  blank iws → blank kws →
  plain j → depth j ≤ d → json_loads d (dumps (44%N :: iws) (58%N :: kws) j) = Parsed j.
Proof.
  intros Hi Hk Hp Hd. rewrite (dumps_write _ _ j 0), <- (app_nil_r (write _ _ _ _ _)).
  by apply json_loads_write; [constructor| | | | |].
Qed.


(** *** One line of printable ASCII *)

Definition printable (c : N) : Prop := (32 ≤ c ≤ 126)%N.

Lemma printable_scalar s : Forall printable s → Forall scalar s.
Proof. intros H. eapply Forall_impl; [exact H|]. unfold printable, scalar. intros c ?. lia. Qed.

Lemma hex_digit_printable d : (d < 16)%N → printable (hex_digit d).
Proof. unfold printable, hex_digit. intros. destruct (N.ltb_spec d 10); lia. Qed.

Lemma u_escape_printable n : Forall printable (u_escape n).
Proof.
  unfold u_escape, hex4. repeat constructor; try done;
    apply hex_digit_printable, N.mod_lt; done.
Qed.

Lemma escape_char_printable c : Forall printable (escape_char c).
Proof.
  unfold escape_char. repeat case_match; try (repeat constructor; done).
  - constructor; [|done]. unfold printable.
    apply andb_true_iff in H6 as [?%N.leb_le ?%N.leb_le]. done.
  - apply u_escape_printable.
  - apply Forall_app. split; apply u_escape_printable.
Qed.

Lemma dump_str_printable s : Forall printable (dump_str s).
Proof.
  unfold dump_str. repeat (apply Forall_app; split); try by repeat constructor.
  apply Forall_bind, Forall_true. intros c. apply escape_char_printable.
Qed.

Lemma str_of_Z_printable z : Forall printable (str_of_Z z).
Proof.
  assert (∀ n, Forall printable (str_of_N n)) as H.
  { intros n. destruct (str_of_N_spec n) as (Hd & _).
    eapply Forall_impl; [exact Hd|]. intros c Hc%digit_cases. unfold printable. lia. }
  unfold str_of_Z. case_match; [|apply H]. apply Forall_app. split; [by repeat constructor|apply H].
Qed.

Lemma join_Forall (P : N → Prop) sep (parts : list pystr) :
  Forall P sep → Forall (Forall P) parts → Forall P (join sep parts).
Proof.
  intros Hsep. induction 1 as [|p [|q parts] Hp Hps IH]; simpl in *; [constructor|done|].
  apply Forall_app. split; [done|]. apply Forall_app. split; [done|]. exact IH.
Qed.

Fixpoint no_float (j : json) : bool :=
  match j with
  | JFloat _ => false
  | JList l => forallb no_float l
  | JObj fs => forallb (λ p, no_float p.2) fs
  | _ => true
  end.

Lemma dumps_printable isep ksep j :
  Forall printable isep → Forall printable ksep → no_float j = true →
  Forall printable (dumps isep ksep j).
Proof.
  intros Hi Hk. induction j as [|[]|z|x|s|l IH|fs IH] using json_nested_ind;
    cbn [dumps no_float]; intros Hf; try done; try (repeat constructor; done).
  - apply str_of_Z_printable.
  - apply dump_str_printable.
  - apply Forall_app. split; [by repeat constructor|]. apply Forall_app.
    split; [|by repeat constructor]. apply join_Forall; [done|]. apply Forall_map.
    rewrite forallb_forall in Hf. rewrite Forall_forall in IH |- *. intros x Hx.
    apply IH; [done|]. apply Hf. by apply list_elem_of_In.
  - apply Forall_app. split; [by repeat constructor|]. apply Forall_app.
    split; [|by repeat constructor]. apply join_Forall; [done|]. apply Forall_map.
    rewrite forallb_forall in Hf. rewrite Forall_forall in IH |- *. intros x Hx.
    apply Forall_app. split; [apply dump_str_printable|]. apply Forall_app. split; [done|].
    apply IH; [done|]. apply Hf. by apply list_elem_of_In.
Qed.
