(* ===== verification/Errors.v ===== *)
(** Exceptions of the service ([app/core/errors.py]) and their mapping to HTTP
    responses.  [exn] also holds the few exceptions of the language and of the
    libraries that the modelled code raises, catches or lets through. *)
From S2P Require Export Json.

(** ** The [AppError] hierarchy *)

Inductive AppErrorClass :=
| AppErrorBase
| NotFoundError
| BadRequestError
| UnauthorizedError
| InvalidStateTransitionError
| RateLimitExceededError.

#[export] Instance AppErrorClass_eq_dec : EqDecision AppErrorClass.
Proof. solve_decision. Defined.

(** The class attributes. *)
Definition status_code (c : AppErrorClass) : Z :=
  match c with
  | AppErrorBase => 500
  | NotFoundError => 404
  | BadRequestError => 400
  | UnauthorizedError => 401
  | InvalidStateTransitionError => 409
  | RateLimitExceededError => 429
  end.

Definition code (c : AppErrorClass) : pystr :=
  match c with
  | AppErrorBase => u"internal_error"
  | NotFoundError => u"not_found"
  | BadRequestError => u"bad_request"
  | UnauthorizedError => u"unauthorized"
  | InvalidStateTransitionError => u"invalid_state_transition"
  | RateLimitExceededError => u"rate_limit_exceeded"
  end.

Definition public_message (c : AppErrorClass) : pystr :=
  match c with
  | AppErrorBase => u"An unexpected error occurred."
  | NotFoundError => u"The requested resource was not found."
  | BadRequestError => u"The request is invalid."
  | UnauthorizedError => u"Authentication is required."
  | InvalidStateTransitionError => u"The requested state transition is not allowed."
  | RateLimitExceededError => u"Too many requests. Please try again later."
  end.

Record AppError := mkAppError { err_class : AppErrorClass; err_message : pystr }.

#[export] Instance AppError_eq_dec : EqDecision AppError.
Proof. solve_decision. Defined.

(** [AppError.__init__]: [message or self.public_message] (an empty message is
    falsy). *)
Definition new_app_error (c : AppErrorClass) (message : option pystr) : AppError :=
  mkAppError c (match message with
                | Some m => if decide (m = []) then public_message c else m
                | None => public_message c
                end).

(** ** All exceptions *)

Inductive exn :=
| AppExn (e : AppError)
(** pydantic's ValidationError, whose text is computed from the model and its input *)
| ValidationExn (model : pystr) (input : json)
| TimeoutExn                    (* asyncio.wait_for ran out of time *)
| AssertionExn
| RecursionExn                  (* the interpreter's recursion limit *)
| ValueExn (message : pystr)
| OverflowExn (message : pystr)
(** sqlalchemy.exc.SQLAlchemyError, with the driver's text, the statement and its
    parameters *)
| StorageExn (text : pystr)
| ProviderExn (name : pystr)    (* any other exception, by name *)
| CancelledExn.                 (* asyncio.CancelledError *)

#[export] Instance exn_eq_dec : EqDecision exn.
Proof. solve_decision. Defined.

(** [except Exception] does not catch [CancelledError], a [BaseException]. *)
Definition is_Exception (e : exn) : bool :=
  match e with CancelledExn => false | _ => true end.

Definition NotFound : exn := AppExn (new_app_error NotFoundError None).
Definition InvalidStateTransition : exn :=
  AppExn (new_app_error InvalidStateTransitionError None).

(** ** Responses *)

Record JSONResponse := mkJSONResponse { resp_status : Z; resp_content : json }.

Definition error_response (request_id : pystr) (status : Z) (c message : pystr) : JSONResponse :=
  mkJSONResponse status
    (JObj [(u"error", JObj [(u"code", JStr c); (u"message", JStr message);
                            (u"request_id", JStr request_id)])]).

(** [getattr(request.state, "request_id", "unknown")]. *)
Definition request_id_or_unknown (request_id : option pystr) : pystr :=
  default (u"unknown") request_id.

Definition app_error_handler (request_id : option pystr) (exc : AppError) : JSONResponse :=
  error_response (request_id_or_unknown request_id) (status_code (err_class exc))
    (code (err_class exc)) (public_message (err_class exc)).

Definition unhandled_error_handler (request_id : option pystr) (exc : exn) : JSONResponse :=
  error_response (request_id_or_unknown request_id) 500 (u"internal_error")
    (u"An unexpected error occurred.").

(** The handlers [create_app] registers, in the order Starlette selects them: the
    [AppError] handler for that class, the [Exception] handler for the rest.
    Pydantic's validation of a *request* never gets here (FastAPI answers 422). *)
Definition handle_exception (request_id : option pystr) (e : exn) : JSONResponse :=
  match e with
  | AppExn a => app_error_handler request_id a
  | _ => unhandled_error_handler request_id e
  end.

(** An error body holds exactly the class's code, its public message and the
    request id. *)
Definition is_error_body (c : AppErrorClass) (request_id : pystr) (j : json) : Prop :=
  j = JObj [(u"error", JObj [(u"code", JStr (code c)); (u"message", JStr (public_message c));
                             (u"request_id", JStr request_id)])].

Lemma code_inj c1 c2 : code c1 = code c2 → c1 = c2.
Proof. by destruct c1, c2; vm_compute. Qed.

Lemma status_code_inj c1 c2 : status_code c1 = status_code c2 → c1 = c2.
Proof. by destruct c1, c2. Qed.
