(* ===== verification/Effects.v ===== *)
(** Effects: fallible results, atomic state transformers and coroutines.

    [res A] is a value or a raised exception; [M S A] is a piece of code that
    runs without giving control back to the event loop, on a state [S] that
    survives exceptions; [co S A] is an [async def]: a finite tree of atomic
    pieces separated by the points where another task may run. *)
From S2P Require Export Errors.

Inductive res (A : Type) :=
| Ok (a : A)
| Raise (e : exn).
Arguments Ok {_} _.
Arguments Raise {_} _.

#[export] Instance res_ret : MRet res := λ A a, Ok a.
#[export] Instance res_bind : MBind res := λ A B f r,
  match r with Ok a => f a | Raise e => Raise e end.

Lemma res_bind_Ok {A B} (m : res A) (k : A → res B) b :
  (m ≫= k) = Ok b ↔ ∃ a, m = Ok a ∧ k a = Ok b.
Proof.
  destruct m as [a|e]; cbn [mbind res_bind]; split; [by eauto|intros (a' & ? & ?); by simplify_eq
  |done|by intros (? & ? & _)].
Qed.

Lemma res_bind_Raise {A B} (m : res A) (k : A → res B) e :
  (m ≫= k) = Raise e ↔ m = Raise e ∨ ∃ a, m = Ok a ∧ k a = Raise e.
Proof.
  destruct m as [a|e']; cbn [mbind res_bind]; split; [by eauto|intros [?|(a' & ? & ?)]; by simplify_eq
  |intros ?; by left; simplify_eq|intros [?|(? & ? & _)]; by simplify_eq].
Qed.

(** ** Atomic code *)

Definition M (S A : Type) : Type := S → res A * S.

#[export] Instance M_ret S : MRet (M S) := λ A a s, (Ok a, s).
#[export] Instance M_bind S : MBind (M S) := λ A B f m s,
  match m s with
  | (Ok a, s') => f a s'
  | (Raise e, s') => (Raise e, s')
  end.

Definition raise {S A} (e : exn) : M S A := λ s, (Raise e, s).
Definition gets {S A} (f : S → A) : M S A := λ s, (Ok (f s), s).
Definition modify {S} (f : S → S) : M S unit := λ s, (Ok tt, f s).
Definition of_res {S A} (r : res A) : M S A := λ s, (r, s).

(** ** The clock

    [datetime.now(UTC)] in microseconds: the readings still to come, the next
    one first.  Nothing is assumed about them (a wall clock may step back). *)
Definition datetime := Z.
Definition clock := nat → datetime.

(** The years 1 to 9999; moving a date outside of them raises [OverflowError]. *)
Definition datetime_min : datetime := (-62135596800000000)%Z.
Definition datetime_max : datetime := 253402300799999999%Z.
Definition datetime_add (t : datetime) (delta : Z) : res datetime :=
  if ((datetime_min <=? t + delta) && (t + delta <=? datetime_max))%Z then Ok (t + delta)%Z
  else Raise (OverflowExn (u"date value out of range")).

Definition now {S} : M (S * clock) datetime :=
  λ '(s, c), (Ok (c 0), (s, λ n, c (1 + n))).
Definition get_state {S} : M (S * clock) S := λ '(s, c), (Ok s, (s, c)).
Definition put_state {S} (s : S) : M (S * clock) unit := λ '(_, c), (Ok tt, (s, c)).

(** Code that takes its times from the clock and from nowhere else. *)
Definition clocked {S A} (m : M (S * clock) A) : Prop := ∀ s c, rest_of c (m (s, c)).2.2.

Section Clocked.
Context {S : Type}.

Lemma clocked_ret {A} (a : A) : clocked (mret a : M (S * clock) A).
Proof. intros s c. reflexivity. Qed.
Lemma clocked_raise {A} e : clocked (raise e : M (S * clock) A).
Proof. intros s c. reflexivity. Qed.
Lemma clocked_of_res {A} (r : res A) : clocked (of_res r : M (S * clock) A).
Proof. intros s c. reflexivity. Qed.
Lemma clocked_get : clocked (get_state : M (S * clock) S).
Proof. intros s c. reflexivity. Qed.
Lemma clocked_put s : clocked (put_state s : M (S * clock) unit).
Proof. intros s' c. reflexivity. Qed.
Lemma clocked_now : clocked (now : M (S * clock) datetime).
Proof. intros s c. apply rest_of_next. Qed.
Lemma clocked_bind {A B} (m : M (S * clock) A) (k : A → M (S * clock) B) :
  clocked m → (∀ a, clocked (k a)) → clocked (m ≫= k).
Proof.
  intros Hm Hk s c. unfold mbind, M_bind. specialize (Hm s c).
  destruct (m (s, c)) as [[a|e] [s' c']]; simpl in *; [etrans; [exact Hm|apply Hk]|exact Hm].
Qed.
End Clocked.

Create HintDb clocked.
#[export] Hint Resolve clocked_ret clocked_raise clocked_of_res clocked_get clocked_put clocked_now : clocked.

(** Walk through the code, whatever it branches on. *)
Ltac solve_clocked :=
  repeat first
    [ solve [eauto with clocked]
    | apply clocked_bind; [|intros ?]
    | match goal with |- clocked (match ?x with _ => _ end) => destruct x end
    | progress cbv zeta ].

(** ** Coroutines *)

(** [Step next eff]: from state [s] the piece of code leaves the state [eff s] and
    the task [next s] still to run. *)
Inductive co (S A : Type) :=
| Done (r : res A)
| Step (next : S → co S A) (eff : S → S).
Arguments Done {_ _} _.
Arguments Step {_ _} _ _.

Fixpoint co_bind {S A B} (k : A → co S B) (c : co S A) : co S B :=
  match c with
  | Done (Ok a) => k a
  | Done (Raise e) => Done (Raise e)
  | Step next eff => Step (λ s, co_bind k (next s)) eff
  end.

#[export] Instance co_ret S : MRet (co S) := λ A a, Done (Ok a).
#[export] Instance co_bind_inst S : MBind (co S) := λ A B k c, co_bind k c.

(** One atomic piece of code, after which other tasks may run. *)
Definition atomically {S A} (m : M S A) : co S A :=
  Step (λ s, Done (m s).1) (λ s, (m s).2).

(** [try: c  except Exception as e: h e]. *)
Fixpoint co_except {S A} (c : co S A) (h : exn → co S A) : co S A :=
  match c with
  | Done (Ok a) => Done (Ok a)
  | Done (Raise e) => if is_Exception e then h e else Done (Raise e)
  | Step next eff => Step (λ s, co_except (next s) h) eff
  end.

(** [try: c  finally: fin], for a clean-up that neither raises nor waits; it may depend
    on the outcome of [c]. *)
Fixpoint co_finally {S A} (c : co S A) (fin : res A → S → S) : co S A :=
  match c with
  | Done r => Step (λ _, Done r) (fin r)
  | Step next eff => Step (λ s, co_finally (next s) fin) eff
  end.

(** A loop unfolded a number of times returns whether it has ended. *)
Definition ended (r : res bool) : bool := match r with Ok b => b | Raise _ => true end.

Definition failure {A} (r : res A) : option exn :=
  match r with Ok _ => None | Raise e => Some e end.

(** Run to completion with no other task in between. *)
Fixpoint run {S A} (c : co S A) (s : S) : res A * S :=
  match c with
  | Done r => (r, s)
  | Step next eff => run (next s) (eff s)
  end.

(** ** Running *)

Section Run.
Context {S : Type}.

Lemma run_bind {A B} (c : co S A) (k : A → co S B) s :
  run (c ≫= k) s =
  match run c s with
  | (Ok a, s') => run (k a) s'
  | (Raise e, s') => (Raise e, s')
  end.
Proof.
  unfold mbind, co_bind_inst. revert s.
  induction c as [[a|e]|next IH eff]; intros s; simpl; auto.
Qed.

Lemma run_atomically {A} (m : M S A) s : run (atomically m) s = m s.
Proof. simpl. by destruct (m s). Qed.

Lemma run_except {A} (c : co S A) h s :
  run (co_except c h) s =
  match run c s with
  | (Ok a, s') => (Ok a, s')
  | (Raise e, s') => if is_Exception e then run (h e) s' else (Raise e, s')
  end.
Proof.
  revert s. induction c as [[a|e]|next IH eff]; intros s; simpl; auto. by case_match.
Qed.

Lemma run_finally {A} (c : co S A) fin s :
  run (co_finally c fin) s = let '(r, s') := run c s in (r, fin r s').
Proof. revert s. induction c as [r|next IH eff]; intros s; simpl; auto. Qed.

Lemma run_ret {A} (a : A) s : run (mret a : co S A) s = (Ok a, s).
Proof. done. Qed.
End Run.

(** ** Interleaving

    A pool of tasks: at every turn the event loop picks one task and runs its next
    atomic piece. *)
Section Pool.
Context {S : Type}.

Inductive pool_step : list (co S unit) * S → list (co S unit) * S → Prop :=
| pool_run ts1 next eff ts2 s :
    pool_step (ts1 ++ Step next eff :: ts2, s) (ts1 ++ next s :: ts2, eff s).

(** A concrete schedule: the tasks to run next, by position. *)
Fixpoint schedule (ks : list nat) (p : list (co S unit) * S) : list (co S unit) * S :=
  match ks with
  | [] => p
  | k :: ks =>
      schedule ks match p.1 !! k with
                  | Some (Step next eff) => (<[k := next p.2]> p.1, eff p.2)
                  | _ => p
                  end
  end.

Lemma schedule_steps ks p : rtc pool_step p (schedule ks p).
Proof.
  revert p. induction ks as [|k ks IH]; intros [ts s]; simpl; [done|].
  destruct (ts !! k) as [[r|next eff]|] eqn:Hk; [apply IH| |apply IH].
  eapply rtc_l; [|apply IH].
  rewrite <- (take_drop_middle ts k _ Hk) at 1.
  rewrite insert_take_drop by (by eapply lookup_lt_Some). apply pool_run.
Qed.

Context (P : S → Prop) (R : S → S → Prop).

(** A task seen from state [s0]: whatever the other tasks did since (the state moved
    along [R] and [P] holds), its next atomic piece keeps [P] and moves the state along
    [R], and its outcome satisfies [Q].  What is known of [s0] and stable under [R] is
    thus still known after every interruption. *)
Fixpoint steps_along {A} (Q : res A → S → Prop) (c : co S A) (s0 : S) : Prop :=
  match c with
  | Done r => ∀ s, P s → R s0 s → Q r s
  | Step next eff =>
      ∀ s, P s → R s0 s → P (eff s) ∧ R s (eff s) ∧ steps_along Q (next s) (eff s)
  end.

Definition any {A} (r : res A) (s : S) : Prop := True.
Definition okay {A} (Q : A → S → Prop) (r : res A) (s : S) : Prop :=
  match r with Ok a => Q a s | Raise _ => True end.

Context `{!PreOrder R}.

Lemma along_later {A} (Q : res A → S → Prop) c s0 s1 :
  steps_along Q c s0 → R s0 s1 → steps_along Q c s1.
Proof. intros Hc H01. destruct c; simpl in *; intros s Hs H1s; apply Hc; try done; by etrans. Qed.

Lemma along_weaken {A} (Q Q' : res A → S → Prop) c s0 :
  steps_along Q c s0 → (∀ r s, P s → R s0 s → Q r s → Q' r s) → steps_along Q' c s0.
Proof.
  revert s0. induction c as [r|next IH eff]; simpl; intros s0 Hc HQ s Hs H0; [by auto|].
  destruct (Hc s Hs H0) as (? & ? & Hn). split_and!; [done..|]. apply (IH _ _ Hn).
  intros r s' ???. apply HQ; [done| |done]. etrans; [done|]. by etrans.
Qed.

Lemma along_ret {A} (Q : res A → S → Prop) (a : A) s0 :
  (∀ s, P s → R s0 s → Q (Ok a) s) → steps_along Q (mret a : co S A) s0.
Proof. done. Qed.

Lemma along_atomically {A} (Q : res A → S → Prop) (m : M S A) s0 :
  (∀ s, P s → R s0 s → P (m s).2 ∧ R s (m s).2
        ∧ ∀ s', P s' → R (m s).2 s' → Q (m s).1 s') →
  steps_along Q (atomically m) s0.
Proof. intros H s Hs H0. by destruct (H s Hs H0). Qed.

Lemma along_bind {A B} (Q : res A → S → Prop) (Q' : res B → S → Prop) c (k : A → co S B) s0 :
  P s0 → steps_along Q c s0 →
  (∀ a s, P s → R s0 s → Q (Ok a) s → steps_along Q' (k a) s) →
  (∀ e s, P s → R s0 s → Q (Raise e) s → Q' (Raise e) s) →
  steps_along Q' (c ≫= k) s0.
Proof.
  unfold mbind, co_bind_inst. revert s0. induction c as [[a|e]|next IH eff]; simpl;
    intros s0 H0 Hc Hk He.
  - apply Hk; [done..|]. by apply Hc.
  - intros s Hs H0s. apply He; [done..|]. by apply Hc.
  - intros s Hs H0s. destruct (Hc s Hs H0s) as (? & ? & ?). split_and!; [done..|].
    apply IH; [done..| |]; intros x s' ???; [apply Hk|apply He]; try done;
      (etrans; [done|]; by etrans).
Qed.

Lemma along_except {A} (Q Q' : res A → S → Prop) c h s0 :
  P s0 → steps_along Q c s0 →
  (∀ a s, P s → R s0 s → Q (Ok a) s → Q' (Ok a) s) →
  (∀ e s, P s → R s0 s → Q (Raise e) s →
     if is_Exception e then steps_along Q' (h e) s else Q' (Raise e) s) →
  steps_along Q' (co_except c h) s0.
Proof.
  revert s0. induction c as [[a|e]|next IH eff]; simpl; intros s0 H0 Hc Hk He.
  - intros s Hs H0s. apply Hk; [done..|]. by apply Hc.
  - destruct (is_Exception e) eqn:E.
    + pose proof (He e s0 H0 ltac:(done)) as H. rewrite E in H. apply H. by apply Hc.
    + intros s Hs H0s. pose proof (He e s Hs H0s) as H. rewrite E in H. apply H. by apply Hc.
  - intros s Hs H0s. destruct (Hc s Hs H0s) as (? & ? & ?). split_and!; [done..|].
    apply IH; [done..| |]; intros x s' ???; [apply Hk|apply He]; try done;
      (etrans; [done|]; by etrans).
Qed.

Lemma along_finally {A} (Q : res A → S → Prop) c fin s0 :
  steps_along Q c s0 →
  (∀ r s, P s → P (fin r s) ∧ R s (fin r s)) →
  (∀ r s s', R s s' → P s' → Q r s → Q r s') →
  steps_along Q (co_finally c fin) s0.
Proof.
  intros Hc Hf Hstable. revert s0 Hc. induction c as [r|next IH eff]; simpl; intros s0 Hc s Hs H0s.
  - destruct (Hf r s Hs). split_and!; [done..|]. intros s' Hs' ?.
    apply (Hstable r s); [by etrans|done|by apply Hc].
  - destruct (Hc s Hs H0s) as (? & ? & ?). split_and!; [done..|]. by apply IH.
Qed.

(** Whatever the scheduler does, a pool of such tasks keeps [P] and moves the state
    along [R], and every task that has ended satisfied its outcome when it did. *)
Lemma pool_along (Q : res unit → S → Prop) ts s ts' s' :
  rtc pool_step (ts, s) (ts', s') → P s → Forall (λ c, steps_along Q c s) ts →
  P s' ∧ R s s' ∧ Forall (λ c, steps_along Q c s') ts'.
Proof.
  intros Hrtc. remember (ts, s) as p eqn:Hp. remember (ts', s') as p' eqn:Hp'.
  revert ts s Hp. induction Hrtc as [p|p q r Hstep Hrtc IH]; intros ts s -> Hs Hts;
    [simplify_eq; by split_and!|].
  inversion Hstep as [ts1 next eff ts2 s0]; simplify_eq.
  apply Forall_app in Hts as [Hts1 [Hc Hts2]%Forall_cons].
  destruct (Hc s Hs ltac:(done)) as (Hs' & HR & Hnext).
  destruct (IH eq_refl _ _ eq_refl Hs') as (? & ? & ?).
  { apply Forall_app. split; [|apply Forall_cons; split; [done|]].
    - eapply Forall_impl; [exact Hts1|]. intros c Hcs. exact (along_later _ _ _ _ Hcs HR).
    - eapply Forall_impl; [exact Hts2|]. intros c Hcs. exact (along_later _ _ _ _ Hcs HR). }
  split_and!; [done|by etrans|done].
Qed.

(** A task run alone is one schedule of the pool. *)
Lemma run_along {A} (Q : res A → S → Prop) (c : co S A) s :
  steps_along Q c s → P s → P (run c s).2 ∧ R s (run c s).2 ∧ Q (run c s).1 (run c s).2.
Proof.
  revert s. induction c as [r|next IH eff]; simpl; intros s Hc Hs; [by split_and!; [| |apply Hc]|].
  destruct (Hc s Hs ltac:(done)) as (Hs' & HR & Hnext).
  destruct (IH s (eff s) Hnext Hs') as (? & ? & ?). split_and!; [done|by etrans|done].
Qed.
End Pool.

(** ** Steps along one relation

    Code every piece of which moves the state along [F], whatever the other tasks do. *)
Section Kept.
Context {S : Type} (F : S → S → Prop) `{!PreOrder F}.

Definition kept_code {A} (c : co S A) : Prop := ∀ s, steps_along (λ _, True) F any c s.

Lemma kept_done {A} (r : res A) : kept_code (Done r).
Proof. done. Qed.
Lemma kept_bind {A B} (c : co S A) (k : A → co S B) :
  kept_code c → (∀ a, kept_code (k a)) → kept_code (c ≫= k).
Proof. intros Hc Hk s. apply (along_bind _ _ any); [done|apply Hc|intros; apply Hk|done]. Qed.
Lemma kept_except {A} (c : co S A) h :
  kept_code c → (∀ e, kept_code (h e)) → kept_code (co_except c h).
Proof.
  intros Hc Hh s. apply (along_except _ _ any); [done|apply Hc|done|].
  intros e s' _ _ _. destruct (is_Exception e); [apply Hh|done].
Qed.
Lemma kept_finally {A} (c : co S A) fin :
  kept_code c → (∀ r s, F s (fin r s)) → kept_code (co_finally c fin).
Proof. intros Hc Hf s. apply along_finally; [apply _|apply Hc|by split|done]. Qed.
Lemma kept_piece {A} (m : M S A) : (∀ s, F s (m s).2) → kept_code (atomically m).
Proof. intros Hm s. apply along_atomically. intros s' _ _. by split_and!. Qed.
Lemma kept_run {A} (c : co S A) s : kept_code c → F s (run c s).2.
Proof. intros Hc. by destruct (run_along _ _ _ c s (Hc s) I) as (_ & ? & _). Qed.
End Kept.

(** ** A task that relies on the others

    [under_rely R Q c s0]: if all that other tasks do between the pieces of [c] moves the
    state along [R], then [c] ends in [Q]; of its own pieces nothing is asked. *)
Section Rely.
Context {S : Type} (R : S → S → Prop).

Fixpoint under_rely {A} (Q : res A → S → Prop) (c : co S A) (s0 : S) : Prop :=
  match c with
  | Done r => ∀ s, R s0 s → Q r s
  | Step next eff => ∀ s, R s0 s → under_rely Q (next s) (eff s)
  end.

Context `{!PreOrder R}.

Lemma rely_later {A} (Q : res A → S → Prop) c s0 s1 :
  under_rely Q c s0 → R s0 s1 → under_rely Q c s1.
Proof. intros Hc H01. destruct c; simpl in *; intros s H1s; apply Hc; by etrans. Qed.

Lemma rely_weaken {A} (Q Q' : res A → S → Prop) c s0 :
  under_rely Q c s0 → (∀ r s, Q r s → Q' r s) → under_rely Q' c s0.
Proof. revert s0. induction c as [r|next IH eff]; simpl; intros s0 Hc HQ s Hs; eauto. Qed.

Lemma rely_ret {A} (Q : res A → S → Prop) (a : A) s0 :
  (∀ s, R s0 s → Q (Ok a) s) → under_rely Q (mret a : co S A) s0.
Proof. done. Qed.

Lemma rely_atomically {A} (Q : res A → S → Prop) (m : M S A) s0 :
  (∀ s s', R s0 s → R (m s).2 s' → Q (m s).1 s') → under_rely Q (atomically m) s0.
Proof. intros H s Hs s' Hs'. by apply H. Qed.

Lemma rely_bind {A B} (Q : res B → S → Prop) (c : co S A) (k : A → co S B) s0 :
  under_rely (λ r s, match r with Ok a => under_rely Q (k a) s | Raise e => Q (Raise e) s end) c s0 →
  under_rely Q (c ≫= k) s0.
Proof.
  unfold mbind, co_bind_inst. revert s0. induction c as [[a|e]|next IH eff]; simpl; intros s0 Hc.
  - apply Hc. reflexivity.
  - exact Hc.
  - intros s Hs. by apply IH, Hc.
Qed.

(** An exception is dealt with from the state it was raised in. *)
Lemma rely_except {A} (Q : res A → S → Prop) (c : co S A) h s0 :
  under_rely (λ r s, match r with
                     | Ok a => Q (Ok a) s
                     | Raise e => if is_Exception e then under_rely Q (h e) s else Q (Raise e) s
                     end) c s0 →
  under_rely Q (co_except c h) s0.
Proof.
  revert s0. induction c as [[a|e]|next IH eff]; simpl; intros s0 Hc.
  - exact Hc.
  - destruct (is_Exception e); [apply Hc; reflexivity|exact Hc].
  - intros s Hs. by apply IH, Hc.
Qed.

Lemma rely_finally {A} (Q : res A → S → Prop) (c : co S A) fin s0 :
  under_rely (λ r s, ∀ s', R (fin r s) s' → Q r s') c s0 → under_rely Q (co_finally c fin) s0.
Proof.
  revert s0. induction c as [r|next IH eff]; simpl; intros s0 Hc s Hs.
  - intros s' Hs'. by eapply Hc.
  - by apply IH, Hc.
Qed.

(** Tasks that move along [R] give the others what they rely on. *)
Lemma rely_kept {A} (P : S → Prop) (c : co S A) s0 :
  (∀ s s', P s → R s s' → P s') → kept_code R c → P s0 → under_rely (λ _, P) c s0.
Proof.
  intros Hstable Hc. specialize (Hc s0). revert s0 Hc.
  induction c as [r|next IH eff]; simpl; intros s0 Hc Hp s Hs; [by eapply Hstable|].
  destruct (Hc s I Hs) as (_ & HR & Hn). apply IH; [exact Hn|]. eapply Hstable; [|exact HR]. by eapply Hstable.
Qed.

Lemma rely_and {A} (Q Q' : res A → S → Prop) c s0 :
  under_rely Q c s0 → under_rely Q' c s0 → under_rely (λ r s, Q r s ∧ Q' r s) c s0.
Proof. revert s0. induction c as [r|next IH eff]; simpl; intros s0 H1 H2 s Hs; [auto|]. apply IH; auto. Qed.
End Rely.

Lemma rely_stronger {S A} (R R' : S → S → Prop) (Q : res A → S → Prop) c s0 :
  (∀ s s', R' s s' → R s s') → under_rely R Q c s0 → under_rely R' Q c s0.
Proof. intros HR. revert s0. induction c as [r|next IH eff]; simpl; intros s0 Hc s Hs; [auto|]. apply IH. auto. Qed.

(** ** What single pieces do

    Every piece of the code, from any state of [P], moves the state along [R]. *)
Section Each.
Context {S : Type} (P : S → Prop) (R : S → S → Prop).

Fixpoint each_piece {A} (c : co S A) : Prop :=
  match c with
  | Done _ => True
  | Step next eff => ∀ s, P s → R s (eff s) ∧ each_piece (next s)
  end.

Lemma each_bind {A B} (c : co S A) (k : A → co S B) :
  each_piece c → (∀ a, each_piece (k a)) → each_piece (c ≫= k).
Proof.
  unfold mbind, co_bind_inst. intros Hc Hk. induction c as [[a|e]|next IH eff]; simpl in *; [done|done|].
  intros s Hs. destruct (Hc s Hs). auto.
Qed.
Lemma each_except {A} (c : co S A) h :
  each_piece c → (∀ e, each_piece (h e)) → each_piece (co_except c h).
Proof.
  intros Hc Hh. induction c as [[a|e]|next IH eff]; simpl in *; [done| |].
  - case_match; [apply Hh|done].
  - intros s Hs. destruct (Hc s Hs). auto.
Qed.
Lemma each_atomically {A} (m : M S A) : (∀ s, P s → R s (m s).2) → each_piece (atomically m).
Proof. intros Hm s Hs. split; [by apply Hm|done]. Qed.
End Each.

Lemma each_weaken {S A} (P P' : S → Prop) (R R' : S → S → Prop) (c : co S A) :
  (∀ s, P' s → P s) → (∀ s s', R s s' → R' s s') → each_piece P R c → each_piece P' R' c.
Proof.
  intros HP HR. induction c as [r|next IH eff]; simpl; [done|]. intros Hc s Hs.
  destruct (Hc s (HP s Hs)). auto.
Qed.

Lemma each_and {S A} (P : S → Prop) (R R' : S → S → Prop) (c : co S A) :
  each_piece P R c → each_piece P R' c → each_piece P (λ s s', R s s' ∧ R' s s') c.
Proof.
  induction c as [r|next IH eff]; simpl; [done|]. intros H1 H2 s Hs.
  destruct (H1 s Hs), (H2 s Hs). auto.
Qed.

Lemma each_run {S A} (R : S → S → Prop) `{!PreOrder R} (c : co S A) s :
  each_piece (λ _, True) R c → R s (run c s).2.
Proof.
  revert s. induction c as [r|next IH eff]; simpl; intros s Hc; [done|]. destruct (Hc s I).
  etrans; [eassumption|auto].
Qed.

(** ** Fair schedules

    All tasks keep [P] and move the state along [L]; the pieces of the others move it along
    [R] besides. *)
Section Fair.
Context {S : Type} (P : S → Prop) (L R : S → S → Prop) `{!PreOrder L, !PreOrder R}.

(** What happens between two turns of a task. *)
Definition amid (s s' : S) : Prop := (P s → P s') ∧ L s s' ∧ R s s'.

#[export] Instance amid_preorder : PreOrder amid.
Proof.
  split; [intros s; by split_and!|]. intros s1 s2 s3 (? & ? & ?) (? & ? & ?).
  split_and!; [auto|by etrans|by etrans].
Qed.

(** The schedule picks task [k] again and again. *)
Definition fair (sched : nat → nat) (k : nat) : Prop := ∀ n, ∃ m, n ≤ m ∧ sched m = k.

(** The pool after the first [n] turns of a schedule. *)
Definition turns (sched : nat → nat) (n : nat) (p : list (co S unit) * S) : list (co S unit) * S :=
  schedule (sched <$> seq 0 n) p.

Lemma schedule_app ks ks' (p : list (co S unit) * S) :
  schedule (ks ++ ks') p = schedule ks' (schedule ks p).
Proof. revert p. induction ks as [|k ks IH]; intros p; [done|]. apply IH. Qed.

Lemma turns_S sched n (p : list (co S unit) * S) :
  turns sched (1 + n) p = schedule [sched n] (turns sched n p).
Proof. unfold turns. rewrite Nat.add_1_l, seq_S, fmap_app. apply schedule_app. Qed.

Lemma turns_reach sched n m (p : list (co S unit) * S) :
  n ≤ m → rtc pool_step (turns sched n p) (turns sched m p).
Proof.
  intros Hle. unfold turns. replace m with (n + (m - n)) by lia. rewrite seq_app, fmap_app, schedule_app.
  apply schedule_steps.
Qed.

(** A pool all of whose tasks keep [P] and move along [L], the others along [R]. *)
Record pool_ok (k : nat) (p : list (co S unit) * S) : Prop := {
  ok_state : P p.2;
  ok_tasks : Forall (λ c, steps_along P L any c p.2) p.1;
  ok_others i c : i ≠ k → p.1 !! i = Some c → each_piece P R c;
}.

(** A turn of another task. *)
Lemma turn_of_other k i c p :
  i ≠ k → p.1 !! k = Some c → pool_ok k p →
  let p' := schedule [i] p in p'.1 !! k = Some c ∧ amid p.2 p'.2 ∧ pool_ok k p'.
Proof.
  destruct p as [ts s]. intros Hi Hk [Hs Hsafe Ho]. cbn [fst snd] in *.
  destruct (pool_along P L any ts s (schedule [i] (ts, s)).1 (schedule [i] (ts, s)).2) as (Hs' & HL & Hsafe');
    [rewrite <- surjective_pairing; apply schedule_steps|done|done|].
  assert ((schedule [i] (ts, s)).1 !! k = Some c ∧ R s (schedule [i] (ts, s)).2
          ∧ ∀ j c', j ≠ k → (schedule [i] (ts, s)).1 !! j = Some c' → each_piece P R c') as (Hk' & HR & Ho').
  { simpl. destruct (ts !! i) as [[r|next eff]|] eqn:E; [by split_and!| |by split_and!].
    destruct (Ho i _ Hi E s Hs) as [HR Hn]. cbn [fst snd]. split_and!; [|done|].
    - by rewrite list_lookup_insert_ne.
    - intros j c' Hj Hc'. destruct (decide (j = i)) as [->|Hji].
      + rewrite list_lookup_insert_eq in Hc' by (by eapply lookup_lt_Some). by injection Hc' as <-.
      + rewrite list_lookup_insert_ne in Hc' by done. by apply (Ho j). }
  split_and!; [done|by split_and!|by constructor].
Qed.

(** Until task [k] gets its next turn. *)
Lemma next_turn sched k c n m (p : list (co S unit) * S) :
  let p0 := turns sched n p in
  n ≤ m → (∀ i, n ≤ i < m → sched i ≠ k) → p0.1 !! k = Some c → pool_ok k p0 →
  let p1 := turns sched m p in p1.1 !! k = Some c ∧ amid p0.2 p1.2 ∧ pool_ok k p1.
Proof.
  intros p0 Hle. induction Hle as [|m Hle IH]; intros Hother Hk Ho; [by split_and!|].
  destruct IH as (Hk1 & HR1 & Ho1); [intros i Hi; apply Hother; lia|done..|].
  change (Datatypes.S m) with (1 + m). cbv zeta. rewrite turns_S.
  destruct (turn_of_other k (sched m) c (turns sched m p)) as (? & ? & ?); [apply Hother; lia|done..|].
  split_and!; [done|by etrans|done].
Qed.

Lemma next_time sched k n : fair sched k → ∃ m, n ≤ m ∧ sched m = k ∧ ∀ i, n ≤ i < m → sched i ≠ k.
Proof.
  intros Hf. destruct (Hf n) as (m & Hle & Hm). revert Hle Hm.
  induction (lt_wf m) as [m _ IH]. intros Hle Hm.
  destruct (decide (Exists (λ i, sched i = k) (seq n (m - n)))) as [Hex|Hno].
  - apply Exists_exists in Hex as (i & Hin%elem_of_seq & Hi). apply (IH i); [lia..|done].
  - exists m. split_and!; [done..|]. intros i Hi E. apply Hno, Exists_exists. exists i.
    rewrite elem_of_seq. split; [lia|done].
Qed.

(** Under a fair schedule the task comes to its end, and its promise holds then. *)
Lemma rely_ends (Q : res unit → S → Prop) sched k (p : list (co S unit) * S) (c : co S unit) :
  fair sched k → ∀ n, let p0 := turns sched n p in
  p0.1 !! k = Some c → under_rely amid Q c p0.2 → pool_ok k p0 →
  ∃ m r, (turns sched m p).1 !! k = Some (Done r) ∧ Q r (turns sched m p).2 ∧ pool_ok k (turns sched m p).
Proof.
  intros Hf. induction c as [r|next IH eff]; intros n p0 Hk Hc Ho.
  { exists n, r. split; [done|]. split; [|done]. apply Hc. reflexivity. }
  destruct (next_time sched k n Hf) as (m & Hnm & Hm & Hother).
  destruct (next_turn sched k _ n m p Hnm Hother Hk Ho) as (Hk1 & HR & [Hs1 Hsafe1 Ho1]).
  assert (turns sched (1 + m) p
          = (<[k := next (turns sched m p).2]> (turns sched m p).1, eff (turns sched m p).2)) as Hstep.
  { rewrite turns_S, Hm. simpl. by rewrite Hk1. }
  assert (pool_ok k (turns sched (1 + m) p)) as Hok.
  { pose proof (turns_reach sched m (1 + m) p ltac:(lia)) as Hrtc.
    rewrite (surjective_pairing (turns sched m p)), (surjective_pairing (turns sched (1 + m) p)) in Hrtc.
    destruct (pool_along P L any _ _ _ _ Hrtc Hs1 Hsafe1) as (? & _ & ?). constructor; [done..|].
    rewrite Hstep. cbn [fst]. intros i c' Hi Hc'. rewrite list_lookup_insert_ne in Hc' by done. by apply (Ho1 i). }
  apply (IH (turns sched m p).2 (1 + m)); [| |done]; rewrite Hstep; cbn [fst snd].
  - apply list_lookup_insert_eq. by eapply lookup_lt_Some.
  - by apply Hc.
Qed.

(** Later turns keep moving along [L]. *)
Lemma turns_along sched k n m (p : list (co S unit) * S) :
  n ≤ m → pool_ok k (turns sched n p) →
  P (turns sched m p).2 ∧ L (turns sched n p).2 (turns sched m p).2.
Proof.
  intros Hle [Hs Hsafe _]. pose proof (turns_reach sched n m p Hle) as Hrtc.
  rewrite (surjective_pairing (turns sched n p)), (surjective_pairing (turns sched m p)) in Hrtc.
  by destruct (pool_along P L any _ _ _ _ Hrtc Hs Hsafe) as (? & ? & _).
Qed.
End Fair.

(** ** Lenses: running a component's code on a part of the state *)

Definition zoom {S T A} (get : S → T) (set : T → S → S) (m : M T A) : M S A :=
  λ s, let '(r, t) := m (get s) in (r, set t s).
