(* ===== verification/Bytes.v ===== *)
(** Bytes: the codecs of the standard library the service uses, that is UTF-8, the
    encodings [json.loads] recognises, and base64. *)
From S2P Require Export Effects.

(** A byte is a number below 256. *)
Notation bytes := (list N).
Definition is_byte (b : N) : Prop := (b < 256)%N.

Definition unicode_error {A} : res A := Raise (ValueExn (u"UnicodeError")).

(** ** UTF-8 *)

Definition utf8_char (c : N) : bytes :=
  (if c <? 0x80 then [c]
   else if c <? 0x800 then [0xc0 + c / 64; 0x80 + c mod 64]
   else if c <? 0x10000 then [0xe0 + c / 4096; 0x80 + (c / 64) mod 64; 0x80 + c mod 64]
   else [0xf0 + c / 262144; 0x80 + (c / 4096) mod 64; 0x80 + (c / 64) mod 64; 0x80 + c mod 64])%N.

(** [s.encode("utf-8")]: a lone surrogate cannot be encoded. *)
Fixpoint utf8_encode (s : pystr) : res bytes :=
  match s with
  | [] => Ok []
  | c :: s => if is_surrogate c then unicode_error
              else r ← utf8_encode s; Ok (utf8_char c ++ r)
  end.

(** [s.encode("ascii")]. *)
Definition is_ascii (c : N) : bool := (c <? 128)%N.
Definition ascii_encode (s : pystr) : res bytes :=
  if forallb is_ascii s then Ok s else unicode_error.

Definition continuation (b : N) : bool := ((0x80 <=? b) && (b <=? 0xbf))%N.
Definition between (lo hi b : N) : bool := ((lo <=? b) && (b <=? hi))%N.

(** [b.decode("utf-8", "surrogatepass")]: surrogates are decoded like other characters,
    overlong forms and values above the last code point are errors. *)
Fixpoint utf8_decode (bs : bytes) : res pystr :=
  match bs with
  | [] => Ok []
  | b :: r =>
      if (b <? 0x80)%N then s ← utf8_decode r; Ok (b :: s)
      else if between 0xc2 0xdf b then
        match r with
        | b1 :: r =>
            if continuation b1 then s ← utf8_decode r; Ok (((b - 0xc0) * 64 + (b1 - 0x80))%N :: s)
            else unicode_error
        | _ => unicode_error
        end
      else if between 0xe0 0xef b then
        match r with
        | b1 :: b2 :: r =>
            if between (if (b =? 0xe0)%N then 0xa0 else 0x80)%N 0xbf b1 && continuation b2
            then s ← utf8_decode r;
                 Ok (((b - 0xe0) * 4096 + (b1 - 0x80) * 64 + (b2 - 0x80))%N :: s)
            else unicode_error
        | _ => unicode_error
        end
      else if between 0xf0 0xf4 b then
        match r with
        | b1 :: b2 :: b3 :: r =>
            if between (if (b =? 0xf0)%N then 0x90 else 0x80)%N (if (b =? 0xf4)%N then 0x8f else 0xbf)%N b1
               && continuation b2 && continuation b3
            then s ← utf8_decode r;
                 Ok (((b - 0xf0) * 262144 + (b1 - 0x80) * 4096 + (b2 - 0x80) * 64 + (b3 - 0x80))%N :: s)
            else unicode_error
        | _ => unicode_error
        end
      else unicode_error
  end.

(** ** UTF-16 and UTF-32, with "surrogatepass" *)

Definition unit16 (big : bool) (a b : N) : N := (if big then a * 256 + b else b * 256 + a)%N.
Definition unit32 (big : bool) (a b c d : N) : N :=
  (if big then ((a * 256 + b) * 256 + c) * 256 + d else ((d * 256 + c) * 256 + b) * 256 + a)%N.

Fixpoint units16 (big : bool) (bs : bytes) : res (list N) :=
  match bs with
  | [] => Ok []
  | a :: b :: r => s ← units16 big r; Ok (unit16 big a b :: s)
  | _ => unicode_error
  end.

(** A high surrogate followed by a low one is one character. *)
Fixpoint pair_units (us : list N) : pystr :=
  match us with
  | a :: ((b :: us') as r) =>
      if is_high a && is_low b then join_surrogates a b :: pair_units us' else a :: pair_units r
  | us => us
  end.

Definition utf16_decode (big : bool) (bs : bytes) : res pystr :=
  us ← units16 big bs; Ok (pair_units us).

Fixpoint utf32_decode (big : bool) (bs : bytes) : res pystr :=
  match bs with
  | [] => Ok []
  | a :: b :: c :: d :: r =>
      let ch := unit32 big a b c d in
      if (ch <=? 0x10ffff)%N then s ← utf32_decode big r; Ok (ch :: s) else unicode_error
  | _ => unicode_error
  end.

(** *** [json.detect_encoding] and the decoding of [json.loads] *)

Inductive encoding := UTF8 | UTF8_sig | UTF16 (big : bool) | UTF16_bom | UTF32 (big : bool) | UTF32_bom.

Definition detect_encoding (b : bytes) : encoding :=
  if starts_with [0; 0; 0xfe; 0xff]%N b || starts_with [0xff; 0xfe; 0; 0]%N b then UTF32_bom
  else if starts_with [0xfe; 0xff]%N b || starts_with [0xff; 0xfe]%N b then UTF16_bom
  else if starts_with [0xef; 0xbb; 0xbf]%N b then UTF8_sig
  else match b with
  | b0 :: b1 :: b2 :: b3 :: _ =>
      if (b0 =? 0)%N then (if (b1 =? 0)%N then UTF32 true else UTF16 true)
      else if (b1 =? 0)%N then (if (b2 =? 0)%N && (b3 =? 0)%N then UTF32 false else UTF16 false)
      else UTF8
  | [b0; b1] => if (b0 =? 0)%N then UTF16 true else if (b1 =? 0)%N then UTF16 false else UTF8
  | _ => UTF8
  end.

(** [b.decode(encoding, "surrogatepass")]; a byte order mark is dropped. *)
Definition decode (e : encoding) (b : bytes) : res pystr :=
  match e with
  | UTF8 => utf8_decode b
  | UTF8_sig => utf8_decode (drop 3 b)
  | UTF16 big => utf16_decode big b
  | UTF16_bom => utf16_decode (starts_with [0xfe; 0xff]%N b) (drop 2 b)
  | UTF32 big => utf32_decode big b
  | UTF32_bom => utf32_decode (starts_with [0; 0; 0xfe; 0xff]%N b) (drop 4 b)
  end.

(** [json.loads(b)] on bytes: a value, a [ValueError], or the recursion limit. *)
Definition json_loads_bytes (depth : nat) (b : bytes) : res json :=
  s ← decode (detect_encoding b) b;
  match json_loads depth s with
  | Parsed v => Ok v
  | BadSyntax => Raise (ValueExn (u"JSONDecodeError"))
  | TooDeep => Raise RecursionExn
  end.

(** ** Base64 *)

(** The six bits of an alphabet character, [+] and [/] being the last two. *)
Definition sextet_char (n : N) : N :=
  (if n <? 26 then 65 + n else if n <? 52 then 71 + n else if n <? 62 then n - 4
   else if n =? 62 then 43 else 47)%N.
Definition char_sextet (c : N) : option N :=
  (if between 65 90 c then Some (c - 65) else if between 97 122 c then Some (c - 71)
   else if between 48 57 c then Some (c + 4) else if c =? 43 then Some 62
   else if c =? 47 then Some 63 else None)%N.

(** [base64.b64encode]. *)
Fixpoint b64encode (bs : bytes) : pystr :=
  match bs with
  | [] => []
  | [a] => [sextet_char (a / 4); sextet_char (a mod 4 * 16); 61; 61]%N
  | [a; b] => [sextet_char (a / 4); sextet_char (a mod 4 * 16 + b / 16);
               sextet_char (b mod 16 * 4); 61]%N
  | a :: b :: c :: r =>
      sextet_char (a / 4)%N :: sextet_char (a mod 4 * 16 + b / 16)%N
      :: sextet_char (b mod 16 * 4 + c / 64)%N :: sextet_char (c mod 64)%N :: b64encode r
  end.

Definition binascii_error {A} : res A := Raise (ValueExn (u"binascii.Error")).

(** [binascii.a2b_base64], not strict: characters outside the alphabet are skipped.
    [quad] counts the characters of the current quadruple, [left] holds the bits not
    yet emitted, [pads] the padding seen. *)
Fixpoint a2b_base64 (s : pystr) (quad : nat) (left : N) (pads : nat) : res bytes :=
  match s with
  | [] => match quad with 0 => Ok [] | _ => binascii_error end
  | c :: s =>
      if (c =? 61)%N then
        if (2 <=? quad) && (4 <=? quad + S pads) then Ok []
        else a2b_base64 s quad left (if 2 <=? quad then S pads else pads)
      else
        match char_sextet c with
        | None => a2b_base64 s quad left pads
        | Some n =>
            match quad with
            | 0 => a2b_base64 s 1 n 0
            | 1 => r ← a2b_base64 s 2 (n mod 16)%N 0; Ok ((left * 4 + n / 16)%N :: r)
            | 2 => r ← a2b_base64 s 3 (n mod 4)%N 0; Ok ((left * 16 + n / 4)%N :: r)
            | _ => r ← a2b_base64 s 0 0%N 0; Ok ((left * 64 + n)%N :: r)
            end
        end
  end.

(** [base64.urlsafe_b64encode] and [base64.urlsafe_b64decode] of a string. *)
Definition to_urlsafe (c : N) : N := (if c =? 43 then 45 else if c =? 47 then 95 else c)%N.
Definition from_urlsafe (c : N) : N := (if c =? 45 then 43 else if c =? 95 then 47 else c)%N.
Definition urlsafe_b64encode (bs : bytes) : pystr := to_urlsafe <$> b64encode bs.
Definition urlsafe_b64decode (s : pystr) : res bytes :=
  s ← ascii_encode s; a2b_base64 (from_urlsafe <$> s) 0 0%N 0.

Example b64_ex :
  b64encode (u"Many hands") = u"TWFueSBoYW5kcw==" ∧ urlsafe_b64encode [251; 255]%N = u"-_8="
  ∧ urlsafe_b64decode (u"TWFu eSBo*YW5kcw==ignored") = Ok (u"Many hands")
  ∧ urlsafe_b64decode (u"TWF") = binascii_error ∧ urlsafe_b64decode (u"T") = binascii_error.
Proof. vm_compute. auto. Qed.

Example utf8_ex :
  utf8_encode [0x41; 0xe9; 0x20ac; 0x1f600]%N
    = Ok [0x41; 0xc3; 0xa9; 0xe2; 0x82; 0xac; 0xf0; 0x9f; 0x98; 0x80]%N
  ∧ utf8_encode [0xd800]%N = unicode_error ∧ utf8_decode [0xed; 0xa0; 0x80]%N = Ok [0xd800]%N
  ∧ utf8_decode [0xc0; 0x80]%N = unicode_error.
Proof. vm_compute. auto. Qed.

(** ** Base64 round trip *)

Ltac div_lia := zify; Z.to_euclidean_division_equations; lia.

(** What is checked for the numbers below [n] holds of each. *)
Lemma below_forall (n : nat) (f : N → bool) :
  forallb f (N.of_nat <$> seq 0 n) = true → ∀ x, (x < N.of_nat n)%N → f x = true.
Proof.
  rewrite forallb_forall. intros H x Hx. apply H. apply list_elem_of_In, list_elem_of_fmap.
  exists (N.to_nat x). split; [lia|]. apply elem_of_seq. lia.
Qed.

(** A character of the URL-safe alphabet. *)
Definition urlsafe_char (c : N) : bool :=
  is_ascii c && negb (c =? 61)%N && negb (c =? 46)%N && bool_decide (is_Some (char_sextet (from_urlsafe c))).

Lemma sextet_urlsafe n :
  (n < 64)%N → urlsafe_char (to_urlsafe (sextet_char n)) = true
             ∧ char_sextet (from_urlsafe (to_urlsafe (sextet_char n))) = Some n.
Proof.
  intros Hn. pose (f n := urlsafe_char (to_urlsafe (sextet_char n)) &&
    bool_decide (char_sextet (from_urlsafe (to_urlsafe (sextet_char n))) = Some n)).
  assert (f n = true) as H by (apply (below_forall 64); [vm_compute; reflexivity | lia]).
  unfold f in H. by to_prop.
Qed.

(** The encoding without its padding. *)
Fixpoint b64_body (bs : bytes) : pystr :=
  match bs with
  | [] => []
  | [a] => [sextet_char (a / 4); sextet_char (a mod 4 * 16)]%N
  | [a; b] => [sextet_char (a / 4); sextet_char (a mod 4 * 16 + b / 16);
               sextet_char (b mod 16 * 4)]%N
  | a :: b :: c :: r =>
      sextet_char (a / 4)%N :: sextet_char (a mod 4 * 16 + b / 16)%N
      :: sextet_char (b mod 16 * 4 + c / 64)%N :: sextet_char (c mod 64)%N :: b64_body r
  end.

(** Induction by groups of three bytes. *)
Lemma triples_ind (P : bytes → Prop) :
  P [] → (∀ a, is_byte a → P [a]) → (∀ a b, is_byte a → is_byte b → P [a; b]) →
  (∀ a b c r, is_byte a → is_byte b → is_byte c → Forall is_byte r → P r → P (a :: b :: c :: r)) →
  ∀ bs, Forall is_byte bs → P bs.
Proof.
  intros H0 H1 H2 H3. assert (∀ n bs, length bs ≤ n → Forall is_byte bs → P bs) as H.
  { induction n as [|n IH]; intros bs Hn Hbs; [destruct bs; [done|simpl in Hn; lia]|].
    destruct bs as [|a [|b [|c r]]]; [done| | |]; repeat match goal with
      H : Forall _ (_ :: _) |- _ => apply Forall_cons in H as [? ?] end; auto.
    apply H3; try done. apply IH; [simpl in Hn; lia|done]. }
  eauto.
Qed.

Lemma b64_body_char bs :
  Forall is_byte bs → Forall (λ c, urlsafe_char (to_urlsafe c) = true) (b64_body bs).
Proof.
  revert bs. apply (triples_ind (λ bs, Forall (λ c, urlsafe_char (to_urlsafe c) = true) (b64_body bs)));
    unfold is_byte; simpl; intros; repeat constructor; try done; apply sextet_urlsafe; div_lia.
Qed.

Lemma b64encode_body bs :
  Forall is_byte bs →
  ∃ k, k ≤ 2 ∧ b64encode bs = b64_body bs ++ replicate k 61%N
       ∧ k = Z.to_nat ((- Z.of_nat (length (b64_body bs))) mod 4).
Proof.
  revert bs. apply triples_ind; [exists 0|exists 2|exists 1|]; try (intros; split_and!; [lia|done|done]).
  intros a b c r _ _ _ _ (k & Hk & He & Hm). exists k. split_and!; [done| |].
  - simpl. by rewrite He.
  - rewrite Hm. simpl length. f_equal. div_lia.
Qed.

Lemma not_pad n : (n < 64)%N → (from_urlsafe (to_urlsafe (sextet_char n)) =? 61)%N = false.
Proof.
  intros Hn. apply (below_forall 64 (λ n, negb (from_urlsafe (to_urlsafe (sextet_char n)) =? 61)%N))
    in Hn; [by to_prop | vm_compute; reflexivity].
Qed.

Lemma a2b_char n s quad left pads :
  (n < 64)%N →
  a2b_base64 (from_urlsafe (to_urlsafe (sextet_char n)) :: s) quad left pads =
  match quad with
  | 0 => a2b_base64 s 1 n 0
  | 1 => r ← a2b_base64 s 2 (n mod 16)%N 0; Ok ((left * 4 + n / 16)%N :: r)
  | 2 => r ← a2b_base64 s 3 (n mod 4)%N 0; Ok ((left * 16 + n / 4)%N :: r)
  | _ => r ← a2b_base64 s 0 0%N 0; Ok ((left * 64 + n)%N :: r)
  end.
Proof. intros Hn. cbn [a2b_base64]. by rewrite (not_pad n Hn), (proj2 (sextet_urlsafe n Hn)). Qed.

Lemma a2b_b64encode bs :
  Forall is_byte bs → a2b_base64 (from_urlsafe <$> (to_urlsafe <$> b64encode bs)) 0 0%N 0 = Ok bs.
Proof.
  revert bs. apply triples_ind; unfold is_byte; [done| | |]; intros;
    cbn [b64encode fmap list_fmap];
    repeat (rewrite a2b_char by div_lia; cbn [mbind res_bind]).
  - cbn. do 2 f_equal. div_lia.
  - cbn. do 2 f_equal; [div_lia|f_equal; div_lia].
  - match goal with H : a2b_base64 _ _ _ _ = Ok _ |- _ => rewrite H end. cbn.
    f_equal. f_equal; [div_lia|]. f_equal; [div_lia|]. f_equal. div_lia.
Qed.

(** ** The exceptions of the codecs *)

(** A [ValueError], if anything. *)
Definition value_error {A} (r : res A) : Prop := ∀ e, r = Raise e → ∃ m, e = ValueExn m.

Lemma value_error_ok {A} (a : A) : value_error (Ok a).
Proof. done. Qed.

Lemma value_error_raise {A} m : value_error (Raise (ValueExn m) : res A).
Proof. intros e [= <-]. by eexists. Qed.

Lemma value_error_bind {A B} (m : res A) (k : A → res B) :
  value_error m → (∀ a, value_error (k a)) → value_error (m ≫= k).
Proof. intros Hm Hk e [He|(a & _ & He)]%res_bind_Raise; [by apply Hm|by eapply Hk]. Qed.
#[export] Hint Resolve value_error_ok value_error_raise value_error_bind : pylib.

(** Decide one branching of a decoder at a time. *)
Ltac value_errors IH :=
  repeat first
    [ apply value_error_ok | apply value_error_raise
    | apply value_error_bind; [|intros ?] | apply IH; simpl in *; lia | case_match; subst ].

Lemma utf8_decode_error bs : value_error (utf8_decode bs).
Proof.
  assert (∀ n bs, length bs ≤ n → value_error (utf8_decode bs)) as H; [|by eapply H].
  clear bs. induction n as [|n IH]; intros [|b r] Hn; try (simpl in Hn; lia);
    cbn [utf8_decode]; unfold unicode_error; value_errors IH.
Qed.

Lemma units16_error big bs : value_error (units16 big bs).
Proof.
  assert (∀ n bs, length bs ≤ n → value_error (units16 big bs)) as H; [|by eapply H].
  clear bs. induction n as [|n IH]; intros [|b r] Hn; try (simpl in Hn; lia);
    cbn [units16]; unfold unicode_error; value_errors IH.
Qed.

Lemma utf32_decode_error big bs : value_error (utf32_decode big bs).
Proof.
  assert (∀ n bs, length bs ≤ n → value_error (utf32_decode big bs)) as H; [|by eapply H].
  clear bs. induction n as [|n IH]; intros [|b r] Hn; try (simpl in Hn; lia);
    cbn [utf32_decode]; unfold unicode_error; value_errors IH.
Qed.

Lemma decode_error e bs : value_error (decode e bs).
Proof.
  destruct e; simpl; try apply utf8_decode_error; try apply utf32_decode_error;
    apply value_error_bind; [apply units16_error|done|apply units16_error|done].
Qed.

Lemma json_loads_bytes_error d b e :
  json_loads_bytes d b = Raise e → (∃ m, e = ValueExn m) ∨ e = RecursionExn.
Proof.
  intros [H|(s & _ & H)]%res_bind_Raise; [left; by eapply decode_error|].
  case_match; simplify_eq; eauto.
Qed.

Lemma a2b_base64_error s : ∀ quad left pads, value_error (a2b_base64 s quad left pads).
Proof.
  induction s as [|c s IH]; intros; cbn [a2b_base64]; unfold binascii_error;
    repeat first [ apply value_error_ok | apply value_error_raise
                 | apply value_error_bind; [|intros ?] | apply IH | case_match ].
Qed.

Lemma urlsafe_b64decode_error s : value_error (urlsafe_b64decode s).
Proof.
  apply value_error_bind; [|intros; apply a2b_base64_error].
  unfold ascii_encode, unicode_error. case_match; auto with pylib.
Qed.
