(* ===== verification/Sha256.v ===== *)
(** [hashlib.sha256] and [hmac.new(key, message, sha256)] (FIPS 180-4, RFC 2104), on
    32-bit words held in [N]. *)
From S2P Require Export Bytes.

Local Open Scope N_scope.

(** ** 32-bit words *)

Definition word_size : N := 2 ^ 32.
Definition wadd (x y : N) : N := (x + y) mod word_size.
Definition shr (n x : N) : N := N.shiftr x n.
Definition rotr (n x : N) : N := N.lor (N.shiftr x n) (N.shiftl x (32 - n) mod word_size).
Definition wnot (x : N) : N := N.lxor x (word_size - 1).

Definition Ch (x y z : N) : N := N.lxor (N.land x y) (N.land (wnot x) z).
Definition Maj (x y z : N) : N := N.lxor (N.lxor (N.land x y) (N.land x z)) (N.land y z).
Definition Sigma0 (x : N) : N := N.lxor (N.lxor (rotr 2 x) (rotr 13 x)) (rotr 22 x).
Definition Sigma1 (x : N) : N := N.lxor (N.lxor (rotr 6 x) (rotr 11 x)) (rotr 25 x).
Definition sigma0 (x : N) : N := N.lxor (N.lxor (rotr 7 x) (rotr 18 x)) (shr 3 x).
Definition sigma1 (x : N) : N := N.lxor (N.lxor (rotr 17 x) (rotr 19 x)) (shr 10 x).

(** The constants of the standard are derived, not listed: the first 32 bits of the
    fractional parts of the cube roots and of the square roots of the first primes. *)
Definition prime (n : N) : bool :=
  (1 <? n) && forallb (λ d, negb (n mod N.of_nat d =? 0)) (seq 2 (N.to_nat (N.sqrt n) - 1)).

Definition primes (count : nat) : list N := take count (filter (λ n, prime n = true) (N.of_nat <$> seq 2 320)).

(** The largest number below [2 ^ bits] above [r] whose cube is at most [n]. *)
Fixpoint cube_root (bits : nat) (r n : N) : N :=
  match bits with
  | O => r
  | S k => let r' := r + 2 ^ N.of_nat k in cube_root k (if r' ^ 3 <=? n then r' else r) n
  end.

Definition cube_root_fraction (p : N) : N := cube_root 36 0 (p * 2 ^ 96) mod word_size.
Definition square_root_fraction (p : N) : N := N.sqrt (p * 2 ^ 64) mod word_size.

Definition round_constants : list N := Eval vm_compute in cube_root_fraction <$> primes 64.

(** ** One block *)

(** The eight working variables. *)
Record hash_state := mkHash { h_a : N; h_b : N; h_c : N; h_d : N; h_e : N; h_f : N; h_g : N; h_h : N }.

Definition initial_hash : hash_state := Eval vm_compute in
  match square_root_fraction <$> primes 8 with
  | [a; b; c; d; e; f; g; h] => mkHash a b c d e f g h
  | _ => mkHash 0 0 0 0 0 0 0 0
  end.

Definition sha_round (s : hash_state) (kw : N * N) : hash_state :=
  let t1 := wadd (wadd (wadd (wadd (h_h s) (Sigma1 (h_e s))) (Ch (h_e s) (h_f s) (h_g s))) kw.1) kw.2 in
  let t2 := wadd (Sigma0 (h_a s)) (Maj (h_a s) (h_b s) (h_c s)) in
  mkHash (wadd t1 t2) (h_a s) (h_b s) (h_c s) (wadd (h_d s) t1) (h_e s) (h_f s) (h_g s).

(** The message schedule, as a window of sixteen words sliding [n] times. *)
Fixpoint schedule_words (n : nat) (win : list N) : list N :=
  match n, win with
  | S n, w0 :: rest =>
      let w i := nth i win 0 in
      w0 :: schedule_words n (rest ++ [wadd (wadd (wadd (sigma1 (w 14%nat)) (w 9%nat)) (sigma0 (w 1%nat))) w0])
  | _, _ => []
  end.

Definition compress (s : hash_state) (block : list N) : hash_state :=
  let s' := foldl sha_round s (zip round_constants (schedule_words 64 block)) in
  mkHash (wadd (h_a s) (h_a s')) (wadd (h_b s) (h_b s')) (wadd (h_c s) (h_c s'))
    (wadd (h_d s) (h_d s')) (wadd (h_e s) (h_e s')) (wadd (h_f s) (h_f s'))
    (wadd (h_g s) (h_g s')) (wadd (h_h s) (h_h s')).

(** ** The message *)

(** Big-endian bytes, and words of bytes. *)
Fixpoint be_bytes (n : nat) (x : N) : bytes :=
  match n with O => [] | S n => be_bytes n (x / 256) ++ [x mod 256] end.
Fixpoint be_words (bs : bytes) : list N :=
  match bs with
  | a :: b :: c :: d :: r => unit32 true a b c d :: be_words r
  | _ => []
  end.

(** A one bit, zeros up to 56 bytes of the last block, and the length in bits. *)
Definition pad_message (m : bytes) : bytes :=
  let len := N.of_nat (length m) in
  m ++ [0x80] ++ replicate (N.to_nat ((64 + 56 - (len + 1) mod 64) mod 64)) 0
    ++ be_bytes 8 ((len * 8) mod 2 ^ 64).

(** Blocks of sixteen words; [fuel] bounds their number. *)
Fixpoint blocks (fuel : nat) (ws : list N) : list (list N) :=
  match fuel, ws with
  | _, [] => []
  | O, _ => []
  | S f, _ => take 16 ws :: blocks f (drop 16 ws)
  end.

Definition hash_bytes (s : hash_state) : bytes :=
  be_bytes 4 (h_a s) ++ be_bytes 4 (h_b s) ++ be_bytes 4 (h_c s) ++ be_bytes 4 (h_d s)
  ++ be_bytes 4 (h_e s) ++ be_bytes 4 (h_f s) ++ be_bytes 4 (h_g s) ++ be_bytes 4 (h_h s).

Definition sha256 (m : bytes) : bytes :=
  let ws := be_words (pad_message m) in
  hash_bytes (foldl compress initial_hash (blocks (length ws) ws)).

(** ** HMAC *)

Definition block_key (key : bytes) : bytes :=
  let k := if 64 <? N.of_nat (length key) then sha256 key else key in
  k ++ replicate (64 - length k) 0.

Definition hmac_sha256 (key message : bytes) : bytes :=
  let k := block_key key in
  sha256 ((N.lxor 0x5c <$> k) ++ sha256 ((N.lxor 0x36 <$> k) ++ message)).

Definition hex (bs : bytes) : pystr := bs ≫= λ b, [hex_digit (b / 16); hex_digit (b mod 16)].

Example sha256_ex :
  hex (sha256 []) = u"e3b0c44298fc1c149afbf4c8996fb92427ae41e4649b934ca495991b7852b855"
  ∧ hex (sha256 (u"abc")) = u"ba7816bf8f01cfea414140de5dae2223b00361a396177a9cb410ff61f20015ad"
  ∧ hex (sha256 (u"abcdbcdecdefdefgefghfghighijhijkijkljklmklmnlmnomnopnopq"))
    = u"248d6a61d20638b8e5c026930c3e6039a33ce45964ff2167f6ecedd419db06c1".
Proof. vm_compute. auto. Qed.

(** RFC 4231, cases 2 and 6 (a key longer than a block). *)
Example hmac_ex :
  hex (hmac_sha256 (u"Jefe") (u"what do ya want for nothing?"))
    = u"5bdcc146bf60754e6a042426089575c75a003f089d2739839dec58b964ec3843"
  ∧ hex (hmac_sha256 (replicate 131 0xaa) (u"Test Using Larger Than Block-Size Key - Hash Key First"))
    = u"60e431591ee0b67f0d8a26aacbf5b77f8e0bc6213728c5140546040f0ee37f54".
Proof. vm_compute. auto. Qed.

(** ** The shape of a digest *)

Lemma be_bytes_length n x : length (be_bytes n x) = n.
Proof. revert x. induction n as [|n IH]; intros x; [done|]. simpl. rewrite length_app, IH. simpl. lia. Qed.

Lemma be_bytes_byte n x : Forall is_byte (be_bytes n x).
Proof.
  revert x. induction n as [|n IH]; intros x; [constructor|]. simpl. apply Forall_app. split; [done|].
  constructor; [|done]. red. pose proof (N.mod_lt x 256). lia.
Qed.

Lemma sha256_length m : length (sha256 m) = 32%nat.
Proof. unfold sha256, hash_bytes. by rewrite !length_app, !be_bytes_length. Qed.

Lemma sha256_byte m : Forall is_byte (sha256 m).
Proof. unfold sha256, hash_bytes. rewrite !Forall_app. split_and!; apply be_bytes_byte. Qed.

Lemma hmac_sha256_length key m : length (hmac_sha256 key m) = 32%nat.
Proof. apply sha256_length. Qed.

Lemma hmac_sha256_byte key m : Forall is_byte (hmac_sha256 key m).
Proof. apply sha256_byte. Qed.
