(* ===== verification/PyFloat.v ===== *)
(** Python floats: IEEE 754 doubles ([SpecFloat], 53 bits of precision), and their
    general format. *)
From Corelib Require Export SpecFloat.
From S2P Require Export PyStr.

(** ** Doubles *)

Definition float := spec_float.
Definition float_add : float → float → float := SFadd 53 1024.
Definition float_sub : float → float → float := SFsub 53 1024.
Definition float_mul : float → float → float := SFmul 53 1024.
Definition float_geb (x y : float) : bool := SFleb y x.
(** [float(n)]. *)
Definition float_of (n : Z) : float := binary_normalize 53 1024 n 0 false.

(** ** The general format *)

(** [format(x, "g")]: six significant digits, rounded half to even on the exact value,
    trailing zeros dropped, scientific notation outside [1e-4, 1e6). *)
Module FormatG.

Local Open Scope Z_scope.

(** Round the fraction [n/d] to an integer, ties to even. *)
Definition round_half_even (n d : Z) : Z :=
  let q := n / d in
  let r := 2 * (n mod d) in
  if (r <? d) || ((r =? d) && Z.even q) then q else q + 1.

(** [n/d] divided by [10 ^ k]. *)
Definition scale (n d k : Z) : Z * Z :=
  if 0 <=? k then (n, d * 10 ^ k) else (n * 10 ^ (- k), d).

(** The decimal exponent of [n/d > 0], searched downward from [k]. *)
Fixpoint exponent (fuel : nat) (n d k : Z) : Z :=
  match fuel with
  | O => k
  | S f => let '(a, b) := scale n d k in if b <=? a then k else exponent f n d (k - 1)
  end.

Fixpoint drop_zeros (s : pystr) : pystr :=
  match s with c :: s' => if (c =? 48)%N then drop_zeros s' else s | [] => [] end.

(** Strip the trailing zeros of a fraction, and its point if nothing is left. *)
Definition with_fraction (int_part frac : pystr) : pystr :=
  let f := reverse (drop_zeros (reverse frac)) in
  if bool_decide (f = []) then int_part else int_part ++ u"." ++ f.

Definition pad_left (len : nat) (s : pystr) : pystr := replicate (len - length s)%nat 48%N ++ s.

(** The six digits of [n/d], rounded, and the exponent of the first one. *)
Definition digits6 (n d : Z) : pystr * Z :=
  let x := exponent 700 n d 309 in
  let '(a, b) := scale n d (x - 5) in
  let m := round_half_even a b in
  if m =? 10 ^ 6 then (str_of_Z (10 ^ 5), x + 1) else (str_of_Z m, x).

Definition positive_g (n d : Z) : pystr :=
  let '(ds, x) := digits6 n d in
  if (-4 <=? x) && (x <? 6) then
    if 0 <=? x then with_fraction (take (Z.to_nat (x + 1)) ds) (drop (Z.to_nat (x + 1)) ds)
    else with_fraction (u"0") (replicate (Z.to_nat (- x - 1)) 48%N ++ ds)
  else
    with_fraction (take 1 ds) (drop 1 ds) ++ u"e" ++ (if 0 <=? x then u"+" else u"-")
      ++ pad_left 2 (str_of_Z (Z.abs x)).

Definition format_g (x : float) : pystr :=
  match x with
  | S754_zero false => u"0"
  | S754_zero true => u"-0"
  | S754_infinity false => u"inf"
  | S754_infinity true => u"-inf"
  | S754_nan => u"nan"
  | S754_finite s m e =>
      (if s then u"-" else []) ++
      (if 0 <=? e then positive_g (Z.pos m * 2 ^ e) 1 else positive_g (Z.pos m) (2 ^ (- e)))
  end.

End FormatG.

Export FormatG.

Example format_g_ex :
  format_g <$> [float_of 3; float_of 0; float_of 999999; float_of 1234567; S754_finite false 1 (-10);
                S754_finite false 7205759403792794 (-56); float_of 100000]
  = [u"3"; u"0"; u"999999"; u"1.23457e+06"; u"0.000976562"; u"0.1"; u"100000"].
Proof. vm_compute. reflexivity. Qed.
