(* ===== verification/Models.v ===== *)
(** The domain models of [app/domain/models.py]: requests with their field
    constraints, results, jobs and the three response projections of a job. *)
From S2P Require Export Effects.

(** A UUID is its 128-bit integer. *)
Definition UUID := N.

#[export] Instance UUID_eq_dec : EqDecision UUID := N.eq_dec.
#[export] Instance UUID_countable : Countable UUID := N_countable.

Fixpoint hex_digits (len : nat) (n : N) : pystr :=
  match len with
  | 0 => []
  | S l => hex_digits l (n / 16)%N ++ [hex_digit (n `mod` 16)%N]
  end.

(** [str(job_id)]: 32 hexadecimal digits grouped 8-4-4-4-12. *)
Definition uuid_str (id : UUID) : pystr :=
  let h := hex_digits 32 id in
  let part a b := take (b - a) (drop a h) in
  join (u"-") [part 0 8; part 8 12; part 12 16; part 16 20; part 20 32].

(** ** Status *)

Inductive JobStatus := QUEUED | RUNNING | SUCCEEDED | FAILED.

#[export] Instance JobStatus_eq_dec : EqDecision JobStatus.
Proof. solve_decision. Defined.

(** The string of a [StrEnum] member. *)
Definition status_value (s : JobStatus) : pystr :=
  match s with
  | QUEUED => u"queued"
  | RUNNING => u"running"
  | SUCCEEDED => u"succeeded"
  | FAILED => u"failed"
  end.

(** [JobStatus(value)]. *)
Definition JobStatus_of (value : pystr) : res JobStatus :=
  if decide (value = u"queued") then Ok QUEUED
  else if decide (value = u"running") then Ok RUNNING
  else if decide (value = u"succeeded") then Ok SUCCEEDED
  else if decide (value = u"failed") then Ok FAILED
  else Raise (ValueExn (u"not a valid JobStatus")).

Lemma JobStatus_of_value s : JobStatus_of (status_value s) = Ok s.
Proof. by destruct s; vm_compute. Qed.

Lemma JobStatus_of_inv v s : JobStatus_of v = Ok s → v = status_value s.
Proof. unfold JobStatus_of. intros. by repeat case_decide; simplify_eq. Qed.

Lemma status_value_inj s1 s2 : status_value s1 = status_value s2 → s1 = s2.
Proof. intros H. pose proof (JobStatus_of_value s1) as E. rewrite H, JobStatus_of_value in E. by simplify_eq. Qed.

(** ** Requests *)

Record EvaluationRequest := mkEvaluationRequest {
  req_tenant_id : pystr;
  req_project_id : pystr;
  req_question : pystr;
  req_answer : pystr;
  req_rubric : option pystr;
}.

#[export] Instance EvaluationRequest_eq_dec : EqDecision EvaluationRequest.
Proof. solve_decision. Defined.

(** [Field(min_length=lo, max_length=hi)]: a constrained string is encoded to be measured,
    so one with a lone surrogate is refused. *)
Definition len_ok (lo hi : Z) (s : pystr) : bool :=
  (lo <=? str_len s)%Z && (str_len s <=? hi)%Z && negb (existsb is_surrogate s).
Definition opt_len_ok (lo hi : Z) (s : option pystr) : bool :=
  match s with Some s => len_ok lo hi s | None => true end.

(** The constraints of [EvaluationRequest]. *)
Definition valid_request (r : EvaluationRequest) : bool :=
  len_ok 1 128 (req_tenant_id r) && len_ok 1 128 (req_project_id r)
  && len_ok 1 10000 (req_question r) && len_ok 1 20000 (req_answer r)
  && opt_len_ok 0 10000 (req_rubric r).

Definition json_opt_str (s : option pystr) : json :=
  match s with Some s => JStr s | None => JNull end.

(** [request.model_dump()]. *)
Definition dump_request (r : EvaluationRequest) : json :=
  JObj [(u"tenant_id", JStr (req_tenant_id r)); (u"project_id", JStr (req_project_id r));
        (u"question", JStr (req_question r)); (u"answer", JStr (req_answer r));
        (u"rubric", json_opt_str (req_rubric r))].

Definition validate_request (r : EvaluationRequest) : res EvaluationRequest :=
  if valid_request r then Ok r
  else Raise (ValidationExn (u"EvaluationRequest") (dump_request r)).

Record SubmitEvaluationRequest := mkSubmitEvaluationRequest {
  sub_tenant_id : option pystr;
  sub_project_id : pystr;
  sub_question : pystr;
  sub_answer : pystr;
  sub_rubric : option pystr;
}.

Definition valid_submit (p : SubmitEvaluationRequest) : bool :=
  opt_len_ok 1 128 (sub_tenant_id p) && len_ok 1 128 (sub_project_id p)
  && len_ok 1 10000 (sub_question p) && len_ok 1 20000 (sub_answer p)
  && opt_len_ok 0 10000 (sub_rubric p).

(** Building the model validates it. *)
Definition to_evaluation_request (p : SubmitEvaluationRequest) (tenant_id : pystr)
    : res EvaluationRequest :=
  validate_request (mkEvaluationRequest tenant_id (sub_project_id p) (sub_question p)
                      (sub_answer p) (sub_rubric p)).

(** ** Results *)

Record EvaluationResult := mkEvaluationResult {
  score : Z;
  justification : pystr;
  rubric_used : bool;
}.

#[export] Instance EvaluationResult_eq_dec : EqDecision EvaluationResult.
Proof. solve_decision. Defined.

(** [Field(ge=0, le=100)]. *)
Definition valid_result (r : EvaluationResult) : bool := (0 <=? score r)%Z && (score r <=? 100)%Z.

(** [result.model_dump()]. *)
Definition dump_result (r : EvaluationResult) : json :=
  JObj [(u"score", JInt (score r)); (u"justification", JStr (justification r));
        (u"rubric_used", JBool (rubric_used r))].

Definition validate_result (r : EvaluationResult) : res EvaluationResult :=
  if valid_result r then Ok r
  else Raise (ValidationExn (u"EvaluationResult") (dump_result r)).

Definition validate_opt_result (r : option EvaluationResult) : res (option EvaluationResult) :=
  match r with
  | Some r => r' ← validate_result r; mret (Some r')
  | None => mret None
  end.

Arguments dump_request : simpl never.
Arguments dump_result : simpl never.

(** ** Jobs *)

Record EvaluationJob := mkEvaluationJob {
  job_id : UUID;
  tenant_id : pystr;
  project_id : pystr;
  status : JobStatus;
  request : EvaluationRequest;
  result : option EvaluationResult;
  error_message : option pystr;
  attempt_count : Z;
  max_attempts : Z;
  claimed_at : option datetime;
  created_at : datetime;
  updated_at : datetime;
}.

#[export] Instance EvaluationJob_eq_dec : EqDecision EvaluationJob.
Proof. solve_decision. Defined.

#[export] Instance EvaluationJob_inhabited : Inhabited EvaluationJob :=
  populate (mkEvaluationJob 0%N [] [] QUEUED (mkEvaluationRequest [] [] [] [] None) None None
              0%Z 3%Z None 0%Z 0%Z).

(** [EvaluationJob(job_id=, tenant_id=, project_id=, status=QUEUED, request=)]: the
    other fields take their defaults, the two time stamps two clock readings. *)
Definition new_job (id : UUID) (req : EvaluationRequest) (created updated : datetime)
    : EvaluationJob :=
  mkEvaluationJob id (req_tenant_id req) (req_project_id req) QUEUED req None None 0%Z 3%Z None
    created updated.

(** Attribute assignment [job.field = value]. *)
Definition set_status (x : JobStatus) (j : EvaluationJob) : EvaluationJob :=
  mkEvaluationJob (job_id j) (tenant_id j) (project_id j) x (request j) (result j)
    (error_message j) (attempt_count j) (max_attempts j) (claimed_at j) (created_at j) (updated_at j).
Definition set_result (x : option EvaluationResult) (j : EvaluationJob) : EvaluationJob :=
  mkEvaluationJob (job_id j) (tenant_id j) (project_id j) (status j) (request j) x
    (error_message j) (attempt_count j) (max_attempts j) (claimed_at j) (created_at j) (updated_at j).
Definition set_error_message (x : option pystr) (j : EvaluationJob) : EvaluationJob :=
  mkEvaluationJob (job_id j) (tenant_id j) (project_id j) (status j) (request j) (result j)
    x (attempt_count j) (max_attempts j) (claimed_at j) (created_at j) (updated_at j).
Definition set_attempt_count (x : Z) (j : EvaluationJob) : EvaluationJob :=
  mkEvaluationJob (job_id j) (tenant_id j) (project_id j) (status j) (request j) (result j)
    (error_message j) x (max_attempts j) (claimed_at j) (created_at j) (updated_at j).
Definition set_claimed_at (x : option datetime) (j : EvaluationJob) : EvaluationJob :=
  mkEvaluationJob (job_id j) (tenant_id j) (project_id j) (status j) (request j) (result j)
    (error_message j) (attempt_count j) (max_attempts j) x (created_at j) (updated_at j).
Definition set_updated_at (x : datetime) (j : EvaluationJob) : EvaluationJob :=
  mkEvaluationJob (job_id j) (tenant_id j) (project_id j) (status j) (request j) (result j)
    (error_message j) (attempt_count j) (max_attempts j) (claimed_at j) (created_at j) x.

(** ** Response projections *)

Record EvaluationRequestSummary := mkEvaluationRequestSummary {
  sum_tenant_id : pystr;
  sum_project_id : pystr;
  sum_rubric : option pystr;
}.

(** The fields the three job responses share. *)
Record EvaluationJobSummary := mkEvaluationJobSummary {
  s_job_id : UUID;
  s_tenant_id : pystr;
  s_project_id : pystr;
  s_status : JobStatus;
  s_result : option EvaluationResult;
  s_error_message : option pystr;
  s_attempt_count : Z;
  s_max_attempts : Z;
  s_claimed_at : option datetime;
  s_created_at : datetime;
  s_updated_at : datetime;
}.

Record EvaluationJobResponse := mkEvaluationJobResponse {
  r_job : EvaluationJobSummary;
  r_request : EvaluationRequestSummary;
  r_request_id : pystr;
}.

Record EvaluationJobDetailResponse := mkEvaluationJobDetailResponse {
  d_job : EvaluationJobSummary;
  d_request : EvaluationRequest;
  d_request_id : pystr;
}.

Record SubmitEvaluationResponse := mkSubmitEvaluationResponse {
  submitted_job_id : UUID;
  submitted_status : JobStatus;
  submitted_request_id : pystr;
}.

Record EvaluationListResponse := mkEvaluationListResponse {
  jobs : list EvaluationJobSummary;
  list_request_id : pystr;
}.

(** Dumping a job and validating the dump checks the result's constraints again. *)
Definition to_summary (j : EvaluationJob) : res EvaluationJobSummary :=
  r ← validate_opt_result (result j);
  mret (mkEvaluationJobSummary (job_id j) (tenant_id j) (project_id j) (status j) r
          (error_message j) (attempt_count j) (max_attempts j) (claimed_at j)
          (created_at j) (updated_at j)).

(** [model_dump(exclude={"request": {"question", "answer"}})]. *)
Definition to_response (j : EvaluationJob) (request_id : pystr) : res EvaluationJobResponse :=
  s ← to_summary j;
  mret (mkEvaluationJobResponse s
          (mkEvaluationRequestSummary (req_tenant_id (request j)) (req_project_id (request j))
             (req_rubric (request j)))
          request_id).

Definition to_detail_response (j : EvaluationJob) (request_id : pystr)
    : res EvaluationJobDetailResponse :=
  s ← to_summary j;
  r ← validate_request (request j);
  mret (mkEvaluationJobDetailResponse s r request_id).

(** What the constructors of the models establish. *)
Definition job_valid (j : EvaluationJob) : bool :=
  valid_request (request j)
  && match result j with Some r => valid_result r | None => true end.

(** The fields no operation assigns. *)
Definition same_identity (j j' : EvaluationJob) : Prop :=
  job_id j = job_id j' ∧ tenant_id j = tenant_id j' ∧ project_id j = project_id j'
  ∧ request j = request j' ∧ created_at j = created_at j' ∧ max_attempts j = max_attempts j'.

#[export] Instance same_identity_equiv : Equivalence same_identity.
Proof.
  split; red; unfold same_identity.
  - by intros.
  - naive_solver.
  - intros x y z ??. destruct_and?. split_and!; congruence.
Qed.

Lemma to_summary_valid j : job_valid j = true → is_Some (match to_summary j with Ok s => Some s | _ => None end).
Proof.
  unfold job_valid, to_summary, validate_opt_result, validate_result.
  intros [? Hr]%andb_true_iff. destruct (result j); [rewrite Hr|]; eauto.
Qed.

Example uuid_str_ex :
  uuid_str 0x0123456789abcdef0123456789abcdef%N = u"01234567-89ab-cdef-0123-456789abcdef".
Proof. vm_compute. reflexivity. Qed.
