(* ===== verification/Evaluation.v ===== *)
(** The deterministic mock scoring of [app/domain/evaluation.py]. *)
From S2P Require Export Models.

(** ** Definitions *)

Definition stop_words : gset pystr :=
  list_to_set [u"the"; u"a"; u"an"; u"and"; u"or"; u"of"; u"to"; u"in"; u"is"; u"it"; u"for";
               u"on"; u"with"].

(** The characters stripped from a token: [.,!?;:()[]{}] and both quotes. *)
Definition token_punctuation : pystr := u".,!?;:()[]{}'" ++ [34%N].

Definition significant_terms (text : pystr) : gset pystr :=
  list_to_set ((λ token, strip_chars token_punctuation (lower token)) <$>
               filter (λ token, (3 < str_len token)%Z) (split text)) ∖ stop_words.

Definition has_any_overlap (left right : pystr) : bool :=
  bool_decide (significant_terms left ∩ significant_terms right ≠ ∅).

Definition length_score (answer : pystr) : Z := (str_len answer / 8) `min` 40.
Definition overlap_score (question answer : pystr) : Z :=
  (Z.of_nat (size (significant_terms question ∩ significant_terms answer)) * 10) `min` 40.
Definition rubric_bonus (rubric : option pystr) (answer : pystr) : Z :=
  match rubric with
  | Some r => if bool_decide (r ≠ []) && has_any_overlap r answer then 10 else 0
  | None => 0
  end.
Definition clarity_bonus (answer : pystr) : Z :=
  if bool_decide (46%N ∈ answer) || bool_decide (10%N ∈ answer) then 10 else 0.

Definition mock_justification : pystr :=
  u"Mock evaluation score based on answer length, question-term overlap, " ++
  u"basic clarity signals, and optional rubric overlap.".

Definition score_mock_response (r : EvaluationRequest) : res EvaluationResult :=
  let answer := strip (req_answer r) in
  let score := (0 `max` (100 `min` (length_score answer + overlap_score (req_question r) answer
                                    + rubric_bonus (req_rubric r) answer + clarity_bonus answer)))%Z in
  validate_result (mkEvaluationResult score mock_justification
                     (bool_decide (req_rubric r ≠ None))).

(** ** Lemmas *)

Lemma significant_terms_strip s : significant_terms (strip s) = significant_terms s.
Proof. unfold significant_terms. by rewrite split_strip. Qed.

(** Words are only added when white space and more text follow. *)
Lemma significant_terms_app s c t :
  is_space c = true → significant_terms s ⊆ significant_terms (s ++ c :: t).
Proof.
  intros Hc. unfold significant_terms. rewrite split_app_space by done.
  rewrite filter_app, fmap_app, list_to_set_app_L. set_solver.
Qed.

Lemma length_score_bounds s : (0 ≤ length_score s ≤ 40)%Z.
Proof. unfold length_score, str_len. pose proof (Z.div_pos (Z.of_nat (length s)) 8). lia. Qed.
Lemma overlap_score_bounds q a : (0 ≤ overlap_score q a ≤ 40)%Z.
Proof. unfold overlap_score. lia. Qed.
Lemma rubric_bonus_bounds r a : (0 ≤ rubric_bonus r a ≤ 10)%Z.
Proof. unfold rubric_bonus. repeat case_match; lia. Qed.
Lemma clarity_bonus_bounds a : (0 ≤ clarity_bonus a ≤ 10)%Z.
Proof. unfold clarity_bonus. case_match; lia. Qed.

Lemma rstrip_by_extend p x t :
  rstrip_by p x = x → ∃ t', rstrip_by p (x ++ t) = x ++ t'.
Proof.
  intros Hx. destruct (rstrip_by_spec p (x ++ t)) as (w & Hw & Hall).
  set (r := rstrip_by p (x ++ t)) in *.
  assert (x `prefix_of` r ∨ r `prefix_of` x) as [[k Hk]|[k Hk]].
  { apply (prefix_weak_total _ _ (x ++ t)); [by exists t|by exists w]. }
  { by exists k. }
  assert (w = k ++ t) as ->.
  { apply (app_inv_head r). rewrite <- Hw, Hk. by rewrite <- app_assoc. }
  apply Forall_app in Hall as [Hall _]. rewrite Hk, rstrip_by_app_all in Hx by done.
  destruct (rstrip_by_spec p r) as (w' & Hr & _).
  assert (length k = 0) as ->%length_zero_iff_nil.
  { apply (f_equal length) in Hx, Hr. rewrite length_app in *. lia. }
  exists []. by rewrite Hk, !app_nil_r.
Qed.

Lemma rstrip_by_idem p s : rstrip_by p (rstrip_by p s) = rstrip_by p s.
Proof. unfold rstrip_by. by rewrite reverse_involutive, drop_while_idem. Qed.

(** Appending text never loses characters of the stripped text. *)
Lemma strip_extend s t : ∃ a b, strip (s ++ t) = a ++ strip s ++ b.
Proof.
  unfold strip, strip_by, lstrip_by.
  destruct (drop_while is_space s) as [|c s'] eqn:E.
  { exists [], (rstrip_by is_space (drop_while is_space (s ++ t))). done. }
  assert (drop_while is_space (s ++ t) = (c :: s') ++ t) as ->.
  { destruct (drop_while_spec is_space s) as (s1 & Hs & H1).
    rewrite Hs, <- app_assoc, drop_while_app_all, E by done. simpl.
    by rewrite (drop_while_head _ _ _ _ E). }
  generalize (c :: s'). intros x.
  destruct (rstrip_by_spec is_space x) as (w & Hw & _).
  destruct (rstrip_by_extend is_space (rstrip_by is_space x) (w ++ t)) as [t' Ht'];
    [apply rstrip_by_idem|].
  exists [], t'. by rewrite app_assoc, <- Hw in Ht'.
Qed.

Lemma length_score_mono s t : (str_len s ≤ str_len t)%Z → (length_score s ≤ length_score t)%Z.
Proof. intros. unfold length_score. assert (str_len s / 8 ≤ str_len t / 8)%Z by (by apply Z.div_le_mono). lia. Qed.

Lemma overlap_score_mono q s t :
  significant_terms s ⊆ significant_terms t → (overlap_score q s ≤ overlap_score q t)%Z.
Proof.
  intros H. unfold overlap_score.
  assert (size (significant_terms q ∩ significant_terms s)
          ≤ size (significant_terms q ∩ significant_terms t)) by (apply subseteq_size; set_solver).
  lia.
Qed.

Lemma rubric_bonus_mono r s t :
  significant_terms s ⊆ significant_terms t → (rubric_bonus r s ≤ rubric_bonus r t)%Z.
Proof.
  intros H. unfold rubric_bonus. destruct r as [r|]; [|done].
  destruct (bool_decide (r ≠ [])); simpl; [|done].
  unfold has_any_overlap.
  assert (significant_terms r ∩ significant_terms s ⊆ significant_terms r ∩ significant_terms t)
    as Hsub by (by apply intersection_mono_l).
  case_bool_decide as Hs; case_bool_decide as Ht; try lia. exfalso.
  rewrite Ht in Hsub. apply Hs. clear -Hsub. set_solver.
Qed.

Lemma clarity_bonus_mono s t : s ⊆ t → (clarity_bonus s ≤ clarity_bonus t)%Z.
Proof. intros H. unfold clarity_bonus. repeat case_bool_decide; simpl; try lia; set_solver. Qed.

(** ** Properties *)

(** The clamp never changes the sum of the four parts. *)
Lemma score_mock_response_run r :
  let answer := strip (req_answer r) in
  let s := (length_score answer + overlap_score (req_question r) answer
            + rubric_bonus (req_rubric r) answer + clarity_bonus answer)%Z in
  (0 ≤ s ≤ 100)%Z
  ∧ score_mock_response r
    = Ok (mkEvaluationResult s mock_justification (bool_decide (req_rubric r ≠ None))).
Proof.
  intros answer s.
  pose proof (length_score_bounds answer). pose proof (overlap_score_bounds (req_question r) answer).
  pose proof (rubric_bonus_bounds (req_rubric r) answer). pose proof (clarity_bonus_bounds answer).
  split; [lia|].
  unfold score_mock_response, validate_result, valid_result; simpl. fold answer.
  rewrite Z.max_r, Z.min_r by lia.
  by rewrite (proj2 (Z.leb_le _ _)), (proj2 (Z.leb_le _ _)) by lia.
Qed.

Lemma score_mock_response_valid r :
  ∃ v, score_mock_response r = Ok v ∧ valid_result v = true.
Proof.
  destruct (score_mock_response_run r) as [Hs ->]. eexists; split; [done|].
  unfold valid_result; cbn [score]. apply andb_true_iff. rewrite !Z.leb_le. exact Hs.
Qed.

(** C37: the score of every request is the sum of its four parts: the clamp to
    [0, 100] never changes it, so the result always satisfies the constraints of
    [EvaluationResult] and scoring never raises. *)
Theorem score_mock_response_total (r : EvaluationRequest) :
  let answer := strip (req_answer r) in
  ∃ s, score_mock_response r = Ok (mkEvaluationResult s mock_justification
                                     (bool_decide (req_rubric r ≠ None)))
       ∧ s = (length_score answer + overlap_score (req_question r) answer
              + rubric_bonus (req_rubric r) answer + clarity_bonus answer)%Z
       ∧ (0 ≤ s ≤ 100)%Z.
Proof. destruct (score_mock_response_run r) as [Hs ->]. by eexists. Qed.

Definition with_answer (a : pystr) (r : EvaluationRequest) : EvaluationRequest :=
  mkEvaluationRequest (req_tenant_id r) (req_project_id r) (req_question r) a (req_rubric r).

Definition scored (r : EvaluationRequest) : Z :=
  match score_mock_response r with Ok x => score x | Raise _ => 0 end.

Lemma scored_sum r :
  scored r = (length_score (strip (req_answer r)) + overlap_score (req_question r) (strip (req_answer r))
              + rubric_bonus (req_rubric r) (strip (req_answer r)) + clarity_bonus (strip (req_answer r)))%Z.
Proof. unfold scored. by rewrite (proj2 (score_mock_response_run r)). Qed.

(** Continuing an answer with white space and more text never lowers its score. *)
Theorem score_mock_response_mono (r : EvaluationRequest) (c : N) (more : pystr) :
  is_space c = true → (scored r ≤ scored (with_answer (req_answer r ++ c :: more) r))%Z.
Proof.
  intros Hc. rewrite !scored_sum; simpl.
  destruct (strip_extend (req_answer r) (c :: more)) as (a & b & Hstrip).
  assert (significant_terms (strip (req_answer r))
          ⊆ significant_terms (strip (req_answer r ++ c :: more))) as Hterms.
  { rewrite !significant_terms_strip. by apply significant_terms_app. }
  assert (length_score (strip (req_answer r)) ≤ length_score (strip (req_answer r ++ c :: more)))%Z.
  { apply length_score_mono. unfold str_len. rewrite Hstrip, !length_app. lia. }
  assert (clarity_bonus (strip (req_answer r)) ≤ clarity_bonus (strip (req_answer r ++ c :: more)))%Z.
  { apply clarity_bonus_mono. rewrite Hstrip. set_solver. }
  pose proof (overlap_score_mono (req_question r) _ _ Hterms).
  pose proof (rubric_bonus_mono (req_rubric r) _ _ Hterms). lia.
Qed.

Definition sample_request : EvaluationRequest :=
  mkEvaluationRequest (u"tenant-a") (u"project-a") (u"How does tracing help platform services?")
    (u"Tracing helps platform services explain latency and failures.")
    (Some (u"Mention tracing and failures.")).

Lemma score_mock_response_mono_witness :
  scored sample_request = 57%Z ∧
  (scored sample_request ≤ scored (with_answer (req_answer sample_request ++ 32%N :: u"Does it?") sample_request))%Z.
Proof.
  split; [vm_compute; reflexivity|].
  apply (score_mock_response_mono sample_request 32%N (u"Does it?")). reflexivity.
Defined.
