(* ===== verification/Lifecycle.v ===== *)
(** The life of a job: the transitions the repositories apply to one job, its
    well-formedness, and what holds of every sequence of transitions.  This is the
    abstract specification the two repositories refine. *)
From S2P Require Export Models.

(** ** Transitions of one job *)

(** [claim_next_queued] on the chosen job. *)
Definition claim_job (t t' : datetime) (j : EvaluationJob) : EvaluationJob :=
  set_updated_at t' (set_claimed_at (Some t)
    (set_attempt_count (attempt_count j + 1) (set_status RUNNING j))).

(** The assignments of [_transition]. *)
Definition move_job (target : JobStatus) (t : datetime) (j : EvaluationJob) : EvaluationJob :=
  set_updated_at t (set_status target j).

(** A job [claim_next_queued] may take. *)
Definition claimable (j : EvaluationJob) : bool :=
  bool_decide (status j = QUEUED) && (attempt_count j <? max_attempts j)%Z.

(** A job [recover_stale_running] takes back. *)
Definition stale (cutoff : datetime) (j : EvaluationJob) : bool :=
  bool_decide (status j = RUNNING)
  && match claimed_at j with Some c => (c <? cutoff)%Z | None => false end.

Definition timed_out_message : pystr := u"Evaluation worker timed out.".
Definition requeued_message : pystr := u"Evaluation worker stopped before completing the job.".

Definition recover_job (t : datetime) (j : EvaluationJob) : EvaluationJob :=
  set_updated_at t (set_claimed_at None
    (if (attempt_count j >=? max_attempts j)%Z
     then set_error_message (Some timed_out_message) (set_status FAILED j)
     else set_error_message (Some requeued_message) (set_status QUEUED j))).

(** The two backends differ on one point: Postgres clears [claimed_at] when a job
    ends, the in-memory repository keeps it. *)
Definition ends_claim (c : option datetime) (j : EvaluationJob) : Prop :=
  c = claimed_at j ∨ c = None.

Definition succeed_job (r : EvaluationResult) (c : option datetime) (t : datetime)
    (j : EvaluationJob) : EvaluationJob :=
  set_updated_at t (set_claimed_at c (set_result (Some r) (set_status SUCCEEDED j))).

Definition fail_job (m : pystr) (c : option datetime) (t : datetime)
    (j : EvaluationJob) : EvaluationJob :=
  set_updated_at t (set_claimed_at c (set_error_message (Some m) (set_status FAILED j))).

Inductive lstep : EvaluationJob → EvaluationJob → Prop :=
| l_claim j t t' : claimable j = true → lstep j (claim_job t t' j)
| l_start j t : status j = QUEUED → lstep j (move_job RUNNING t j)
| l_succeed j r c t :
    status j = RUNNING → valid_result r = true → ends_claim c j → lstep j (succeed_job r c t j)
| l_fail j m c t :
    status j = QUEUED ∨ status j = RUNNING → ends_claim c j → lstep j (fail_job m c t j)
| l_recover j cutoff t : stale cutoff j = true → lstep j (recover_job t j).

(** ** Well-formed jobs *)

Record job_ok (j : EvaluationJob) : Prop := {
  ok_valid : job_valid j = true;
  ok_attempts : (0 ≤ attempt_count j ≤ max_attempts j)%Z;
  ok_queued : status j = QUEUED → (attempt_count j < max_attempts j)%Z ∧ claimed_at j = None;
  ok_result : status j = SUCCEEDED ↔ is_Some (result j);
  ok_failed : status j = FAILED → is_Some (error_message j);
  ok_claimed : is_Some (claimed_at j) → (1 ≤ attempt_count j)%Z;
  ok_owner : tenant_id j = req_tenant_id (request j) ∧ project_id j = req_project_id (request j);
  ok_int32 : (max_attempts j < 2 ^ 31)%Z;
}.

Definition terminal (j : EvaluationJob) : Prop := status j = SUCCEEDED ∨ status j = FAILED.

Lemma new_job_ok id r t t' : valid_request r = true → job_ok (new_job id r t t').
Proof.
  intros H. constructor; simpl; try done; try lia.
  unfold job_valid; simpl. by rewrite H.
Qed.

Lemma claimable_spec j :
  claimable j = true ↔ status j = QUEUED ∧ (attempt_count j < max_attempts j)%Z.
Proof. unfold claimable. by rewrite andb_true_iff, bool_decide_eq_true, Z.ltb_lt. Qed.

Lemma stale_spec cutoff j :
  stale cutoff j = true ↔ status j = RUNNING ∧ ∃ c, claimed_at j = Some c ∧ (c < cutoff)%Z.
Proof.
  unfold stale. rewrite andb_true_iff, bool_decide_eq_true.
  destruct (claimed_at j); rewrite ?Z.ltb_lt; naive_solver.
Qed.

Lemma job_ok_not_result j : job_ok j → status j ≠ SUCCEEDED → result j = None.
Proof. intros [_ _ _ H _ _ _ _] Hs. destruct (result j) eqn:E; [|done]. exfalso. apply Hs, H. eauto. Qed.

(** Every queued job can be claimed: a requeued job always has attempts left. *)
Lemma queued_claimable j : job_ok j → status j = QUEUED → claimable j = true.
Proof. intros Hj Hq. apply claimable_spec. destruct (ok_queued _ Hj Hq). done. Qed.

(** A transition keeps everything but the status, result, message, attempts and
    time stamps. *)
Lemma lstep_identity j j' : lstep j j' → same_identity j j'.
Proof. by destruct 1; unfold recover_job; try case_match. Qed.

Lemma rtc_lstep_identity j j' : rtc lstep j j' → same_identity j j'.
Proof. induction 1 as [|x y z Hxy _ IH]; [done|]. by rewrite (lstep_identity _ _ Hxy). Qed.

Lemma job_valid_request j : job_valid j = true → valid_request (request j) = true.
Proof. unfold job_valid. by intros [? ?]%andb_true_iff. Qed.

Ltac solve_job :=
  repeat match goal with
  | |- _ ↔ _ => split
  | |- _ → _ => intro
  | H : is_Some None |- _ => destruct H
  | H : _ ∧ _ |- _ => destruct H
  end; try done; try lia; eauto.

Lemma lstep_ok j j' : job_ok j → lstep j j' → job_ok j'.
Proof.
  intros Hj Hstep. pose proof (job_ok_not_result _ Hj) as Hres.
  pose proof (job_valid_request _ (ok_valid _ Hj)) as Hreq.
  destruct Hj as [Hv Ha Hq Hr Hf Hc Ho H32].
  destruct Hstep as [j t t' H|j t H|j r c t H Hvr He|j m c t H He|j cutoff t H].
  - apply claimable_spec in H as [H ?].
    assert (result j = None) as Hn by (apply Hres; congruence).
    constructor; simpl; solve_job; rewrite Hn in *; solve_job.
  - assert (result j = None) as Hn by (apply Hres; congruence).
    constructor; simpl; solve_job; rewrite Hn in *; solve_job.
  - constructor; simpl; solve_job.
    + unfold job_valid; simpl. by rewrite Hreq, Hvr.
    + apply Hc. destruct He as [->| ->]; solve_job.
  - assert (result j = None) as Hn by (apply Hres; destruct H; congruence).
    constructor; simpl; solve_job; try (rewrite Hn in *; solve_job; fail).
    apply Hc. destruct He as [->| ->]; solve_job.
  - apply stale_spec in H as (H & c & Hcl & _).
    assert (result j = None) as Hn by (apply Hres; congruence).
    unfold recover_job. destruct (Z.geb_spec (attempt_count j) (max_attempts j));
      constructor; simpl; solve_job; rewrite Hn in *; solve_job.
Qed.

Lemma rtc_lstep_ok j j' : job_ok j → rtc lstep j j' → job_ok j'.
Proof. intros Hj. induction 1; eauto using lstep_ok. Qed.

(** ** Lives are finite *)

(** How many transitions a job still has in front of it, at most. *)
Definition rank (j : EvaluationJob) : Z :=
  match status j with
  | QUEUED => 2 * (max_attempts j - attempt_count j)
  | RUNNING =>
      match claimed_at j with
      | Some _ => 2 * (max_attempts j - attempt_count j) + 1
      | None => 1
      end
  | SUCCEEDED | FAILED => 0
  end.

Lemma rank_nonneg j : job_ok j → (0 ≤ rank j)%Z.
Proof. intros [_ Ha _ _ _ _ _ _]. unfold rank. repeat case_match; lia. Qed.

Lemma lstep_rank j j' : job_ok j → lstep j j' → (rank j' < rank j)%Z.
Proof.
  intros Hj Hstep. destruct Hj as [_ Ha Hq _ _ _ _ _]. unfold rank.
  destruct Hstep as [j t t' H|j t H|j r c t H _ _|j m c t H _|j cutoff t H]; simpl.
  - apply claimable_spec in H as [-> ?]. lia.
  - rewrite H. destruct (Hq H) as [? ->]. lia.
  - rewrite H. case_match; lia.
  - destruct H as [H|H]; rewrite H; [destruct (Hq H); lia|case_match; lia].
  - apply stale_spec in H as (H & c & Hc & _). rewrite H, Hc. unfold recover_job.
    destruct (Z.geb_spec (attempt_count j) (max_attempts j)); simpl; lia.
Qed.

Lemma nsteps_lstep_rank n j j' : job_ok j → nsteps lstep n j j' → (Z.of_nat n ≤ rank j - rank j')%Z.
Proof.
  intros Hj H. induction H as [|n x y z Hxy _ IH]; [lia|].
  pose proof (lstep_rank _ _ Hj Hxy). specialize (IH (lstep_ok _ _ Hj Hxy)). lia.
Qed.

Lemma terminal_no_lstep j j' : terminal j → ¬ lstep j j'.
Proof.
  intros Ht Hs. destruct Hs as [j t t' H|j t H|j r c t H|j m c t H|j cutoff t H];
    rewrite ?claimable_spec, ?stale_spec in H; unfold terminal in Ht; destruct_and?; intuition congruence.
Qed.

Lemma terminal_rtc j j' : terminal j → rtc lstep j j' → j' = j.
Proof.
  intros Ht Hrtc. destruct Hrtc as [|x y z H _]; [done|]. by destruct (terminal_no_lstep _ _ Ht H).
Qed.

Lemma lstep_attempts j j' : lstep j j' → (attempt_count j ≤ attempt_count j' ≤ attempt_count j + 1)%Z.
Proof. destruct 1; unfold recover_job; simpl; try case_match; simpl; lia. Qed.

(** C24: a submitted job goes through at most twice [max_attempts] transitions,
    whatever the workers, the recoveries and the failures do; on the way its
    attempts stay within the budget, and a finished job never changes again. *)
Theorem job_life_bounded (id : UUID) (r : EvaluationRequest) (t t' : datetime) (n : nat)
    (j : EvaluationJob) :
  valid_request r = true → nsteps lstep n (new_job id r t t') j →
  (Z.of_nat n ≤ 2 * max_attempts j)%Z ∧ (0 ≤ attempt_count j ≤ max_attempts j)%Z
  ∧ (terminal j → ∀ j', rtc lstep j j' → j' = j).
Proof.
  intros Hr Hn. pose proof (new_job_ok id r t t' Hr) as H0.
  pose proof (rtc_nsteps_2 _ _ _ Hn) as Hrtc. pose proof (rtc_lstep_ok _ _ H0 Hrtc) as Hj.
  destruct (rtc_lstep_identity _ _ Hrtc) as (_ & _ & _ & _ & _ & Hmax). simpl in Hmax.
  pose proof (nsteps_lstep_rank _ _ _ H0 Hn). pose proof (rank_nonneg _ Hj).
  split_and!; [|by apply (ok_attempts _ Hj)..|].
  - unfold rank in H at 1. simpl in H. lia.
  - intros Ht j' H'. by apply terminal_rtc.
Qed.

Lemma claim_recover_steps j t t' :
  claimable j = true → nsteps lstep 2 j (recover_job t' (claim_job t t j)).
Proof.
  intros H. eapply nsteps_l; [by apply l_claim|]. apply nsteps_once, (l_recover _ (t + 1)%Z).
  apply stale_spec. split; [done|]. exists t. split; [done|lia].
Qed.

(** Three claims, each lost to a timeout, use up the whole budget. *)
Definition lost_job : EvaluationJob :=
  let r := mkEvaluationRequest (u"t") (u"p") (u"q") (u"a") None in
  let lose (t : Z) j := recover_job (t + 2)%Z (claim_job t t j) in
  lose 20%Z (lose 10%Z (lose 0%Z (new_job 7%N r 0%Z 0%Z))).

Lemma job_life_bounded_witness :
  status lost_job = FAILED ∧ (6 ≤ 2 * max_attempts lost_job)%Z
  ∧ (∀ j', rtc lstep lost_job j' → j' = lost_job).
Proof.
  split; [reflexivity|].
  assert (nsteps lstep 6 (new_job 7%N (mkEvaluationRequest (u"t") (u"p") (u"q") (u"a") None) 0%Z 0%Z)
            lost_job) as Hn.
  { change 6 with (2 + (2 + 2)). do 2 (eapply nsteps_trans; [by apply claim_recover_steps|]).
    by apply claim_recover_steps. }
  destruct (job_life_bounded 7%N (mkEvaluationRequest (u"t") (u"p") (u"q") (u"a") None) 0%Z 0%Z 6
              lost_job eq_refl Hn) as (Hlen & _ & Hend).
  split; [exact Hlen|]. intros j' H. apply Hend; [right; reflexivity|exact H].
Defined.

(** ** The stored jobs *)

(** The abstract contents of a repository: every job under its own id. *)
Notation store := (gmap UUID EvaluationJob).

Definition store_ok (v : store) : Prop := map_Forall (λ id j, job_id j = id ∧ job_ok j) v.

(** Jobs are never lost, and each one only moves along its life. *)
Definition evolves (v v' : store) : Prop :=
  ∀ id j, v !! id = Some j → ∃ j', v' !! id = Some j' ∧ rtc lstep j j'.

#[export] Instance evolves_preorder : PreOrder evolves.
Proof.
  split.
  - intros v id j ?. by exists j.
  - intros v1 v2 v3 H1 H2 id j Hj. destruct (H1 _ _ Hj) as (j2 & Hj2 & ?).
    destruct (H2 _ _ Hj2) as (j3 & ? & ?). exists j3. split; [done|by etrans].
Qed.

Lemma store_ok_insert v id j : store_ok v → job_id j = id → job_ok j → store_ok (<[id := j]> v).
Proof. intros. by apply map_Forall_insert_2. Qed.

Lemma evolves_insert_new v id j : v !! id = None → evolves v (<[id := j]> v).
Proof.
  intros Hid id' j' Hj'. exists j'. rewrite lookup_insert_ne; [done|]. intros ->. congruence.
Qed.

Lemma evolves_step v id j j' : v !! id = Some j → lstep j j' → evolves v (<[id := j']> v).
Proof.
  intros Hj Hs id2 j2 Hj2. destruct (decide (id = id2)) as [<-|].
  - simplify_eq. exists j'. rewrite lookup_insert_eq. split; [done|by apply rtc_once].
  - exists j2. by rewrite lookup_insert_ne.
Qed.

Lemma store_ok_step v id j j' :
  store_ok v → v !! id = Some j → lstep j j' → store_ok (<[id := j']> v).
Proof.
  intros Hv Hj Hs. destruct (Hv _ _ Hj) as [<- Hok].
  apply store_ok_insert; [done|symmetry; by apply (lstep_identity _ _ Hs)|by eapply lstep_ok].
Qed.

Lemma evolves_identity v v' id j :
  evolves v v' → v !! id = Some j → ∃ j', v' !! id = Some j' ∧ same_identity j j'.
Proof.
  intros He Hj. destruct (He _ _ Hj) as (j' & ? & ?%rtc_lstep_identity). eauto.
Qed.
#[export] Hint Resolve store_ok_insert store_ok_step evolves_insert_new evolves_step : pylib.
