(* ===== verification/Repository.v ===== *)
(** The repository interface ([app/storage/base.py]) and its contract.

    [JobRepository] lists the operations of the protocol; a method returns
    *references* to jobs, because the in-memory backend hands out the very objects
    it stores.  [RepositoryLaws] states what the job service and the worker rely
    on, in terms of the abstract store of [Lifecycle]. *)
From S2P Require Export Lifecycle.

(** ** Operations *)

Class JobRepository (S : Type) := {
  ref : Type;
  (** The fields of a returned job, read in the current state. *)
  deref : S → ref → EvaluationJob;
  create : EvaluationJob → M (S * clock) ref;
  get : UUID → M (S * clock) ref;
  get_for_tenant : UUID → pystr → M (S * clock) ref;
  list_recent : pystr → option pystr → Z → M (S * clock) (list ref);
  claim_next_queued : M (S * clock) (option ref);
  recover_stale_running : datetime → M (S * clock) Z;
  set_running : UUID → M (S * clock) ref;
  set_succeeded : UUID → EvaluationResult → M (S * clock) ref;
  set_failed : UUID → pystr → M (S * clock) ref;
  health_check : M (S * clock) bool;
  close : M (S * clock) unit;
}.

(** ** Abstract specifications *)

(** Jobs a listing may return. *)
Definition listed (tenant : pystr) (project : option pystr) (j : EvaluationJob) : Prop :=
  tenant_id j = tenant ∧ (∀ p, project = Some p → project_id j = p).

#[export] Instance listed_dec tenant project j : Decision (listed tenant project j).
Proof.
  refine (match project with
          | None => cast_if (decide (tenant_id j = tenant))
          | Some p => cast_if (decide (tenant_id j = tenant ∧ project_id j = p))
          end); unfold listed; naive_solver.
Defined.

(** Most recent first. *)
Definition newer (j j' : EvaluationJob) : Prop := (created_at j' ≤ created_at j)%Z.

(** [js] is a listing of the store: some ordering of the matching jobs, most recent
    first, cut at [limit]. *)
Definition is_listing (v : store) (tenant : pystr) (project : option pystr) (limit : Z)
    (js : list EvaluationJob) : Prop :=
  ∃ all, all ≡ₚ filter (listed tenant project) (map_to_list v).*2
         ∧ StronglySorted newer all ∧ js = slice_to limit all.

(** [id] is an oldest claimable job among those no other transaction holds. *)
Definition is_next (v : store) (held : gset UUID) (id : UUID) (j : EvaluationJob) : Prop :=
  v !! id = Some j ∧ claimable j = true
  ∧ ∀ id' j', v !! id' = Some j' → claimable j' = true → id' ∉ held →
              (created_at j ≤ created_at j')%Z.

Definition none_next (v : store) (held : gset UUID) : Prop :=
  ∀ id j, v !! id = Some j → claimable j = true → id ∈ held.

(** The jobs a recovery takes back, and the store it leaves. *)
Definition recoverable (v : store) (held : gset UUID) (cutoff : datetime) : store :=
  filter (λ '(id, j), stale cutoff j = true ∧ id ∉ held) v.

Lemma recoverable_size v held cutoff js :
  store_ok v → js ≡ₚ (map_to_list v).*2 →
  size (recoverable v held cutoff)
  = length (filter (λ j, stale cutoff j = true ∧ job_id j ∉ held) js).
Proof.
  intros Hv Hjs. rewrite Hjs, filter_fmap, length_fmap. unfold recoverable.
  rewrite map_filter_alt, map_size_list_to_map.
  - f_equal. apply filter_ext_elem. intros [id j] Hin%elem_of_map_to_list.
    destruct (Hv _ _ Hin) as [<- _]. done.
  - apply (NoDup_fmap_filter), NoDup_fst_map_to_list.
Qed.

Definition recovered (v : store) (held : gset UUID) (cutoff : datetime) (v' : store) : Prop :=
  ∀ id, match v !! id with
        | None => v' !! id = None
        | Some j =>
            if decide (stale cutoff j = true ∧ id ∉ held)
            then ∃ t, v' !! id = Some (recover_job t j)
            else v' !! id = Some j
        end.

(** What a status change does to job [id]: [from] lists the accepted statuses. *)
Definition transition_spec (v : store) (id : UUID) (from : list JobStatus)
    (upd : EvaluationJob → EvaluationJob → Prop) (r : res EvaluationJob) (v' : store) : Prop :=
  match v !! id with
  | None => r = Raise NotFound ∧ v' = v
  | Some j =>
      if decide (status j ∈ from)
      then ∃ j', upd j j' ∧ r = Ok j' ∧ v' = <[id := j']> v
      else r = Raise InvalidStateTransition ∧ v' = v
  end.

Definition started (j j' : EvaluationJob) : Prop := ∃ t, j' = move_job RUNNING t j.
Definition succeeded (r : EvaluationResult) (j j' : EvaluationJob) : Prop :=
  ∃ c t, ends_claim c j ∧ j' = succeed_job r c t j.
Definition failed (m : pystr) (j j' : EvaluationJob) : Prop :=
  ∃ c t, ends_claim c j ∧ j' = fail_job m c t j.

(** The storage failed, as SQLAlchemy reports it. *)
Definition storage_error {A} (r : res A) : Prop := ∃ text, r = Raise (StorageExn text).

(** ** The contract *)

Class RepositoryLaws (S : Type) `{R : JobRepository S} := {
  repo_inv : S → Prop;
  view : S → store;
  (** The storage cannot fail (an in-memory repository never does). *)
  reliable : S → Prop;
  (** Rows held by transactions of other sessions. *)
  held : S → gset UUID;
  (** [r] was returned for job [id]. *)
  tracks : S → ref → UUID → Prop;

  repo_inv_ok s : repo_inv s → store_ok (view s);
  tracks_deref s r id :
    repo_inv s → tracks s r id → ∃ j, view s !! id = Some j ∧ same_identity (deref s r) j;

  (** A storage failure is reported as such.  It reaches the caller with nothing changed, or
      with the change made: the commit took place and its answer was lost, or the row could
      not be read back afterwards. *)
  repo_le : S → S → Prop;
  repo_le_preorder :: PreOrder repo_le;
  repo_le_evolves s s' : repo_le s s' → evolves (view s) (view s');
  repo_le_tracks s s' r id : repo_inv s → repo_le s s' → tracks s r id → tracks s' r id;
  repo_le_reliable s s' : repo_le s s' → reliable s → reliable s';
  repo_le_held s s' : repo_le s s' → held s' = held s;

  create_spec j s c r s' c' :
    repo_inv s → job_ok j → status j = QUEUED → view s !! job_id j = None →
    create j (s, c) = (r, (s', c')) →
    repo_inv s' ∧ repo_le s s'
    ∧ ((∃ x, r = Ok x ∧ deref s' x = j ∧ tracks s' x (job_id j)
             ∧ view s' = <[job_id j := j]> (view s))
       ∨ (¬ reliable s ∧ storage_error r
          ∧ (view s' = view s ∨ view s' = <[job_id j := j]> (view s))));

  get_spec id s c r s' c' :
    repo_inv s → get id (s, c) = (r, (s', c')) →
    repo_inv s' ∧ repo_le s s' ∧ view s' = view s
    ∧ (match view s !! id with
       | None => r = Raise NotFound
       | Some j => ∃ x, r = Ok x ∧ deref s' x = j ∧ tracks s' x id
       end
       ∨ (¬ reliable s ∧ storage_error r));

  get_for_tenant_spec id tenant s c r s' c' :
    repo_inv s → get_for_tenant id tenant (s, c) = (r, (s', c')) →
    repo_inv s' ∧ repo_le s s' ∧ view s' = view s
    ∧ (match view s !! id with
       | Some j =>
           if decide (tenant_id j = tenant)
           then ∃ x, r = Ok x ∧ deref s' x = j ∧ tracks s' x id
           else r = Raise NotFound
       | None => r = Raise NotFound
       end
       ∨ (¬ reliable s ∧ storage_error r));

  list_recent_spec tenant project limit s c r s' c' :
    repo_inv s → (0 ≤ limit)%Z → list_recent tenant project limit (s, c) = (r, (s', c')) →
    repo_inv s' ∧ repo_le s s' ∧ view s' = view s
    ∧ ((∃ xs, r = Ok xs ∧ is_listing (view s) tenant project limit (deref s' <$> xs)
              ∧ Forall (λ x, ∃ id, tracks s' x id) xs)
       ∨ (¬ reliable s ∧ storage_error r));

  claim_next_queued_spec s c r s' c' :
    repo_inv s → claim_next_queued (s, c) = (r, (s', c')) →
    repo_inv s' ∧ repo_le s s'
    ∧ ((r = Ok None ∧ view s' = view s ∧ none_next (view s) (held s))
       ∨ (∃ x id j t t', r = Ok (Some x) ∧ is_next (view s) (held s) id j
            ∧ deref s' x = claim_job t t' j ∧ tracks s' x id
            ∧ view s' = <[id := claim_job t t' j]> (view s))
       ∨ (¬ reliable s ∧ storage_error r
          ∧ (view s' = view s
             ∨ ∃ id j t t', is_next (view s) (held s) id j
                 ∧ view s' = <[id := claim_job t t' j]> (view s))));

  recover_stale_running_spec cutoff s c r s' c' :
    repo_inv s → recover_stale_running cutoff (s, c) = (r, (s', c')) →
    repo_inv s' ∧ repo_le s s'
    ∧ ((r = Ok (Z.of_nat (size (recoverable (view s) (held s) cutoff)))
        ∧ recovered (view s) (held s) cutoff (view s'))
       ∨ (¬ reliable s ∧ storage_error r
          ∧ (view s' = view s ∨ recovered (view s) (held s) cutoff (view s'))));

  set_running_spec id s c r s' c' :
    repo_inv s → set_running id (s, c) = (r, (s', c')) →
    repo_inv s' ∧ repo_le s s' ∧ (∀ x, r = Ok x → tracks s' x id)
    ∧ (transition_spec (view s) id [QUEUED] started
         (match r with Ok x => Ok (deref s' x) | Raise e => Raise e end) (view s')
       ∨ (¬ reliable s ∧ storage_error r
          ∧ (view s' = view s
             ∨ ∃ j', transition_spec (view s) id [QUEUED] started (Ok j') (view s'))));

  set_succeeded_spec id v s c r s' c' :
    repo_inv s → valid_result v = true → set_succeeded id v (s, c) = (r, (s', c')) →
    repo_inv s' ∧ repo_le s s' ∧ (∀ x, r = Ok x → tracks s' x id)
    ∧ (transition_spec (view s) id [RUNNING] (succeeded v)
         (match r with Ok x => Ok (deref s' x) | Raise e => Raise e end) (view s')
       ∨ (¬ reliable s ∧ storage_error r
          ∧ (view s' = view s
             ∨ ∃ j', transition_spec (view s) id [RUNNING] (succeeded v) (Ok j') (view s'))));

  set_failed_spec id m s c r s' c' :
    repo_inv s → set_failed id m (s, c) = (r, (s', c')) →
    repo_inv s' ∧ repo_le s s' ∧ (∀ x, r = Ok x → tracks s' x id)
    ∧ (transition_spec (view s) id [QUEUED; RUNNING] (failed m)
         (match r with Ok x => Ok (deref s' x) | Raise e => Raise e end) (view s')
       ∨ (¬ reliable s ∧ storage_error r
          ∧ (view s' = view s
             ∨ ∃ j', transition_spec (view s) id [QUEUED; RUNNING] (failed m) (Ok j') (view s'))));

  health_check_spec s c r s' c' :
    repo_inv s → health_check (s, c) = (r, (s', c')) →
    repo_inv s' ∧ repo_le s s' ∧ view s' = view s ∧ ∃ b, r = Ok b ∧ (reliable s → b = true);

  close_spec s c r s' c' :
    repo_inv s → close (s, c) = (r, (s', c')) →
    repo_inv s' ∧ repo_le s s' ∧ view s' = view s ∧ r = Ok tt;
}.
#[export] Hint Resolve repo_inv_ok repo_le_evolves : pylib.

(** A repository takes its times from the clock. *)
Class ClockedRepository (S : Type) `{JobRepository S} := {
  create_clocked j : clocked (create j);
  get_clocked id : clocked (get id);
  get_for_tenant_clocked id tenant : clocked (get_for_tenant id tenant);
  list_recent_clocked tenant project limit : clocked (list_recent tenant project limit);
  claim_next_queued_clocked : clocked claim_next_queued;
  recover_stale_running_clocked cutoff : clocked (recover_stale_running cutoff);
  set_running_clocked id : clocked (set_running id);
  set_succeeded_clocked id v : clocked (set_succeeded id v);
  set_failed_clocked id m : clocked (set_failed id m);
  health_check_clocked : clocked health_check;
  close_clocked : clocked close;
}.
#[export] Hint Resolve create_clocked get_clocked get_for_tenant_clocked list_recent_clocked
  claim_next_queued_clocked recover_stale_running_clocked set_running_clocked
  set_succeeded_clocked set_failed_clocked health_check_clocked close_clocked : frames.

(** ** Consequences of the contract, for any repository *)

Section Laws.
Context {S : Type} `{RL : RepositoryLaws S}.

Lemma transition_raises v id from upd r v' e :
  transition_spec v id from upd r v' → r = Raise e →
  v' = v ∧ (e = NotFound ∨ e = InvalidStateTransition).
Proof.
  unfold transition_spec. intros H ->. repeat case_match; destruct_and?; simplify_eq; auto.
  by destruct H as (? & _ & ? & _).
Qed.

Lemma transition_ok v id from upd j' v' :
  transition_spec v id from upd (Ok j') v' →
  ∃ j, v !! id = Some j ∧ status j ∈ from ∧ upd j j' ∧ v' = <[id := j']> v.
Proof.
  unfold transition_spec. repeat case_match; intros H'; destruct_and?; simplify_eq.
  destruct H' as (j'' & ? & ? & ?). simplify_eq. eauto.
Qed.

(** A listing holds only jobs of the tenant (and project), each stored. *)
Lemma is_listing_elem v tenant project limit js j :
  is_listing v tenant project limit js → j ∈ js →
  listed tenant project j ∧ ∃ id, v !! id = Some j.
Proof.
  intros (all & Hall & _ & ->) Hj. apply elem_of_slice_to in Hj.
  rewrite Hall in Hj. apply list_elem_of_filter in Hj as [? Hj]. split; [done|].
  apply list_elem_of_fmap in Hj as ([id j'] & -> & Hin). exists id.
  by apply elem_of_map_to_list in Hin.
Qed.
End Laws.
