(* ===== verification/InMemory.v ===== *)
(** The in-memory repository ([app/storage/in_memory.py]).

    Jobs are mutable objects: [heap] maps the address of an object to its fields and
    [_jobs] is the dictionary of references, in insertion order.  The methods return
    references, so a caller sees every later assignment to the job.  The critical
    sections of the source hold [asyncio.Lock] and contain no [await], so on one
    event loop each of them is one atomic piece of code. *)
From S2P Require Export Repository.

Definition loc := N.

Record InMemoryJobRepository := mkRepo {
  _jobs : list (UUID * loc);
  heap : gmap loc EvaluationJob;
  next_loc : loc;
}.

Notation IM := (M (InMemoryJobRepository * clock)).

(** ** Objects and the dictionary *)

(** The fields of the object at [l]. *)
Definition obj (s : InMemoryJobRepository) (l : loc) : EvaluationJob := heap s !!! l.
Arguments obj : simpl never.

Definition alloc (j : EvaluationJob) : IM loc := λ '(s, c),
  (Ok (next_loc s),
   (mkRepo (_jobs s) (<[next_loc s := j]> (heap s)) (next_loc s + 1)%N, c)).

(** [job.field = value]. *)
Definition assign (l : loc) (f : EvaluationJob → EvaluationJob) : IM unit := λ '(s, c),
  (Ok tt, (mkRepo (_jobs s) (alter f l (heap s)) (next_loc s), c)).

(** [self._jobs[id] = job]. *)
Definition set_item (id : UUID) (l : loc) : IM unit := λ '(s, c),
  (Ok tt, (mkRepo (dict_set id l (_jobs s)) (heap s) (next_loc s), c)).

(** [self._jobs.values()]. *)
Definition values (s : InMemoryJobRepository) : list loc := (_jobs s).*2.

Module Memory.

(** ** The methods *)

(** [InMemoryJobRepository.__init__]. *)
Definition init : InMemoryJobRepository := mkRepo [] ∅ 0%N.

Definition create (job : EvaluationJob) : IM loc :=
  l ← alloc job;
  set_item (job_id job) l;;
  mret l.

Definition get (id : UUID) : IM loc :=
  s ← get_state;
  match dict_get id (_jobs s) with
  | Some l => mret l
  | None => raise NotFound
  end.

Definition get_for_tenant (id : UUID) (tenant : pystr) : IM loc :=
  l ← get id;
  s ← get_state;
  if decide (tenant_id (obj s l) = tenant) then mret l else raise NotFound.

Definition list_recent (tenant : pystr) (project : option pystr) (limit : Z) : IM (list loc) :=
  s ← get_state;
  let jobs := filter (λ l, tenant_id (obj s l) = tenant) (values s) in
  let jobs := match project with
              | Some p => filter (λ l, project_id (obj s l) = p) jobs
              | None => jobs
              end in
  mret (slice_to limit (sorted_by_reverse (λ l, created_at (obj s l)) jobs)).

Definition claim_next_queued : IM (option loc) :=
  s ← get_state;
  let queued_jobs :=
    filter (λ l, status (obj s l) = QUEUED ∧ (attempt_count (obj s l) < max_attempts (obj s l))%Z)
      (values s) in
  match sorted_by (λ l, created_at (obj s l)) queued_jobs with
  | [] => mret None
  | l :: _ =>
      assign l (set_status RUNNING);;
      assign l (λ j, set_attempt_count (attempt_count j + 1) j);;
      t ← now; assign l (set_claimed_at (Some t));;
      t' ← now; assign l (set_updated_at t');;
      s' ← get_state;
      set_item (job_id (obj s' l)) l;;
      mret (Some l)
  end.

(** The body of the loop of [recover_stale_running] for one job: 1 if recovered. *)
Definition recover_one (cutoff : datetime) (l : loc) : IM Z :=
  s ← get_state;
  if decide (status (obj s l) ≠ RUNNING) then mret 0%Z
  else match claimed_at (obj s l) with
  | None => mret 0%Z
  | Some c =>
      if (c >=? cutoff)%Z then mret 0%Z
      else
        (if (attempt_count (obj s l) >=? max_attempts (obj s l))%Z
         then assign l (set_status FAILED);; assign l (set_error_message (Some timed_out_message))
         else assign l (set_status QUEUED);; assign l (set_error_message (Some requeued_message)));;
        assign l (set_claimed_at None);;
        t ← now; assign l (set_updated_at t);;
        s' ← get_state;
        set_item (job_id (obj s' l)) l;;
        mret 1%Z
  end.

Fixpoint recover_loop (cutoff : datetime) (ls : list loc) (recovered : Z) : IM Z :=
  match ls with
  | [] => mret recovered
  | l :: ls' =>
      n ← recover_one cutoff l;
      recover_loop cutoff ls' (recovered + n)
  end.

Definition recover_stale_running (cutoff : datetime) : IM Z :=
  s ← get_state;
  recover_loop cutoff (values s) 0.

Definition _transition (id : UUID) (allowed_from : list JobStatus) (target : JobStatus) : IM loc :=
  s ← get_state;
  match dict_get id (_jobs s) with
  | None => raise NotFound
  | Some l =>
      if decide (status (obj s l) ∈ allowed_from) then
        assign l (set_status target);;
        t ← now; assign l (set_updated_at t);;
        set_item id l;;
        mret l
      else raise InvalidStateTransition
  end.

Definition set_running (id : UUID) : IM loc := _transition id [QUEUED] RUNNING.

Definition set_succeeded (id : UUID) (r : EvaluationResult) : IM loc :=
  l ← _transition id [RUNNING] SUCCEEDED;
  assign l (set_result (Some r));;
  t ← now; assign l (set_updated_at t);;
  set_item id l;;
  mret l.

Definition set_failed (id : UUID) (message : pystr) : IM loc :=
  l ← _transition id [QUEUED; RUNNING] FAILED;
  assign l (set_error_message (Some message));;
  t ← now; assign l (set_updated_at t);;
  set_item id l;;
  mret l.

Definition health_check : IM bool := mret true.
Definition close : IM unit := mret tt.

End Memory.

#[export] Instance InMemory_repository : JobRepository InMemoryJobRepository := {|
  ref := loc;
  deref := obj;
  create := Memory.create;
  get := Memory.get;
  get_for_tenant := Memory.get_for_tenant;
  list_recent := Memory.list_recent;
  claim_next_queued := Memory.claim_next_queued;
  recover_stale_running := Memory.recover_stale_running;
  set_running := Memory.set_running;
  set_succeeded := Memory.set_succeeded;
  set_failed := Memory.set_failed;
  health_check := Memory.health_check;
  close := Memory.close;
|}.

(** The methods take their times from the clock. *)
Lemma alloc_clocked j : clocked (alloc j).
Proof. intros s c. reflexivity. Qed.
Lemma assign_clocked l f : clocked (assign l f).
Proof. intros s c. reflexivity. Qed.
Lemma set_item_clocked id l : clocked (set_item id l).
Proof. intros s c. reflexivity. Qed.
#[export] Hint Resolve alloc_clocked assign_clocked set_item_clocked : clocked.

Lemma recover_loop_clocked cutoff ls : ∀ n, clocked (Memory.recover_loop cutoff ls n).
Proof.
  induction ls as [|l ls IH]; intros n; cbn [Memory.recover_loop]; [solve_clocked|].
  apply clocked_bind; [|done]. unfold Memory.recover_one. solve_clocked.
Qed.
#[export] Hint Resolve recover_loop_clocked : clocked.

#[export] Instance InMemory_clocked : ClockedRepository InMemoryJobRepository.
Proof.
  split; intros; cbn; unfold Memory.create, Memory.get_for_tenant, Memory.get, Memory.list_recent,
    Memory.claim_next_queued, Memory.recover_stale_running, Memory.set_running, Memory.set_succeeded,
    Memory.set_failed, Memory._transition, Memory.health_check, Memory.close; solve_clocked.
Qed.

(** ** Representation *)

(** The state after assigning to the fields of one object. *)
Definition upd (s : InMemoryJobRepository) (l : loc) (f : EvaluationJob → EvaluationJob) :
    InMemoryJobRepository := mkRepo (_jobs s) (alter f l (heap s)) (next_loc s).

Definition im_view (s : InMemoryJobRepository) : store :=
  list_to_map ((λ '(id, l), (id, obj s l)) <$> _jobs s).

(** Every entry of the dictionary refers to its own live object, which carries the
    key as its [job_id] and is well formed. *)
Record im_inv (s : InMemoryJobRepository) : Prop := {
  inv_keys : NoDup (_jobs s).*1;
  inv_locs : NoDup (values s);
  inv_entry id l : (id, l) ∈ _jobs s →
    (l < next_loc s)%N ∧ is_Some (heap s !! l) ∧ job_id (obj s l) = id ∧ job_ok (obj s l);
}.

Definition im_tracks (s : InMemoryJobRepository) (l : loc) (id : UUID) : Prop :=
  dict_get id (_jobs s) = Some l.

Definition im_le (s s' : InMemoryJobRepository) : Prop :=
  (∀ id l, im_tracks s l id → im_tracks s' l id) ∧ evolves (im_view s) (im_view s').

#[export] Instance im_le_preorder : PreOrder im_le.
Proof.
  split.
  - intros s. by split.
  - intros s1 s2 s3 [Ht12 He12] [Ht23 He23]. split; [auto|by etrans].
Qed.

Lemma im_view_lookup s id : im_view s !! id = obj s <$> dict_get id (_jobs s).
Proof.
  unfold im_view. induction (_jobs s) as [|[k l] d IH]; simpl; [apply lookup_empty|].
  rewrite lookup_insert. repeat case_decide; simplify_eq; done.
Qed.

Lemma im_view_tracks s id l : im_tracks s l id → im_view s !! id = Some (obj s l).
Proof. intros H. by rewrite im_view_lookup, H. Qed.

Lemma im_view_Some s id j :
  im_view s !! id = Some j → ∃ l, im_tracks s l id ∧ j = obj s l.
Proof. rewrite im_view_lookup. intros (l & ? & ?)%fmap_Some. eauto. Qed.

Section Invariant.
Context (s : InMemoryJobRepository) (Hs : im_inv s).

Lemma tracks_entry id l : im_tracks s l id →
  (l < next_loc s)%N ∧ is_Some (heap s !! l) ∧ job_id (obj s l) = id ∧ job_ok (obj s l).
Proof. intros H. apply (inv_entry _ Hs). by apply dict_get_Some. Qed.

Lemma tracks_inj id id' l : im_tracks s l id → im_tracks s l id' → id = id'.
Proof.
  intros H H'. destruct (tracks_entry _ _ H) as (_ & _ & <- & _).
  by destruct (tracks_entry _ _ H') as (_ & _ & <- & _).
Qed.

Lemma elem_of_values l : l ∈ values s → im_tracks s l (job_id (obj s l)).
Proof.
  unfold values. intros ([id l'] & -> & Hin)%list_elem_of_fmap. simpl.
  destruct (inv_entry _ Hs _ _ Hin) as (_ & _ & -> & _).
  by apply elem_of_dict_get; [apply inv_keys|].
Qed.

Lemma tracks_values id l : im_tracks s l id → l ∈ values s.
Proof. intros H%dict_get_Some. apply list_elem_of_fmap. by exists (id, l). Qed.

Lemma im_store_ok : store_ok (im_view s).
Proof.
  intros id j (l & Hl & ->)%im_view_Some.
  by destruct (tracks_entry _ _ Hl) as (_ & _ & ? & ?).
Qed.

Lemma obj_upd_eq id l f : im_tracks s l id → obj (upd s l f) l = f (obj s l).
Proof.
  intros H. destruct (tracks_entry _ _ H) as (_ & [j Hj] & _).
  unfold obj, upd; simpl. rewrite !lookup_total_alt, lookup_alter_eq, Hj. done.
Qed.

Lemma obj_upd_ne l l' f : l ≠ l' → obj (upd s l f) l' = obj s l'.
Proof. intros. unfold obj, upd; simpl. by rewrite !lookup_total_alt, lookup_alter_ne. Qed.

(** Assigning to the object of job [id] changes exactly that job. *)
Lemma im_view_upd id l f :
  im_tracks s l id → im_view (upd s l f) = <[id := f (obj s l)]> (im_view s).
Proof.
  intros H. apply map_eq. intros id'. rewrite lookup_insert, !im_view_lookup.
  change (_jobs (upd s l f)) with (_jobs s). case_decide as Hd.
  - subst id'. rewrite H. simpl. by rewrite (obj_upd_eq id).
  - destruct (dict_get id' (_jobs s)) as [l'|] eqn:E; [|done]. simpl.
    rewrite obj_upd_ne; [done|]. intros ->. apply Hd. by apply (tracks_inj _ _ l').
Qed.

Lemma im_inv_upd id l f :
  im_tracks s l id → same_identity (obj s l) (f (obj s l)) → job_ok (f (obj s l)) →
  im_inv (upd s l f).
Proof.
  intros H Hid Hok. constructor; [apply (inv_keys _ Hs)|apply (inv_locs _ Hs)|].
  intros id' l' Hin. destruct (inv_entry _ Hs _ _ Hin) as (Hlt & Hsome & Hk & Hj).
  split_and!; [done|simpl; by rewrite lookup_alter_is_Some|..];
    (destruct (decide (l = l')) as [<-|Hne];
     [rewrite (obj_upd_eq id) by done|by rewrite obj_upd_ne by done]); [|done].
  destruct Hid as (<- & _). done.
Qed.

(** A life step of job [id], written into its object. *)
Lemma im_step id l f :
  im_tracks s l id → lstep (obj s l) (f (obj s l)) → im_inv (upd s l f) ∧ im_le s (upd s l f).
Proof.
  intros H Hstep. destruct (tracks_entry _ _ H) as (_ & _ & _ & Hok). split.
  - by apply (im_inv_upd id); [|apply lstep_identity|eapply lstep_ok].
  - split; [done|]. rewrite (im_view_upd id) by done.
    eapply evolves_step; [by apply im_view_tracks|done].
Qed.
End Invariant.

Lemma upd_upd s l f g : upd (upd s l f) l g = upd s l (g ∘ f).
Proof. unfold upd; simpl. by rewrite alter_alter. Qed.

Lemma upd_ext s l f g : (∀ j, f j = g j) → upd s l f = upd s l g.
Proof. intros H. unfold upd. f_equal. apply alter_ext. auto. Qed.

Lemma assign_run s c l f : assign l f (s, c) = (Ok tt, (upd s l f, c)).
Proof. done. Qed.

(** Storing a reference back under its own key changes nothing. *)
Lemma set_item_run s c id l f :
  im_tracks s l id → set_item id l (upd s l f, c) = (Ok tt, (upd s l f, c)).
Proof. intros H. unfold set_item, upd; simpl. by rewrite dict_set_same. Qed.

Ltac im_run :=
  cbv [mbind M_bind mret M_ret get_state now gets raise assign set_item]; simpl.

Section Operations.
Context (s : InMemoryJobRepository) (c : clock) (Hs : im_inv s).

(** *** Creation and reads *)

Lemma create_run j :
  job_ok j → im_view s !! job_id j = None →
  ∃ s', Memory.create j (s, c) = (Ok (next_loc s), (s', c))
        ∧ im_inv s' ∧ im_le s s' ∧ obj s' (next_loc s) = j
        ∧ im_tracks s' (next_loc s) (job_id j) ∧ im_view s' = <[job_id j := j]> (im_view s).
Proof.
  intros Hj Hnone. rewrite im_view_lookup in Hnone. apply fmap_None in Hnone as Hget.
  apply dict_get_None in Hget as Hkey.
  assert (∀ id l, (id, l) ∈ _jobs s → l ≠ next_loc s) as Hfresh.
  { intros id l Hin ->. destruct (inv_entry _ Hs _ _ Hin) as (? & _). lia. }
  eexists. split; [reflexivity|]. set (s' := mkRepo _ _ _).
  assert (_jobs s' = _jobs s ++ [(job_id j, next_loc s)]) as Hjobs by (by apply dict_set_new).
  assert (obj s' (next_loc s) = j) as Hobj.
  { unfold obj, s'; simpl. by rewrite lookup_total_insert_eq. }
  assert (∀ l, l ≠ next_loc s → obj s' l = obj s l) as Hother.
  { intros l Hl. unfold obj, s'; simpl. by rewrite lookup_total_insert_ne. }
  assert (∀ id, dict_get id (_jobs s') =
                if decide (id = job_id j) then Some (next_loc s) else dict_get id (_jobs s)) as Hgets.
  { intros id. apply dict_get_set. }
  assert (im_view s' = <[job_id j := j]> (im_view s)) as Hview.
  { apply map_eq. intros id. rewrite lookup_insert, !im_view_lookup, Hgets.
    repeat case_decide; simplify_eq; simpl; [by rewrite Hobj|].
    destruct (dict_get id (_jobs s)) as [l|] eqn:E; [|done]. simpl. rewrite Hother; [done|].
    eapply Hfresh. by apply dict_get_Some. }
  split_and!; [|split|done|unfold im_tracks; rewrite Hgets; by rewrite decide_True|done].
  - constructor.
    + simpl. apply NoDup_dict_set, (inv_keys _ Hs).
    + unfold values. rewrite Hjobs, fmap_app. simpl.
      apply NoDup_app. split_and!; [apply (inv_locs _ Hs)| |apply NoDup_singleton].
      intros l ([id l'] & -> & Hin)%list_elem_of_fmap ?%list_elem_of_singleton. simpl in *.
      by apply (Hfresh _ _ Hin).
    + intros id l. rewrite Hjobs.
      intros [Hin|Hin%list_elem_of_singleton]%elem_of_app.
      * destruct (inv_entry _ Hs _ _ Hin) as (? & ? & ? & ?). specialize (Hfresh _ _ Hin).
        rewrite Hother by done. split_and!; simpl; [lia|by rewrite lookup_insert_ne|done..].
      * simplify_eq. rewrite Hobj. split_and!; simpl; [lia|by rewrite lookup_insert_eq|done..].
  - intros id l Hl. unfold im_tracks in *. rewrite Hgets. case_decide; [congruence|done].
  - rewrite Hview. apply evolves_insert_new. by rewrite im_view_lookup.
Qed.

Lemma get_run id :
  Memory.get id (s, c) =
  (match dict_get id (_jobs s) with Some l => Ok l | None => Raise NotFound end, (s, c)).
Proof. unfold Memory.get. im_run. by case_match. Qed.

Lemma get_for_tenant_run id tenant :
  Memory.get_for_tenant id tenant (s, c) =
  (match dict_get id (_jobs s) with
   | Some l => if decide (tenant_id (obj s l) = tenant) then Ok l else Raise NotFound
   | None => Raise NotFound
   end, (s, c)).
Proof.
  unfold Memory.get_for_tenant, mbind, M_bind. rewrite get_run.
  destruct (dict_get id (_jobs s)); [|done]. im_run. by case_decide.
Qed.

Lemma values_view : obj s <$> values s ≡ₚ (map_to_list (im_view s)).*2.
Proof.
  unfold im_view. rewrite map_to_list_to_map.
  - unfold values. rewrite <- !list_fmap_compose. by apply reflexive_eq, list_fmap_ext; intros ? [].
  - rewrite <- list_fmap_compose.
    rewrite (list_fmap_ext _ fst) by (by intros ? []). apply (inv_keys _ Hs).
Qed.

Lemma list_recent_run tenant project limit :
  ∃ ls, Memory.list_recent tenant project limit (s, c) = (Ok ls, (s, c))
        ∧ is_listing (im_view s) tenant project limit (obj s <$> ls)
        ∧ Forall (λ l, ∃ id, im_tracks s l id) ls.
Proof.
  unfold Memory.list_recent. im_run. eexists. split; [done|].
  set (sel := match project with Some _ => _ | None => _ end).
  assert (sel = filter (λ l, listed tenant project (obj s l)) (values s)) as ->.
  { unfold sel, listed. destruct project as [p|].
    - rewrite list_filter_filter. apply list_filter_iff. naive_solver.
    - apply list_filter_iff. naive_solver. }
  split.
  2:{ apply Forall_forall. intros l Hl%elem_of_slice_to. unfold sorted_by_reverse in Hl.
      rewrite sort_by_perm in Hl. apply list_elem_of_filter in Hl as [_ Hl]. eexists.
      by apply elem_of_values. }
  exists (obj s <$> sorted_by_reverse (λ l, created_at (obj s l))
            (filter (λ l, listed tenant project (obj s l)) (values s))).
  split_and!; [| |apply fmap_slice_to].
  - unfold sorted_by_reverse. rewrite sort_by_perm, <- values_view.
    by rewrite filter_fmap.
  - eapply (StronglySorted_fmap _ (λ l l', (created_at (obj s l') <=? created_at (obj s l))%Z = true)).
    { intros x y. by rewrite Z.leb_le. }
    apply sort_by_sorted; intros; rewrite !Z.leb_le in *; lia.
Qed.

(** *** Status changes *)

(** The clock after [n] readings. *)
Definition after (n : nat) (c : clock) : clock := λ k, c (n + k).

Lemma _transition_run id from target :
  Memory._transition id from target (s, c) =
  match dict_get id (_jobs s) with
  | None => (Raise NotFound, (s, c))
  | Some l =>
      if decide (status (obj s l) ∈ from)
      then (Ok l, (upd s l (move_job target (c 0)), after 1 c))
      else (Raise InvalidStateTransition, (s, c))
  end.
Proof.
  unfold Memory._transition. im_run.
  destruct (dict_get id (_jobs s)) as [l|] eqn:Hl; [|done]. case_decide; [|done]. simpl.
  unfold upd. by rewrite dict_set_same, alter_alter.
Qed.

(** Collapse a sequence of assignments to [l] into one. *)
Ltac assign_collapse := unfold upd; rewrite !alter_alter.

Lemma set_back l f st :
  im_tracks s l (job_id (obj s l)) → st = upd s l f → job_id (f (obj s l)) = job_id (obj s l) →
  dict_set (job_id (obj st l)) l (_jobs s) = _jobs s.
Proof.
  intros Htr -> Hf. rewrite (obj_upd_eq s Hs (job_id (obj s l))), Hf by done.
  by apply dict_set_same.
Qed.

(** Only the current fields of the object matter to an assignment. *)
Lemma upd_at l f g : f (obj s l) = g (obj s l) → upd s l f = upd s l g.
Proof.
  intros Hfg. unfold upd. f_equal. apply alter_ext. intros j Hj.
  assert (obj s l = j) as <- by (unfold obj; by rewrite lookup_total_alt, Hj). done.
Qed.

Lemma claim_run :
  let pick := sorted_by (λ l, created_at (obj s l))
                (filter (λ l, claimable (obj s l) = true) (values s)) in
  Memory.claim_next_queued (s, c) =
  match pick with
  | [] => (Ok None, (s, c))
  | l :: _ => (Ok (Some l), (upd s l (claim_job (c 0) (c 1)), after 2 c))
  end.
Proof.
  unfold Memory.claim_next_queued. im_run.
  rewrite (list_filter_iff _ (λ l, claimable (obj s l) = true))
    by (intros; by rewrite claimable_spec).
  destruct (sorted_by _ _) as [|l ls] eqn:Hp; [done|].
  assert (l ∈ values s) as Hl.
  { assert (l ∈ l :: ls) as Hin by apply list_elem_of_here.
    rewrite <- Hp in Hin. apply elem_of_sort_by, list_elem_of_filter in Hin. by destruct Hin. }
  pose proof (elem_of_values s Hs l Hl) as Htr. simpl.
  erewrite (set_back l (claim_job (c 0) (c 1))); [|done|by assign_collapse|done].
  unfold upd. by rewrite !alter_alter.
Qed.

Lemma recover_one_run cutoff l :
  l ∈ values s →
  Memory.recover_one cutoff l (s, c) =
  if stale cutoff (obj s l)
  then (Ok 1%Z, (upd s l (recover_job (c 0)), after 1 c))
  else (Ok 0%Z, (s, c)).
Proof.
  intros Hl. pose proof (elem_of_values s Hs l Hl) as Htr.
  unfold Memory.recover_one, stale. im_run.
  destruct (decide (status (obj s l) = RUNNING)) as [Hr|Hr].
  2:{ rewrite decide_True by done. by rewrite bool_decide_eq_false_2. }
  rewrite decide_False by naive_solver. rewrite bool_decide_eq_true_2 by done. simpl.
  destruct (claimed_at (obj s l)) as [t|]; [|done]. rewrite Z.geb_leb, Z.ltb_antisym.
  destruct (cutoff <=? t)%Z; [done|]. simpl.
  rewrite (upd_at l (recover_job (c 0)) (λ j, set_updated_at (c 0) (set_claimed_at None
      (if (attempt_count (obj s l) >=? max_attempts (obj s l))%Z
       then set_error_message (Some timed_out_message) (set_status FAILED j)
       else set_error_message (Some requeued_message) (set_status QUEUED j))))) by done.
  destruct (attempt_count (obj s l) >=? max_attempts (obj s l))%Z; simpl;
    (erewrite set_back; [|done|by assign_collapse|done]);
    unfold upd; by rewrite !alter_alter.
Qed.

Lemma finish_run id from target f :
  (∀ j, job_id (f j) = job_id j) →
  (l ← Memory._transition id from target; assign l f;; t ← now; assign l (set_updated_at t);;
   set_item id l;; mret l) (s, c) =
  match dict_get id (_jobs s) with
  | None => (Raise NotFound, (s, c))
  | Some l =>
      if decide (status (obj s l) ∈ from)
      then (Ok l, (upd s l (λ j, set_updated_at (c 1) (f (move_job target (c 0) j))), after 2 c))
      else (Raise InvalidStateTransition, (s, c))
  end.
Proof.
  intros Hf. unfold mbind at 1, M_bind at 1. rewrite _transition_run.
  destruct (dict_get id (_jobs s)) as [l|] eqn:Hl; [|done]. case_decide; [|done].
  im_run. unfold upd; simpl. by rewrite dict_set_same, !alter_alter.
Qed.

Lemma set_succeeded_run id r :
  Memory.set_succeeded id r (s, c) =
  match dict_get id (_jobs s) with
  | None => (Raise NotFound, (s, c))
  | Some l =>
      if decide (status (obj s l) ∈ [RUNNING])
      then (Ok l, (upd s l (λ j, succeed_job r (claimed_at j) (c 1) j), after 2 c))
      else (Raise InvalidStateTransition, (s, c))
  end.
Proof. by apply finish_run. Qed.

Lemma set_failed_run id m :
  Memory.set_failed id m (s, c) =
  match dict_get id (_jobs s) with
  | None => (Raise NotFound, (s, c))
  | Some l =>
      if decide (status (obj s l) ∈ [QUEUED; RUNNING])
      then (Ok l, (upd s l (λ j, fail_job m (claimed_at j) (c 1) j), after 2 c))
      else (Raise InvalidStateTransition, (s, c))
  end.
Proof. by apply finish_run. Qed.
End Operations.

(** *** Recovery: one pass over the dictionary *)

(** [s'] is [s] after the stale objects among [ls] were recovered. *)
Record swept (cutoff : datetime) (ls : list loc) (s s' : InMemoryJobRepository) : Prop := {
  swept_inv : im_inv s';
  swept_le : im_le s s';
  swept_jobs : _jobs s' = _jobs s;
  swept_obj l : l ∈ values s →
    if decide (l ∈ ls ∧ stale cutoff (obj s l) = true)
    then ∃ t, obj s' l = recover_job t (obj s l)
    else obj s' l = obj s l;
}.

Lemma swept_cond {A} (l l' : loc) (ls : list loc) (P : Prop) `{!Decision P} (x y : A) :
  l' ≠ l → (if decide (l' ∈ l :: ls ∧ P) then x else y) = (if decide (l' ∈ ls ∧ P) then x else y).
Proof. intros Hne. repeat case_decide; rewrite elem_of_cons in *; naive_solver. Qed.

Lemma recover_loop_run cutoff ls s c n :
  im_inv s → NoDup ls → ls ⊆ values s →
  ∃ s' c', Memory.recover_loop cutoff ls n (s, c)
           = (Ok (n + Z.of_nat (length (filter (λ l, stale cutoff (obj s l) = true) ls)))%Z, (s', c'))
           ∧ swept cutoff ls s s'.
Proof.
  revert s c n. induction ls as [|l ls IH]; intros s c n Hs Hnd Hsub; simpl.
  { exists s, c. rewrite Z.add_0_r. split; [done|]. by constructor. }
  apply NoDup_cons in Hnd as [Hl Hnd].
  assert (l ∈ values s) as Hval by (apply Hsub, list_elem_of_here).
  assert (ls ⊆ values s) as Hsub' by (intros x ?; by apply Hsub, list_elem_of_further).
  unfold mbind, M_bind. rewrite recover_one_run by done. rewrite filter_cons.
  destruct (stale cutoff (obj s l)) eqn:Hst.
  - rewrite decide_True by done.
    pose proof (elem_of_values s Hs l Hval) as Htr.
    destruct (im_step s Hs _ l (recover_job (c 0)) Htr (l_recover _ _ _ Hst)) as [Hs1 Hle1].
    destruct (IH (upd s l (recover_job (c 0))) (after 1 c) (n + 1)%Z) as (s' & c' & Hrun & Hsw);
      [done..|].
    exists s', c'. rewrite Hrun. split.
    { simpl. rewrite (filter_ext_elem _ (λ l0, stale cutoff (obj s l0) = true)).
      - do 2 f_equal. lia.
      - intros x Hx. rewrite obj_upd_ne; [done|congruence]. }
    destruct Hsw as [Hi Hle Hj Ho]. constructor; [done|by etrans|by rewrite Hj|].
    intros l' Hl'. specialize (Ho l' Hl'). destruct (decide (l' = l)) as [->|Hne].
    + rewrite decide_False in Ho by naive_solver.
      rewrite decide_True by (split; [apply list_elem_of_here|done]).
      rewrite Ho, (obj_upd_eq s Hs (job_id (obj s l))) by done. eauto.
    + rewrite obj_upd_ne in Ho by congruence. by rewrite (swept_cond l l' ls) by done.
  - rewrite decide_False by congruence.
    destruct (IH s c (n + 0)%Z Hs Hnd Hsub') as (s' & c' & Hrun & [Hi Hle Hj Ho]).
    exists s', c'. rewrite Hrun, Z.add_0_r. split; [done|]. constructor; [done..|].
    intros l' Hl'. specialize (Ho l' Hl'). destruct (decide (l' = l)) as [->|Hne].
    + rewrite decide_False in Ho by (intros [? ?]; congruence).
      by rewrite decide_False by (intros [? ?]; congruence).
    + by rewrite (swept_cond l l' ls) by done.
Qed.

Section RecoverAll.
Context (s : InMemoryJobRepository) (c : clock) (Hs : im_inv s).

Lemma stale_values_size cutoff :
  size (recoverable (im_view s) ∅ cutoff)
  = length (filter (λ l, stale cutoff (obj s l) = true) (values s)).
Proof.
  rewrite (recoverable_size _ _ _ (obj s <$> values s)) by eauto using im_store_ok, values_view.
  rewrite filter_fmap, length_fmap. f_equal. apply filter_ext_elem. intros l _. set_solver.
Qed.

Lemma recover_run cutoff :
  ∃ s' c', Memory.recover_stale_running cutoff (s, c)
           = (Ok (Z.of_nat (size (recoverable (im_view s) ∅ cutoff))), (s', c'))
           ∧ im_inv s' ∧ im_le s s' ∧ recovered (im_view s) ∅ cutoff (im_view s').
Proof.
  destruct (recover_loop_run cutoff (values s) s c 0 Hs (inv_locs _ Hs) (reflexivity _))
    as (s' & c' & Hrun & [Hi Hle Hj Ho]).
  exists s', c'. split_and!; [|done..|].
  - unfold Memory.recover_stale_running. im_run. rewrite Hrun. by rewrite stale_values_size.
  - intros id. rewrite !im_view_lookup, Hj.
    destruct (dict_get id (_jobs s)) as [l|] eqn:Hl; simpl; [|done].
    pose proof (tracks_values s id l Hl) as Hval. specialize (Ho l Hval).
    destruct (decide (stale cutoff (obj s l) = true)) as [Hst|Hst].
    + rewrite decide_True in Ho by done.
      rewrite decide_True by (split; [done|apply not_elem_of_empty]).
      destruct Ho as [t Ht]. exists t. by rewrite Ht.
    + rewrite decide_False in Ho by naive_solver. rewrite decide_False by naive_solver.
      by rewrite Ho.
Qed.

(** The pick of [claim_next_queued] is an oldest claimable job. *)
Lemma claim_pick l ls :
  sorted_by (λ l, created_at (obj s l))
    (filter (λ l, claimable (obj s l) = true) (values s)) = l :: ls →
  im_tracks s l (job_id (obj s l)) ∧ is_next (im_view s) ∅ (job_id (obj s l)) (obj s l).
Proof.
  intros Hp. apply sort_by_head in Hp as (l1 & l2 & Heq & _ & Hmin);
    [|intros; rewrite !Z.leb_le in *; lia..].
  assert (l ∈ filter (λ l, claimable (obj s l) = true) (values s)) as Hin
    by (rewrite Heq; set_solver).
  apply list_elem_of_filter in Hin as [Hcl Hval].
  pose proof (elem_of_values s Hs l Hval) as Htr. split; [done|].
  split_and!; [by apply im_view_tracks|done|].
  intros id' j' (l' & Hl' & ->)%im_view_Some Hcl' _. apply Z.leb_le, Hmin.
  apply list_elem_of_filter. split; [done|]. by eapply tracks_values.
Qed.

Lemma claim_none :
  sorted_by (λ l, created_at (obj s l))
    (filter (λ l, claimable (obj s l) = true) (values s)) = [] → none_next (im_view s) ∅.
Proof.
  intros Hp id j (l & Hl & ->)%im_view_Some Hcl. exfalso.
  apply (proj1 (sort_by_nil _ _)) in Hp.
  assert (l ∈ filter (λ l, claimable (obj s l) = true) (values s)) as Hin
    by (apply list_elem_of_filter; split; [done|by eapply tracks_values]).
  rewrite Hp in Hin. by apply not_elem_of_nil in Hin.
Qed.

(** A status change that ran: the contract's clause follows from the life step. *)
Lemma transition_ok_view id l from (R : EvaluationJob → EvaluationJob → Prop) f :
  im_tracks s l id → status (obj s l) ∈ from → R (obj s l) (f (obj s l)) →
  transition_spec (im_view s) id from R (Ok (obj (upd s l f) l)) (im_view (upd s l f)).
Proof.
  intros Hl Hfrom HR. unfold transition_spec. rewrite (im_view_tracks s id l Hl).
  rewrite decide_True by done. exists (f (obj s l)).
  by rewrite (obj_upd_eq s Hs id), (im_view_upd s Hs id).
Qed.
End RecoverAll.

(** *** The contract, operation by operation *)

Lemma transition_law id from R f c2 (m : IM loc) s c r s' c' :
  im_inv s →
  m (s, c) = match dict_get id (_jobs s) with
             | None => (Raise NotFound, (s, c))
             | Some l => if decide (status (obj s l) ∈ from)
                         then (Ok l, (upd s l f, c2))
                         else (Raise InvalidStateTransition, (s, c))
             end →
  (∀ j, status j ∈ from → R j (f j) ∧ lstep j (f j)) →
  m (s, c) = (r, (s', c')) →
  im_inv s' ∧ im_le s s' ∧ (∀ x, r = Ok x → im_tracks s' x id)
  ∧ (transition_spec (im_view s) id from R
       (match r with Ok x => Ok (obj s' x) | Raise e => Raise e end) (im_view s')).
Proof.
  intros Hs Hrun Hf Hr. rewrite Hrun in Hr. clear Hrun.
  destruct (dict_get id (_jobs s)) as [l|] eqn:Hl.
  - pose proof (im_view_tracks s id l Hl) as Hview. case_decide as Hst; simplify_eq.
    + destruct (Hf _ Hst) as [HR Hstep]. destruct (im_step s Hs id l f Hl Hstep).
      split_and!; [done..|by intros x [= <-]|]. by apply transition_ok_view.
    + split_and!; [done..|]. unfold transition_spec. rewrite Hview. by rewrite decide_False.
  - simplify_eq. split_and!; [done..|]. unfold transition_spec.
    by rewrite im_view_lookup, Hl.
Qed.

Lemma im_create_law j s c r s' c' :
  im_inv s → job_ok j → status j = QUEUED → im_view s !! job_id j = None →
  Memory.create j (s, c) = (r, (s', c')) →
  im_inv s' ∧ im_le s s'
  ∧ ((∃ x, r = Ok x ∧ obj s' x = j ∧ im_tracks s' x (job_id j)
           ∧ im_view s' = <[job_id j := j]> (im_view s))).
Proof.
  intros Hs Hj _ Hnone Hrun.
  destruct (create_run s c Hs j Hj Hnone) as (s1 & Hc & ? & ? & ? & ? & ?).
  rewrite Hc in Hrun. simplify_eq. split_and!; [done..|]. eauto.
Qed.

Lemma im_get_law id s c r s' c' :
  im_inv s → Memory.get id (s, c) = (r, (s', c')) →
  im_inv s' ∧ im_le s s' ∧ im_view s' = im_view s
  ∧ (match im_view s !! id with
     | None => r = Raise NotFound
     | Some j => ∃ x, r = Ok x ∧ obj s' x = j ∧ im_tracks s' x id
     end).
Proof.
  intros Hs Hrun. rewrite get_run in Hrun. simplify_eq.
  split_and!; [done..|]. rewrite im_view_lookup.
  destruct (dict_get id (_jobs s')) as [l|] eqn:E; [|done]. simpl. by exists l.
Qed.

Lemma im_get_for_tenant_law id tenant s c r s' c' :
  im_inv s → Memory.get_for_tenant id tenant (s, c) = (r, (s', c')) →
  im_inv s' ∧ im_le s s' ∧ im_view s' = im_view s
  ∧ (match im_view s !! id with
     | Some j => if decide (tenant_id j = tenant)
                 then ∃ x, r = Ok x ∧ obj s' x = j ∧ im_tracks s' x id
                 else r = Raise NotFound
     | None => r = Raise NotFound
     end).
Proof.
  intros Hs Hrun. rewrite get_for_tenant_run in Hrun. simplify_eq.
  split_and!; [done..|]. rewrite im_view_lookup.
  destruct (dict_get id (_jobs s')) as [l|] eqn:E; [|done]. simpl.
  case_decide; [|done]. by exists l.
Qed.

Lemma im_list_law tenant project limit s c r s' c' :
  im_inv s → (0 ≤ limit)%Z → Memory.list_recent tenant project limit (s, c) = (r, (s', c')) →
  im_inv s' ∧ im_le s s' ∧ im_view s' = im_view s
  ∧ ((∃ xs, r = Ok xs ∧ is_listing (im_view s) tenant project limit (obj s' <$> xs)
             ∧ Forall (λ l, ∃ id, im_tracks s' l id) xs)
    ).
Proof.
  intros Hs _ Hrun. destruct (list_recent_run s c Hs tenant project limit) as (ls & Hl & ? & ?).
  rewrite Hl in Hrun. simplify_eq. split_and!; [done..|]. eauto.
Qed.

Lemma im_claim_law s c r s' c' :
  im_inv s → Memory.claim_next_queued (s, c) = (r, (s', c')) →
  im_inv s' ∧ im_le s s'
  ∧ ((r = Ok None ∧ im_view s' = im_view s ∧ none_next (im_view s) ∅)
     ∨ (∃ x id j t t', r = Ok (Some x) ∧ is_next (im_view s) ∅ id j
          ∧ obj s' x = claim_job t t' j ∧ im_tracks s' x id
          ∧ im_view s' = <[id := claim_job t t' j]> (im_view s))).
Proof.
  intros Hs Hrun. rewrite claim_run in Hrun by done.
  destruct (sorted_by _ _) as [|l ls] eqn:Hp; simplify_eq.
  - split_and!; [done..|]. left. split_and!; [done..|]. by apply claim_none.
  - destruct (claim_pick s Hs l ls Hp) as [Htr Hnext]. pose proof Hnext as (_ & Hcl & _).
    destruct (im_step s Hs _ l (claim_job (c 0) (c 1)) Htr (l_claim _ _ _ Hcl)) as [Hi Hle].
    split_and!; [done..|]. right. exists l, (job_id (obj s l)), (obj s l), (c 0), (c 1).
    split_and!; [done|done|by apply (obj_upd_eq s Hs (job_id (obj s l)))|done|].
    by apply im_view_upd.
Qed.

Lemma im_recover_law cutoff s c r s' c' :
  im_inv s → Memory.recover_stale_running cutoff (s, c) = (r, (s', c')) →
  im_inv s' ∧ im_le s s'
  ∧ ((r = Ok (Z.of_nat (size (recoverable (im_view s) ∅ cutoff)))
      ∧ recovered (im_view s) ∅ cutoff (im_view s'))).
Proof.
  intros Hs Hrun. destruct (recover_run s c Hs cutoff) as (s1 & c1 & Hr & ? & ? & ?).
  rewrite Hr in Hrun. simplify_eq. split_and!; [done..|]. done.
Qed.

Lemma im_set_running_law id s c r s' c' :
  im_inv s → Memory.set_running id (s, c) = (r, (s', c')) →
  im_inv s' ∧ im_le s s' ∧ (∀ x, r = Ok x → im_tracks s' x id)
  ∧ (transition_spec (im_view s) id [QUEUED] started
       (match r with Ok x => Ok (obj s' x) | Raise e => Raise e end) (im_view s')).
Proof.
  intros Hs. eapply transition_law; [done|by apply _transition_run|].
  intros j Hj%list_elem_of_singleton. split; [by eexists|by apply l_start].
Qed.

Lemma im_set_succeeded_law id v s c r s' c' :
  im_inv s → valid_result v = true → Memory.set_succeeded id v (s, c) = (r, (s', c')) →
  im_inv s' ∧ im_le s s' ∧ (∀ x, r = Ok x → im_tracks s' x id)
  ∧ (transition_spec (im_view s) id [RUNNING] (succeeded v)
       (match r with Ok x => Ok (obj s' x) | Raise e => Raise e end) (im_view s')).
Proof.
  intros Hs Hv. eapply transition_law; [done|by apply set_succeeded_run|].
  intros j Hj%list_elem_of_singleton.
  assert (ends_claim (claimed_at j) j) by by left.
  split; [by do 2 eexists|by apply l_succeed].
Qed.

Lemma im_set_failed_law id m s c r s' c' :
  im_inv s → Memory.set_failed id m (s, c) = (r, (s', c')) →
  im_inv s' ∧ im_le s s' ∧ (∀ x, r = Ok x → im_tracks s' x id)
  ∧ (transition_spec (im_view s) id [QUEUED; RUNNING] (failed m)
       (match r with Ok x => Ok (obj s' x) | Raise e => Raise e end) (im_view s')).
Proof.
  intros Hs. eapply transition_law; [done|by apply set_failed_run|].
  intros j Hj. assert (ends_claim (claimed_at j) j) by by left.
  split; [by do 2 eexists|apply l_fail; [set_solver|done]].
Qed.

(** The in-memory repository fulfils the contract: it never fails (no
    [storage_error]), and no other
    transaction ever holds a job. *)
#[export] Instance InMemory_laws : RepositoryLaws InMemoryJobRepository.
Proof.
  refine {|
    repo_inv := im_inv; view := im_view; reliable := λ _, True; held := λ _, ∅;
    tracks := im_tracks; repo_le := im_le;
    repo_inv_ok := im_store_ok;
    create_spec := _; get_spec := _; get_for_tenant_spec := _; list_recent_spec := _;
    claim_next_queued_spec := _; recover_stale_running_spec := _; set_running_spec := _;
    set_succeeded_spec := _; set_failed_spec := _; tracks_deref := _; repo_le_evolves := _; repo_le_tracks := _; repo_le_reliable := _;
    repo_le_held := _; health_check_spec := _; close_spec := _;
  |}.
  - intros s l id Hs Hl. exists (obj s l). by rewrite (im_view_tracks s id l Hl).
  - by intros s s' [_ ?].
  - intros s s' l id _ [H _]. apply H.
  - done.
  - done.
  - intros. edestruct im_create_law as (? & ? & ?); eauto.
  - intros. edestruct im_get_law as (? & ? & ? & ?); eauto.
  - intros. edestruct im_get_for_tenant_law as (? & ? & ? & ?); eauto.
  - intros. edestruct im_list_law as (? & ? & ? & ?); eauto.
  - intros. edestruct im_claim_law as (? & ? & [?|?]); eauto.
  - intros. edestruct im_recover_law as (? & ? & ?); eauto.
  - intros. edestruct im_set_running_law as (? & ? & ? & ?); eauto.
  - intros. edestruct im_set_succeeded_law as (? & ? & ? & ?); eauto.
  - intros. edestruct im_set_failed_law as (? & ? & ? & ?); eauto.
  - intros s c r s' c' Hs [= <- <- <-]. split_and!; try done. by exists true.
  - intros s c r s' c' Hs [= <- <- <-]. by split_and!.
Defined.
