(* ===== verification/Postgres.v ===== *)
(** The Postgres repository ([app/storage/postgres.py]) over a model of one table.

    The table maps primary keys to rows; [locked] are the rows other sessions hold locks on,
    and [faults] says what becomes of each round trip to the database: a statement, a commit,
    a refresh may fail, and the answer of a commit may be lost after it took place.  Every
    method opens one session and commits at most once, so it is one atomic piece of code on
    the database.  A refresh reads the row its own session has just committed.  The order in
    which Postgres scans a table is unspecified, and so is the text of its errors:
    [QueryPlan]. *)
From S2P Require Export Repository.

(** ** Rows *)

Record EvaluationJobRow := mkRow {
  row_job_id : UUID;
  row_tenant_id : pystr;
  row_project_id : pystr;
  row_status : pystr;
  row_request_payload : json;
  row_result_payload : option json;
  row_error_message : option pystr;
  row_attempt_count : Z;
  row_max_attempts : Z;
  row_claimed_at : option datetime;
  row_created_at : datetime;
  row_updated_at : datetime;
}.

(** The column types: [String(n)] bounds the length, [Integer] is 32 bits wide. *)
Definition int32 (z : Z) : bool := (- 2 ^ 31 <=? z)%Z && (z <? 2 ^ 31)%Z.
Definition row_fits (r : EvaluationJobRow) : bool :=
  (str_len (row_tenant_id r) <=? 128)%Z && (str_len (row_project_id r) <=? 128)%Z
  && (str_len (row_status r) <=? 32)%Z
  && int32 (row_attempt_count r) && int32 (row_max_attempts r).

(** [row.column = value]. *)
Definition set_row_status (x : pystr) (r : EvaluationJobRow) : EvaluationJobRow :=
  mkRow (row_job_id r) (row_tenant_id r) (row_project_id r) x (row_request_payload r)
    (row_result_payload r) (row_error_message r) (row_attempt_count r) (row_max_attempts r)
    (row_claimed_at r) (row_created_at r) (row_updated_at r).
Definition set_row_result_payload (x : option json) (r : EvaluationJobRow) : EvaluationJobRow :=
  mkRow (row_job_id r) (row_tenant_id r) (row_project_id r) (row_status r) (row_request_payload r)
    x (row_error_message r) (row_attempt_count r) (row_max_attempts r)
    (row_claimed_at r) (row_created_at r) (row_updated_at r).
Definition set_row_error_message (x : option pystr) (r : EvaluationJobRow) : EvaluationJobRow :=
  mkRow (row_job_id r) (row_tenant_id r) (row_project_id r) (row_status r) (row_request_payload r)
    (row_result_payload r) x (row_attempt_count r) (row_max_attempts r)
    (row_claimed_at r) (row_created_at r) (row_updated_at r).
Definition set_row_attempt_count (x : Z) (r : EvaluationJobRow) : EvaluationJobRow :=
  mkRow (row_job_id r) (row_tenant_id r) (row_project_id r) (row_status r) (row_request_payload r)
    (row_result_payload r) (row_error_message r) x (row_max_attempts r)
    (row_claimed_at r) (row_created_at r) (row_updated_at r).
Definition set_row_claimed_at (x : option datetime) (r : EvaluationJobRow) : EvaluationJobRow :=
  mkRow (row_job_id r) (row_tenant_id r) (row_project_id r) (row_status r) (row_request_payload r)
    (row_result_payload r) (row_error_message r) (row_attempt_count r) (row_max_attempts r)
    x (row_created_at r) (row_updated_at r).
Definition set_row_updated_at (x : datetime) (r : EvaluationJobRow) : EvaluationJobRow :=
  mkRow (row_job_id r) (row_tenant_id r) (row_project_id r) (row_status r) (row_request_payload r)
    (row_result_payload r) (row_error_message r) (row_attempt_count r) (row_max_attempts r)
    (row_claimed_at r) (row_created_at r) x.

(** ** Payloads

    [model_dump()] writes a JSON object; loading validates it again.  JSONB does not
    keep the order of an object's keys, so fields are read by name. *)

(** The payload does not validate as a part of [EvaluationJob]. *)
Definition not_a_job {A} (payload : json) : res A :=
  Raise (ValidationExn (u"EvaluationJob") payload).

(** pydantic's lax conversions, from its conversion table.  To an integer: an integer, a
    Boolean, an integral float, or a string of digits, single underscores between them, with an
    optional sign and an optional fraction of zeros.  To a Boolean: a Boolean, zero or one, or
    one of the words.  Numbers in JSONB are written without an exponent. *)
Fixpoint ungrouped (after_digit : bool) (s : pystr) : option pystr :=
  match s with
  | [] => if after_digit then Some [] else None
  | d :: t => if negb (d =? 95)%N then cons d <$> ungrouped true t
              else if after_digit then ungrouped false t else None
  end.

Definition whole_number (s : pystr) : option Z :=
  let '(sign, t) := match s with
                    | 45%N :: t => ((-1)%Z, t)
                    | 43%N :: t => (1%Z, t)
                    | _ => (1%Z, s)
                    end in
  let '(digits, _, fraction) := partition 46 t in
  digits ← ungrouped false digits;
  if forallb is_digit digits && forallb (N.eqb 48) fraction
  then Some (sign * digits_value digits)%Z else None.

Definition lax_int (v : json) : option Z :=
  match v with
  | JInt n => Some n
  | JBool b => Some (if b then 1 else 0)%Z
  | JFloat l => whole_number l
  | JStr s => whole_number (strip s)
  | _ => None
  end.

Definition true_words : list pystr := [u"1"; u"on"; u"t"; u"true"; u"y"; u"yes"].
Definition false_words : list pystr := [u"0"; u"off"; u"f"; u"false"; u"n"; u"no"].

Definition lax_bool (v : json) : option bool :=
  let of_number n := if (n =? 0)%Z then Some false else if (n =? 1)%Z then Some true else None in
  match v with
  | JBool b => Some b
  | JInt n => of_number n
  | JFloat l => whole_number l ≫= of_number
  | JStr s => if decide (lower s ∈ true_words) then Some true
              else if decide (lower s ∈ false_words) then Some false else None
  | _ => None
  end.

Example lax_int_ex :
  lax_int <$> [JInt 50; JFloat (u"50.0"); JStr (u" 50 "); JStr (u"1_0"); JStr (u"-7"); JFloat (u"50.5");
               JStr (u"1__0"); JStr (u"x")]
  = [Some 50; Some 50; Some 50; Some 10; Some (-7); None; None; None]%Z.
Proof. vm_compute. reflexivity. Qed.

Definition field_str (k : pystr) (fields : list (pystr * json)) : res pystr :=
  match dict_get k fields with Some (JStr s) => Ok s | _ => not_a_job (JObj fields) end.

(** A field with default [None]. *)
Definition field_opt_str (k : pystr) (fields : list (pystr * json)) : res (option pystr) :=
  match dict_get k fields with
  | Some (JStr s) => Ok (Some s)
  | Some JNull | None => Ok None
  | _ => not_a_job (JObj fields)
  end.

Definition load_request (payload : json) : res EvaluationRequest :=
  match payload with
  | JObj fields =>
      t ← field_str (u"tenant_id") fields;
      p ← field_str (u"project_id") fields;
      q ← field_str (u"question") fields;
      a ← field_str (u"answer") fields;
      r ← field_opt_str (u"rubric") fields;
      let request := mkEvaluationRequest t p q a r in
      if valid_request request then Ok request else not_a_job payload
  | _ => not_a_job payload
  end.

Definition load_result (payload : json) : res EvaluationResult :=
  match payload with
  | JObj fields =>
      match dict_get (u"score") fields ≫= lax_int, dict_get (u"rubric_used") fields ≫= lax_bool with
      | Some s, Some b =>
          j ← field_str (u"justification") fields;
          let result := mkEvaluationResult s j b in
          if valid_result result then Ok result else not_a_job payload
      | _, _ => not_a_job payload
      end
  | _ => not_a_job payload
  end.

Arguments load_request : simpl never.
Arguments load_result : simpl never.

(** ** Rows and jobs *)

Definition _to_row (j : EvaluationJob) : EvaluationJobRow :=
  mkRow (job_id j) (tenant_id j) (project_id j) (status_value (status j))
    (dump_request (request j)) (dump_result <$> result j) (error_message j)
    (attempt_count j) (max_attempts j) (claimed_at j) (created_at j) (updated_at j).

Definition _to_domain (r : EvaluationJobRow) : res EvaluationJob :=
  s ← JobStatus_of (row_status r);
  req ← load_request (row_request_payload r);
  v ← match row_result_payload r with
      | Some p => v ← load_result p; mret (Some v)
      | None => mret None
      end;
  mret (mkEvaluationJob (row_job_id r) (row_tenant_id r) (row_project_id r) s req v
          (row_error_message r) (row_attempt_count r) (row_max_attempts r) (row_claimed_at r)
          (row_created_at r) (row_updated_at r)).

(** ** The database *)

(** What becomes of a round trip to the database: it succeeds; it fails, and the transaction
    is rolled back; or it takes effect, but its answer is lost with the connection. *)
Inductive fault :=
| Fine
| Fails (text : pystr)
| Lost (text : pystr).

Record PostgresJobRepository := mkPg {
  table : gmap UUID EvaluationJobRow;
  locked : gset UUID;
  faults : nat → fault;
}.

Notation PG := (M (PostgresJobRepository * clock)).

(** The statements the database refuses, with their parameters. *)
Inductive statement :=
| Insert (r : EvaluationJobRow)
| Update (r : EvaluationJobRow)
| SelectRecent (limit : Z).

(** The order of a table scan: Postgres promises nothing but the rows.  The text SQLAlchemy
    gives the error of a refused statement. *)
Class QueryPlan := {
  scan : gmap UUID EvaluationJobRow → list EvaluationJobRow;
  scan_perm t : scan t ≡ₚ (map_to_list t).*2;
  error_text : statement → pystr;
}.

(** A database that scans in key order. *)
Definition key_order : QueryPlan :=
  {| scan := λ t, (map_to_list t).*2; scan_perm := λ t, Permutation_refl _;
     error_text := λ _, u"the statement was refused" |}.

(** One round trip. *)
Definition round_trip : PG fault := λ '(s, c),
  (Ok (faults s 0), (mkPg (table s) (locked s) (λ n, faults s (1 + n)), c)).

(** [session.get], [session.scalar(s)], [session.execute], [session.refresh]. *)
Definition execute : PG unit :=
  f ← round_trip;
  match f with
  | Fine => mret tt
  | Fails text | Lost text => raise (StorageExn text)
  end.

Definition put_table (t : gmap UUID EvaluationJobRow) : PG unit :=
  s ← get_state; put_state (mkPg t (locked s) (faults s)).

(** [session.commit()], when the transaction turns the table into [t]. *)
Definition commit (t : gmap UUID EvaluationJobRow) : PG unit :=
  f ← round_trip;
  match f with
  | Fine => put_table t
  | Fails text => raise (StorageExn text)
  | Lost text => put_table t;; raise (StorageExn text)
  end.

(** A statement the database refuses. *)
Definition refused `{QueryPlan} {A} (q : statement) : PG A :=
  execute;; raise (StorageExn (error_text q)).

(** [session.commit()] of one changed row, after the database checked the columns. *)
Definition commit_row `{QueryPlan} (r : EvaluationJobRow) : PG unit :=
  s ← get_state;
  if row_fits r then commit (<[row_job_id r := r]> (table s)) else refused (Update r).

Module Postgres.

Section Methods.
Context `{QueryPlan}.

Definition _validate_transition (current_status : pystr) (allowed_from : list JobStatus)
    : PG unit :=
  current ← of_res (JobStatus_of current_status);
  if decide (current ∈ allowed_from) then mret tt else raise InvalidStateTransition.

(** [session.get(EvaluationJobRow, id)]. *)
Definition get_row (id : UUID) : PG (option EvaluationJobRow) :=
  execute;;
  s ← get_state; mret (table s !! id).

(** The key must be new and the columns must fit when the row is inserted. *)
Definition create (job : EvaluationJob) : PG EvaluationJob :=
  let row := _to_row job in
  s ← get_state;
  (if bool_decide (table s !! job_id job = None) && row_fits row
   then commit (<[row_job_id row := row]> (table s)) else refused (Insert row));;
  mret job.

Definition get (id : UUID) : PG EvaluationJob :=
  row ← get_row id;
  match row with
  | None => raise NotFound
  | Some r => of_res (_to_domain r)
  end.

Definition get_for_tenant (id : UUID) (tenant : pystr) : PG EvaluationJob :=
  row ← get_row id;
  match row with
  | Some r => if decide (row_tenant_id r = tenant) then of_res (_to_domain r)
              else raise NotFound
  | None => raise NotFound
  end.

Fixpoint to_domain_all (rs : list EvaluationJobRow) : res (list EvaluationJob) :=
  match rs with
  | [] => mret []
  | r :: rs' => j ← _to_domain r; js ← to_domain_all rs'; mret (j :: js)
  end.

(** The WHERE clauses of a listing; the second one only with a project. *)
Definition row_listed (tenant : pystr) (project : option pystr) (r : EvaluationJobRow) : Prop :=
  row_tenant_id r = tenant
  ∧ match project with Some p => row_project_id r = p | None => True end.

#[global] Instance row_listed_dec tenant project r : Decision (row_listed tenant project r).
Proof. unfold row_listed. destruct project; apply _. Defined.

(** The rows a listing selects, ordered and cut by the database, which refuses a negative
    LIMIT. *)
Definition list_recent (tenant : pystr) (project : option pystr) (limit : Z)
    : PG (list EvaluationJob) :=
  if (limit <? 0)%Z then refused (SelectRecent limit)
  else
    execute;;
    s ← get_state;
    let rows := filter (row_listed tenant project) (scan (table s)) in
    of_res (to_domain_all (slice_to limit (sorted_by_reverse row_created_at rows))).

Definition claim_next_queued : PG (option EvaluationJob) :=
  execute;;
  s ← get_state;
  let rows := filter (λ r, (row_status r = status_value QUEUED
                            ∧ (row_attempt_count r < row_max_attempts r)%Z)
                           ∧ row_job_id r ∉ locked s) (scan (table s)) in
  match sorted_by row_created_at rows with
  | [] => mret None
  | row :: _ =>
      t ← now;
      let row := set_row_status (status_value RUNNING) row in
      let row := set_row_attempt_count (row_attempt_count row + 1) row in
      let row := set_row_claimed_at (Some t) row in
      let row := set_row_updated_at t row in
      commit_row row;;
      execute;;      (* session.refresh(row) *)
      j ← of_res (_to_domain row);
      mret (Some j)
  end.

Definition recover_row (t : datetime) (r : EvaluationJobRow) : EvaluationJobRow :=
  set_row_updated_at t (set_row_claimed_at None
    (if (row_attempt_count r >=? row_max_attempts r)%Z
     then set_row_error_message (Some timed_out_message) (set_row_status (status_value FAILED) r)
     else set_row_error_message (Some requeued_message) (set_row_status (status_value QUEUED) r))).

(** The WHERE clause of the recovery, rows locked by others skipped. *)
Definition row_stale (held : gset UUID) (cutoff : datetime) (r : EvaluationJobRow) : Prop :=
  (row_status r = status_value RUNNING
   ∧ match row_claimed_at r with Some c => (c < cutoff)%Z | None => False end)
  ∧ row_job_id r ∉ held.

#[global] Instance row_stale_dec held cutoff r : Decision (row_stale held cutoff r).
Proof. unfold row_stale. destruct (row_claimed_at r); apply _. Defined.

Definition recover_stale_running (cutoff : datetime) : PG Z :=
  execute;;
  s ← get_state;
  let rows := filter (row_stale (locked s) cutoff) (scan (table s)) in
  t ← now;
  commit (foldr (λ r, <[row_job_id r := recover_row t r]>) (table s) rows);;
  mret (Z.of_nat (length rows)).

Definition _transition (id : UUID) (allowed_from : list JobStatus) (target : JobStatus)
    : PG EvaluationJob :=
  row ← get_row id;
  match row with
  | None => raise NotFound
  | Some row =>
      _validate_transition (row_status row) allowed_from;;
      t ← now;
      let row := set_row_updated_at t (set_row_status (status_value target) row) in
      commit_row row;;
      execute;;      (* session.refresh(row) *)
      of_res (_to_domain row)
  end.

Definition set_running (id : UUID) : PG EvaluationJob := _transition id [QUEUED] RUNNING.

Definition set_succeeded (id : UUID) (v : EvaluationResult) : PG EvaluationJob :=
  row ← get_row id;
  match row with
  | None => raise NotFound
  | Some row =>
      _validate_transition (row_status row) [RUNNING];;
      let row := set_row_status (status_value SUCCEEDED) row in
      let row := set_row_result_payload (Some (dump_result v)) row in
      let row := set_row_claimed_at None row in
      t ← now;
      let row := set_row_updated_at t row in
      commit_row row;;
      execute;;      (* session.refresh(row) *)
      of_res (_to_domain row)
  end.

Definition set_failed (id : UUID) (message : pystr) : PG EvaluationJob :=
  row ← get_row id;
  match row with
  | None => raise NotFound
  | Some row =>
      _validate_transition (row_status row) [QUEUED; RUNNING];;
      let row := set_row_status (status_value FAILED) row in
      let row := set_row_error_message (Some message) row in
      let row := set_row_claimed_at None row in
      t ← now;
      let row := set_row_updated_at t row in
      commit_row row;;
      execute;;      (* session.refresh(row) *)
      of_res (_to_domain row)
  end.

(** [try: SELECT 1; return True  except SQLAlchemyError: return False]. *)
Definition health_check : PG bool := λ sc,
  match execute sc with
  | (Ok _, sc') => (Ok true, sc')
  | (Raise (StorageExn _), sc') => (Ok false, sc')
  | (Raise e, sc') => (Raise e, sc')
  end.

Definition close : PG unit := mret tt.
End Methods.

End Postgres.

#[export] Instance Postgres_repository `{QueryPlan} : JobRepository PostgresJobRepository := {|
  ref := EvaluationJob;
  deref := λ _ j, j;
  create := Postgres.create;
  get := Postgres.get;
  get_for_tenant := Postgres.get_for_tenant;
  list_recent := Postgres.list_recent;
  claim_next_queued := Postgres.claim_next_queued;
  recover_stale_running := Postgres.recover_stale_running;
  set_running := Postgres.set_running;
  set_succeeded := Postgres.set_succeeded;
  set_failed := Postgres.set_failed;
  health_check := Postgres.health_check;
  close := Postgres.close;
|}.

(** ** Rows represent jobs *)

Lemma load_dump_request r : valid_request r = true → load_request (dump_request r) = Ok r.
Proof.
  intros H. transitivity (if valid_request r then Ok r else not_a_job (dump_request r));
    [by destruct r as [? ? ? ? []]|by rewrite H].
Qed.

Lemma load_dump_result r : valid_result r = true → load_result (dump_result r) = Ok r.
Proof.
  intros H. transitivity (if valid_result r then Ok r else not_a_job (dump_result r));
    [by destruct r|by rewrite H].
Qed.

Ltac res_run := unfold mbind, mret, res_bind, res_ret.

Lemma to_domain_valid_row j : job_valid j = true → _to_domain (_to_row j) = Ok j.
Proof.
  unfold job_valid. intros [Hreq Hres]%andb_true_iff. unfold _to_domain, _to_row; res_run; simpl.
  rewrite JobStatus_of_value; simpl. rewrite load_dump_request by done; simpl.
  destruct j as [? ? ? ? ? [v|]]; simpl in *; [|done]. by rewrite load_dump_result.
Qed.

Lemma load_request_valid p r : load_request p = Ok r → valid_request r = true.
Proof.
  unfold load_request. destruct p; try done. intros H.
  repeat (apply res_bind_Ok in H as (? & _ & H)).
  destruct (valid_request _) eqn:Hv; [by simplify_eq|done].
Qed.

Lemma load_result_valid p v : load_result p = Ok v → valid_result v = true.
Proof.
  unfold load_result. destruct p; try done.
  destruct (dict_get (u"score") fields ≫= lax_int), (dict_get (u"rubric_used") fields ≫= lax_bool);
    try done. intros H.
  apply res_bind_Ok in H as (? & _ & H). destruct (valid_result _) eqn:Hv; [by simplify_eq|done].
Qed.

(** A row loads only as a job that satisfies the models' constraints. *)
Lemma to_domain_valid r j : _to_domain r = Ok j → job_valid j = true.
Proof.
  unfold _to_domain; res_run. intros H. unfold job_valid.
  destruct (JobStatus_of _); [|done].
  destruct (load_request _) as [q|] eqn:Hq; [|done]. apply load_request_valid in Hq.
  destruct (row_result_payload r) as [p|]; simplify_eq/=.
  - destruct (load_result p) as [v|] eqn:Hv; simplify_eq/=. apply load_result_valid in Hv.
    by rewrite Hq, Hv.
  - by rewrite Hq.
Qed.

(** C36: a job stored as a row loads back as the same job exactly when it satisfies
    the constraints of its models, and a row only ever loads as such a job. *)
Theorem to_domain_to_row (j : EvaluationJob) (r : EvaluationJobRow) (j' : EvaluationJob) :
  (_to_domain (_to_row j) = Ok j ↔ job_valid j = true)
  ∧ (_to_domain r ≠ Ok j' ∨ job_valid j' = true).
Proof.
  split; [split; [apply to_domain_valid|apply to_domain_valid_row]|].
  destruct (job_valid j') eqn:E; [by right|left]. intros H%to_domain_valid. congruence.
Qed.

Lemma row_fits_to_row j : job_ok j → row_fits (_to_row j) = true.
Proof.
  intros Hj. destruct (ok_owner _ Hj) as [Ht Hp]. pose proof (ok_attempts _ Hj).
  pose proof (ok_int32 _ Hj). pose proof (job_valid_request _ (ok_valid _ Hj)) as Hr.
  unfold valid_request, len_ok in Hr. to_prop.
  unfold row_fits, int32, _to_row; simpl. rewrite Ht, Hp.
  rewrite !andb_true_iff, !Z.leb_le, !Z.ltb_lt. split_and!; try lia.
  destruct (status j); vm_compute; congruence.
Qed.

(** The database holds the rows of the jobs [v]. *)
Definition holds (s : PostgresJobRepository) (v : store) : Prop :=
  table s = _to_row <$> v ∧ store_ok v.

Definition pg_view (s : PostgresJobRepository) : store :=
  omap (λ r, match _to_domain r with Ok j => Some j | Raise _ => None end) (table s).

Definition pg_inv (s : PostgresJobRepository) : Prop := holds s (pg_view s).

Lemma holds_view s v : holds s v → pg_view s = v.
Proof.
  intros [Ht Hv]. unfold pg_view. rewrite Ht. apply map_eq. intros id.
  rewrite lookup_omap, lookup_fmap. destruct (v !! id) as [j|] eqn:Hj; [|done]. simpl.
  destruct (Hv _ _ Hj) as [_ Hok]. by rewrite to_domain_valid_row by apply (ok_valid _ Hok).
Qed.

Lemma holds_inv s v : holds s v → pg_inv s.
Proof. intros H. unfold pg_inv. by rewrite (holds_view s v). Qed.

Definition pg_reliable (s : PostgresJobRepository) : Prop := ∀ n, faults s n = Fine.

Definition pg_tracks (s : PostgresJobRepository) (r : EvaluationJob) (id : UUID) : Prop :=
  ∃ j, pg_view s !! id = Some j ∧ same_identity r j.

Definition pg_le (s s' : PostgresJobRepository) : Prop :=
  evolves (pg_view s) (pg_view s') ∧ (pg_reliable s → pg_reliable s') ∧ locked s' = locked s.

#[export] Instance pg_le_preorder : PreOrder pg_le.
Proof.
  split.
  - intros s. by split.
  - intros s1 s2 s3 (? & ? & ?) (? & ? & ?). split_and!; [by etrans|auto|congruence].
Qed.

(** Assignments to a row are assignments to its job. *)
Lemma move_row target t j :
  set_row_updated_at t (set_row_status (status_value target) (_to_row j)) = _to_row (move_job target t j).
Proof. done. Qed.

Lemma recover_row_job t j : Postgres.recover_row t (_to_row j) = _to_row (recover_job t j).
Proof.
  unfold Postgres.recover_row, recover_job. simpl.
  by destruct (attempt_count j >=? max_attempts j)%Z.
Qed.

Lemma row_status_is j s : row_status (_to_row j) = status_value s ↔ status j = s.
Proof. simpl. split; [apply status_value_inj|by intros ->]. Qed.

(** ** The methods on a database that holds [v] *)

Section Methods.
Context `{QueryPlan} (s : PostgresJobRepository) (v : store) (c : clock) (Hs : holds s v).

(** The state [k] round trips later, the table unchanged. *)
Definition later (k : nat) : PostgresJobRepository :=
  mkPg (table s) (locked s) (λ n, faults s (k + n)).

Lemma later_reliable k : pg_reliable s → pg_reliable (later k).
Proof. intros Hr n. apply Hr. Qed.

Lemma table_lookup id : table s !! id = _to_row <$> v !! id.
Proof. destruct Hs as [-> _]. apply lookup_fmap. Qed.

Lemma job_ok_of id j : v !! id = Some j → job_id j = id ∧ job_ok j.
Proof. destruct Hs as [_ Hv]. apply Hv. Qed.

(** A state reached without touching the rows. *)
Lemma pg_same s' :
  holds s' v → (pg_reliable s → pg_reliable s') → locked s' = locked s →
  pg_inv s' ∧ pg_le s s' ∧ pg_view s' = pg_view s.
Proof.
  intros H' Hr Hl. split_and!; [by eapply holds_inv|split_and!; [|done..]|];
    by rewrite !(holds_view _ v).
Qed.

Lemma commit_holds id j f :
  job_id j = id → job_ok j →
  holds (mkPg (<[id := _to_row j]> (table s)) (locked s) f) (<[id := j]> v).
Proof.
  intros Hid Hj. destruct Hs as [Ht Hv]. split; [|by apply store_ok_insert].
  simpl. by rewrite Ht, fmap_insert.
Qed.

(** Any scan of the table lists the rows of the jobs in some order. *)
Lemma scan_jobs : ∃ js, scan (table s) = _to_row <$> js ∧ js ≡ₚ (map_to_list v).*2.
Proof.
  destruct Hs as [Ht _].
  assert (scan (table s) ≡ₚ _to_row <$> (map_to_list v).*2) as Hperm.
  { rewrite scan_perm, Ht, map_to_list_fmap, <- !list_fmap_compose.
    apply reflexive_eq, list_fmap_ext. by intros ? []. }
  apply Permutation_map_inv in Hperm as (js & -> & Hjs). by exists js.
Qed.

Lemma scanned_job js j : js ≡ₚ (map_to_list v).*2 → j ∈ js → v !! job_id j = Some j ∧ job_ok j.
Proof.
  intros Hjs Hj. rewrite Hjs in Hj. apply list_elem_of_fmap in Hj as ([id j'] & -> & Hin).
  apply elem_of_map_to_list in Hin. simpl. by destruct (job_ok_of _ _ Hin) as [-> ?].
Qed.

Lemma stored_scanned js id j : js ≡ₚ (map_to_list v).*2 → v !! id = Some j → j ∈ js.
Proof.
  intros Hjs Hj. rewrite Hjs. apply list_elem_of_fmap. exists (id, j).
  by rewrite elem_of_map_to_list.
Qed.

Lemma to_domain_all_rows js :
  Forall job_ok js → Postgres.to_domain_all (_to_row <$> js) = Ok js.
Proof.
  induction 1 as [|j js Hj Hjs IH]; [done|]. csimpl. res_run.
  rewrite to_domain_valid_row by apply (ok_valid _ Hj). by rewrite IH.
Qed.
End Methods.

(** One round trip, as it turns out. *)
Lemma execute_run s c :
  execute (s, c) = (match faults s 0 with
                    | Fine => Ok tt
                    | Fails text | Lost text => Raise (StorageExn text)
                    end, (later s 1, c)).
Proof. unfold execute, round_trip, mbind, M_bind. by destruct (faults s 0). Qed.

Lemma commit_run t s c :
  commit t (s, c) = match faults s 0 with
                    | Fine => (Ok tt, (mkPg t (locked s) (λ n, faults s (1 + n)), c))
                    | Fails text => (Raise (StorageExn text), (later s 1, c))
                    | Lost text =>
                        (Raise (StorageExn text), (mkPg t (locked s) (λ n, faults s (1 + n)), c))
                    end.
Proof. unfold commit, round_trip, mbind, M_bind. by destruct (faults s 0). Qed.

Lemma refused_run `{QueryPlan} {A} q s c :
  ∃ text, (refused q : PG A) (s, c) = (Raise (StorageExn text), (later s 1, c)).
Proof.
  unfold refused, mbind, M_bind. rewrite execute_run. destruct (faults s 0); by eexists.
Qed.

Ltac pg_run :=
  cbv [mbind M_bind mret M_ret get_state put_state now raise of_res]; simpl.

Section Laws.
Context `{QueryPlan}.
Implicit Types (s : PostgresJobRepository) (c : clock).

Lemma faulty s k : faults s k ≠ Fine → ¬ pg_reliable s.
Proof. intros Hf Hr. by rewrite Hr in Hf. Qed.

Lemma pg_kept s k :
  pg_inv s → pg_inv (later s k) ∧ pg_le s (later s k) ∧ pg_view (later s k) = pg_view s.
Proof. intros Hs. apply (pg_same s (pg_view s)); [done..| |done]. apply later_reliable. Qed.

(** A table that holds jobs, each moved along its life. *)
Lemma pg_moved s v' f :
  pg_inv s → holds (mkPg (_to_row <$> v') (locked s) f) v' → evolves (pg_view s) v' →
  (pg_reliable s → ∀ n, f n = Fine) →
  let s' := mkPg (_to_row <$> v') (locked s) f in
  pg_inv s' ∧ pg_le s s' ∧ pg_view s' = v'.
Proof.
  intros Hs Hh He Hr. cbv zeta. pose proof (holds_view _ _ Hh) as Hview.
  split_and!; [by eapply holds_inv|split_and!; [by rewrite Hview|exact Hr|done]|exact Hview].
Qed.

(** A committed life step of job [id]. *)
Lemma pg_step s id j j' f :
  pg_inv s → pg_view s !! id = Some j → lstep j j' → (pg_reliable s → ∀ n, f n = Fine) →
  let s' := mkPg (<[id := _to_row j']> (table s)) (locked s) f in
  pg_inv s' ∧ pg_le s s' ∧ pg_view s' = <[id := j']> (pg_view s).
Proof.
  intros Hs Hj Hstep Hr s'. destruct (job_ok_of s _ Hs id j Hj) as [Hid Hok].
  assert (holds s' (<[id := j']> (pg_view s))) as Hs'.
  { apply commit_holds; [done| |by eapply lstep_ok].
    destruct (lstep_identity _ _ Hstep) as (<- & _). done. }
  assert (s' = mkPg (_to_row <$> <[id := j']> (pg_view s)) (locked s) f) as Heq.
  { destruct Hs' as [Ht _]. unfold s' in *. by rewrite <- Ht. }
  rewrite Heq in Hs' |- *. apply pg_moved; [done..|by eapply evolves_step|done].
Qed.

(** Updating the row of a job and reading it back: the method goes on with the job moved, or
    it raises, and the job may have moved all the same. *)
Lemma update_run {A} (k : PG A) s c id j j' r s' c' :
  pg_inv s → pg_view s !! id = Some j → lstep j j' →
  (commit_row (_to_row j');; execute;; k) (s, c) = (r, (s', c')) →
  (∃ s2, pg_inv s2 ∧ pg_le s s2 ∧ pg_view s2 = <[id := j']> (pg_view s)
         ∧ k (s2, c) = (r, (s', c')))
  ∨ (pg_inv s' ∧ pg_le s s' ∧ ¬ pg_reliable s ∧ storage_error r
     ∧ (pg_view s' = pg_view s ∨ pg_view s' = <[id := j']> (pg_view s))).
Proof.
  intros Hs Hj Hstep Hrun. destruct (job_ok_of s _ Hs id j Hj) as [Hid Hok].
  pose proof (lstep_ok _ _ Hok Hstep) as Hok'.
  assert (row_job_id (_to_row j') = id) as Hkey
    by (rewrite <- Hid; symmetry; by apply (lstep_identity _ _ Hstep)).
  unfold commit_row, mbind, M_bind, get_state in Hrun.
  rewrite (row_fits_to_row _ Hok'), commit_run, Hkey in Hrun.
  assert (∀ k, let s2 := mkPg (<[id := _to_row j']> (table s)) (locked s) (λ n, faults s (k + n)) in
            pg_inv s2 ∧ pg_le s s2 ∧ pg_view s2 = <[id := j']> (pg_view s)) as Hmoved
    by (intros n; apply (pg_step s id j j'); [done..|intros Hr m; apply Hr]).
  destruct (Hmoved 1) as (? & ? & ?), (Hmoved 2) as (? & ? & ?), (pg_kept s 1 Hs) as (? & ? & ?).
  assert (∀ n, faults s n ≠ Fine → ¬ pg_reliable s) as Hf by apply faulty.
  destruct (faults s 0) eqn:Hf0.
  - rewrite execute_run in Hrun. simpl in Hrun.
    destruct (faults s 1) eqn:Hf1; simpl in Hrun;
      [left; by exists (mkPg (<[id := _to_row j']> (table s)) (locked s) (λ n, faults s (2 + n)))|right..];
      simplify_eq; (split_and!; [done..|apply (Hf 1); congruence|by eexists|by right]).
  - right. simplify_eq. split_and!; [done..|apply (Hf 0); congruence|by eexists|by left].
  - right. simplify_eq. split_and!; [done..|apply (Hf 0); congruence|by eexists|by right].
Qed.

(** The row of a stored job reads as that job. *)
Lemma stored_row s id j :
  pg_inv s → pg_view s !! id = Some j →
  of_res (S := PostgresJobRepository * clock) (_to_domain (_to_row j)) = mret j ∧ pg_tracks s j id.
Proof.
  intros Hs Hj. destruct (job_ok_of s _ Hs id j Hj) as [_ Hok].
  split; [|by exists j]. by rewrite to_domain_valid_row by apply (ok_valid _ Hok).
Qed.

Lemma validate_run s c j from :
  Postgres._validate_transition (row_status (_to_row j)) from (s, c)
  = (if decide (status j ∈ from) then Ok tt else Raise InvalidStateTransition, (s, c)).
Proof.
  unfold Postgres._validate_transition. pg_run. rewrite JobStatus_of_value. by case_decide.
Qed.

(** A statement that only reads. *)
Lemma read_run {A} (k : A → Prop) s c (m : PG A) r s' c' :
  pg_inv s → (execute;; m) (s, c) = (r, (s', c')) →
  (m (later s 1, c) = (r, (s', c')))
  ∨ (pg_inv s' ∧ pg_le s s' ∧ pg_view s' = pg_view s ∧ ¬ pg_reliable s ∧ storage_error r).
Proof.
  intros Hs Hrun. unfold mbind, M_bind in Hrun. rewrite execute_run in Hrun.
  destruct (pg_kept s 1 Hs) as (? & ? & ?).
  destruct (faults s 0) eqn:Hf; [by left|right..]; simplify_eq;
    (split_and!; [done..|apply (faulty s 0); congruence|by eexists]).
Qed.

(** The shape the three status changes share. *)
Lemma pg_transition_law id from R (rowf : datetime → EvaluationJobRow → EvaluationJobRow)
    (f : datetime → EvaluationJob → EvaluationJob) s c r s' c' :
  (∀ t j, rowf t (_to_row j) = _to_row (f t j)) →
  (∀ t j, status j ∈ from → R j (f t j) ∧ lstep j (f t j)) →
  pg_inv s →
  (row ← Postgres.get_row id;
   match row with
   | None => raise NotFound
   | Some row =>
       Postgres._validate_transition (row_status row) from;;
       t ← now;
       commit_row (rowf t row);;
       execute;;
       of_res (_to_domain (rowf t row))
   end) (s, c) = (r, (s', c')) →
  pg_inv s' ∧ pg_le s s' ∧ (∀ x, r = Ok x → pg_tracks s' x id)
  ∧ (transition_spec (pg_view s) id from R
       (match r with Ok x => Ok x | Raise e => Raise e end) (pg_view s')
     ∨ (¬ pg_reliable s ∧ storage_error r
        ∧ (pg_view s' = pg_view s
           ∨ ∃ j', transition_spec (pg_view s) id from R (Ok j') (pg_view s')))).
Proof.
  intros Hrow Hf Hs Hrun. unfold Postgres.get_row, mbind, M_bind in Hrun.
  rewrite execute_run in Hrun. destruct (pg_kept s 1 Hs) as (Hi & Hle & Hv).
  destruct (faults s 0) eqn:Hfault.
  2,3: simplify_eq; (split_and!; [done..|right; split_and!;
         [apply (faulty s 0); congruence|by eexists|by left]]).
  unfold get_state, mret, M_ret in Hrun.
  change (table (later s 1)) with (table s) in Hrun.
  rewrite (table_lookup s _ Hs) in Hrun. unfold transition_spec.
  destruct (pg_view s !! id) as [j|] eqn:Hj; cbn [fmap option_fmap option_map] in Hrun.
  2:{ unfold raise in Hrun. simplify_eq. split_and!; [done..|]. by left. }
  rewrite validate_run in Hrun. case_decide as Hst.
  2:{ simplify_eq. split_and!; [done..|]. left. by rewrite Hv. }
  unfold now in Hrun. rewrite Hrow in Hrun.
  destruct (Hf (c 0) j Hst) as [HR Hstep]. rewrite <- Hv in Hj.
  destruct (update_run _ _ _ id j _ _ _ _ Hi Hj Hstep Hrun)
    as [(s2 & Hi' & Hle' & Hv' & Hrun')|(Hi' & Hle' & Hn & He & Hv')]; rewrite Hv in Hv'.
  - destruct (stored_row s2 id (f (c 0) j) Hi') as [Hrow' Ht]; [by rewrite Hv', lookup_insert_eq|].
    rewrite Hrow' in Hrun'. unfold mret, M_ret in Hrun'. simplify_eq.
    split_and!; [done|by etrans|by intros x [= <-]|]. left. by exists (f (c 0) j).
  - split_and!; [done|by etrans|by intros x ->; destruct He|]. right.
    split_and!; [intros Hr; by apply Hn, later_reliable|done|].
    destruct Hv' as [Hv'|Hv']; [by left|right]. eauto 6.
Qed.

Lemma pg_set_running_law id s c r s' c' :
  pg_inv s → Postgres.set_running id (s, c) = (r, (s', c')) →
  pg_inv s' ∧ pg_le s s' ∧ (∀ x, r = Ok x → pg_tracks s' x id)
  ∧ (transition_spec (pg_view s) id [QUEUED] started
       (match r with Ok x => Ok x | Raise e => Raise e end) (pg_view s')
     ∨ (¬ pg_reliable s ∧ storage_error r
        ∧ (pg_view s' = pg_view s
           ∨ ∃ j', transition_spec (pg_view s) id [QUEUED] started (Ok j') (pg_view s')))).
Proof.
  apply (pg_transition_law id [QUEUED] _ _ (λ t, move_job RUNNING t)); [done|].
  intros t j Hj%list_elem_of_singleton. split; [by eexists|by apply l_start].
Qed.

Lemma pg_set_succeeded_law id v s c r s' c' :
  pg_inv s → valid_result v = true → Postgres.set_succeeded id v (s, c) = (r, (s', c')) →
  pg_inv s' ∧ pg_le s s' ∧ (∀ x, r = Ok x → pg_tracks s' x id)
  ∧ (transition_spec (pg_view s) id [RUNNING] (succeeded v)
       (match r with Ok x => Ok x | Raise e => Raise e end) (pg_view s')
     ∨ (¬ pg_reliable s ∧ storage_error r
        ∧ (pg_view s' = pg_view s
           ∨ ∃ j', transition_spec (pg_view s) id [RUNNING] (succeeded v) (Ok j') (pg_view s')))).
Proof.
  intros Hs Hv. revert Hs.
  apply (pg_transition_law id [RUNNING] _
           (λ t row, set_row_updated_at t (set_row_claimed_at None
              (set_row_result_payload (Some (dump_result v))
                 (set_row_status (status_value SUCCEEDED) row))))
           (λ t, succeed_job v None t)); [done|].
  intros t j Hj%list_elem_of_singleton. assert (ends_claim None j) by by right.
  split; [by do 2 eexists|by apply l_succeed].
Qed.

Lemma pg_set_failed_law id m s c r s' c' :
  pg_inv s → Postgres.set_failed id m (s, c) = (r, (s', c')) →
  pg_inv s' ∧ pg_le s s' ∧ (∀ x, r = Ok x → pg_tracks s' x id)
  ∧ (transition_spec (pg_view s) id [QUEUED; RUNNING] (failed m)
       (match r with Ok x => Ok x | Raise e => Raise e end) (pg_view s')
     ∨ (¬ pg_reliable s ∧ storage_error r
        ∧ (pg_view s' = pg_view s
           ∨ ∃ j', transition_spec (pg_view s) id [QUEUED; RUNNING] (failed m) (Ok j') (pg_view s')))).
Proof.
  apply (pg_transition_law id [QUEUED; RUNNING] _
           (λ t row, set_row_updated_at t (set_row_claimed_at None
              (set_row_error_message (Some m) (set_row_status (status_value FAILED) row))))
           (λ t, fail_job m None t)); [done|].
  intros t j Hj. assert (ends_claim None j) by by right.
  split; [by do 2 eexists|apply l_fail; [set_solver|done]].
Qed.

(** Run the statement a method starts with in [Hrun]; its failure is closed. *)
Ltac first_statement s Hs Hrun :=
  destruct (pg_kept s 1 Hs) as (Hi & Hle & Hv);
  apply (read_run (λ _, True)) in Hrun as [Hrun|(? & ? & ? & ? & ?)]; [|tauto|done].

(** Reading a row by its key. *)
Lemma get_row_run {A} (k : option EvaluationJobRow → PG A) id s c r s' c' :
  pg_inv s → (row ← Postgres.get_row id; k row) (s, c) = (r, (s', c')) →
  (k (_to_row <$> pg_view s !! id) (later s 1, c) = (r, (s', c')))
  ∨ (pg_inv s' ∧ pg_le s s' ∧ pg_view s' = pg_view s ∧ ¬ pg_reliable s ∧ storage_error r).
Proof.
  intros Hs Hrun. rewrite <- (table_lookup s _ Hs).
  apply (read_run (λ _ : A, True) s c (λ p, k (table p.1 !! id) p)); [done|].
  rewrite <- Hrun. unfold Postgres.get_row, mbind, M_bind. rewrite execute_run.
  by destruct (faults s 0).
Qed.

Lemma pg_get_law id s c r s' c' :
  pg_inv s → Postgres.get id (s, c) = (r, (s', c')) →
  pg_inv s' ∧ pg_le s s' ∧ pg_view s' = pg_view s
  ∧ (match pg_view s !! id with
     | None => r = Raise NotFound
     | Some j => ∃ x, r = Ok x ∧ x = j ∧ pg_tracks s' x id
     end ∨ (¬ pg_reliable s ∧ storage_error r)).
Proof.
  intros Hs Hrun. destruct (pg_kept s 1 Hs) as (Hi & Hle & Hv).
  apply get_row_run in Hrun as [Hrun|(? & ? & ? & ? & ?)]; [|by auto 7|done].
  destruct (pg_view s !! id) as [j|] eqn:Hj; simpl in Hrun; unfold raise, of_res in Hrun.
  - destruct (job_ok_of s _ Hs id j Hj) as [Hid Hok].
    rewrite to_domain_valid_row in Hrun by apply (ok_valid _ Hok). simplify_eq.
    split_and!; [done..|]. left. exists j. split_and!; [done..|]. exists j. by rewrite Hv.
  - simplify_eq. split_and!; [done..|]. by left.
Qed.

Lemma pg_get_for_tenant_law id tenant s c r s' c' :
  pg_inv s → Postgres.get_for_tenant id tenant (s, c) = (r, (s', c')) →
  pg_inv s' ∧ pg_le s s' ∧ pg_view s' = pg_view s
  ∧ (match pg_view s !! id with
     | Some j => if decide (tenant_id j = tenant)
                 then ∃ x, r = Ok x ∧ x = j ∧ pg_tracks s' x id
                 else r = Raise NotFound
     | None => r = Raise NotFound
     end ∨ (¬ pg_reliable s ∧ storage_error r)).
Proof.
  intros Hs Hrun. destruct (pg_kept s 1 Hs) as (Hi & Hle & Hv).
  apply get_row_run in Hrun as [Hrun|(? & ? & ? & ? & ?)]; [|by auto 7|done].
  destruct (pg_view s !! id) as [j|] eqn:Hj; simpl in Hrun; unfold raise, of_res in Hrun.
  - destruct (job_ok_of s _ Hs id j Hj) as [Hid Hok]. case_decide as Ht.
    + rewrite to_domain_valid_row in Hrun by apply (ok_valid _ Hok). simplify_eq.
      split_and!; [done..|]. left. exists j. split_and!; [done..|]. exists j. by rewrite Hv.
    + simplify_eq. split_and!; [done..|]. by left.
  - simplify_eq. split_and!; [done..|]. by left.
Qed.

Lemma pg_create_law j s c r s' c' :
  pg_inv s → job_ok j → status j = QUEUED → pg_view s !! job_id j = None →
  Postgres.create j (s, c) = (r, (s', c')) →
  pg_inv s' ∧ pg_le s s'
  ∧ ((∃ x, r = Ok x ∧ x = j ∧ pg_tracks s' x (job_id j)
           ∧ pg_view s' = <[job_id j := j]> (pg_view s))
     ∨ (¬ pg_reliable s ∧ storage_error r
        ∧ (pg_view s' = pg_view s ∨ pg_view s' = <[job_id j := j]> (pg_view s)))).
Proof.
  intros Hs Hok _ Hnone Hrun. unfold Postgres.create, mbind, M_bind, mret, M_ret, get_state in Hrun.
  rewrite (table_lookup s _ Hs), Hnone, (row_fits_to_row _ Hok) in Hrun.
  change (bool_decide (_to_row <$> None = None) && true) with true in Hrun. cbv iota beta in Hrun.
  rewrite commit_run in Hrun. change (row_job_id (_to_row j)) with (job_id j) in Hrun.
  set (s1 := mkPg (<[job_id j := _to_row j]> (table s)) (locked s) (λ n, faults s (1 + n))) in Hrun.
  pose proof (commit_holds s _ Hs (job_id j) j (λ n, faults s (1 + n)) eq_refl Hok) as Hs1.
  pose proof (holds_view _ _ Hs1) as Hview. change (pg_view s1 = <[job_id j := j]> (pg_view s)) in Hview.
  assert (pg_inv s1 ∧ pg_le s s1) as [Hi1 Hle1].
  { split; [by eapply holds_inv|]. split_and!; [rewrite Hview; by apply evolves_insert_new| |done].
    intros Hr n. apply Hr. }
  assert (pg_tracks s1 j (job_id j)) as Ht by (exists j; by rewrite Hview, lookup_insert_eq).
  clearbody s1. destruct (faults s 0) eqn:Hf; simplify_eq.
  - split_and!; [done..|]. left. by exists j.
  - destruct (pg_kept s 1 Hs) as (? & ? & ?). split_and!; [done..|]. right.
    split_and!; [apply (faulty s 0); congruence|by eexists|by left].
  - split_and!; [done..|]. right.
    split_and!; [apply (faulty s 0); congruence|by eexists|by right].
Qed.

Lemma pg_list_law tenant project limit s c r s' c' :
  pg_inv s → (0 ≤ limit)%Z → Postgres.list_recent tenant project limit (s, c) = (r, (s', c')) →
  pg_inv s' ∧ pg_le s s' ∧ pg_view s' = pg_view s
  ∧ ((∃ xs, r = Ok xs ∧ is_listing (pg_view s) tenant project limit ((λ j, j) <$> xs)
             ∧ Forall (λ x, ∃ id, pg_tracks s' x id) xs)
     ∨ (¬ pg_reliable s ∧ storage_error r)).
Proof.
  intros Hs Hlimit Hrun. unfold Postgres.list_recent in Hrun.
  rewrite (proj2 (Z.ltb_ge _ _) Hlimit) in Hrun. first_statement s Hs Hrun.
  unfold mbind, M_bind, get_state in Hrun. change (table (later s 1)) with (table s) in Hrun.
  destruct (scan_jobs s _ Hs) as (js & Hscan & Hjs). rewrite Hscan in Hrun.
  unfold sorted_by_reverse in Hrun.
  rewrite filter_fmap, sort_by_fmap, <- fmap_slice_to in Hrun.
  set (all := sort_by _ _) in Hrun.
  assert (all ≡ₚ filter (listed tenant project) js) as Hall.
  { unfold all. rewrite sort_by_perm. apply reflexive_eq, list_filter_iff. intros j.
    unfold Postgres.row_listed, listed. simpl. destruct project; naive_solver. }
  rewrite to_domain_all_rows in Hrun.
  2:{ apply Forall_forall. intros j Hj%elem_of_slice_to. rewrite Hall in Hj.
      apply list_elem_of_filter in Hj as [_ Hj]. by apply (scanned_job s _ Hs js). }
  unfold of_res in Hrun. simplify_eq. split_and!; [done..|]. left. eexists. split; [done|].
  rewrite list_fmap_id. split.
  - exists all. split_and!; [by rewrite Hall, Hjs| |done].
    apply (sorted_by_reverse_sorted created_at).
  - apply Forall_forall. intros j Hj%elem_of_slice_to. rewrite Hall in Hj.
    apply list_elem_of_filter in Hj as [_ Hj]. exists (job_id j), j.
    by destruct (scanned_job s _ Hs js j Hjs Hj).
Qed.

(** The rows a claim considers, as jobs. *)
Definition candidates (held : gset UUID) (js : list EvaluationJob) : list EvaluationJob :=
  sorted_by created_at (filter (λ j, claimable j = true ∧ job_id j ∉ held) js).

Lemma claim_rows held js :
  sorted_by row_created_at
    (filter (λ r, (row_status r = status_value QUEUED
                   ∧ (row_attempt_count r < row_max_attempts r)%Z) ∧ row_job_id r ∉ held)
       (_to_row <$> js)) = _to_row <$> candidates held js.
Proof.
  unfold sorted_by, candidates. rewrite filter_fmap, sort_by_fmap. f_equal.
  unfold sorted_by. f_equal. apply list_filter_iff. intros j.
  rewrite row_status_is, claimable_spec. done.
Qed.

Lemma candidates_none s held js :
  pg_inv s → js ≡ₚ (map_to_list (pg_view s)).*2 → candidates held js = [] →
  none_next (pg_view s) held.
Proof.
  intros Hs Hjs Hc id j Hj Hcl. apply (proj1 (sort_by_nil _ _)) in Hc.
  destruct (job_ok_of s _ Hs id j Hj) as [<- _].
  destruct (decide (job_id j ∈ held)) as [|Hn]; [done|exfalso].
  assert (j ∈ filter (λ j, claimable j = true ∧ job_id j ∉ held) js) as Hin
    by (apply list_elem_of_filter; split; [done|by eapply stored_scanned]).
  rewrite Hc in Hin. by apply not_elem_of_nil in Hin.
Qed.

Lemma candidates_next s held js j rest :
  pg_inv s → js ≡ₚ (map_to_list (pg_view s)).*2 → candidates held js = j :: rest →
  is_next (pg_view s) held (job_id j) j.
Proof.
  intros Hs Hjs Hc. apply sort_by_head in Hc as (l1 & l2 & Heq & _ & Hmin);
    [|intros; rewrite !Z.leb_le in *; lia..].
  assert (j ∈ filter (λ j, claimable j = true ∧ job_id j ∉ held) js) as Hin
    by (rewrite Heq; set_solver).
  apply list_elem_of_filter in Hin as [[Hcl _] Hin].
  destruct (scanned_job s _ Hs js j Hjs Hin) as [Hj _]. split_and!; [done..|].
  intros id' j' Hj' Hcl' Hn. destruct (job_ok_of s _ Hs id' j' Hj') as [<- _].
  apply Z.leb_le, Hmin. apply list_elem_of_filter. split; [done|]. by eapply stored_scanned.
Qed.

Lemma pg_claim_law s c r s' c' :
  pg_inv s → Postgres.claim_next_queued (s, c) = (r, (s', c')) →
  pg_inv s' ∧ pg_le s s'
  ∧ ((r = Ok None ∧ pg_view s' = pg_view s ∧ none_next (pg_view s) (locked s))
     ∨ (∃ x id j t t', r = Ok (Some x) ∧ is_next (pg_view s) (locked s) id j
          ∧ x = claim_job t t' j ∧ pg_tracks s' x id
          ∧ pg_view s' = <[id := claim_job t t' j]> (pg_view s))
     ∨ (¬ pg_reliable s ∧ storage_error r
        ∧ (pg_view s' = pg_view s
           ∨ ∃ id j t t', is_next (pg_view s) (locked s) id j
               ∧ pg_view s' = <[id := claim_job t t' j]> (pg_view s)))).
Proof.
  intros Hs Hrun. unfold Postgres.claim_next_queued in Hrun. first_statement s Hs Hrun.
  destruct (scan_jobs s _ Hs) as (js & Hscan & Hjs).
  unfold mbind at 1, M_bind at 1, get_state in Hrun. change (table (later s 1)) with (table s) in Hrun.
  change (locked (later s 1)) with (locked s) in Hrun.
  rewrite Hscan, claim_rows in Hrun.
  destruct (candidates (locked s) js) as [|j rest] eqn:Hc; cbn [fmap list_fmap] in Hrun.
  { unfold mret, M_ret in Hrun. simplify_eq. split_and!; [done..|]. left.
    split_and!; [done..|]. by eapply candidates_none. }
  pose proof (candidates_next s _ _ _ _ Hs Hjs Hc) as Hnext. pose proof Hnext as (Hj & Hcl & _).
  set (j' := claim_job (c 0) (c 0) j). assert (lstep j j') as Hstep by by apply l_claim.
  rewrite <- Hv in Hj. unfold mbind at 1, M_bind at 1, now in Hrun. cbv zeta iota beta in Hrun.
  change (set_row_updated_at _ _) with (_to_row j') in Hrun.
  destruct (update_run _ _ _ (job_id j) j j' _ _ _ Hi Hj Hstep Hrun)
    as [(s2 & Hi' & Hle' & Hv' & Hrun')|(Hi' & Hle' & Hn & He & Hv')]; rewrite Hv in Hv'.
  - destruct (stored_row s2 (job_id j) j' Hi') as [Hrow' Ht]; [by rewrite Hv', lookup_insert_eq|].
    rewrite Hrow' in Hrun'. unfold mbind, M_bind, mret, M_ret in Hrun'. simplify_eq.
    split_and!; [done|by etrans|]. right; left.
    exists j', (job_id j), j, (c 0), (c 0). repeat (split; [done|]). done.
  - split_and!; [done|by etrans|]. right; right.
    split_and!; [intros Hr; by apply Hn, later_reliable|done|].
    destruct Hv' as [Hv'|Hv']; [by left|right].
    exists (job_id j), j, (c 0), (c 0). by split.
Qed.

(** Writing the recovered rows back, one by one. *)
Lemma foldr_rows (v : store) (ks : list EvaluationJob) g :
  foldr (λ r, <[row_job_id r := Postgres.recover_row g r]>) (_to_row <$> v) (_to_row <$> ks)
  = _to_row <$> foldr (λ j, <[job_id j := recover_job g j]>) v ks.
Proof.
  induction ks as [|j ks IH]; [done|]. csimpl. rewrite IH, recover_row_job. by rewrite fmap_insert.
Qed.

Lemma foldr_jobs (v : store) ks t id :
  (∀ id j, v !! id = Some j → job_id j = id) →
  Forall (λ j, v !! job_id j = Some j) ks →
  foldr (λ j, <[job_id j := recover_job t j]>) v ks !! id
  = match v !! id with
    | Some j => if decide (j ∈ ks) then Some (recover_job t j) else Some j
    | None => None
    end.
Proof.
  intros Hkey. induction 1 as [|k ks Hk Hks IH]; simpl.
  - by destruct (v !! id).
  - rewrite lookup_insert. case_decide as Hid.
    + subst id. rewrite Hk. by rewrite decide_True by apply list_elem_of_here.
    + rewrite IH. destruct (v !! id) as [j|] eqn:Hj; [|done].
      pose proof (Hkey _ _ Hj). assert (j ≠ k) as Hne by congruence.
      repeat case_decide; rewrite elem_of_cons in *; naive_solver.
Qed.

Lemma pg_recover_law cutoff s c r s' c' :
  pg_inv s → Postgres.recover_stale_running cutoff (s, c) = (r, (s', c')) →
  pg_inv s' ∧ pg_le s s'
  ∧ ((r = Ok (Z.of_nat (size (recoverable (pg_view s) (locked s) cutoff)))
      ∧ recovered (pg_view s) (locked s) cutoff (pg_view s'))
     ∨ (¬ pg_reliable s ∧ storage_error r
        ∧ (pg_view s' = pg_view s ∨ recovered (pg_view s) (locked s) cutoff (pg_view s')))).
Proof.
  intros Hs Hrun. unfold Postgres.recover_stale_running in Hrun. first_statement s Hs Hrun.
  destruct (scan_jobs s _ Hs) as (js & Hscan & Hjs).
  unfold get_state, now, mbind, M_bind, mret, M_ret in Hrun.
  change (table (later s 1)) with (table s) in Hrun.
  change (locked (later s 1)) with (locked s) in Hrun.
  set (ks := filter (λ j, stale cutoff j = true ∧ job_id j ∉ locked s) js).
  assert (filter (Postgres.row_stale (locked s) cutoff) (scan (table s)) = _to_row <$> ks) as Hrows.
  { rewrite Hscan, filter_fmap. f_equal. apply list_filter_iff. intros j.
    unfold Postgres.row_stale. rewrite row_status_is, stale_spec. simpl.
    destruct (claimed_at j); naive_solver. }
  rewrite Hrows, length_fmap in Hrun.
  pose proof Hs as [Ht Hv0]. rewrite Ht, foldr_rows in Hrun.
  set (v' := foldr (λ j, <[job_id j := recover_job (c 0) j]>) (pg_view s) ks) in Hrun.
  assert (∀ id, v' !! id = match pg_view s !! id with
            | Some j => if decide (j ∈ ks) then Some (recover_job (c 0) j) else Some j
            | None => None end) as Hlook.
  { intros id. apply foldr_jobs; [intros id' j' Hj'; by destruct (job_ok_of s _ Hs _ _ Hj')|].
    apply Forall_forall. intros j [_ Hj]%list_elem_of_filter.
    by apply (scanned_job s _ Hs js). }
  assert (∀ id j, pg_view s !! id = Some j →
            (j ∈ ks ↔ stale cutoff j = true ∧ id ∉ locked s)) as Hks.
  { intros id j Hj. destruct (job_ok_of s _ Hs id j Hj) as [<- _]. unfold ks.
    rewrite list_elem_of_filter. split; [tauto|]. intros ?. split; [done|].
    by eapply stored_scanned. }
  assert (∀ id j, pg_view s !! id = Some j →
            ∃ j', v' !! id = Some j' ∧ rtc lstep j j' ∧ job_id j' = id ∧ job_ok j') as Hstep.
  { intros id j Hj. destruct (job_ok_of s _ Hs id j Hj) as [<- Hok].
    rewrite Hlook, Hj. case_decide as Hin; [|by eauto using rtc_refl].
    apply (Hks _ _ Hj) in Hin as [Hst _]. pose proof (l_recover _ _ (c 0) Hst) as Hl.
    eexists. split_and!; [done|by apply rtc_once| |by eapply lstep_ok].
    by destruct (lstep_identity _ _ Hl) as (<- & _). }
  set (s2 := mkPg (_to_row <$> v') (locked s) (λ n, faults s (2 + n))).
  assert (pg_inv s2 ∧ pg_le s s2 ∧ pg_view s2 = v') as (Hi2 & Hle2 & Hv2).
  { apply pg_moved; [done| | |intros Hr n; apply Hr].
    - split; [done|]. intros id j' Hj'. pose proof Hj' as Hj0. rewrite Hlook in Hj0.
      destruct (pg_view s !! id) as [j|] eqn:Hj; [|done].
      destruct (Hstep id j Hj) as (j2 & ? & _ & ? & ?). simplify_eq. done.
    - intros id j Hj. destruct (Hstep id j Hj) as (j2 & ? & ? & _). eauto. }
  assert (recovered (pg_view s) (locked s) cutoff v') as Hrec.
  { intros id. rewrite Hlook. destruct (pg_view s !! id) as [j|] eqn:Hj; [|done].
    pose proof (Hks id j Hj). repeat case_decide; naive_solver. }
  destruct (pg_kept s 2 Hs) as (? & ? & ?). rewrite commit_run in Hrun.
  change (faults (later s 1) 0) with (faults s 1) in Hrun.
  change (mkPg (_to_row <$> v') _ _) with s2 in Hrun.
  change (later (later s 1) 1) with (later s 2) in Hrun. clearbody s2. rewrite <- Hv2 in Hrec.
  destruct (faults s 1) eqn:Hf; simplify_eq.
  - split_and!; [done..|left]. split; [|done].
    rewrite (recoverable_size _ _ _ js) by (destruct Hs; done). done.
  - split_and!; [done..|right]. split_and!; [apply (faulty s 1); congruence|by eexists|by left].
  - split_and!; [done..|right]. split_and!; [apply (faulty s 1); congruence|by eexists|by right].
Qed.
End Laws.

(** The methods take their times from the clock. *)
Lemma execute_clocked : clocked execute.
Proof. intros s c. rewrite execute_run. done. Qed.
Lemma commit_clocked t : clocked (commit t).
Proof. intros s c. rewrite commit_run. by destruct (faults s 0). Qed.
Lemma refused_clocked `{QueryPlan} {A} q : clocked (refused q : PG A).
Proof. unfold refused. solve_clocked. Qed.
Lemma commit_row_clocked `{QueryPlan} r : clocked (commit_row r).
Proof. unfold commit_row. solve_clocked. Qed.
Lemma health_check_clocked_pg : clocked Postgres.health_check.
Proof. intros s c. unfold Postgres.health_check. rewrite execute_run. by destruct (faults s 0). Qed.
#[export] Hint Resolve execute_clocked commit_clocked refused_clocked commit_row_clocked
  health_check_clocked_pg : clocked.

#[export] Instance Postgres_clocked `{QueryPlan} : ClockedRepository PostgresJobRepository.
Proof.
  split; intros; cbn; unfold Postgres.create, Postgres.get_for_tenant, Postgres.get, Postgres.list_recent,
    Postgres.claim_next_queued, Postgres.recover_stale_running, Postgres.set_running,
    Postgres.set_succeeded, Postgres.set_failed, Postgres._transition, Postgres._validate_transition,
    Postgres.get_row, Postgres.close; solve_clocked.
Qed.

(** The Postgres repository fulfils the same contract; it is reliable while no
    round trip fails. *)
#[export] Instance Postgres_laws `{QueryPlan} : RepositoryLaws PostgresJobRepository.
Proof.
  refine {|
    repo_inv := pg_inv; view := pg_view; reliable := pg_reliable; held := locked;
    tracks := pg_tracks; repo_le := pg_le;
    create_spec := pg_create_law;
    get_spec := pg_get_law;
    get_for_tenant_spec := pg_get_for_tenant_law;
    list_recent_spec := pg_list_law;
    claim_next_queued_spec := pg_claim_law;
    recover_stale_running_spec := pg_recover_law;
    set_running_spec := pg_set_running_law;
    set_succeeded_spec := pg_set_succeeded_law;
    set_failed_spec := pg_set_failed_law;
    repo_inv_ok := _; tracks_deref := _; repo_le_evolves := _; repo_le_tracks := _;
    repo_le_reliable := _; repo_le_held := _; health_check_spec := _; close_spec := _;
  |}.
  - by intros s [_ ?].
  - intros s r id _ (j & ? & ?). by exists j.
  - by intros s s' (? & _).
  - intros s s' r id _ (He & _) (j & Hj & Hid). destruct (evolves_identity _ _ _ _ He Hj) as (j' & ? & ?).
    exists j'. split; [done|by etrans].
  - by intros s s' (_ & ? & _).
  - by intros s s' (_ & _ & ?).
  - intros s c r s' c' Hs Hrun. destruct (pg_kept s 1 Hs) as (? & ? & ?). simpl in Hrun.
    unfold Postgres.health_check in Hrun. rewrite execute_run in Hrun.
    destruct (faults s 0) eqn:Hf; simplify_eq; (split_and!; [done..|]).
    + by exists true.
    + exists false. split; [done|]. intros Hr. by rewrite Hr in Hf.
    + exists false. split; [done|]. intros Hr. by rewrite Hr in Hf.
  - intros s c r s' c' Hs [= <- <- <-]. by split_and!.
Defined.
