(* ===== verification/Sessions.v ===== *)
(** Worker processes share one database: the transactions of [app/storage/postgres.py] that
    lock rows, interleaved.  [Postgres] runs a method as one step on the table; here a method
    is two, the locking read and the commit, and other sessions run in between.  A locked row
    is skipped ([skip_locked]) or waited for ([with_for_update]).  Calls of all methods of
    [Postgres], in any sequence and whatever becomes of their round trips, are runs of these
    sessions. *)
From S2P Require Export Postgres.

(** ** Transactions *)

Inductive Operation :=
| Claim
| Recover (cutoff : datetime)
| SetRunning (id : UUID)
| SetSucceeded (id : UUID) (v : EvaluationResult)
| SetFailed (id : UUID) (message : pystr).

(** An open transaction: the rows its session has read and locked. *)
Record Transaction := mkTransaction { operation : Operation; read_rows : list EvaluationJobRow }.

(** Sessions are numbered; one that is absent is idle. *)
Record Database := mkDatabase {
  rows : gmap UUID EvaluationJobRow;
  sessions : gmap nat Transaction;
}.

Definition locks (t : Transaction) : gset UUID := list_to_set (row_job_id <$> read_rows t).
Definition held_rows (db : Database) : gset UUID := ⋃ (locks <$> (map_to_list (sessions db)).*2).

(** The database as one session sees it, the rows of the others locked. *)
Definition as_repository (db : Database) : PostgresJobRepository :=
  mkPg (rows db) (held_rows db) (λ _, Fine).

(** The rows a locking read may return.  A claim reads at most one row; which of those it may
    take is left open, for the order is that of a snapshot older than the lock.  Reading by
    primary key waits until the row is free. *)
Definition current (db : Database) (r : EvaluationJobRow) : Prop := rows db !! row_job_id r = Some r.

Definition row_queued (r : EvaluationJobRow) : Prop :=
  row_status r = status_value QUEUED ∧ (row_attempt_count r < row_max_attempts r)%Z.

Definition reads (db : Database) (op : Operation) (rs : list EvaluationJobRow) : Prop :=
  match op with
  | Claim => rs = [] ∨ ∃ r, rs = [r] ∧ current db r ∧ row_queued r ∧ row_job_id r ∉ held_rows db
  | Recover cutoff =>
      NoDup (row_job_id <$> rs)
      ∧ ∀ r, r ∈ rs → current db r ∧ Postgres.row_stale (held_rows db) cutoff r
  | SetRunning id | SetSucceeded id _ | SetFailed id _ =>
      id ∉ held_rows db ∧ rs = option_list (rows db !! id)
  end.

(** [_validate_transition]. *)
Definition validated (from : list JobStatus) (r r' : EvaluationJobRow) : res EvaluationJobRow :=
  current ← JobStatus_of (row_status r);
  if decide (current ∈ from) then Ok r' else Raise InvalidStateTransition.

(** What the session assigns to a row before it commits at time [t]. *)
Definition assign (op : Operation) (t : datetime) (r : EvaluationJobRow) : res EvaluationJobRow :=
  match op with
  | Claim =>
      Ok (set_row_updated_at t (set_row_claimed_at (Some t)
           (set_row_attempt_count (row_attempt_count r + 1) (set_row_status (status_value RUNNING) r))))
  | Recover _ => Ok (Postgres.recover_row t r)
  | SetRunning _ =>
      validated [QUEUED] r (set_row_updated_at t (set_row_status (status_value RUNNING) r))
  | SetSucceeded _ v =>
      validated [RUNNING] r
        (set_row_updated_at t (set_row_claimed_at None
           (set_row_result_payload (Some (dump_result v)) (set_row_status (status_value SUCCEEDED) r))))
  | SetFailed _ message =>
      validated [QUEUED; RUNNING] r
        (set_row_updated_at t (set_row_claimed_at None
           (set_row_error_message (Some message) (set_row_status (status_value FAILED) r))))
  end.

Definition assign_all (op : Operation) (t : datetime) (rs : list EvaluationJobRow)
    : res (list EvaluationJobRow) :=
  match op, rs with
  | (SetRunning _ | SetSucceeded _ _ | SetFailed _ _), [] => Raise NotFound
  | _, _ => mapM (assign op t) rs
  end.

Definition write_rows (rs : list EvaluationJobRow) (t : gmap UUID EvaluationJobRow)
    : gmap UUID EvaluationJobRow :=
  foldr (λ r, <[row_job_id r := r]>) t rs.

(** ** Steps of the database *)

Inductive event :=
| Created (j : EvaluationJob)
| Began (n : nat) (op : Operation) (rs : list EvaluationJobRow)
| Committed (n : nat) (op : Operation) (rs : list EvaluationJobRow)
| RolledBack (n : nat).

(** The models validated what the operation stores. *)
Definition operation_ok (op : Operation) : Prop :=
  match op with SetSucceeded _ v => valid_result v = true | _ => True end.

(** A session is rolled back when its method raises, its connection is lost or its process
    dies.  One that read no row and returns ends with the commit of nothing. *)
Inductive step : Database → event → Database → Prop :=
| step_create db id request t t' :
    let j := new_job id request t t' in
    valid_request request = true → rows db !! id = None → row_fits (_to_row j) = true →
    step db (Created j) (mkDatabase (<[job_id j := _to_row j]> (rows db)) (sessions db))
| step_begin db n op rs :
    sessions db !! n = None → operation_ok op → reads db op rs →
    step db (Began n op rs) (mkDatabase (rows db) (<[n := mkTransaction op rs]> (sessions db)))
| step_commit db n op rs t rs' :
    sessions db !! n = Some (mkTransaction op rs) →
    assign_all op t rs = Ok rs' → Forall (λ r, row_fits r = true) rs' →
    step db (Committed n op rs)
      (mkDatabase (write_rows rs' (rows db)) (delete n (sessions db)))
| step_rollback db n tx :
    sessions db !! n = Some tx →
    step db (RolledBack n) (mkDatabase (rows db) (delete n (sessions db))).

Inductive run : Database → list event → Database → Prop :=
| run_nil db : run db [] db
| run_cons db1 e db2 es db3 : step db1 e db2 → run db2 es db3 → run db1 (e :: es) db3.

Lemma run_app db es1 es2 db' :
  run db (es1 ++ es2) db' ↔ ∃ db1, run db es1 db1 ∧ run db1 es2 db'.
Proof.
  split.
  - revert db. induction es1 as [|e es1 IH]; intros db H; [by exists db; split; [constructor|]|].
    inversion H as [|? ? db2 ? ? Hs Hr]; subst. destruct (IH _ Hr) as (db1 & ? & ?).
    exists db1. split; [by econstructor|done].
  - intros (db1 & H1 & H2). induction H1; [done|]. econstructor; eauto.
Qed.

(** ** The invariant *)

Notation view_of db := (pg_view (as_repository db)).

(** The condition of the locking read still holds of a row it has locked. *)
Definition read_condition (op : Operation) (r : EvaluationJobRow) : Prop :=
  match op with
  | Claim => row_queued r
  | Recover cutoff => Postgres.row_stale ∅ cutoff r
  | SetRunning _ | SetSucceeded _ _ | SetFailed _ _ => True
  end.

(** The rows are jobs; what a session has read is still what the table holds, and no two
    sessions hold a row. *)
Record db_inv (db : Database) : Prop := {
  inv_rows : pg_inv (as_repository db);
  inv_read n tx :
    sessions db !! n = Some tx →
    NoDup (row_job_id <$> read_rows tx)
    ∧ operation_ok (operation tx)
    ∧ ∀ r, r ∈ read_rows tx → current db r ∧ read_condition (operation tx) r;
  inv_exclusive n tx n' tx' :
    sessions db !! n = Some tx → sessions db !! n' = Some tx' → n ≠ n' → locks tx ## locks tx';
}.

Lemma elem_of_locks tx id : id ∈ locks tx ↔ ∃ r, r ∈ read_rows tx ∧ row_job_id r = id.
Proof.
  unfold locks. rewrite elem_of_list_to_set, list_elem_of_fmap. naive_solver.
Qed.

Lemma elem_of_held db id :
  id ∈ held_rows db ↔ ∃ n tx, sessions db !! n = Some tx ∧ id ∈ locks tx.
Proof.
  unfold held_rows. rewrite elem_of_union_list. setoid_rewrite list_elem_of_fmap.
  setoid_rewrite list_elem_of_fmap. setoid_rewrite elem_of_map_to_list'. split.
  - intros (X & (tx & -> & ([n tx'] & -> & ?)) & ?). eauto.
  - intros (n & tx & ? & ?). exists (locks tx). split; [|done]. exists tx. split; [done|].
    by exists (n, tx).
Qed.

Lemma lookup_write_rows rs t id :
  id ∉ (row_job_id <$> rs) → write_rows rs t !! id = t !! id.
Proof.
  induction rs as [|r rs IH]; [done|]. csimpl. intros Hid. apply not_elem_of_cons in Hid as [? ?].
  rewrite lookup_insert_ne by done. auto.
Qed.

(** A row of the table is the row of a stored job. *)
Lemma current_job db r :
  pg_inv (as_repository db) → current db r →
  ∃ j, view_of db !! job_id j = Some j ∧ r = _to_row j ∧ job_ok j.
Proof.
  intros Hs Hr. unfold current in Hr. change (rows db) with (table (as_repository db)) in Hr.
  rewrite (table_lookup _ _ Hs) in Hr. apply fmap_Some in Hr as (j & Hj & ->).
  destruct (job_ok_of _ _ Hs _ _ Hj) as [? Hok]. by exists j.
Qed.

(** Rows that take a step of their life. *)
Definition row_step (r r' : EvaluationJobRow) : Prop :=
  ∃ j j', r = _to_row j ∧ r' = _to_row j' ∧ job_ok j ∧ lstep j j'.

Lemma row_step_id r r' : row_step r r' → row_job_id r' = row_job_id r.
Proof. intros (j & j' & -> & -> & _ & H). simpl. by destruct (lstep_identity _ _ H) as (? & _). Qed.

Lemma row_step_ids rs rs' :
  Forall2 row_step rs rs' → row_job_id <$> rs' = row_job_id <$> rs.
Proof. induction 1 as [|r r' rs rs' H _ IH]; csimpl; [done|]. by rewrite IH, (row_step_id r r'). Qed.

Lemma validated_Ok from r r' r'' :
  validated from r r' = Ok r'' ↔ r'' = r' ∧ ∃ st, JobStatus_of (row_status r) = Ok st ∧ st ∈ from.
Proof.
  unfold validated. rewrite res_bind_Ok. split.
  - intros (st & ? & H). case_decide; simplify_eq. eauto.
  - intros (-> & st & ? & ?). exists st. by rewrite decide_True.
Qed.

(** What an operation assigns to the row of a job is a step of its life. *)
Lemma assign_step op t j r' :
  job_ok j → operation_ok op → read_condition op (_to_row j) → assign op t (_to_row j) = Ok r' →
  row_step (_to_row j) r'.
Proof.
  intros Hok Hop Hread H. exists j. unfold assign in H.
  destruct op as [|cutoff|id|id v|id m]; rewrite ?validated_Ok in H; simpl in H, Hread.
  - exists (claim_job t t j). simplify_eq. split_and!; [done..|]. apply l_claim, claimable_spec.
    unfold row_queued in Hread. by rewrite row_status_is in Hread.
  - exists (recover_job t j). rewrite recover_row_job in H. simplify_eq. split_and!; [done..|].
    apply (l_recover _ cutoff), stale_spec. destruct Hread as [[Hst Hc] _].
    rewrite row_status_is in Hst. simpl in Hc. destruct (claimed_at j); naive_solver.
  - destruct H as (-> & st & Hst & ->%list_elem_of_singleton). rewrite JobStatus_of_value in Hst.
    exists (move_job RUNNING t j). simplify_eq. split_and!; [done..|]. by apply l_start.
  - destruct H as (-> & st & Hst & ->%list_elem_of_singleton). rewrite JobStatus_of_value in Hst.
    exists (succeed_job v None t j). simplify_eq. split_and!; [done..|].
    apply l_succeed; [done|done|by right].
  - destruct H as (-> & st & Hst & Hin). rewrite JobStatus_of_value in Hst.
    exists (fail_job m None t j). simplify_eq. split_and!; [done..|].
    apply l_fail; [set_solver|by right].
Qed.

Lemma assign_all_each op t rs rs' :
  assign_all op t rs = Ok rs' → Forall2 (λ r r', assign op t r = Ok r') rs rs'.
Proof.
  intros H. assert (mapM (assign op t) rs = Ok rs') as Hm by (destruct op, rs; done). clear H.
  revert rs' Hm. induction rs as [|r rs IH]; intros rs' Hm; simpl in Hm.
  { unfold mret, res_ret in Hm. simplify_eq. constructor. }
  apply res_bind_Ok in Hm as (r' & Hr' & Hm). apply res_bind_Ok in Hm as (rs2 & Hrs2 & Hm).
  unfold mret, res_ret in Hm. simplify_eq. constructor; [done|by apply IH].
Qed.

Lemma assign_all_steps db op t rs rs' :
  pg_inv (as_repository db) → operation_ok op →
  (∀ r, r ∈ rs → current db r ∧ read_condition op r) → assign_all op t rs = Ok rs' →
  Forall2 row_step rs rs'.
Proof.
  intros Hs Hop Hrs H%assign_all_each. induction H as [|r r' rs rs' Hr _ IH]; constructor.
  - destruct (Hrs r) as [Hcur Hread]; [set_solver|].
    destruct (current_job db r Hs Hcur) as (j & _ & -> & Hok). by eapply assign_step.
  - apply IH. intros. apply Hrs. set_solver.
Qed.

(** Committing rows that took a step: the jobs evolve. *)
Lemma write_rows_evolve db rs rs' :
  pg_inv (as_repository db) → NoDup (row_job_id <$> rs) → Forall2 row_step rs rs' →
  (∀ r, r ∈ rs → current db r) →
  let db' := mkDatabase (write_rows rs' (rows db)) (sessions db) in
  pg_inv (as_repository db') ∧ evolves (view_of db) (view_of db').
Proof.
  intros Hs Hnd Hsteps. induction Hsteps as [|r r' rs rs' Hr Hrs IH]; intros Hcur db'; [done|].
  apply NoDup_cons in Hnd as [Hid Hnd].
  destruct IH as [Hs1 He1]; [done|intros; apply Hcur; set_solver|].
  set (db1 := mkDatabase (write_rows rs' (rows db)) (sessions db)) in *.
  assert (current db1 r) as Hj.
  { unfold current, db1. cbn [rows]. rewrite lookup_write_rows; [apply Hcur; set_solver|].
    by rewrite (row_step_ids _ _ Hrs). }
  destruct (current_job db1 r Hs1 Hj) as (j0 & Hj0 & -> & Hok0).
  destruct Hr as (j & j' & Heq & -> & Hok & Hstep).
  assert (j0 = j) as ->.
  { apply (f_equal _to_domain) in Heq.
    rewrite !to_domain_valid_row in Heq by (by apply ok_valid). by simplify_eq. }
  destruct (pg_step (as_repository db1) (job_id j) j j' (λ _, Fine) Hs1 Hj0 Hstep (λ _ _, eq_refl))
    as (Hs2 & (He2 & _) & _).
  assert (rows db' = <[job_id j := _to_row j']> (rows db1)) as Hrows.
  { unfold db'. simpl. by destruct (lstep_identity _ _ Hstep) as (<- & _). }
  assert (as_repository db' = mkPg (<[job_id j := _to_row j']> (rows db1)) (held_rows db') (λ _, Fine)) as ->
    by (unfold as_repository; by rewrite Hrows).
  split; [exact Hs2|]. etrans; [exact He1|exact He2].
Qed.

Lemma row_key db id r : pg_inv (as_repository db) → rows db !! id = Some r → row_job_id r = id.
Proof.
  intros Hs Hr. change (rows db) with (table (as_repository db)) in Hr.
  rewrite (table_lookup _ _ Hs) in Hr. apply fmap_Some in Hr as (j & Hj & ->).
  by destruct (job_ok_of _ _ Hs _ _ Hj).
Qed.

(** What every locking read returns: different rows, as the table has them, that no other
    session holds. *)
Lemma reads_spec db op rs :
  pg_inv (as_repository db) → reads db op rs →
  NoDup (row_job_id <$> rs)
  ∧ ∀ r, r ∈ rs → current db r ∧ read_condition op r ∧ row_job_id r ∉ held_rows db.
Proof.
  intros Hs H.
  assert (∀ id, id ∉ held_rows db → rs = option_list (rows db !! id) →
            NoDup (row_job_id <$> rs)
            ∧ ∀ r, r ∈ rs → current db r ∧ row_job_id r ∉ held_rows db) as Hone.
  { intros id Hid ->. destruct (rows db !! id) as [r|] eqn:Hr; simpl; [|by split; [constructor|set_solver]].
    pose proof (row_key db id r Hs Hr) as <-. split; [apply NoDup_singleton|].
    by intros ? ->%list_elem_of_singleton. }
  destruct op as [|cutoff|id|id v|id m]; simpl in H.
  - destruct H as [->|(r & -> & Hcur & Hq & Hid)]; simpl; [split; [constructor|set_solver]|].
    split; [apply NoDup_singleton|]. by intros ? ->%list_elem_of_singleton.
  - destruct H as [Hnd H]. split; [done|]. intros r Hr. destruct (H r Hr) as [? [Hst Hid]].
    split_and!; [done| |done]. split; [exact Hst|set_solver].
  - destruct H as [Hid Hrs]. destruct (Hone id Hid Hrs) as [? Ho]. split; [done|].
    intros r Hr. by destruct (Ho r Hr).
  - destruct H as [Hid Hrs]. destruct (Hone id Hid Hrs) as [? Ho]. split; [done|].
    intros r Hr. by destruct (Ho r Hr).
  - destruct H as [Hid Hrs]. destruct (Hone id Hid Hrs) as [? Ho]. split; [done|].
    intros r Hr. by destruct (Ho r Hr).
Qed.

Lemma db_inv_create db id request t t' :
  db_inv db → valid_request request = true → rows db !! id = None →
  let j := new_job id request t t' in
  let db' := mkDatabase (<[job_id j := _to_row j]> (rows db)) (sessions db) in
  db_inv db' ∧ evolves (view_of db) (view_of db').
Proof.
  intros [Hs Hread Hex] Hreq Hid j db'.
  pose proof (commit_holds _ _ Hs id j (λ _, Fine) eq_refl (new_job_ok id request t t' Hreq)) as Hs'.
  pose proof (holds_view _ _ Hs') as Hview.
  assert (view_of db !! id = None) as Hnone.
  { change (rows db) with (table (as_repository db)) in Hid. rewrite (table_lookup _ _ Hs) in Hid.
    by destruct (view_of db !! id). }
  assert (view_of db' = <[id := j]> (view_of db)) as Hview' by exact Hview.
  split; [|rewrite Hview'; by apply evolves_insert_new].
  split; [exact (holds_inv _ _ Hs')| |done].
  intros n tx Htx. destruct (Hread n tx Htx) as (? & ? & H). split_and!; [done..|].
  intros r Hr. destruct (H r Hr) as [Hcur ?]. split; [|done]. unfold current, db' in *. cbn [rows].
  rewrite lookup_insert_ne; [done|]. intros E. simpl in E. congruence.
Qed.

Lemma db_inv_begin db n op rs :
  db_inv db → sessions db !! n = None → operation_ok op → reads db op rs →
  db_inv (mkDatabase (rows db) (<[n := mkTransaction op rs]> (sessions db))).
Proof.
  intros [Hs Hread Hex] Hn Hop Hr. destruct (reads_spec db op rs Hs Hr) as [Hnd Hrs].
  assert (∀ n' tx', sessions db !! n' = Some tx' → locks (mkTransaction op rs) ## locks tx') as Hfree.
  { intros n' tx' Htx' id Hid Hid'. apply elem_of_locks in Hid as (r & Hin & <-).
    destruct (Hrs r Hin) as (_ & _ & Hheld). apply Hheld, elem_of_held. eauto. }
  split; [exact Hs| |].
  - intros n' tx. cbn [sessions]. intros [[<- <-]|[_ Htx]]%lookup_insert_Some; [|by apply (Hread n')].
    split_and!; [done..|]. intros r Hin. by destruct (Hrs r Hin) as (? & ? & _).
  - intros n1 tx1 n2 tx2. cbn [sessions].
    intros [[<- <-]|[_ H1]]%lookup_insert_Some [[<- <-]|[_ H2]]%lookup_insert_Some Hne;
      [done|by eapply Hfree|symmetry; by eapply Hfree|by eapply Hex].
Qed.

(** Ending a transaction, with rows that only it had locked changed. *)
Lemma db_inv_end db n tx T :
  db_inv db → sessions db !! n = Some tx →
  let db' := mkDatabase T (delete n (sessions db)) in
  pg_inv (as_repository db') → (∀ id, id ∉ locks tx → T !! id = rows db !! id) → db_inv db'.
Proof.
  intros [Hs Hread Hex] Htx db' Hs' HT. split; [exact Hs'| |].
  - intros n' tx'. unfold db'. cbn [sessions]. intros [Hne Htx']%lookup_delete_Some. destruct (Hread n' tx' Htx') as (? & ? & H).
    split_and!; [done..|]. intros r Hr. destruct (H r Hr) as [Hcur ?]. split; [|done].
    unfold current, db' in *. cbn [rows]. rewrite HT; [done|]. intros Hin.
    apply (Hex n tx n' tx' Htx Htx' Hne (row_job_id r)); [done|]. apply elem_of_locks. eauto.
  - intros n1 tx1 n2 tx2. unfold db'. cbn [sessions].
    intros [_ H1]%lookup_delete_Some [_ H2]%lookup_delete_Some. by apply Hex.
Qed.

(** Committing: the rows that were read have all taken a step. *)
Lemma commit_steps db n op rs t rs' :
  db_inv db → sessions db !! n = Some (mkTransaction op rs) → assign_all op t rs = Ok rs' →
  Forall2 row_step rs rs'.
Proof.
  intros [Hs Hread _] Htx Hrs. destruct (Hread n _ Htx) as (_ & Hop & Hcur).
  by eapply assign_all_steps.
Qed.

Lemma step_inv db e db' :
  db_inv db → step db e db' → db_inv db' ∧ evolves (view_of db) (view_of db').
Proof.
  intros Hi Hstep. destruct Hstep as [db id request t t' j Hreq Hid _|db n op rs Hn Hop Hr
                                     |db n op rs t rs' Htx Hrs _|db n tx Htx].
  - by apply db_inv_create.
  - split; [by apply db_inv_begin|done].
  - pose proof (commit_steps _ _ _ _ _ _ Hi Htx Hrs) as Hsteps.
    destruct (inv_read _ Hi n _ Htx) as (Hnd & _ & Hcur).
    destruct (write_rows_evolve db rs rs' (inv_rows _ Hi) Hnd Hsteps) as [Hs' He];
      [intros r Hr; by apply Hcur|].
    split; [|exact He]. apply (db_inv_end _ _ _ _ Hi Htx); [exact Hs'|].
    intros id Hid. apply lookup_write_rows. rewrite (row_step_ids _ _ Hsteps).
    intros (r & -> & Hin)%list_elem_of_fmap. apply Hid, elem_of_locks. eauto.
  - split; [by apply (db_inv_end _ _ _ _ Hi Htx); [apply Hi|]|done].
Qed.

Lemma run_inv db es db' :
  db_inv db → run db es db' → db_inv db' ∧ evolves (view_of db) (view_of db').
Proof.
  intros Hi Hrun. induction Hrun as [|db1 e db2 es db3 Hs _ IH]; [done|].
  destruct (step_inv _ _ _ Hi Hs) as [Hi2 He2]. destruct (IH Hi2) as [? He3].
  split; [done|by etrans].
Qed.

(** ** Claims exclude each other *)

Lemma write_rows_each op t T rs rs' r :
  Forall2 (λ r r', assign op t r = Ok r') rs rs' → Forall2 row_step rs rs' →
  NoDup (row_job_id <$> rs) → r ∈ rs →
  ∃ r', assign op t r = Ok r' ∧ write_rows rs' T !! row_job_id r = Some r'.
Proof.
  intros Ha. revert r. induction Ha as [|r0 r0' rs rs' H0 Ha IH]; intros r Hs Hnd Hr; [set_solver|].
  apply Forall2_cons in Hs as [Hs0 Hs]. apply NoDup_cons in Hnd as [Hid Hnd].
  apply elem_of_cons in Hr as [->|Hr]; csimpl.
  - exists r0'. split; [done|]. by rewrite <- (row_step_id _ _ Hs0), lookup_insert_eq.
  - destruct (IH r Hs Hnd Hr) as (r' & ? & ?). exists r'. split; [done|].
    rewrite lookup_insert_ne; [done|]. rewrite (row_step_id _ _ Hs0). intros E. apply Hid.
    rewrite E. apply list_elem_of_fmap. eauto.
Qed.

(** The event takes a stale job [id] back. *)
Definition recovers (id : UUID) (e : event) : Prop :=
  match e with
  | Committed _ (Recover _) rs => ∃ r, r ∈ rs ∧ row_job_id r = id
  | _ => False
  end.

(** The job [id] is stored and not waiting. *)
Definition taken (db : Database) (id : UUID) : Prop :=
  ∃ r, rows db !! id = Some r ∧ row_status r ≠ status_value QUEUED.

(** Only a recovery makes a job wait again. *)
Lemma step_taken db e db' id :
  db_inv db → step db e db' → taken db id → ¬ recovers id e → taken db' id.
Proof.
  intros Hi Hstep (r & Hr & Hst) Hno. destruct Hstep as [db id' request t t' j Hreq Hid _|db n op rs Hn Hop Hrs
                                     |db n op rs t rs' Htx Hrs _|db n tx Htx]; [|by exists r|..|by exists r].
  - exists r. split; [|done]. cbn [rows]. rewrite lookup_insert_ne; [done|]. intros <-. simpl in Hr. congruence.
  - pose proof (row_key db id r (inv_rows _ Hi) Hr) as Hkey.
    pose proof (commit_steps _ _ _ _ _ _ Hi Htx Hrs) as Hsteps.
    destruct (inv_read _ Hi n _ Htx) as (Hnd & _ & Hcur). cbn [read_rows operation] in *.
    destruct (decide (id ∈ row_job_id <$> rs)) as [Hin|Hin].
    2:{ exists r. split; [|done]. cbn [rows]. rewrite lookup_write_rows; [done|].
        by rewrite (row_step_ids _ _ Hsteps). }
    apply list_elem_of_fmap in Hin as (r0 & Hid & Hin).
    destruct (Hcur r0 Hin) as [Hc _]. unfold current in Hc. rewrite <- Hid in Hc.
    assert (r0 = r) as -> by congruence.
    destruct (write_rows_each op t (rows db) rs rs' r (assign_all_each _ _ _ _ Hrs) Hsteps Hnd Hin)
      as (r' & Ha & Hw).
    rewrite <- Hid in Hw. exists r'. split; [exact Hw|].
    destruct op; simpl in Ha; rewrite ?validated_Ok in Ha.
    + simplify_eq. by vm_compute.
    + destruct Hno. by exists r.
    + destruct Ha as [-> _]. by vm_compute.
    + destruct Ha as [-> _]. by vm_compute.
    + destruct Ha as [-> _]. by vm_compute.
Qed.

Lemma rtc_lstep_attempts j j' : rtc lstep j j' → (attempt_count j ≤ attempt_count j')%Z.
Proof.
  induction 1 as [|x y z Hxy _ IH]; [done|]. pose proof (lstep_attempts _ _ Hxy). lia.
Qed.

(** Over a run that does not take the job back, it is not waiting again. *)
Lemma run_taken db es db' id :
  db_inv db → run db es db' → taken db id → Exists (recovers id) es ∨ taken db' id.
Proof.
  intros Hi Hrun. induction Hrun as [|db1 e db2 es db3 Hs _ IH]; intros Ht; [by right|].
  assert (Decision (recovers id e)) as Hdec.
  { destruct e as [| |n [|cutoff| | |] rs|]; try (by right; intros []).
    destruct (decide (id ∈ row_job_id <$> rs)) as [Hin|Hin].
    - left. apply list_elem_of_fmap in Hin as (r & ? & ?). by exists r.
    - right. intros (r & ? & <-). apply Hin, list_elem_of_fmap. eauto. }
  destruct (decide (recovers id e)) as [|Hno]; [left; by constructor|].
  destruct IH as [|]; [by eapply step_inv|by eapply step_taken|left; by constructor|by right].
Qed.

(** A committed claim: the row it read was waiting, and is now taken with one attempt more. *)
Lemma commit_claim db n r db' :
  db_inv db → step db (Committed n Claim [r]) db' →
  (current db r ∧ row_queued r) ∧ taken db' (row_job_id r)
  ∧ ∃ j, view_of db' !! row_job_id r = Some j ∧ attempt_count j = (row_attempt_count r + 1)%Z.
Proof.
  intros Hi Hstep. pose proof (step_inv _ _ _ Hi Hstep) as [Hi' _].
  inversion Hstep as [| |? ? ? ? t rs' Htx Hrs Hfit|]; subst.
  destruct (inv_read _ Hi n _ Htx) as (_ & _ & Hcur). destruct (Hcur r) as [Hc Hq]; [set_solver|].
  split; [done|]. unfold assign_all in Hrs. cbn in Hrs. unfold mret, res_ret in Hrs. simplify_eq.
  set (r' := set_row_updated_at t _) in *.
  set (db' := mkDatabase (write_rows [r'] (rows db)) (delete n (sessions db))) in *.
  assert (rows db' !! row_job_id r = Some r') as Hr' by apply lookup_insert_eq.
  split; [exists r'; split; [exact Hr'|by vm_compute]|].
  destruct (current_job db' r' (inv_rows _ Hi') Hr') as (j & Hj & Heq & _).
  exists j. change (row_attempt_count r + 1)%Z with (row_attempt_count r').
  change (row_job_id r) with (row_job_id r'). rewrite Heq. done.
Qed.

(** C12: worker processes can share the database.  However the sessions of any number of
    workers interleave, with other requests, rollbacks and crashed processes in between: the
    rows remain well formed jobs, and every job only moves along its life; and of two claims
    of the same job the later one is a later attempt, and a recovery has taken the job back
    in between. *)
Theorem claims_exclusive (db db' : Database) (es : list event) :
  pg_inv (as_repository db) → sessions db = ∅ → run db es db' →
  pg_inv (as_repository db') ∧ evolves (view_of db) (view_of db')
  ∧ ∀ es1 n1 r1 es2 n2 r2 es3,
      es = es1 ++ Committed n1 Claim [r1] :: es2 ++ Committed n2 Claim [r2] :: es3 →
      row_job_id r1 = row_job_id r2 →
      (row_attempt_count r1 < row_attempt_count r2 < row_max_attempts r2)%Z
      ∧ Exists (recovers (row_job_id r1)) es2.
Proof.
  intros Hs Hnone Hrun.
  assert (db_inv db) as Hi by (split; [done|..]; rewrite Hnone; intros *; by rewrite lookup_empty).
  destruct (run_inv _ _ _ Hi Hrun) as [Hi' He]. split_and!; [apply Hi'|done|].
  intros es1 n1 r1 es2 n2 r2 es3 -> Hid.
  apply run_app in Hrun as (db1 & Hrun1 & Hrun). destruct (run_inv _ _ _ Hi Hrun1) as [Hi1 _].
  inversion Hrun as [|? ? db2 ? ? Hc1 Hrun2]; subst.
  destruct (step_inv _ _ _ Hi1 Hc1) as [Hi2 _].
  destruct (commit_claim _ _ _ _ Hi1 Hc1) as (_ & Ht & j1 & Hj1 & Ha1).
  apply run_app in Hrun2 as (db3 & Hrun3 & Hrun4). destruct (run_inv _ _ _ Hi2 Hrun3) as [Hi3 He3].
  inversion Hrun4 as [|? ? db4 ? ? Hc2 _]; subst.
  destruct (commit_claim _ _ _ _ Hi3 Hc2) as ([Hcur Hq] & _).
  destruct (current_job db3 r2 (inv_rows _ Hi3) Hcur) as (j2 & Hj2 & -> & _).
  split.
  - split; [|apply Hq]. rewrite Hid in Hj1. destruct (He3 _ _ Hj1) as (j3 & Hj3 & Hrtc).
    simpl in Hj3. simplify_eq. apply rtc_lstep_attempts in Hrtc. simpl. lia.
  - destruct (run_taken _ _ _ _ Hi2 Hrun3 Ht) as [|(r & Hr & Hne)]; [done|].
    rewrite Hid in Hr. unfold current in Hcur. simplify_eq. by destruct Hne, Hq.
Qed.

(** ** The methods of the repository *)

(** Code of a session leaves the locks of the others, and uses up round trips. *)
Definition steady {A} (m : PG A) : Prop :=
  ∀ s c, locked (m (s, c)).2.1 = locked s ∧ (pg_reliable s → pg_reliable (m (s, c)).2.1).

Lemma steady_bind {A B} (m : PG A) (k : A → PG B) :
  steady m → (∀ a, steady (k a)) → steady (m ≫= k).
Proof.
  intros Hm Hk s c. unfold mbind, M_bind. specialize (Hm s c).
  destruct (m (s, c)) as [[a|e] [s' c']]; simpl in *; [|done]. destruct Hm as [<- Hr].
  destruct (Hk a s' c') as [-> ?]. auto.
Qed.

Lemma steady_pure {A} (r : res A) : steady (λ sc, (r, sc)).
Proof. by intros s c. Qed.
Lemma steady_get : steady get_state.
Proof. by intros s c. Qed.
Lemma steady_now : steady now.
Proof. by intros s c. Qed.
Lemma steady_execute : steady execute.
Proof. intros s c. rewrite execute_run. split; [done|apply later_reliable]. Qed.
Lemma steady_commit t : steady (commit t).
Proof.
  intros s c. rewrite commit_run.
  destruct (faults s 0); (split; [done|]); intros Hr n; apply Hr.
Qed.

Create HintDb steady.
#[export] Hint Resolve steady_pure steady_get steady_now steady_execute steady_commit : steady.

Ltac solve_steady :=
  repeat first
    [ solve [eauto with steady]
    | apply steady_bind; [|intros ?]
    | match goal with |- steady (match ?x with _ => _ end) => destruct x end
    | progress cbv zeta ].

Section Methods.
Context `{QueryPlan}.

Lemma steady_refused {A} q : steady (refused q : PG A).
Proof. unfold refused. solve_steady. Qed.
Lemma steady_commit_row r : steady (commit_row r).
Proof. pose proof (@steady_refused). unfold commit_row. solve_steady. Qed.
#[local] Hint Resolve steady_refused steady_commit_row : steady.

(** The method that runs a locking transaction. *)
Definition locking_method (op : Operation) : PG unit :=
  match op with
  | Claim => Postgres.claim_next_queued;; mret tt
  | Recover cutoff => Postgres.recover_stale_running cutoff;; mret tt
  | SetRunning id => Postgres.set_running id;; mret tt
  | SetSucceeded id v => Postgres.set_succeeded id v;; mret tt
  | SetFailed id m => Postgres.set_failed id m;; mret tt
  end.

(** A call of any method of the repository. *)
Inductive Call :=
| Call_create (job : EvaluationJob)
| Call_get (id : UUID)
| Call_get_for_tenant (id : UUID) (tenant : pystr)
| Call_list_recent (tenant : pystr) (project : option pystr) (limit : Z)
| Call_locking (op : Operation)
| Call_health_check
| Call_close.

Definition method (call : Call) : PG unit :=
  match call with
  | Call_create job => Postgres.create job;; mret tt
  | Call_get id => Postgres.get id;; mret tt
  | Call_get_for_tenant id tenant => Postgres.get_for_tenant id tenant;; mret tt
  | Call_list_recent tenant project limit => Postgres.list_recent tenant project limit;; mret tt
  | Call_locking op => locking_method op
  | Call_health_check => Postgres.health_check;; mret tt
  | Call_close => Postgres.close
  end.

(** Calls one after the other, each returning or raising. *)
Fixpoint methods (calls : list Call) : PG (list (res unit)) :=
  match calls with
  | [] => mret []
  | call :: calls =>
      r ← (λ sc, let '(r, sc') := method call sc in (Ok r, sc'));
      rs ← methods calls;
      mret (r :: rs)
  end.

Lemma method_steady call : steady (method call).
Proof.
  destruct call as [| | | |op| |]; [..|destruct op| |]; cbn [method locking_method];
    unfold Postgres.create, Postgres.get, Postgres.get_for_tenant, Postgres.list_recent,
      Postgres.claim_next_queued, Postgres.recover_stale_running, Postgres.set_running,
      Postgres.set_succeeded, Postgres.set_failed, Postgres._transition,
      Postgres._validate_transition, Postgres.get_row, Postgres.close, of_res;
    try solve [solve_steady].
  apply steady_bind; [|solve_steady]. intros s c. unfold Postgres.health_check.
  rewrite execute_run. destruct (faults s 0); (split; [done|apply later_reliable]).
Qed.

(** The locking read of the call need not wait; the service creates new jobs, with results its
    models validated. *)
Definition free (db : Database) (call : Call) : Prop :=
  match call with
  | Call_locking (SetRunning id | SetSucceeded id _ | SetFailed id _) => id ∉ held_rows db
  | _ => True
  end.

Definition call_ok (call : Call) : Prop :=
  match call with
  | Call_create job =>
      ∃ id request t t', job = new_job id request t t' ∧ valid_request request = true
  | Call_locking op => operation_ok op
  | _ => True
  end.

(** *** What the call of a method does to the database

    [F] says that some round trip fails.  A method that reads does nothing.  [create] adds the
    job, also when the answer of its commit is lost.  A method that locks rows is a
    transaction: committed when it returns, rolled back when it raises; but when the commit's
    answer is lost, or the row cannot be refreshed afterwards, it raises after a commit. *)
Inductive traced (F : Prop) (n : nat) (db : Database) : Call → res unit → list event → Prop :=
| traced_committed op rs :
    traced F n db (Call_locking op) (Ok tt) [Began n op rs; Committed n op rs]
| traced_raised op rs e :
    ¬ storage_error (A := unit) (Raise e) →
    traced F n db (Call_locking op) (Raise e) [Began n op rs; RolledBack n]
| traced_unread op text :
    F → traced F n db (Call_locking op) (Raise (StorageExn text)) []
| traced_rolled_back op rs text :
    F → traced F n db (Call_locking op) (Raise (StorageExn text)) [Began n op rs; RolledBack n]
| traced_lost op rs text :
    F → traced F n db (Call_locking op) (Raise (StorageExn text))
          [Began n op rs; Committed n op rs]
| traced_created j : traced F n db (Call_create j) (Ok tt) [Created j]
| traced_not_created j text :
    F ∨ is_Some (rows db !! job_id j) →
    traced F n db (Call_create j) (Raise (StorageExn text)) []
| traced_create_lost j text :
    F → traced F n db (Call_create j) (Raise (StorageExn text)) [Created j]
| traced_read call r :
    (match call with Call_create _ | Call_locking _ => False | _ => True end) →
    traced F n db call r [].

(** Calls of methods one after the other, and the run of the database they make. *)
Inductive all_traced (F : Prop) (n : nat)
    : Database → list Call → list (res unit) → list event → Database → Prop :=
| all_traced_nil db : all_traced F n db [] [] [] db
| all_traced_cons db call r es db1 calls rs es1 db2 :
    traced F n db call r es → run db es db1 →
    all_traced F n db1 calls rs es1 db2 →
    all_traced F n db (call :: calls) (r :: rs) (es ++ es1) db2.

Lemma all_traced_run F n db calls rs es db' :
  all_traced F n db calls rs es db' → run db es db'.
Proof.
  induction 1 as [|db call r es db1 calls rs es1 db2 _ Hrun _ IH]; [constructor|].
  apply run_app. eauto.
Qed.

(** The database as a session sees it, when its round trips turn out as [f] says. *)
Definition seen_by (db : Database) (f : nat → fault) : PostgresJobRepository :=
  mkPg (rows db) (held_rows db) f.

Notation some_fault f := (¬ ∀ k, f k = Fine).

(** What is known of a method that read the rows [rs], assigned to them at time [t] and
    committed: its answer [r], and the table [T] it leaves. *)
Definition outcome (F : Prop) (db : Database) (op : Operation) (t : datetime)
    (rs : list EvaluationJobRow) (r : res unit) (T : gmap UUID EvaluationJobRow) : Prop :=
  match assign_all op t rs with
  | Ok rs' => (r = Ok tt ∧ T = write_rows rs' (rows db))
              ∨ (F ∧ storage_error r ∧ (T = rows db ∨ T = write_rows rs' (rows db)))
  | Raise e => r = Raise e ∧ T = rows db
  end.

Lemma scan_current db r : pg_inv (as_repository db) → r ∈ scan (rows db) ↔ current db r.
Proof.
  intros Hs. rewrite scan_perm, list_elem_of_fmap. unfold current. split.
  - intros ([id r'] & -> & Hin). apply elem_of_map_to_list in Hin.
    simpl. by rewrite (row_key db id r' Hs Hin).
  - intros Hr. exists (row_job_id r, r). by rewrite elem_of_map_to_list.
Qed.

Lemma scan_keys db : pg_inv (as_repository db) → NoDup (row_job_id <$> scan (rows db)).
Proof.
  intros Hs. rewrite scan_perm, <- list_fmap_compose.
  assert ((row_job_id ∘ snd) <$> map_to_list (rows db) = (map_to_list (rows db)).*1) as ->;
    [|apply NoDup_fst_map_to_list].
  apply list_fmap_ext. intros i [id r] Hin. simpl. apply (row_key db id r Hs).
  apply elem_of_map_to_list. by eapply list_elem_of_lookup_2.
Qed.

(** A row the operation assigns can be written and read back. *)
Lemma assigned_row db op t r r' :
  pg_inv (as_repository db) → operation_ok op → current db r → read_condition op r →
  assign op t r = Ok r' → row_fits r' = true ∧ ∃ j, _to_domain r' = Ok j.
Proof.
  intros Hs Hop Hcur Hread Ha. destruct (current_job db r Hs Hcur) as (j & _ & -> & Hok).
  destruct (assign_step _ _ _ _ Hok Hop Hread Ha) as (j1 & j' & Heq & -> & Hok1 & Hstep).
  pose proof (lstep_ok _ _ Hok1 Hstep) as Hok'.
  split; [by apply row_fits_to_row|]. exists j'. by apply to_domain_valid_row, ok_valid.
Qed.

(** The statement a method starts with. *)
Lemma execute_first {A} db f (m : PG A) c r s' c' :
  (execute;; m) (seen_by db f, c) = (r, (s', c')) →
  m (seen_by db (λ k, f (1 + k)), c) = (r, (s', c'))
  ∨ (some_fault f ∧ storage_error r ∧ table s' = rows db).
Proof.
  unfold mbind, M_bind. rewrite execute_run. cbn [seen_by faults].
  destruct (f 0) eqn:Hf; intros Hrun; [by left|right..]; simplify_eq;
    (split_and!; [intros Hr; specialize (Hr 0); congruence|by eexists|done]).
Qed.

(** What follows a commit only reads the row back: nothing, or a refresh. *)
Definition only_reads (T : gmap UUID EvaluationJobRow) (L : gset UUID) (m : PG unit) : Prop :=
  ∀ f c, let '(r, (s', _)) := m (mkPg T L f, c) in
         table s' = T ∧ (r = Ok tt ∨ (some_fault f ∧ storage_error r)).

Lemma commit_then db f T (m : unit → PG unit) c r s' c' :
  only_reads T (held_rows db) (m tt) →
  (commit T ≫= m) (seen_by db f, c) = (r, (s', c')) →
  (r = Ok tt ∧ table s' = T)
  ∨ (some_fault f ∧ storage_error r ∧ (table s' = rows db ∨ table s' = T)).
Proof.
  intros Hm. unfold mbind, M_bind. rewrite commit_run. cbn [seen_by faults locked later].
  destruct (f 0) eqn:Hf; intros Hrun.
  - specialize (Hm (λ n, f (1 + n)) c). rewrite Hrun in Hm.
    destruct Hm as [HT [->|[Hn He]]]; [by left|right]. split_and!; [|done|by right].
    intros Hr. apply Hn. intros n. apply Hr.
  - simplify_eq. right.
    split_and!; [intros Hr; specialize (Hr 0); congruence|by eexists|by left].
  - simplify_eq. right.
    split_and!; [intros Hr; specialize (Hr 0); congruence|by eexists|by right].
Qed.

Lemma bind_bind {S A B C} (m : M S A) (k : A → M S B) (h : B → M S C) s :
  ((m ≫= k) ≫= h) s = (m ≫= λ x, k x ≫= h) s.
Proof. unfold mbind, M_bind. by destruct (m s) as [[]]. Qed.

(** [session.refresh(row)], and the row read as a job. *)
Lemma refresh_reads {A} T L (k : unit → PG A) (h : A → PG unit) :
  (∀ sc, (k tt ≫= h) sc = (Ok tt, sc)) → only_reads T L ((execute ≫= k) ≫= h).
Proof.
  intros Hk f c. rewrite bind_bind. unfold mbind at 1, M_bind at 1. rewrite execute_run. cbn [faults].
  destruct (f 0) eqn:Hf; cbn [table later]; [rewrite Hk; split; [done|by left]|..];
    (split; [done|right]; split; [intros Hr; specialize (Hr 0); congruence|by eexists]).
Qed.

Lemma commit_row_bind {A} row (k : unit → PG A) s c :
  row_fits row = true →
  (commit_row row ≫= k) (s, c) = (commit (<[row_job_id row := row]> (table s)) ≫= k) (s, c).
Proof. intros Hfit. unfold commit_row, mbind, M_bind, get_state. by rewrite Hfit. Qed.

Lemma claim_outcome db f c r s' c' :
  pg_inv (as_repository db) → locking_method Claim (seen_by db f, c) = (r, (s', c')) →
  (some_fault f ∧ storage_error r ∧ table s' = rows db)
  ∨ ∃ rs, reads db Claim rs ∧ outcome (some_fault f) db Claim (c 0) rs r (table s').
Proof.
  intros Hs Hrun. cbn [locking_method] in Hrun. unfold Postgres.claim_next_queued in Hrun.
  rewrite bind_bind in Hrun. apply execute_first in Hrun as [Hrun|?]; [right|by left].
  rewrite bind_bind in Hrun. unfold mbind at 1, M_bind at 1, get_state in Hrun.
  cbn [seen_by table locked] in Hrun.
  set (q := sorted_by _ _) in Hrun.
  assert (∀ row rest, q = row :: rest →
            current db row ∧ row_queued row ∧ row_job_id row ∉ held_rows db) as Hq.
  { intros row rest E. assert (row ∈ q) as Hin by (rewrite E; set_solver).
    unfold q, sorted_by in Hin. rewrite elem_of_sort_by in Hin.
    apply list_elem_of_filter in Hin as [[? ?] Hin]. by apply (scan_current db row Hs) in Hin. }
  destruct q as [|row rest].
  { exists []. split; [by left|]. unfold mbind, M_bind, mret, M_ret in Hrun. simplify_eq.
    unfold outcome, assign_all. cbn [mapM mret res_ret]. by left. }
  destruct (Hq row rest eq_refl) as (Hcur & Hqueued & Hid).
  exists [row]. split; [right; by exists row|].
  destruct (assigned_row db Claim (c 0) row _ Hs I Hcur Hqueued eq_refl) as [Hfit [j Hj]].
  rewrite bind_bind in Hrun. unfold mbind at 1, M_bind at 1, now in Hrun. cbv zeta iota beta in Hrun.
  change (row_attempt_count (set_row_status _ row)) with (row_attempt_count row) in Hrun.
  rewrite bind_bind, (commit_row_bind _ _ _ _ Hfit) in Hrun.
  apply commit_then in Hrun.
  2:{ apply refresh_reads. intros sc. unfold of_res, mbind, M_bind. by rewrite Hj. }
  unfold outcome, assign_all. cbn [mapM assign mbind res_bind mret res_ret write_rows foldr].
  destruct Hrun as [?|(Hn & ? & ?)]; [by left|right]. split_and!; [|done..].
  intros Hr. apply Hn. intros k. apply Hr.
Qed.

Lemma fmap_sublist {A B} (f : A → B) l l' : l `sublist_of` l' → f <$> l `sublist_of` f <$> l'.
Proof. induction 1; csimpl; by constructor. Qed.

Lemma write_rows_recover t rs T :
  write_rows (Postgres.recover_row t <$> rs) T
  = foldr (λ r, <[row_job_id r := Postgres.recover_row t r]>) T rs.
Proof.
  induction rs as [|r rs IH]; [done|]. csimpl. rewrite IH. f_equal.
  unfold Postgres.recover_row. by case_match.
Qed.

Lemma recover_outcome cutoff db f c r s' c' :
  pg_inv (as_repository db) → locking_method (Recover cutoff) (seen_by db f, c) = (r, (s', c')) →
  (some_fault f ∧ storage_error r ∧ table s' = rows db)
  ∨ ∃ rs, reads db (Recover cutoff) rs
          ∧ outcome (some_fault f) db (Recover cutoff) (c 0) rs r (table s').
Proof.
  intros Hs Hrun. cbn [locking_method] in Hrun. unfold Postgres.recover_stale_running in Hrun.
  rewrite bind_bind in Hrun. apply execute_first in Hrun as [Hrun|?]; [right|by left].
  set (rs := filter (Postgres.row_stale (held_rows db) cutoff) (scan (rows db))).
  exists rs. split.
  - split.
    + eapply sublist_NoDup; [by apply (scan_keys db)|]. apply fmap_sublist, sublist_filter.
    + intros row [Hst Hin]%list_elem_of_filter. by apply (scan_current db row Hs) in Hin.
  - unfold outcome. assert (assign_all (Recover cutoff) (c 0) rs = Ok (Postgres.recover_row (c 0) <$> rs)) as ->.
    { change (mapM (assign (Recover cutoff) (c 0)) rs = Ok (Postgres.recover_row (c 0) <$> rs)).
      clear. induction rs as [|row l IH]; [done|]. simpl mapM. rewrite IH. done. }
    rewrite write_rows_recover.
    rewrite bind_bind in Hrun. unfold mbind at 1, M_bind at 1, get_state in Hrun.
    cbn [seen_by table locked] in Hrun. rewrite bind_bind in Hrun.
    unfold mbind at 1, M_bind at 1, now in Hrun. cbv zeta iota beta in Hrun. rewrite bind_bind in Hrun.
    apply (commit_then db (λ k, f (1 + k))) in Hrun; [|by intros g d; split; [|left]].
    destruct Hrun as [?|(Hn & ? & ?)]; [by left|right]. split_and!; [|done..].
    intros Hr. apply Hn. intros k. apply Hr.
Qed.

(** The shape of the three methods that read by primary key. *)
Lemma transition_outcome op id from rowf db f c r s' c' :
  pg_inv (as_repository db) → operation_ok op → id ∉ held_rows db →
  (∀ t row, assign op t row = validated from row (rowf t row)) →
  (∀ t, assign_all op t [] = Raise NotFound) →
  (∀ t row, assign_all op t [row] = (r' ← assign op t row; Ok [r'])) →
  (∀ row, read_condition op row) → (∀ t row, row_job_id (rowf t row) = row_job_id row) →
  ((row ← Postgres.get_row id;
    match row with
    | None => raise NotFound
    | Some row =>
        Postgres._validate_transition (row_status row) from;;
        t ← now;
        commit_row (rowf t row);;
        execute;;
        of_res (_to_domain (rowf t row))
    end);; mret tt) (seen_by db f, c) = (r, (s', c')) →
  (some_fault f ∧ storage_error r ∧ table s' = rows db)
  ∨ ∃ rs, (id ∉ held_rows db ∧ rs = option_list (rows db !! id))
          ∧ outcome (some_fault f) db op (c 0) rs r (table s').
Proof.
  intros Hs Hop Hid Hassign Hnone Hone Hread Hkey Hrun. unfold Postgres.get_row in Hrun.
  rewrite 2 bind_bind in Hrun. apply execute_first in Hrun as [Hrun|?]; [right|by left].
  eexists. split; [by split|]. unfold outcome.
  rewrite bind_bind in Hrun. unfold mbind at 1, M_bind at 1, get_state in Hrun.
  unfold mbind at 1, M_bind at 1, mret at 1, M_ret at 1 in Hrun. cbn [seen_by table] in Hrun.
  destruct (rows db !! id) as [row|] eqn:Hrow; simpl option_list.
  2:{ rewrite Hnone. unfold raise, mbind, M_bind in Hrun. by simplify_eq. }
  pose proof (row_key db id row Hs Hrow) as Hid'.
  assert (current db row) as Hcur by (unfold current; by rewrite Hid').
  pose proof (assigned_row db op (c 0) row) as Hrow'.
  rewrite Hone, Hassign in *. unfold validated in *.
  rewrite bind_bind in Hrun. unfold mbind at 1, M_bind at 1, Postgres._validate_transition in Hrun.
  unfold mbind at 1, M_bind at 1, of_res at 1 in Hrun.
  destruct (JobStatus_of (row_status row)) as [st|e]; cbn [mbind res_bind] in *; [|by simplify_eq].
  case_decide; [|unfold raise in Hrun; by simplify_eq].
  destruct (Hrow' (rowf (c 0) row)) as [Hfit [j Hj]]; [done..|].
  unfold mret at 1, M_ret at 1 in Hrun. rewrite bind_bind in Hrun.
  unfold mbind at 1, M_bind at 1, now in Hrun. rewrite bind_bind, (commit_row_bind _ _ _ _ Hfit) in Hrun.
  apply (commit_then db (λ k, f (1 + k))) in Hrun.
  2:{ apply refresh_reads. intros sc. unfold of_res, mbind, M_bind. by rewrite Hj. }
  simpl. cbn [table] in Hrun.
  destruct Hrun as [?|(Hn & ? & ?)]; [by left|right]. split_and!; [|done..].
  intros Hr. apply Hn. intros k. apply Hr.
Qed.

Lemma locking_outcome op db f c r s' c' :
  pg_inv (as_repository db) → operation_ok op → free db (Call_locking op) →
  locking_method op (seen_by db f, c) = (r, (s', c')) →
  (some_fault f ∧ storage_error r ∧ table s' = rows db)
  ∨ ∃ rs, reads db op rs ∧ outcome (some_fault f) db op (c 0) rs r (table s').
Proof.
  intros Hs Hop Hfree. destruct op as [|cutoff|id|id v|id m].
  - by apply claim_outcome.
  - by apply recover_outcome.
  - by apply (transition_outcome (SetRunning id) id [QUEUED]
      (λ t row, set_row_updated_at t (set_row_status (status_value RUNNING) row))).
  - by apply (transition_outcome (SetSucceeded id v) id [RUNNING]
      (λ t row, set_row_updated_at t (set_row_claimed_at None
         (set_row_result_payload (Some (dump_result v)) (set_row_status (status_value SUCCEEDED) row))))).
  - by apply (transition_outcome (SetFailed id m) id [QUEUED; RUNNING]
      (λ t row, set_row_updated_at t (set_row_claimed_at None
         (set_row_error_message (Some m) (set_row_status (status_value FAILED) row))))).
Qed.

Lemma create_outcome job db f c r s' c' :
  pg_inv (as_repository db) → call_ok (Call_create job) →
  method (Call_create job) (seen_by db f, c) = (r, (s', c')) →
  (storage_error r ∧ table s' = rows db ∧ (some_fault f ∨ is_Some (rows db !! job_id job)))
  ∨ (rows db !! job_id job = None ∧ table s' = <[job_id job := _to_row job]> (rows db)
     ∧ (r = Ok tt ∨ (some_fault f ∧ storage_error r))).
Proof.
  intros Hs (id & request & t & t' & Hjob & Hreq) Hrun. cbn [method] in Hrun.
  unfold Postgres.create in Hrun. rewrite bind_bind in Hrun.
  unfold mbind at 1, M_bind at 1, get_state in Hrun. cbn [seen_by table] in Hrun.
  rewrite bind_bind in Hrun.
  assert (row_fits (_to_row job) = true) as Hfit
    by (rewrite Hjob; by apply row_fits_to_row, new_job_ok).
  rewrite Hfit, andb_true_r in Hrun. case_bool_decide as Hnone.
  - apply commit_then in Hrun; [|by intros g d; split; [|left]].
    destruct Hrun as [[-> HT]|(Hn & He & [HT|HT])]; [right|left|right]; auto.
  - left. unfold mbind in Hrun. unfold M_bind at 1 in Hrun.
    destruct (refused_run (A := unit) (Insert (_to_row job)) (seen_by db f) c) as [text Ht].
    change (mkPg (rows db) (held_rows db) f) with (seen_by db f) in Hrun.
    unfold seen_by in Hrun, Ht. rewrite Ht in Hrun. simplify_eq. split_and!; [by eexists|done|right].
    by destruct (rows db !! job_id _).
Qed.

(** Reading methods leave the table alone. *)
Lemma read_outcome call s c :
  (match call with Call_create _ | Call_locking _ => False | _ => True end) →
  table (method call (s, c)).2.1 = table s.
Proof.
  intros Hread.
  assert (∀ A (m : PG A), table ((m;; mret tt : PG unit) (s, c)).2.1 = table (m (s, c)).2.1) as Hret
    by (intros A m; unfold mbind, M_bind; by destruct (m (s, c)) as [[] []]).
  destruct call as [|id|id tenant|tenant project limit| | |]; try done; cbn [method];
    rewrite ?Hret; clear Hret.
  - unfold Postgres.get, Postgres.get_row, mbind, M_bind. rewrite execute_run.
    destruct (faults s 0); [|done..]. cbn. by destruct (table s !! id).
  - unfold Postgres.get_for_tenant, Postgres.get_row, mbind, M_bind. rewrite execute_run.
    destruct (faults s 0); [|done..]. cbn. destruct (table s !! id); [|done]. by case_decide.
  - unfold Postgres.list_recent. case_match.
    + by destruct (refused_run (A := list EvaluationJob) (SelectRecent limit) s c) as [text ->].
    + unfold mbind, M_bind. rewrite execute_run. by destruct (faults s 0).
  - unfold Postgres.health_check. rewrite execute_run. by destruct (faults s 0).
Qed.

(** A transaction by itself, committed or rolled back. *)
Lemma run_committed db n op rs t rs' :
  pg_inv (as_repository db) → sessions db !! n = None → operation_ok op → reads db op rs →
  assign_all op t rs = Ok rs' →
  run db [Began n op rs; Committed n op rs] (mkDatabase (write_rows rs' (rows db)) (sessions db)).
Proof.
  intros Hs Hn Hop Hreads Ha. destruct (reads_spec db op rs Hs Hreads) as [_ Hrs].
  assert (Forall (λ row, row_fits row = true) rs') as Hfit.
  { apply assign_all_each in Ha. clear -Ha Hrs Hs Hop.
    induction Ha as [|row row' rs rs' Hr _ IH]; constructor.
    - destruct (Hrs row) as (Hcur & Hread & _); [set_solver|].
      by destruct (assigned_row db op t row row' Hs Hop Hcur Hread Hr).
    - apply IH. intros. apply Hrs. set_solver. }
  econstructor; [by apply step_begin|]. econstructor; [|constructor].
  rewrite <- (delete_insert_id (sessions db) n (mkTransaction op rs)) at 2 by done.
  apply (step_commit (mkDatabase _ _) n op rs t rs'); [apply lookup_insert_eq|done..].
Qed.

Lemma run_rolled_back db n op rs :
  sessions db !! n = None → operation_ok op → reads db op rs →
  run db [Began n op rs; RolledBack n] db.
Proof.
  intros Hn Hop Hreads. econstructor; [by apply step_begin|]. econstructor; [|constructor].
  set (tx := mkTransaction op rs).
  pose proof (step_rollback (mkDatabase (rows db) (<[n := tx]> (sessions db))) n tx
                (lookup_insert_eq _ _ _)) as Hend.
  cbn [rows sessions] in Hend. rewrite delete_insert_id in Hend by done. by destruct db.
Qed.

(** Only round trips report storage errors, not the code of a method. *)
Lemma assign_all_error op t rs e :
  assign_all op t rs = Raise e → ¬ storage_error (A := unit) (Raise e).
Proof.
  intros Ha [text [= ->]].
  assert (∀ from r r', validated from r r' ≠ Raise (StorageExn text)) as Hv.
  { intros from r r'. unfold validated, JobStatus_of. repeat case_decide; try done;
      unfold mbind, res_bind; case_decide; done. }
  assert (∀ l, mapM (assign op t) l ≠ Raise (StorageExn text)) as Hm.
  { induction l as [|r l IH]; [done|]. simpl. unfold mbind, res_bind.
    destruct (assign op t r) as [r'|e] eqn:Hr; [by destruct (mapM _ l)|].
    intros [= ->]. destruct op; simpl in Hr; try done; by apply Hv in Hr. }
  destruct op, rs; try done; by apply Hm in Ha.
Qed.

(** One call. *)
Lemma call_traced call db n f c r s' c' :
  pg_inv (as_repository db) → sessions db !! n = None → call_ok call → free db call →
  method call (seen_by db f, c) = (r, (s', c')) →
  ∃ es db', traced (some_fault f) n db call r es ∧ run db es db'
            ∧ rows db' = table s' ∧ sessions db' = sessions db.
Proof.
  intros Hs Hn Hok Hfree Hrun.
  destruct call as [job|id|id tenant|tenant project limit|op| |].
  - destruct (create_outcome job _ _ _ _ _ _ Hs Hok Hrun) as [([text ->] & HT & Hcause)|(Hnone & HT & Hr)].
    + exists [], db. split_and!; [by constructor|constructor|done..].
    + destruct Hok as (id & request & t & t' & -> & Hreq).
      exists [Created (new_job id request t t')], (mkDatabase (table s') (sessions db)).
      split_and!; [by destruct Hr as [->|[? [text ->]]]; constructor| |done..].
      econstructor; [|constructor]. rewrite HT. apply step_create; [done..|].
      by apply row_fits_to_row, new_job_ok.
  - exists [], db. split_and!; [by constructor|constructor| |done].
    pose proof (read_outcome (Call_get id) (seen_by db f) c I) as HT. by rewrite Hrun in HT.
  - exists [], db. split_and!; [by constructor|constructor| |done].
    pose proof (read_outcome (Call_get_for_tenant id tenant) (seen_by db f) c I) as HT. by rewrite Hrun in HT.
  - exists [], db. split_and!; [by constructor|constructor| |done].
    pose proof (read_outcome (Call_list_recent tenant project limit) (seen_by db f) c I) as HT. by rewrite Hrun in HT.
  - destruct (locking_outcome op _ _ _ _ _ _ Hs Hok Hfree Hrun) as [(HF & [text ->] & HT)|(rs & Hreads & Ho)].
    { exists [], db. split_and!; [by constructor|constructor|done..]. }
    pose proof (run_rolled_back db n op rs Hn Hok Hreads) as Hrolled.
    unfold outcome in Ho. destruct (assign_all op (c 0) rs) as [rs'|e] eqn:Ha.
    + pose proof (run_committed db n op rs (c 0) rs' Hs Hn Hok Hreads Ha) as Hcommitted.
      destruct Ho as [[-> HT]|(HF & [text ->] & [HT|HT])].
      * eexists _, _. split_and!; [apply traced_committed|exact Hcommitted|by rewrite HT|done].
      * eexists _, _. split_and!; [by apply traced_rolled_back|exact Hrolled|by rewrite HT|done].
      * eexists _, _. split_and!; [by apply traced_lost|exact Hcommitted|by rewrite HT|done].
    + destruct Ho as [-> HT]. eexists _, _.
      split_and!; [apply traced_raised; by eapply assign_all_error|exact Hrolled|by rewrite HT|done].
  - exists [], db. split_and!; [by constructor|constructor| |done].
    pose proof (read_outcome Call_health_check (seen_by db f) c I) as HT. by rewrite Hrun in HT.
  - exists [], db. split_and!; [by constructor|constructor| |done].
    pose proof (read_outcome Call_close (seen_by db f) c I) as HT. by rewrite Hrun in HT.
Qed.

(** Fewer faults, fewer possibilities. *)
Lemma traced_weaken (F F' : Prop) n db call r es :
  (F → F') → traced F n db call r es → traced F' n db call r es.
Proof.
  intros HF. destruct 1; [apply traced_committed|apply traced_raised|apply traced_unread
    |apply traced_rolled_back|apply traced_lost|apply traced_created|apply traced_not_created
    |apply traced_create_lost|apply traced_read]; tauto.
Qed.

Lemma all_traced_weaken (F F' : Prop) n db calls rs es db' :
  (F → F') → all_traced F n db calls rs es db' → all_traced F' n db calls rs es db'.
Proof. intros HF. induction 1; econstructor; eauto using traced_weaken. Qed.

Lemma held_rows_sessions db db' : sessions db' = sessions db → held_rows db' = held_rows db.
Proof. unfold held_rows. by intros ->. Qed.

Lemma free_sessions db db' call : sessions db' = sessions db → free db call → free db' call.
Proof. intros H'%held_rows_sessions. destruct call as [| | | |[]| |]; simpl; by rewrite ?H'. Qed.

Lemma calls_traced calls : ∀ db n f c rs s' c',
  db_inv db → sessions db !! n = None → Forall call_ok calls → Forall (free db) calls →
  methods calls (seen_by db f, c) = (rs, (s', c')) →
  ∃ rs' es db', rs = Ok rs' ∧ all_traced (some_fault f) n db calls rs' es db'
    ∧ rows db' = table s' ∧ sessions db' = sessions db.
Proof.
  induction calls as [|call calls IH]; intros db n f c rs s' c' Hi Hn Hok Hfree Hrun.
  { unfold methods, mret, M_ret in Hrun. simplify_eq. exists [], [], db.
    split_and!; [done|constructor|done..]. }
  apply Forall_cons in Hok as [Hok Hoks]. apply Forall_cons in Hfree as [Hf Hfs].
  cbn [methods] in Hrun. unfold mbind at 1, M_bind at 1 in Hrun.
  pose proof (method_steady call (seen_by db f) c) as Hsteady.
  destruct (method call (seen_by db f, c)) as [r [s1 c1]] eqn:E. cbn [fst snd] in Hsteady.
  destruct (call_traced _ _ n _ _ _ _ _ (inv_rows _ Hi) Hn Hok Hf E) as (es & db1 & Ht & Hrun1 & HT & Hsess).
  destruct (run_inv _ _ _ Hi Hrun1) as [Hi1 _]. destruct Hsteady as [HL Hrel].
  pose proof (held_rows_sessions _ _ Hsess) as Hheld.
  assert (s1 = seen_by db1 (faults s1)) as Hs1.
  { unfold seen_by. rewrite HT, Hheld. destruct s1. simpl in *. by rewrite HL. }
  rewrite Hs1 in Hrun. unfold mbind, M_bind in Hrun.
  destruct (methods calls _) as [rs2 [s2 c2]] eqn:E2.
  assert (sessions db1 !! n = None) as Hn1 by (by rewrite Hsess).
  assert (Forall (free db1) calls) as Hfs1
    by (eapply Forall_impl; [exact Hfs|]; intros ?; by apply free_sessions).
  destruct (IH db1 n _ _ _ _ _ Hi1 Hn1 Hoks Hfs1 E2)
    as (rs' & es2 & db2 & -> & Ht2 & HT2 & Hsess2).
  unfold mret, M_ret in Hrun. simplify_eq. exists (r :: rs'), (es ++ es2), db2.
  split_and!; [done| |done|congruence]. econstructor; [exact Ht|exact Hrun1|].
  eapply all_traced_weaken; [|exact Ht2]. intros Hn' Hr. apply Hn', Hrel. exact Hr.
Qed.

(** C13: the methods of the repository, all eleven and in any sequence, are what the sessions
    above do.  Run calls one after the other while no other session moves, whatever becomes of
    each round trip to the database: every call adds its events to one run of the database,
    which ends in the table the calls leave.  A call that reads changes nothing; [create] adds
    its job; one that locks rows is a transaction, committed when the call returns and rolled
    back when it raises.  The exceptions are spelled out by [traced], and need a fault: a call
    that raises [SQLAlchemyError] may have committed, when the answer to the commit is lost or
    the row cannot be refreshed afterwards.  Without faults, locking calls report no
    storage error, and [create] does only for an identifier that is taken. *)
Theorem method_is_transaction (db : Database) (n : nat) (calls : list Call) (f : nat → fault)
    (c c' : clock) (r : res (list (res unit))) (s' : PostgresJobRepository) :
  db_inv db → sessions db !! n = None → Forall call_ok calls → Forall (free db) calls →
  methods calls (seen_by db f, c) = (r, (s', c')) →
  ∃ rs es db', r = Ok rs ∧ all_traced (¬ ∀ k, f k = Fine) n db calls rs es db'
    ∧ run db es db' ∧ rows db' = table s' ∧ sessions db' = sessions db
    ∧ pg_inv (as_repository db') ∧ evolves (view_of db) (view_of db').
Proof.
  intros Hi Hn Hok Hfree Hrun.
  destruct (calls_traced _ _ _ _ _ _ _ _ Hi Hn Hok Hfree Hrun) as (rs & es & db' & -> & Ht & HT & Hsess).
  pose proof (all_traced_run _ _ _ _ _ _ _ Ht) as Hes. destruct (run_inv _ _ _ Hi Hes) as [Hi' He].
  exists rs, es, db'. split_and!; [done..|apply Hi'|done].
Qed.
End Methods.

(** ** Two workers and one job

    The first claims it and is taken for dead; the second finds nothing while the first
    holds the row, and takes the job after the recovery. *)
Definition the_request : EvaluationRequest :=
  mkEvaluationRequest (u"t") (u"p") (u"q") (u"a") None.
Definition the_job : EvaluationJob := new_job 1%N the_request 0%Z 0%Z.
Definition claimed_job : EvaluationJob := claim_job 5%Z 5%Z the_job.
Definition requeued_job : EvaluationJob := recover_job 20%Z claimed_job.
Definition one_job : Database := mkDatabase (_to_row <$> {[1%N := the_job]}) ∅.

Lemma one_job_inv : pg_inv (as_repository one_job).
Proof.
  apply (holds_inv _ {[1%N := the_job]}). split; [done|].
  apply map_Forall_singleton. split; [done|]. by apply new_job_ok.
Qed.

Definition two_workers : list event :=
  [Began 1 Claim [_to_row the_job]; Began 2 Claim []; Committed 1 Claim [_to_row the_job];
   Committed 2 Claim []; Began 2 (Recover 10%Z) [_to_row claimed_job];
   Committed 2 (Recover 10%Z) [_to_row claimed_job]; Began 2 Claim [_to_row requeued_job];
   Committed 2 Claim [_to_row requeued_job]].

Lemma two_workers_run : ∃ db', run one_job two_workers db'.
Proof.
  eexists.
  eapply run_cons; [apply step_begin; [done..|]|].
  { right. eexists. split_and!; [done..|by apply (bool_decide_unpack _); vm_compute]. }
  eapply run_cons; [apply step_begin; [done..|by left]|].
  eapply run_cons; [apply (step_commit _ _ _ _ 5%Z [_to_row claimed_job]); [done..|by repeat constructor]|].
  eapply run_cons; [apply (step_commit _ _ _ _ 5%Z []); [done..|constructor]|].
  eapply run_cons; [apply step_begin; [done..|]|].
  { split; [by apply NoDup_singleton|]. intros r ->%list_elem_of_singleton.
    split; [done|]. by apply (bool_decide_unpack _); vm_compute. }
  eapply run_cons; [apply (step_commit _ _ _ _ 20%Z [_to_row requeued_job]); [done..|by repeat constructor]|].
  eapply run_cons; [apply step_begin; [done..|]|].
  { right. eexists. split_and!; [done..|by apply (bool_decide_unpack _); vm_compute]. }
  eapply run_cons; [eapply (step_commit _ _ _ _ 30%Z); [done..|by repeat constructor]|].
  apply run_nil.
Qed.

Lemma claims_exclusive_witness :
  ∃ db', run one_job two_workers db'
         ∧ (row_attempt_count (_to_row the_job) < row_attempt_count (_to_row requeued_job))%Z
         ∧ Exists (recovers 1%N)
             [Committed 2 Claim []; Began 2 (Recover 10%Z) [_to_row claimed_job];
              Committed 2 (Recover 10%Z) [_to_row claimed_job]; Began 2 Claim [_to_row requeued_job]].
Proof.
  destruct two_workers_run as [db' Hrun]. exists db'. split; [exact Hrun|].
  destruct (claims_exclusive one_job db' two_workers one_job_inv eq_refl Hrun) as (_ & _ & H).
  destruct (H [Began 1 Claim [_to_row the_job]; Began 2 Claim []] 1 (_to_row the_job)
              [Committed 2 Claim []; Began 2 (Recover 10%Z) [_to_row claimed_job];
               Committed 2 (Recover 10%Z) [_to_row claimed_job]; Began 2 Claim [_to_row requeued_job]]
              2 (_to_row requeued_job) [] eq_refl eq_refl) as [[Hlt _] Hex].
  split; [exact Hlt|exact Hex].
Defined.

(** Two calls of [claim_next_queued]: the first one claims the job, and then cannot read the row
    back; the second one finds nothing to claim. *)
Definition lost_refresh (k : nat) : fault :=
  match k with 2 => Fails (u"connection was closed") | _ => Fine end.

Lemma method_is_transaction_witness :
  let _ := key_order in
  let calls := [Call_locking Claim; Call_locking Claim] in
  ∃ es db', all_traced (¬ ∀ k, lost_refresh k = Fine) 1 one_job calls
              [Raise (StorageExn (u"connection was closed")); Ok tt] es db'
    ∧ run one_job es db' ∧ row_status <$> rows db' !! 1%N = Some (status_value RUNNING).
Proof.
  intros plan calls.
  destruct (methods calls (seen_by one_job lost_refresh, λ _, 5%Z)) as [r [s' c']] eqn:E.
  destruct (method_is_transaction one_job 1 calls lost_refresh (λ _, 5%Z) c' r s')
    as (rs & es & db' & Hr & Ht & Hrun & HT & _); [|reflexivity|by repeat constructor..|exact E|].
  - split; [exact one_job_inv|..]; intros *; simpl; by rewrite lookup_empty.
  - assert (rs = [Raise (StorageExn (u"connection was closed")); Ok tt]) as <-.
    { apply (f_equal (λ x, match x with Ok a => a | Raise _ => [] end)) in Hr. rewrite <- Hr.
      replace r with (methods calls (seen_by one_job lost_refresh, λ _, 5%Z)).1 by (by rewrite E).
      vm_compute. reflexivity. }
    exists es, db'. split_and!; [exact Ht|exact Hrun|].
    rewrite HT. replace s' with (methods calls (seen_by one_job lost_refresh, λ _, 5%Z)).2.1 by (by rewrite E).
    vm_compute. reflexivity.
Defined.
