(* ===== verification/Contract.v ===== *)
(** Refinement: every backend, driven by any sequence of repository calls, behaves like
    the abstract store of jobs. *)
From S2P Require Export InMemory Postgres.

(** ** Calls and their observable results *)

Inductive Op :=
| OpCreate (j : EvaluationJob)
| OpGet (id : UUID)
| OpGetForTenant (id : UUID) (tenant : pystr)
| OpListRecent (tenant : pystr) (project : option pystr) (limit : Z)
| OpClaim
| OpRecover (cutoff : datetime)
| OpSetRunning (id : UUID)
| OpSetSucceeded (id : UUID) (v : EvaluationResult)
| OpSetFailed (id : UUID) (message : pystr).

(** What a caller reads off the result of a call, right after it. *)
Inductive Reply :=
| RJob (j : EvaluationJob)
| RJobs (js : list EvaluationJob)
| RClaim (j : option EvaluationJob)
| RCount (n : Z)
| RError (e : exn).

Section Exec.
Context {S : Type} `{JobRepository S}.

Definition reply_job (s : S) (r : res ref) : Reply :=
  match r with Ok x => RJob (deref s x) | Raise e => RError e end.

Definition exec (o : Op) (sc : S * clock) : Reply * (S * clock) :=
  match o with
  | OpCreate j => let '(r, sc) := create j sc in (reply_job sc.1 r, sc)
  | OpGet id => let '(r, sc) := get id sc in (reply_job sc.1 r, sc)
  | OpGetForTenant id t => let '(r, sc) := get_for_tenant id t sc in (reply_job sc.1 r, sc)
  | OpListRecent t p n =>
      let '(r, sc) := list_recent t p n sc in
      (match r with Ok xs => RJobs (deref sc.1 <$> xs) | Raise e => RError e end, sc)
  | OpClaim =>
      let '(r, sc) := claim_next_queued sc in
      (match r with Ok x => RClaim (deref sc.1 <$> x) | Raise e => RError e end, sc)
  | OpRecover cutoff =>
      let '(r, sc) := recover_stale_running cutoff sc in
      (match r with Ok n => RCount n | Raise e => RError e end, sc)
  | OpSetRunning id => let '(r, sc) := set_running id sc in (reply_job sc.1 r, sc)
  | OpSetSucceeded id v => let '(r, sc) := set_succeeded id v sc in (reply_job sc.1 r, sc)
  | OpSetFailed id m => let '(r, sc) := set_failed id m sc in (reply_job sc.1 r, sc)
  end.

Fixpoint exec_all (os : list Op) (sc : S * clock) : list Reply * (S * clock) :=
  match os with
  | [] => ([], sc)
  | o :: os => let '(r, sc) := exec o sc in
               let '(rs, sc) := exec_all os sc in (r :: rs, sc)
  end.
End Exec.

(** ** The abstract store *)

Definition reply_change (r : Reply) : option (res EvaluationJob) :=
  match r with RJob j => Some (Ok j) | RError e => Some (Raise e) | _ => None end.

Definition changes (v : store) (id : UUID) (from : list JobStatus)
    (upd : EvaluationJob → EvaluationJob → Prop) (r : Reply) (v' : store) : Prop :=
  ∃ x, reply_change r = Some x ∧ transition_spec v id from upd x v'.

(** One call on the store [v], with the jobs of [held] out of reach. *)
Definition spec_step (held : gset UUID) (v : store) (o : Op) (r : Reply) (v' : store) : Prop :=
  match o with
  | OpCreate j => r = RJob j ∧ v' = <[job_id j := j]> v
  | OpGet id => r = match v !! id with Some j => RJob j | None => RError NotFound end ∧ v' = v
  | OpGetForTenant id t =>
      r = match v !! id with
          | Some j => if decide (tenant_id j = t) then RJob j else RError NotFound
          | None => RError NotFound
          end ∧ v' = v
  | OpListRecent t p n => (∃ js, r = RJobs js ∧ is_listing v t p n js) ∧ v' = v
  | OpClaim =>
      (r = RClaim None ∧ none_next v held ∧ v' = v)
      ∨ ∃ id j t t', is_next v held id j ∧ r = RClaim (Some (claim_job t t' j))
                     ∧ v' = <[id := claim_job t t' j]> v
  | OpRecover cutoff =>
      r = RCount (Z.of_nat (size (recoverable v held cutoff))) ∧ recovered v held cutoff v'
  | OpSetRunning id => changes v id [QUEUED] started r v'
  | OpSetSucceeded id x => changes v id [RUNNING] (succeeded x) r v'
  | OpSetFailed id m => changes v id [QUEUED; RUNNING] (failed m) r v'
  end.

Inductive spec_run (held : gset UUID) : store → list Op → list Reply → store → Prop :=
| spec_done v : spec_run held v [] [] v
| spec_call v o r v1 os rs v2 :
    spec_step held v o r v1 → spec_run held v1 os rs v2 → spec_run held v (o :: os) (r :: rs) v2.

(** The calls a service makes: new jobs are well formed and under new identifiers,
    results are valid, limits are not negative. *)
Definition op_ok (o : Op) : Prop :=
  match o with
  | OpCreate j => job_ok j ∧ status j = QUEUED
  | OpListRecent _ _ n => (0 ≤ n)%Z
  | OpSetSucceeded _ v => valid_result v = true
  | _ => True
  end.

Definition creates (os : list Op) : list UUID :=
  omap (λ o, match o with OpCreate j => Some (job_id j) | _ => None end) os.

Definition script_ok (v : store) (os : list Op) : Prop :=
  Forall op_ok os ∧ NoDup (creates os) ∧ Forall (λ id, v !! id = None) (creates os).

(** Only [OpCreate] adds a job. *)
Lemma spec_step_dom held v o r v' id :
  spec_step held v o r v' → v !! id = None → id ∉ creates [o] → v' !! id = None.
Proof.
  assert (∀ id' from upd x, transition_spec v id' from upd x v' → v !! id = None → v' !! id = None) as Ht.
  { unfold transition_spec. intros id' from upd x H Hn. destruct (v !! id') as [j|] eqn:Hj;
      [case_decide|]; destruct_and?; subst; try done.
    destruct H as (j' & _ & _ & ->). rewrite lookup_insert_ne; [done|congruence]. }
  destruct o; simpl; intros H Hn Hc; try (destruct_and?; by subst);
    try (destruct H as (x & _ & H); by eapply Ht).
  - destruct H as [_ ->]. rewrite lookup_insert_ne; [done|]. simpl in Hc. set_solver.
  - destruct H as [(_ & _ & ->)|(id' & j & t & t' & (Hj & _) & _ & ->)]; [done|].
    rewrite lookup_insert_ne; [done|congruence].
  - destruct H as [_ H]. specialize (H id). by rewrite Hn in H.
Qed.

Section Refinement.
Context {S : Type} `{RL : RepositoryLaws S}.

Lemma exec_refines o s c r s' c' :
  repo_inv s → reliable s → op_ok o → Forall (λ id, view s !! id = None) (creates [o]) →
  exec o (s, c) = (r, (s', c')) →
  repo_inv s' ∧ reliable s' ∧ held s' = held s ∧ spec_step (held s) (view s) o r (view s').
Proof.
  intros Hi Hr Hok Hnew Hrun.
  assert (∀ s2, repo_inv s2 → repo_le s s2 → spec_step (held s) (view s) o r (view s2) →
            repo_inv s2 ∧ reliable s2 ∧ held s2 = held s ∧ spec_step (held s) (view s) o r (view s2))
    as Hend.
  { intros s2 ? Hle ?. split_and!; [done|by eapply repo_le_reliable|by apply repo_le_held|done]. }
  destruct o as [j|id|id t|t p n| |cutoff|id|id x|id m]; simpl in Hrun, Hok.
  - destruct (create j (s, c)) as [r0 [s0 c0]] eqn:E. simplify_eq. destruct Hok as [Hj Hq].
    simpl in Hnew. apply (proj1 (Forall_singleton _ _)) in Hnew.
    destruct (create_spec _ _ _ _ _ _ Hi Hj Hq Hnew E) as (? & ? & [(x & -> & Hx & _ & Hv)|[? _]]);
      [|done]. apply Hend; [done..|]. simpl. by rewrite Hx.
  - destruct (get id (s, c)) as [r0 [s0 c0]] eqn:E. simplify_eq.
    destruct (get_spec _ _ _ _ _ _ Hi E) as (? & ? & Hv & [H|[? _]]); [|done].
    apply Hend; [done..|]. simpl. split; [|done].
    destruct (view s !! id); [destruct H as (x & -> & <- & _)|subst]; done.
  - destruct (get_for_tenant id t (s, c)) as [r0 [s0 c0]] eqn:E. simplify_eq.
    destruct (get_for_tenant_spec _ _ _ _ _ _ _ Hi E) as (? & ? & Hv & [H|[? _]]); [|done].
    apply Hend; [done..|]. simpl. split; [|done].
    destruct (view s !! id); [case_decide; [destruct H as (x & -> & <- & _)|subst]|subst]; done.
  - destruct (list_recent t p n (s, c)) as [r0 [s0 c0]] eqn:E. simplify_eq.
    destruct (list_recent_spec _ _ _ _ _ _ _ _ Hi Hok E) as (? & ? & Hv & [(xs & -> & Hl & _)|[? _]]);
      [|done]. apply Hend; [done..|]. simpl. split; [by eexists|done].
  - destruct (claim_next_queued (s, c)) as [r0 [s0 c0]] eqn:E. simplify_eq.
    destruct (claim_next_queued_spec _ _ _ _ _ Hi E) as (? & ? & [(-> & Hv & Hn)|[H|[? _]]]);
      [| |done]; (apply Hend; [done..|]).
    + by left.
    + right. destruct H as (x & id & j & t & t' & -> & Hn & Hx & _ & Hv).
      exists id, j, t, t'. simpl. by rewrite Hx.
  - destruct (recover_stale_running cutoff (s, c)) as [r0 [s0 c0]] eqn:E. simplify_eq.
    destruct (recover_stale_running_spec _ _ _ _ _ _ Hi E) as (? & ? & [[-> H]|[? _]]); [|done].
    by apply Hend.
  - destruct (set_running id (s, c)) as [r0 [s0 c0]] eqn:E. simplify_eq.
    destruct (set_running_spec _ _ _ _ _ _ Hi E) as (? & ? & _ & [H|[? _]]); [|done].
    apply Hend; [done..|]. eexists. split; [|exact H]. by destruct r0.
  - destruct (set_succeeded id x (s, c)) as [r0 [s0 c0]] eqn:E. simplify_eq.
    destruct (set_succeeded_spec _ _ _ _ _ _ _ Hi Hok E) as (? & ? & _ & [H|[? _]]); [|done].
    apply Hend; [done..|]. eexists. split; [|exact H]. by destruct r0.
  - destruct (set_failed id m (s, c)) as [r0 [s0 c0]] eqn:E. simplify_eq.
    destruct (set_failed_spec _ _ _ _ _ _ _ Hi E) as (? & ? & _ & [H|[? _]]); [|done].
    apply Hend; [done..|]. eexists. split; [|exact H]. by destruct r0.
Qed.

Lemma exec_all_refines os : ∀ s c rs s' c',
  repo_inv s → reliable s → script_ok (view s) os → exec_all os (s, c) = (rs, (s', c')) →
  spec_run (held s) (view s) os rs (view s').
Proof.
  induction os as [|o os IH]; intros s c rs s' c' Hi Hr (Hok & Hnd & Hnew) Hrun; simpl in Hrun.
  { simplify_eq. constructor. }
  destruct (exec o (s, c)) as [r [s1 c1]] eqn:E1.
  destruct (exec_all os (s1, c1)) as [rs1 [s2 c2]] eqn:E2. simplify_eq.
  apply Forall_cons in Hok as [Hok Hoks].
  assert (creates (o :: os) = creates [o] ++ creates os) as Hc by (by destruct o).
  rewrite Hc in Hnd, Hnew. apply NoDup_app in Hnd as (_ & Hdisj & Hnd).
  apply Forall_app in Hnew as [Hnew Hnews].
  destruct (exec_refines _ _ _ _ _ _ Hi Hr Hok Hnew E1) as (Hi1 & Hr1 & Hheld & Hstep).
  econstructor; [exact Hstep|]. rewrite <- Hheld. eapply IH; [done..| |exact E2].
  split_and!; [done..|]. rewrite Forall_forall in Hnews |- *. intros id Hid.
  eapply spec_step_dom; [exact Hstep|by apply Hnews|]. intros Hin. by eapply Hdisj.
Qed.
End Refinement.

(** C6: a fresh in-memory repository driven by any admissible sequence of calls gives,
    call by call, replies the abstract store allows, and ends with its contents. *)
Theorem memory_refines_store (os : list Op) (c c' : clock) (rs : list Reply)
    (s' : InMemoryJobRepository) :
  script_ok ∅ os → exec_all os (Memory.init, c) = (rs, (s', c')) →
  spec_run ∅ ∅ os rs (im_view s').
Proof.
  intros Hok Hrun.
  assert (im_inv Memory.init) as Hi.
  { constructor; simpl; [apply NoDup_nil_2..|]. intros id l Hin. by apply not_elem_of_nil in Hin. }
  exact (exec_all_refines os Memory.init c rs s' c' Hi I Hok Hrun).
Qed.

(** C7: so does the Postgres repository on an empty table, in whatever order the
    database scans it, as long as no session fails and no other session holds a lock. *)
Theorem postgres_refines_store `{QueryPlan} (os : list Op) (c c' : clock) (rs : list Reply)
    (s' : PostgresJobRepository) :
  script_ok ∅ os → exec_all os (mkPg ∅ ∅ (λ _, Fine), c) = (rs, (s', c')) →
  spec_run ∅ ∅ os rs (pg_view s').
Proof.
  intros Hok Hrun.
  assert (holds (mkPg ∅ ∅ (λ _, Fine)) ∅) as Hh.
  { split; [by rewrite fmap_empty|]. intros id j Hj. by rewrite lookup_empty in Hj. }
  pose proof (holds_view _ _ Hh) as Hv.
  pose proof (exec_all_refines os (mkPg ∅ ∅ (λ _, Fine)) c rs s' c') as Href.
  simpl in Href. rewrite Hv in Href. apply Href; [by eapply holds_inv|done|done|done].
Qed.

(** A concrete script: one job created, claimed, finished, and a refused transition. *)
Definition sample_result : EvaluationResult := mkEvaluationResult 50 (u"ok") false.
Definition sample_job : EvaluationJob :=
  new_job 1%N (mkEvaluationRequest (u"t") (u"p") (u"q") (u"a") None) 5%Z 5%Z.
Definition sample_script : list Op :=
  [OpCreate sample_job; OpClaim; OpSetSucceeded 1%N sample_result; OpSetRunning 1%N;
   OpListRecent (u"t") None 10].
Definition sample_clock : clock := λ n, Z.of_nat n.

Lemma sample_script_ok : script_ok ∅ sample_script.
Proof.
  split_and!.
  - repeat (apply Forall_cons_2; [first [done|split; [by apply new_job_ok|done]]|]). constructor.
  - apply NoDup_singleton.
  - apply Forall_singleton. apply lookup_empty.
Qed.

(** The statuses in the replies. *)
Definition reply_status (r : Reply) : list JobStatus :=
  match r with
  | RJob j | RClaim (Some j) => [status j]
  | RJobs js => status <$> js
  | _ => []
  end.

Lemma memory_refines_store_witness :
  ∃ rs s' c', exec_all sample_script (Memory.init, sample_clock) = (rs, (s', c'))
    ∧ reply_status <$> rs = [[QUEUED]; [RUNNING]; [SUCCEEDED]; []; [SUCCEEDED]]
    ∧ spec_run ∅ ∅ sample_script rs (im_view s').
Proof.
  destruct (exec_all sample_script (Memory.init, sample_clock)) as [rs [s' c']] eqn:E.
  exists rs, s', c'. split; [reflexivity|]. split.
  - replace rs with (exec_all sample_script (Memory.init, sample_clock)).1 by (by rewrite E).
    vm_compute. reflexivity.
  - exact (memory_refines_store sample_script sample_clock c' rs s' sample_script_ok E).
Defined.

Lemma postgres_refines_store_witness :
  let _ := key_order in
  ∃ rs s' c', exec_all sample_script (mkPg ∅ ∅ (λ _, Fine), sample_clock) = (rs, (s', c'))
    ∧ reply_status <$> rs = [[QUEUED]; [RUNNING]; [SUCCEEDED]; []; [SUCCEEDED]]
    ∧ spec_run ∅ ∅ sample_script rs (pg_view s').
Proof.
  intros plan.
  destruct (exec_all sample_script (mkPg ∅ ∅ (λ _, Fine), sample_clock)) as [rs [s' c']] eqn:E.
  exists rs, s', c'. split; [reflexivity|]. split.
  - replace rs with (exec_all sample_script (mkPg ∅ ∅ (λ _, Fine), sample_clock)).1 by (by rewrite E).
    vm_compute. reflexivity.
  - exact (postgres_refines_store sample_script sample_clock c' rs s' sample_script_ok E).
Defined.
