(* ===== verification/Migrations.v ===== *)
(** The schema migrations ([migrations/versions/]) and the schema [init_schema] creates
    ([app/storage/postgres.py]).

    Alembic and the database are the class [Alembic]: its operations change a schema as
    [AlembicLaws] say, and nothing else is known of them. *)
From S2P Require Export Postgres.

(** ** Schemas *)

Inductive ColumnType :=
| UUIDType
| StringType (length : Z)
| TextType
| JSONBType
| IntegerType
| TimestampType (timezone : bool).

Record Column := mkColumn {
  column_name : pystr;
  column_type : ColumnType;
  column_nullable : bool;
  column_default : option pystr;
}.

#[export] Instance ColumnType_eq_dec : EqDecision ColumnType.
Proof. solve_decision. Defined.
#[export] Instance Column_eq_dec : EqDecision Column.
Proof. solve_decision. Defined.

(** A table: its columns in order, its primary key, its indexes by name, and its rows. *)
Record Table := mkTable {
  table_columns : list Column;
  table_key : list pystr;
  table_indexes : gmap pystr (list pystr);
  table_rows : list (gmap pystr json);
}.

Notation Schema := (gmap pystr Table).

(** The order of the columns does not matter. *)
#[export] Instance table_equiv : Equiv Table := λ tb tb',
  table_columns tb ≡ₚ table_columns tb' ∧ table_key tb = table_key tb'
  ∧ table_indexes tb = table_indexes tb' ∧ table_rows tb = table_rows tb'.

#[export] Instance table_equivalence : Equivalence (≡@{Table}).
Proof.
  split.
  - intros tb. by split.
  - intros tb tb' (? & ? & ? & ?). by split_and!.
  - intros tb1 tb2 tb3 (? & ? & ? & ?) (? & ? & ? & ?). split_and!; [by etrans|congruence..].
Qed.

Definition set_default (d : option pystr) (c : Column) : Column :=
  mkColumn (column_name c) (column_type c) (column_nullable c) d.

Definition add_index (n : pystr) (cols : list pystr) (tb : Table) : Table :=
  mkTable (table_columns tb) (table_key tb) (<[n := cols]> (table_indexes tb)) (table_rows tb).
Definition remove_index (n : pystr) (tb : Table) : Table :=
  mkTable (table_columns tb) (table_key tb) (delete n (table_indexes tb)) (table_rows tb).

(** ** Alembic *)

(** The operations on the database: the inspector's, [alembic.op]'s, and
    [Base.metadata.create_all] for one table. *)
Class Alembic (D : Type) := {
  has_table : pystr → M D bool;
  get_columns : pystr → M D (list pystr);
  get_indexes : pystr → M D (list pystr);
  create_table : pystr → list Column → list pystr → M D unit;
  drop_table : pystr → M D unit;
  create_index : pystr → pystr → list pystr → M D unit;
  drop_index : pystr → pystr → M D unit;
  add_column : pystr → Column → M D unit;
  alter_column_default : pystr → pystr → option pystr → M D unit;
  drop_column : pystr → pystr → M D unit;
  create_all : pystr → list Column → list pystr → gmap pystr (list pystr) → M D unit;
}.

(** What existing rows hold in a column added with a default, and without one. *)
Definition integer_default (d : option pystr) : json :=
  match d with
  | None => JNull
  | Some s => if decide (s = u"0") then JInt 0 else if decide (s = u"3") then JInt 3 else JNull
  end.

Definition with_column (c : Column) (value : json) (tb : Table) : Table :=
  mkTable (table_columns tb ++ [c]) (table_key tb) (table_indexes tb)
    (<[column_name c := value]> <$> table_rows tb).
Definition with_default (n : pystr) (d : option pystr) (tb : Table) : Table :=
  mkTable ((λ c, if decide (column_name c = n) then set_default d c else c) <$> table_columns tb)
    (table_key tb) (table_indexes tb) (table_rows tb).
Definition without_column (n : pystr) (tb : Table) : Table :=
  mkTable (filter (λ c, column_name c ≠ n) (table_columns tb)) (table_key tb)
    (filter (λ '(_, cols), n ∉ cols) (table_indexes tb)) (delete n <$> table_rows tb).

(** What the migrations rely on: the inspector tells the truth, and an operation whose
    precondition holds succeeds and does what its documentation says.  Index names are
    unique in the whole schema. *)
Class AlembicLaws (D : Type) `{Alembic D} := {
  schema : D → Schema;
  has_table_law t s : has_table t s = (Ok (bool_decide (is_Some (schema s !! t))), s);
  get_columns_law t tb s :
    schema s !! t = Some tb → get_columns t s = (Ok (column_name <$> table_columns tb), s);
  get_indexes_law t tb s :
    schema s !! t = Some tb →
    ∃ ns, get_indexes t s = (Ok ns, s) ∧ ∀ n, n ∈ ns ↔ is_Some (table_indexes tb !! n);
  create_table_law t cols key s :
    schema s !! t = None →
    ∃ s', create_table t cols key s = (Ok tt, s')
          ∧ schema s' = <[t := mkTable cols key ∅ []]> (schema s);
  drop_table_law t tb s :
    schema s !! t = Some tb →
    ∃ s', drop_table t s = (Ok tt, s') ∧ schema s' = delete t (schema s);
  create_index_law n t cols tb s :
    schema s !! t = Some tb → (∀ t' tb', schema s !! t' = Some tb' → table_indexes tb' !! n = None) →
    cols ⊆ column_name <$> table_columns tb →
    ∃ s', create_index n t cols s = (Ok tt, s') ∧ schema s' = <[t := add_index n cols tb]> (schema s);
  drop_index_law n t tb s :
    schema s !! t = Some tb → is_Some (table_indexes tb !! n) →
    ∃ s', drop_index n t s = (Ok tt, s') ∧ schema s' = <[t := remove_index n tb]> (schema s);
  add_column_law t c tb s :
    schema s !! t = Some tb → column_name c ∉ column_name <$> table_columns tb →
    column_nullable c = true ∧ column_default c = None
      ∨ column_type c = IntegerType ∧ column_default c ∈ [Some (u"0"); Some (u"3")] →
    ∃ s', add_column t c s = (Ok tt, s')
          ∧ schema s' = <[t := with_column c (integer_default (column_default c)) tb]> (schema s);
  alter_column_default_law t n d tb s :
    schema s !! t = Some tb → n ∈ column_name <$> table_columns tb →
    ∃ s', alter_column_default t n d s = (Ok tt, s') ∧ schema s' = <[t := with_default n d tb]> (schema s);
  drop_column_law t n tb s :
    schema s !! t = Some tb → n ∈ column_name <$> table_columns tb → n ∉ table_key tb →
    ∃ s', drop_column t n s = (Ok tt, s') ∧ schema s' = <[t := without_column n tb]> (schema s);
  (** [create_all] creates what does not exist, table by table. *)
  create_all_law t cols key idx s :
    (schema s !! t = None →
     (∀ t' tb' n, schema s !! t' = Some tb' → is_Some (idx !! n) → table_indexes tb' !! n = None)) →
    ∃ s', create_all t cols key idx s = (Ok tt, s')
          ∧ schema s' = match schema s !! t with
                        | Some _ => schema s
                        | None => <[t := mkTable cols key idx []]> (schema s)
                        end;
}.

(** ** The migrations *)

Definition jobs_table : pystr := u"evaluation_jobs".
Definition ix (column : string) : pystr := u"ix_evaluation_jobs_" ++ u column.

Definition column (n : string) (ty : ColumnType) (nullable : bool) : Column :=
  mkColumn (u n) ty nullable None.

Section Migrations.
Context {D : Type} `{Alembic D}.

Definition unless (b : bool) (m : M D unit) : M D unit := if b then mret tt else m.
Definition contains (n : pystr) (ns : list pystr) : bool := bool_decide (n ∈ ns).

Definition columns_0001 : list Column :=
  [column "job_id" UUIDType false;
   column "tenant_id" (StringType 128) false;
   column "project_id" (StringType 128) false;
   column "status" (StringType 32) false;
   column "request_payload" JSONBType false;
   column "result_payload" JSONBType true;
   column "error_message" TextType true;
   column "created_at" (TimestampType true) false;
   column "updated_at" (TimestampType true) false].

Definition upgrade_0001 : M D unit :=
  exists_ ← has_table jobs_table;
  unless exists_ (create_table jobs_table columns_0001 [u"job_id"]);;
  existing_indexes ← get_indexes jobs_table;
  unless (contains (ix "project_id") existing_indexes)
    (create_index (ix "project_id") jobs_table [u"project_id"]);;
  unless (contains (ix "status") existing_indexes)
    (create_index (ix "status") jobs_table [u"status"]);;
  unless (contains (ix "tenant_id") existing_indexes)
    (create_index (ix "tenant_id") jobs_table [u"tenant_id"]).

Definition downgrade_0001 : M D unit :=
  drop_index (ix "tenant_id") jobs_table;;
  drop_index (ix "status") jobs_table;;
  drop_index (ix "project_id") jobs_table;;
  drop_table jobs_table.

Definition upgrade_0002 : M D unit :=
  existing_columns ← get_columns jobs_table;
  unless (contains (u"attempt_count") existing_columns)
    (add_column jobs_table (mkColumn (u"attempt_count") IntegerType false (Some (u"0")));;
     alter_column_default jobs_table (u"attempt_count") None);;
  unless (contains (u"max_attempts") existing_columns)
    (add_column jobs_table (mkColumn (u"max_attempts") IntegerType false (Some (u"3")));;
     alter_column_default jobs_table (u"max_attempts") None);;
  unless (contains (u"claimed_at") existing_columns)
    (add_column jobs_table (mkColumn (u"claimed_at") (TimestampType true) true None));;
  existing_indexes ← get_indexes jobs_table;
  unless (contains (ix "claimed_at") existing_indexes)
    (create_index (ix "claimed_at") jobs_table [u"claimed_at"]).

Definition downgrade_0002 : M D unit :=
  drop_index (ix "claimed_at") jobs_table;;
  drop_column jobs_table (u"claimed_at");;
  drop_column jobs_table (u"max_attempts");;
  drop_column jobs_table (u"attempt_count").

(** The upgrades of both revisions, the first one first, and their downgrades in the opposite
    order.  Which of them a command runs, and the record it keeps, is in [MigrationEnv]. *)
Definition upgrade_head : M D unit := upgrade_0001;; upgrade_0002.
Definition downgrade_base : M D unit := downgrade_0002;; downgrade_0001.

(** The table of the class [EvaluationJobRow], as SQLAlchemy names its indexes. *)
Definition model_columns : list Column :=
  [column "job_id" UUIDType false;
   column "tenant_id" (StringType 128) false;
   column "project_id" (StringType 128) false;
   column "status" (StringType 32) false;
   column "request_payload" JSONBType false;
   column "result_payload" JSONBType true;
   column "error_message" TextType true;
   column "attempt_count" IntegerType false;
   column "max_attempts" IntegerType false;
   column "claimed_at" (TimestampType true) true;
   column "created_at" (TimestampType true) false;
   column "updated_at" (TimestampType true) false].

Definition model_indexes : gmap pystr (list pystr) :=
  {[ ix "tenant_id" := [u"tenant_id"]; ix "project_id" := [u"project_id"];
     ix "status" := [u"status"] ]}.

Definition init_schema : M D unit := create_all jobs_table model_columns [u"job_id"] model_indexes.
End Migrations.

(** ** Running a migration *)

Definition new_columns : list Column :=
  [column "attempt_count" IntegerType false; column "max_attempts" IntegerType false;
   column "claimed_at" (TimestampType true) true].
Definition head_indexes : gmap pystr (list pystr) :=
  <[ix "claimed_at" := [u"claimed_at"]]> model_indexes.

Definition names (tb : Table) : list pystr := column_name <$> table_columns tb.

(** The table once column [c] is sure to be there. *)
Definition ensure_column (c : Column) (value : json) (tb : Table) : Table :=
  if contains (column_name c) (names tb) then tb else with_column c value tb.

Section Laws.
Context {D : Type} `{AL : AlembicLaws D}.
(** The rest of the schema, in which nobody uses the names of our indexes. *)
Context (S0 : Schema).
Context (Hclean : ∀ t tb n, S0 !! t = Some tb → t ≠ jobs_table → is_Some (head_indexes !! n) →
                            table_indexes tb !! n = None).

(** Our table is [tb]. *)
Definition holds_table (tb : Table) (s : D) : Prop := schema s = <[jobs_table := tb]> S0.

Lemma holds_lookup tb s : holds_table tb s → schema s !! jobs_table = Some tb.
Proof. unfold holds_table. intros ->. apply lookup_insert_eq. Qed.

Lemma holds_update tb tb' s s' :
  holds_table tb s → schema s' = <[jobs_table := tb']> (schema s) → holds_table tb' s'.
Proof. unfold holds_table. intros -> ->. apply insert_insert_eq. Qed.

(** From a table to a table. *)
Definition moves (m : M D unit) (tb tb' : Table) : Prop :=
  ∀ s, holds_table tb s → ∃ s', m s = (Ok tt, s') ∧ holds_table tb' s'.

Lemma moves_ret tb : moves (mret tt) tb tb.
Proof. intros s Hs. by exists s. Qed.
Lemma moves_bind m k tb1 tb2 tb3 : moves m tb1 tb2 → moves k tb2 tb3 → moves (m;; k) tb1 tb3.
Proof.
  intros Hm Hk s Hs. destruct (Hm s Hs) as (s1 & Hrun & Hs1). destruct (Hk s1 Hs1) as (s2 & Hrun2 & Hs2).
  exists s2. split; [|done]. unfold mbind, M_bind. by rewrite Hrun.
Qed.

(** The inspector's answers, with what follows. *)
Lemma moves_columns (k : list pystr → M D unit) tb tb' :
  moves (k (names tb)) tb tb' → moves (ns ← get_columns jobs_table; k ns) tb tb'.
Proof.
  intros Hk s Hs. destruct (Hk s Hs) as (s' & Hrun & Hs'). exists s'. split; [|done].
  unfold mbind, M_bind. by rewrite (get_columns_law _ tb) by by apply holds_lookup.
Qed.
Lemma moves_indexes (k : list pystr → M D unit) tb tb' :
  (∀ ns, (∀ n, n ∈ ns ↔ is_Some (table_indexes tb !! n)) → moves (k ns) tb tb') →
  moves (ns ← get_indexes jobs_table; k ns) tb tb'.
Proof.
  intros Hk s Hs. destruct (get_indexes_law jobs_table tb s) as (ns & Hns & Hiff); [by apply holds_lookup|].
  destruct (Hk ns Hiff s Hs) as (s' & Hrun & Hs'). exists s'. split; [|done].
  unfold mbind, M_bind. by rewrite Hns.
Qed.

(** Creating an index unless it exists: either way it exists afterwards. *)
Lemma moves_index n cols ns tb :
  head_indexes !! n = Some cols → cols ⊆ names tb → table_indexes tb ⊆ head_indexes →
  (n ∈ ns ↔ is_Some (table_indexes tb !! n)) →
  moves (unless (contains n ns) (create_index n jobs_table cols)) tb (add_index n cols tb).
Proof.
  intros Hhead Hcols Hsub Hiff s Hs. unfold unless, contains. case_bool_decide as Hin.
  - exists s. split; [done|]. apply Hiff in Hin as [cols' Hin].
    assert (cols' = cols) as -> by (apply (lookup_weaken _ _ _ _ Hin) in Hsub; congruence).
    unfold add_index. rewrite (insert_id (table_indexes tb)) by exact Hin. by destruct tb.
  - destruct (create_index_law n jobs_table cols tb s) as (s' & Hrun & Hs').
    + by apply holds_lookup.
    + intros t' tb' Ht'. unfold holds_table in Hs. rewrite Hs, lookup_insert in Ht'.
      case_decide as Ht; [|by eapply Hclean; eauto]. simplify_eq.
      apply eq_None_not_Some. by rewrite <- Hiff.
    + exact Hcols.
    + exists s'. split; [done|]. by eapply holds_update.
Qed.

Lemma moves_drop_index n tb :
  is_Some (table_indexes tb !! n) → moves (drop_index n jobs_table) tb (remove_index n tb).
Proof.
  intros Hn s Hs. destruct (drop_index_law n jobs_table tb s) as (s' & ? & ?); [by apply holds_lookup|done|].
  exists s'. split; [done|]. by eapply holds_update.
Qed.
Lemma moves_drop_column n tb :
  n ∈ names tb → n ∉ table_key tb → moves (drop_column jobs_table n) tb (without_column n tb).
Proof.
  intros Hn Hk s Hs. destruct (drop_column_law jobs_table n tb s) as (s' & ? & ?); [by apply holds_lookup|done..|].
  exists s'. split; [done|]. by eapply holds_update.
Qed.

Lemma moves_add_column c tb :
  column_name c ∉ names tb →
  column_nullable c = true ∧ column_default c = None
    ∨ column_type c = IntegerType ∧ column_default c ∈ [Some (u"0"); Some (u"3")] →
  moves (add_column jobs_table c) tb (with_column c (integer_default (column_default c)) tb).
Proof.
  intros Hn Hc s Hs. destruct (add_column_law jobs_table c tb s) as (s' & ? & ?); [by apply holds_lookup|done..|].
  exists s'. split; [done|]. by eapply holds_update.
Qed.

(** Adding a column with a default for the existing rows only. *)
Lemma moves_filled_column n d tb :
  d ∈ [u"0"; u"3"] → n ∉ names tb →
  moves (add_column jobs_table (mkColumn n IntegerType false (Some d));;
         alter_column_default jobs_table n None) tb
    (with_column (mkColumn n IntegerType false None) (integer_default (Some d)) tb).
Proof.
  intros Hd Hn. eapply moves_bind.
  { apply moves_add_column; [done|]. right. split; [done|]. simpl. set_solver. }
  intros s Hs. destruct (alter_column_default_law jobs_table n None _ s (holds_lookup _ _ Hs))
    as (s' & Hrun & Hs').
  { unfold with_column; simpl. rewrite fmap_app. apply elem_of_app. right. by left. }
  exists s'. split; [done|]. eapply holds_update; [exact Hs|]. rewrite Hs'. f_equal.
  unfold with_default, with_column. cbn [table_columns table_key table_indexes table_rows column_name column_default].
  f_equal. rewrite fmap_app. f_equal.
  - symmetry. rewrite <- (list_fmap_id (table_columns tb)) at 1. apply list_fmap_ext.
    intros i c Hc. rewrite decide_False; [done|]. intros E. apply Hn. rewrite <- E.
    apply list_elem_of_fmap_2. by eapply list_elem_of_lookup_2.
  - simpl. by rewrite decide_True.
Qed.

Lemma moves_ensure c v m tb :
  (column_name c ∉ names tb → moves m tb (with_column c v tb)) →
  moves (unless (contains (column_name c) (names tb)) m) tb (ensure_column c v tb).
Proof.
  intros Hm. unfold unless, ensure_column, contains. case_bool_decide; [apply moves_ret|by apply Hm].
Qed.

(** ** Upgrading *)

Definition index_0001 (tb : Table) : Table :=
  add_index (ix "tenant_id") [u"tenant_id"] (add_index (ix "status") [u"status"]
    (add_index (ix "project_id") [u"project_id"] tb)).

Definition attempt_column : Column := column "attempt_count" IntegerType false.
Definition max_column : Column := column "max_attempts" IntegerType false.
Definition claimed_column : Column := column "claimed_at" (TimestampType true) true.

Definition columns_0002 (tb : Table) : Table :=
  ensure_column claimed_column JNull (ensure_column max_column (JInt 3)
    (ensure_column attempt_column (JInt 0) tb)).

Definition migrated (tb : Table) : Table :=
  add_index (ix "claimed_at") [u"claimed_at"] (columns_0002 (index_0001 tb)).

(** A table the migrations made in part, or [init_schema] made. *)
Record partial (tb : Table) : Prop := {
  partial_columns : ∃ cs, cs `sublist_of` new_columns ∧ table_columns tb ≡ₚ columns_0001 ++ cs;
  partial_key : table_key tb = [u"job_id"];
  partial_indexes : table_indexes tb ⊆ head_indexes;
}.

Lemma partial_names tb c : partial tb → c ∈ columns_0001 → column_name c ∈ names tb.
Proof.
  intros [(cs & _ & Hcs) _ _] Hc. apply list_elem_of_fmap_2. rewrite Hcs. apply elem_of_app. by left.
Qed.

Lemma contains_ensure n c v tb :
  n ≠ column_name c → contains n (names (ensure_column c v tb)) = contains n (names tb).
Proof.
  intros Hn. unfold ensure_column. destruct (contains (column_name c) _); [done|].
  unfold contains. apply bool_decide_ext. unfold names, with_column; simpl.
  rewrite fmap_app, elem_of_app. simpl. rewrite list_elem_of_singleton. tauto.
Qed.

Lemma ensure_in c v tb : column_name c ∈ names (ensure_column c v tb).
Proof.
  unfold ensure_column, contains. case_bool_decide; [done|]. unfold names, with_column; simpl.
  rewrite fmap_app. apply elem_of_app. right. by left.
Qed.

Lemma ensure_indexes c v tb : table_indexes (ensure_column c v tb) = table_indexes tb.
Proof. unfold ensure_column. by destruct (contains _ _). Qed.

Ltac index_name := apply (bool_decide_unpack _); vm_compute; exact I.

Lemma moves_index_0001 tb ns :
  partial tb → (∀ n, n ∈ ns ↔ is_Some (table_indexes tb !! n)) →
  moves (unless (contains (ix "project_id") ns) (create_index (ix "project_id") jobs_table [u"project_id"]);;
         unless (contains (ix "status") ns) (create_index (ix "status") jobs_table [u"status"]);;
         unless (contains (ix "tenant_id") ns) (create_index (ix "tenant_id") jobs_table [u"tenant_id"]))
    tb (index_0001 tb).
Proof.
  intros Hp Hns. pose proof (partial_indexes _ Hp) as Hsub.
  assert (∀ n cols tb1, head_indexes !! n = Some cols → table_indexes tb1 ⊆ head_indexes →
    table_indexes (add_index n cols tb1) ⊆ head_indexes) as Hstep
    by (intros; by apply insert_subseteq_l).
  assert (∀ c, c ∈ columns_0001 → [column_name c] ⊆ names tb) as Hcol.
  { intros c Hc n ->%list_elem_of_singleton. by apply partial_names. }
  eapply moves_bind; [apply moves_index; [done| |done|apply Hns]|].
  { apply (Hcol (column "project_id" (StringType 128) false)). index_name. }
  eapply moves_bind; [apply moves_index; [done| |by apply Hstep|]|].
  { apply (Hcol (column "status" (StringType 32) false)). index_name. }
  { cbn [table_indexes add_index]. rewrite lookup_insert_ne by index_name. apply Hns. }
  apply moves_index; [done| |by repeat apply Hstep|].
  { apply (Hcol (column "tenant_id" (StringType 128) false)). index_name. }
  { cbn [table_indexes add_index]. rewrite !lookup_insert_ne by index_name. apply Hns. }
Qed.

Lemma moves_upgrade_0002 tb :
  table_indexes tb ⊆ head_indexes →
  moves upgrade_0002 tb (add_index (ix "claimed_at") [u"claimed_at"] (columns_0002 tb)).
Proof.
  intros Hsub. unfold upgrade_0002. apply moves_columns.
  eapply moves_bind; [apply (moves_ensure attempt_column (JInt 0))|].
  { intros Hn. apply (moves_filled_column (u"attempt_count") (u"0")); [by left|done]. }
  rewrite <- (contains_ensure (u"max_attempts") attempt_column (JInt 0) tb) by index_name.
  eapply moves_bind; [apply (moves_ensure max_column (JInt 3))|].
  { intros Hn. apply (moves_filled_column (u"max_attempts") (u"3")); [right; by left|done]. }
  rewrite <- (contains_ensure (u"claimed_at") attempt_column (JInt 0) tb) by index_name.
  rewrite <- (contains_ensure (u"claimed_at") max_column (JInt 3)) by index_name.
  eapply moves_bind; [apply (moves_ensure claimed_column JNull)|].
  { intros Hn. apply (moves_add_column claimed_column); [done|by left]. }
  apply moves_indexes. intros ns Hns. apply moves_index; [index_name| | |apply Hns].
  - intros n ->%list_elem_of_singleton. apply (ensure_in claimed_column).
  - unfold columns_0002. by rewrite !ensure_indexes.
Qed.

Lemma moves_upgrade_0001 tb : partial tb → moves upgrade_0001 tb (index_0001 tb).
Proof.
  intros Hp s Hs. destruct (moves_indexes (λ ns,
    unless (contains (ix "project_id") ns) (create_index (ix "project_id") jobs_table [u"project_id"]);;
    unless (contains (ix "status") ns) (create_index (ix "status") jobs_table [u"status"]);;
    unless (contains (ix "tenant_id") ns) (create_index (ix "tenant_id") jobs_table [u"tenant_id"]))
    tb (index_0001 tb)) with s as (s' & Hrun & Hs'); [|done|].
  { intros ns Hns. by apply moves_index_0001. }
  exists s'. split; [|done]. unfold upgrade_0001. unfold mbind at 1, M_bind at 1.
  rewrite has_table_law, (holds_lookup _ _ Hs), bool_decide_eq_true_2 by eauto. exact Hrun.
Qed.

Lemma index_0001_indexes tb : partial tb → table_indexes (index_0001 tb) ⊆ head_indexes.
Proof. intros Hp. repeat apply insert_subseteq_l; [done..|]. apply (partial_indexes _ Hp). Qed.

Lemma moves_upgrade_head tb : partial tb → moves upgrade_head tb (migrated tb).
Proof.
  intros Hp. unfold upgrade_head. eapply moves_bind; [by apply moves_upgrade_0001|].
  by apply moves_upgrade_0002, index_0001_indexes.
Qed.

(** The columns that are missing are added at the end. *)
Lemma ensure_columns c v tb :
  table_columns (ensure_column c v tb)
  = table_columns tb ++ if contains (column_name c) (names tb) then [] else [c].
Proof. unfold ensure_column. destruct (contains _ _); simpl; [by rewrite app_nil_r|done]. Qed.

Lemma sublists_of_new cs :
  cs `sublist_of` new_columns →
  cs ∈ [[]; [attempt_column]; [max_column]; [claimed_column]; [attempt_column; max_column];
        [attempt_column; claimed_column]; [max_column; claimed_column]; new_columns].
Proof.
  unfold new_columns. fold attempt_column max_column claimed_column. intros Hcs.
  repeat match goal with
  | H : _ `sublist_of` _ |- _ => inversion H; clear H; subst
  end; set_solver.
Qed.

(** Every column is there once, and every index. *)
Lemma migrated_columns tb :
  partial tb → table_columns (migrated tb) ≡ₚ columns_0001 ++ new_columns.
Proof.
  intros [(cs & Hsub & Hcs) _ _].
  assert (∀ n, contains n (names tb) = contains n (column_name <$> columns_0001 ++ cs)) as Hc.
  { intros n. apply bool_decide_ext. unfold names. by rewrite Hcs. }
  unfold migrated, columns_0002. cbn [table_columns add_index].
  rewrite !ensure_columns, !contains_ensure by index_name.
  change (table_columns (index_0001 tb)) with (table_columns tb).
  change (names (index_0001 tb)) with (names tb). rewrite !Hc, Hcs, <- !app_assoc. f_equiv.
  apply sublists_of_new in Hsub.
  repeat (apply elem_of_cons in Hsub as [-> |Hsub]); [..|by apply not_elem_of_nil in Hsub].
  all: match goal with |- _ ≡ₚ ?r =>
    let l := match goal with |- ?l ≡ₚ _ => eval vm_compute in l end in
    let r := eval vm_compute in r in change (l ≡ₚ r) end; solve_Permutation.
Qed.

Lemma migrated_indexes tb : partial tb → table_indexes (migrated tb) = head_indexes.
Proof.
  intros [_ _ Hsub]. unfold migrated, columns_0002. cbn [table_indexes add_index].
  rewrite !ensure_indexes. apply (anti_symm (⊆)).
  - by repeat (apply insert_subseteq_l; [done|]).
  - unfold head_indexes, model_indexes, index_0001. rewrite <- insert_empty.
    rewrite (insert_insert_ne _ (ix "project_id")) by index_name. cbn [table_indexes add_index].
    repeat apply insert_mono. apply map_empty_subseteq.
Qed.

(** What a row of a table with the columns [ns] holds afterwards. *)
Definition filled (ns : list pystr) (row : gmap pystr json) : gmap pystr json :=
  let add n v row := if contains n ns then row else <[n := v]> row in
  add (u"claimed_at") JNull (add (u"max_attempts") (JInt 3) (add (u"attempt_count") (JInt 0) row)).

Lemma ensure_rows c v tb :
  table_rows (ensure_column c v tb)
  = (λ row, if contains (column_name c) (names tb) then row else <[column_name c := v]> row)
      <$> table_rows tb.
Proof. unfold ensure_column. destruct (contains _ _); [by rewrite list_fmap_id|done]. Qed.

Lemma migrated_rows tb : table_rows (migrated tb) = filled (names tb) <$> table_rows tb.
Proof.
  unfold migrated, columns_0002. cbn [table_rows add_index].
  rewrite !ensure_rows, !contains_ensure by index_name. rewrite <- !list_fmap_compose. done.
Qed.

Lemma migrated_key tb : table_key (migrated tb) = table_key tb.
Proof. unfold migrated, columns_0002, ensure_column. by repeat case_match. Qed.

(** The table at the head. *)
Definition head_table (rows : list (gmap pystr json)) : Table :=
  mkTable (columns_0001 ++ new_columns) [u"job_id"] head_indexes rows.

Lemma migrated_head tb : partial tb → migrated tb ≡ head_table (filled (names tb) <$> table_rows tb).
Proof.
  intros Hp. split_and!; [by apply migrated_columns| |by apply migrated_indexes|by apply migrated_rows].
  rewrite migrated_key. apply (partial_key _ Hp).
Qed.

(** Upgrading to the head converges: whatever part of the columns and indexes already
    exists, be it by earlier migrations or by [init_schema], both migrations succeed and
    leave one and the same table, up to the order of its columns, with every index; no row
    is lost, and each gets the defaults of exactly the columns it lacked.  The rest of the
    schema is untouched. *)
Theorem upgrade_converges (tb : Table) (s : D) :
  schema s = <[jobs_table := tb]> S0 → partial tb →
  ∃ s' tb', upgrade_head s = (Ok tt, s') ∧ schema s' = <[jobs_table := tb']> S0
            ∧ tb' ≡ head_table (filled (names tb) <$> table_rows tb).
Proof.
  intros Hs Hp. destruct (moves_upgrade_head tb Hp s Hs) as (s' & Hrun & Hs').
  exists s', (migrated tb). split_and!; [done|done|by apply migrated_head].
Qed.

(** *** From nothing *)

Definition empty_0001 : Table := mkTable columns_0001 [u"job_id"] ∅ [].
Definition model_table : Table := mkTable model_columns [u"job_id"] model_indexes [].

Lemma partial_empty : partial empty_0001.
Proof.
  constructor; [|done|by apply map_empty_subseteq]. exists []. split; [apply sublist_nil_l|done].
Qed.
Lemma partial_model : partial model_table.
Proof.
  constructor; [|done|by apply insert_subseteq].
  exists new_columns. split; [done|]. unfold model_table, model_columns, columns_0001, new_columns.
  cbn [table_columns app]. solve_Permutation.
Qed.

Context (Hnone : S0 !! jobs_table = None).

(** Upgrading a schema without the table creates it first. *)
Lemma upgrade_0001_absent s :
  schema s = S0 → ∃ s', upgrade_0001 s = (Ok tt, s') ∧ holds_table (index_0001 empty_0001) s'.
Proof.
  intros Hs. destruct (create_table_law jobs_table columns_0001 [u"job_id"] s) as (s1 & Hrun & Hs1);
    [by rewrite Hs|]. rewrite Hs in Hs1.
  destruct (moves_upgrade_0001 empty_0001 partial_empty s1 Hs1) as (s2 & Hrun2 & Hs2).
  exists s2. split; [|done]. revert Hrun2. unfold upgrade_0001, mbind, M_bind, unless.
  rewrite !has_table_law, Hs, Hs1, Hnone, lookup_insert_eq, bool_decide_eq_true_2 by eauto.
  rewrite bool_decide_eq_false_2 by (by intros []). by rewrite Hrun.
Qed.

Lemma upgrade_absent s :
  schema s = S0 →
  ∃ s', upgrade_head s = (Ok tt, s') ∧ holds_table (migrated empty_0001) s'.
Proof.
  intros Hs. destruct (upgrade_0001_absent s Hs) as (s1 & Hrun1 & Hs1).
  destruct (moves_upgrade_0002 _ (index_0001_indexes _ partial_empty) s1 Hs1) as (s2 & Hrun2 & Hs2).
  exists s2. split; [|done]. unfold upgrade_head, mbind, M_bind. by rewrite Hrun1.
Qed.

Lemma model_no_claimed : model_indexes !! ix "claimed_at" = None.
Proof.
  unfold model_indexes. rewrite !lookup_insert_ne by index_name. by rewrite lookup_singleton_ne by index_name.
Qed.

Lemma init_absent s :
  schema s = S0 → ∃ s', init_schema s = (Ok tt, s') ∧ holds_table model_table s'.
Proof.
  intros Hs. destruct (create_all_law jobs_table model_columns [u"job_id"] model_indexes s) as (s' & Hrun & Hs').
  - intros _ t' tb' n Ht' Hn. rewrite Hs in Ht'. apply (Hclean t'); [done|congruence|].
    destruct Hn as [cols Hn]. exists cols. unfold head_indexes. rewrite lookup_insert_ne; [done|].
    intros <-. by rewrite model_no_claimed in Hn.
  - exists s'. split; [done|]. unfold holds_table. by rewrite Hs', Hs, Hnone.
Qed.

Lemma init_present tb : moves init_schema tb tb.
Proof.
  intros s Hs. pose proof (holds_lookup _ _ Hs) as Hl.
  destruct (create_all_law jobs_table model_columns [u"job_id"] model_indexes s) as (s' & Hrun & Hs').
  - by rewrite Hl.
  - exists s'. split; [done|]. unfold holds_table. rewrite Hs', Hl. exact Hs.
Qed.

(** C39: the ways to set up the schema agree: migrating an empty database, and creating the
    tables from the model first and migrating then, lead to the same table up to the order
    of its columns, and creating the tables after the migrations changes nothing.  The
    table the model declares has the columns of the migrated one, but lacks the index on
    [claimed_at]. *)
Theorem schema_paths_agree (s : D) :
  schema s = S0 →
  ∃ s1 s2 s3 tb1 tb2,
    upgrade_head s = (Ok tt, s1) ∧ schema s1 = <[jobs_table := tb1]> S0
    ∧ (init_schema;; upgrade_head) s = (Ok tt, s2) ∧ schema s2 = <[jobs_table := tb2]> S0
    ∧ tb1 ≡ tb2
    ∧ (upgrade_head;; init_schema) s = (Ok tt, s3) ∧ schema s3 = schema s1
    ∧ tb1 ≡ add_index (ix "claimed_at") [u"claimed_at"] model_table
    ∧ table_indexes model_table !! ix "claimed_at" = None.
Proof.
  intros Hs. destruct (upgrade_absent s Hs) as (s1 & Hrun1 & Hs1).
  destruct (init_absent s Hs) as (s1' & Hinit & Hs1').
  destruct (moves_upgrade_head _ partial_model s1' Hs1') as (s2 & Hrun2 & Hs2).
  destruct (init_present _ s1 Hs1) as (s3 & Hrun3 & Hs3).
  pose proof (migrated_head _ partial_empty) as He. pose proof (migrated_head _ partial_model) as Hm.
  exists s1, s2, s3, (migrated empty_0001), (migrated model_table).
  unfold mbind, M_bind. rewrite Hinit, Hrun1.
  split; [done|]. split; [exact Hs1|]. split; [done|]. split; [exact Hs2|].
  split; [etrans; [exact He|symmetry; exact Hm]|]. split; [done|].
  split; [exact (eq_trans Hs3 (eq_sym Hs1))|].
  split; [|apply model_no_claimed]. rewrite He. split; [|by split_and!]. simpl.
  unfold model_columns, columns_0001, new_columns. cbn [app]. solve_Permutation.
Qed.

(** ** Downgrading *)

(** Nothing in the table is called like column [c]. *)
Record lacks (c : Column) (tb : Table) : Prop := {
  lacks_column : column_name c ∉ names tb;
  lacks_cells : Forall (λ row, row !! column_name c = None) (table_rows tb);
  lacks_indexes : map_Forall (λ _ cols, column_name c ∉ cols) (table_indexes tb);
}.

Lemma lacks_with c c' v tb :
  column_name c ≠ column_name c' → lacks c tb → lacks c (with_column c' v tb).
Proof.
  intros Hne [Hn Hrows Hidx]. constructor; [| |done]; unfold names, with_column; simpl.
  - rewrite fmap_app, elem_of_app. intros [?|?%list_elem_of_singleton]; done.
  - apply Forall_fmap. eapply Forall_impl; [exact Hrows|]. intros row Hrow. simpl.
    by rewrite lookup_insert_ne.
Qed.

Lemma ensure_lacking c v tb : lacks c tb → ensure_column c v tb = with_column c v tb.
Proof. intros [Hn _ _]. unfold ensure_column, contains. by rewrite bool_decide_eq_false_2. Qed.

Lemma without_appended c tb v :
  lacks c tb → without_column (column_name c) (with_column c v tb) = tb.
Proof.
  intros [Hn Hrows Hidx]. unfold without_column, with_column.
  cbn [table_columns table_key table_indexes table_rows]. destruct tb as [cols key idx rows]. simpl in *. f_equal.
  - rewrite filter_app, filter_cons_False by (by intros Hne). rewrite filter_nil, app_nil_r.
    apply filter_keeps, Forall_forall. intros c' Hc' E. apply Hn. rewrite <- E.
    by apply list_elem_of_fmap_2.
  - apply map_filter_id. intros n cols' Hcols. exact (Hidx n cols' Hcols).
  - rewrite <- list_fmap_compose. rewrite <- (list_fmap_id rows) at 2. apply list_fmap_ext.
    intros k row Hrow. simpl. rewrite delete_insert_id; [done|].
    eapply Forall_lookup_1 in Hrows; [exact Hrows|exact Hrow].
Qed.

Lemma moves_drop_appended c v tb :
  lacks c tb → column_name c ∉ table_key tb →
  moves (drop_column jobs_table (column_name c)) (with_column c v tb) tb.
Proof.
  intros Hl Hk. pose proof (moves_drop_column (column_name c) (with_column c v tb)) as Hm.
  rewrite without_appended in Hm by done. apply Hm; [|done].
  unfold names, with_column; simpl. rewrite fmap_app. apply elem_of_app. right. by left.
Qed.

Lemma moves_drop_added n cols tb :
  table_indexes tb !! n = None → moves (drop_index n jobs_table) (add_index n cols tb) tb.
Proof.
  intros Hn. pose proof (moves_drop_index n (add_index n cols tb)) as Hm.
  unfold remove_index, add_index in *. simpl in *. rewrite delete_insert_id in Hm by done.
  destruct tb. apply Hm. rewrite lookup_insert_eq. by eexists.
Qed.

(** The second migration, undone. *)
Lemma moves_downgrade_0002 tb :
  table_key tb = [u"job_id"] → Forall (λ c, lacks c tb) new_columns →
  table_indexes tb !! ix "claimed_at" = None →
  moves downgrade_0002 (add_index (ix "claimed_at") [u"claimed_at"] (columns_0002 tb)) tb.
Proof.
  intros Hk Hl Hix. assert (∀ c, c ∈ new_columns → column_name c ∉ table_key tb) as Hkey.
  { intros c Hc. rewrite Hk. revert c Hc. apply Forall_forall. apply (bool_decide_unpack _). vm_compute. exact I. }
  unfold new_columns in Hl. fold attempt_column max_column claimed_column in Hl.
  apply Forall_cons in Hl as [Ha Hl]. apply Forall_cons in Hl as [Hm Hl]. apply Forall_cons in Hl as [Hc _].
  unfold columns_0002. rewrite (ensure_lacking attempt_column) by done.
  assert (lacks max_column (with_column attempt_column (JInt 0) tb)) as Hm1 by (apply lacks_with; [index_name|done]).
  rewrite (ensure_lacking max_column) by done.
  assert (lacks claimed_column (with_column max_column (JInt 3) (with_column attempt_column (JInt 0) tb))) as Hc1
    by (repeat (apply lacks_with; [index_name|]); done).
  rewrite (ensure_lacking claimed_column) by done.
  eapply moves_bind; [by apply moves_drop_added|].
  eapply moves_bind; [apply (moves_drop_appended claimed_column); [done|apply Hkey; right; right; by left]|].
  eapply moves_bind; [apply (moves_drop_appended max_column); [done|apply Hkey; right; by left]|].
  apply (moves_drop_appended attempt_column); [done|apply Hkey; by left].
Qed.

(** The first migration, undone: the table is gone. *)
Lemma downgrade_0001_drops tb s :
  holds_table tb s → is_Some (table_indexes tb !! ix "tenant_id") →
  is_Some (table_indexes tb !! ix "status") → is_Some (table_indexes tb !! ix "project_id") →
  ∃ s', downgrade_0001 s = (Ok tt, s') ∧ schema s' = S0.
Proof.
  intros Hs Ht Hst Hp. destruct (moves_drop_index _ _ Ht s Hs) as (s1 & Hrun1 & Hs1).
  destruct (moves_drop_index (ix "status") (remove_index (ix "tenant_id") tb)) with s1 as (s2 & Hrun2 & Hs2);
    [simpl; by rewrite lookup_delete_ne by index_name|done|].
  destruct (moves_drop_index (ix "project_id") (remove_index (ix "status") (remove_index (ix "tenant_id") tb)))
    with s2 as (s3 & Hrun3 & Hs3); [simpl; by rewrite !lookup_delete_ne by index_name|done|].
  destruct (drop_table_law jobs_table _ s3 (holds_lookup _ _ Hs3)) as (s4 & Hrun4 & Hs4).
  exists s4. unfold downgrade_0001, mbind, M_bind. rewrite Hrun1, Hrun2, Hrun3. split; [done|].
  rewrite Hs4. unfold holds_table in Hs3. by rewrite Hs3, delete_insert_id.
Qed.

Lemma lacks_new_0001 : Forall (λ c, lacks c (index_0001 empty_0001)) new_columns.
Proof.
  assert (∀ c, column_name c ∉ names empty_0001 →
    column_name c ∉ [u"tenant_id"; u"status"; u"project_id"] → lacks c (index_0001 empty_0001)) as Hl.
  { intros c Hn Hi. constructor; [done|done|]. unfold index_0001. cbn [table_indexes add_index empty_0001].
    repeat (apply map_Forall_insert_2; [intros E%list_elem_of_singleton; apply Hi; rewrite E; set_solver|]).
    apply map_Forall_empty. }
  repeat apply Forall_cons_2; [apply Hl; index_name..|constructor].
Qed.

(** The downgrades undo the upgrades.  After the second migration on a table as the
    first one leaves it, with any rows, its downgrade restores the table with its rows;
    and after both migrations on a schema without the table, both downgrades restore the
    schema. *)
Theorem downgrade_undoes (tb : Table) (s s0 : D) :
  schema s = <[jobs_table := tb]> S0 → table_key tb = [u"job_id"] →
  table_indexes tb ⊆ head_indexes → table_indexes tb !! ix "claimed_at" = None →
  Forall (λ c, lacks c tb) new_columns → schema s0 = S0 →
  (∃ s', (upgrade_0002;; downgrade_0002) s = (Ok tt, s') ∧ schema s' = schema s)
  ∧ (∃ s', (upgrade_head;; downgrade_base) s0 = (Ok tt, s') ∧ schema s' = schema s0).
Proof.
  intros Hs Hk Hsub Hix Hl Hs0. split.
  - destruct (moves_bind _ _ _ _ _ (moves_upgrade_0002 _ Hsub) (moves_downgrade_0002 _ Hk Hl Hix) s Hs)
      as (s' & Hrun & Hs'). exists s'. split; [done|]. by rewrite Hs', Hs.
  - destruct (upgrade_absent s0 Hs0) as (s1 & Hrun1 & Hs1).
    destruct (moves_downgrade_0002 (index_0001 empty_0001)) with s1 as (s2 & Hrun2 & Hs2);
      [done|apply lacks_new_0001| |exact Hs1|].
    { unfold index_0001. cbn [table_indexes add_index empty_0001].
      rewrite !lookup_insert_ne by index_name. apply lookup_empty. }
    destruct (downgrade_0001_drops _ _ Hs2) as (s3 & Hrun3 & Hs3);
      [unfold index_0001; cbn [table_indexes add_index];
       rewrite ?lookup_insert_ne by index_name; rewrite lookup_insert_eq; by eexists..|].
    exists s3. unfold downgrade_base, mbind, M_bind. rewrite Hrun1, Hrun2. split; [exact Hrun3|congruence].
Qed.
End Laws.

(** ** A database that is nothing but its schema *)

Definition refused_statement : exn := StorageExn (u"the statement was refused").

Definition on_table (t : pystr) (f : Table → res Table) : M Schema unit := λ s,
  match s !! t with
  | Some tb => match f tb with Ok tb' => (Ok tt, <[t := tb']> s) | Raise e => (Raise e, s) end
  | None => (Raise refused_statement, s)
  end.

Definition ask_table {A} (t : pystr) (f : Table → A) : M Schema A := λ s,
  (match s !! t with Some tb => Ok (f tb) | None => Raise refused_statement end, s).

#[export] Instance plain_alembic : Alembic Schema := {|
  has_table t s := (Ok (bool_decide (is_Some (s !! t))), s);
  get_columns t := ask_table t names;
  get_indexes t := ask_table t (λ tb, (map_to_list (table_indexes tb)).*1);
  create_table t cols key s :=
    match s !! t with
    | Some _ => (Raise refused_statement, s)
    | None => (Ok tt, <[t := mkTable cols key ∅ []]> s)
    end;
  drop_table t s :=
    match s !! t with Some _ => (Ok tt, delete t s) | None => (Raise refused_statement, s) end;
  create_index n t cols := on_table t (λ tb, Ok (add_index n cols tb));
  drop_index n t := on_table t (λ tb, Ok (remove_index n tb));
  add_column t c := on_table t (λ tb, Ok (with_column c (integer_default (column_default c)) tb));
  alter_column_default t n d := on_table t (λ tb, Ok (with_default n d tb));
  drop_column t n := on_table t (λ tb, Ok (without_column n tb));
  create_all t cols key idx s :=
    match s !! t with
    | Some _ => (Ok tt, s)
    | None => (Ok tt, <[t := mkTable cols key idx []]> s)
    end;
|}.

Lemma on_table_run t f tb tb' s :
  s !! t = Some tb → f tb = Ok tb' → ∃ s', on_table t f s = (Ok tt, s') ∧ s' = <[t := tb']> s.
Proof. intros Hs Hf. eexists. unfold on_table. by rewrite Hs, Hf. Qed.

#[export] Instance plain_laws : AlembicLaws Schema.
Proof.
  refine {| schema := id |}; unfold id; cbn; intros.
  - done.
  - unfold ask_table. by rewrite H.
  - unfold ask_table. rewrite H. eexists. split; [done|]. intros n. rewrite list_elem_of_fmap. split.
    + intros ([n' cols] & -> & Hin%elem_of_map_to_list). by eexists.
    + intros [cols Hin]. exists (n, cols). split; [done|]. by apply elem_of_map_to_list.
  - rewrite H. by eexists.
  - rewrite H. by eexists.
  - by eapply on_table_run.
  - by eapply on_table_run.
  - by eapply on_table_run.
  - by eapply on_table_run.
  - by eapply on_table_run.
  - destruct (s !! t); by eexists.
Defined.

(** One row, as the first migration left it. *)
Definition old_row : gmap pystr json :=
  {[ u"job_id" := JStr (u"j"); u"status" := JStr (u"queued") ]}.
Definition old_table : Table :=
  mkTable columns_0001 [u"job_id"] model_indexes [old_row].

Lemma old_partial : partial old_table.
Proof.
  constructor; [|done|by apply insert_subseteq]. exists []. split; [apply sublist_nil_l|done].
Qed.

Lemma upgrade_converges_witness :
  ∃ s' tb', upgrade_head ({[ jobs_table := old_table ]} : Schema) = (Ok tt, s')
            ∧ s' !! jobs_table = Some tb' ∧ table_indexes tb' = head_indexes
            ∧ (λ row, row !! (u"max_attempts" : pystr)) <$> table_rows tb' = [Some (JInt 3)].
Proof.
  destruct (upgrade_converges ∅ ltac:(intros t tb n Ht; rewrite lookup_empty in Ht; discriminate)
    old_table ({[ jobs_table := old_table ]} : Schema)) as (s' & tb' & Hrun & Hs & Htb).
  - reflexivity.
  - exact old_partial.
  - exists s', tb'. split; [exact Hrun|]. change (schema s') with s' in Hs. rewrite Hs.
    split; [apply lookup_insert_eq|]. destruct Htb as (_ & _ & Hi & Hr). split; [exact Hi|].
    rewrite Hr. vm_compute. reflexivity.
Defined.

Lemma schema_paths_agree_witness :
  ∃ s1 s2 : Schema, upgrade_head (∅ : Schema) = (Ok tt, s1)
    ∧ (init_schema;; upgrade_head) (∅ : Schema) = (Ok tt, s2) ∧ s1 !! jobs_table ≡ s2 !! jobs_table.
Proof.
  destruct (schema_paths_agree ∅ ltac:(intros t tb n Ht; rewrite lookup_empty in Ht; discriminate)
    (lookup_empty _) (∅ : Schema)) as (s1 & s2 & s3 & tb1 & tb2 & Hr1 & Hs1 & Hr2 & Hs2 & He & _).
  - reflexivity.
  - exists s1, s2. split; [exact Hr1|]. split; [exact Hr2|].
    change (schema s1) with s1 in Hs1. change (schema s2) with s2 in Hs2.
    rewrite Hs1, Hs2, !lookup_insert_eq. constructor. exact He.
Defined.

Lemma downgrade_undoes_witness :
  ∃ s', (upgrade_0002;; downgrade_0002) ({[ jobs_table := old_table ]} : Schema) = (Ok tt, s')
        ∧ s' !! jobs_table = Some old_table.
Proof.
  destruct (downgrade_undoes ∅ ltac:(intros t tb n Ht; rewrite lookup_empty in Ht; discriminate)
    (lookup_empty _) old_table ({[ jobs_table := old_table ]} : Schema) (∅ : Schema)) as [(s' & Hrun & Hs) _].
  - reflexivity.
  - reflexivity.
  - apply (partial_indexes _ old_partial).
  - apply model_no_claimed.
  - repeat apply Forall_cons_2; [| | |apply Forall_nil_2]; (constructor; apply (bool_decide_unpack _); vm_compute; exact I).
  - reflexivity.
  - exists s'. split; [exact Hrun|]. change (schema s') with s' in Hs. rewrite Hs. reflexivity.
Defined.
