(* ===== verification/Metrics.v ===== *)
(** The metrics registry of [app/core/metrics.py] and its Prometheus text format. *)
From S2P Require Export Errors PyFloat.

(** ** The registry *)

(** A label set is the sorted tuple of a labels mapping. *)
Definition LabelSet := list (pystr * pystr).
Definition MetricKey := (pystr * LabelSet)%type.

#[export] Instance MetricKey_eq_dec : EqDecision MetricKey.
Proof. solve_decision. Defined.
#[export] Instance MetricKey_countable : Countable MetricKey := prod_countable.

(** [_values]; the metadata table never changes and is [metadata] below. *)
Record MetricsRegistry := mkMetrics { _values : gmap MetricKey float }.

Definition metadata (name : pystr) : option (pystr * pystr) :=
  dict_get name
    [(u"http_requests_total", (u"counter", u"HTTP requests handled by the API."));
     (u"http_request_duration_seconds_count",
       (u"counter", u"HTTP request duration observation count."));
     (u"http_request_duration_seconds_sum",
       (u"counter", u"Total observed HTTP request duration in seconds."));
     (u"evaluation_jobs_total", (u"counter", u"Evaluation jobs by terminal or queued status."));
     (u"evaluation_scoring_duration_seconds_count",
       (u"counter", u"Evaluation scoring duration observation count."));
     (u"evaluation_scoring_duration_seconds_sum",
       (u"counter", u"Total observed evaluation scoring duration in seconds."));
     (u"evaluation_worker_recovered_jobs_total",
       (u"counter", u"Stale running jobs recovered by workers."));
     (u"evaluation_queue_depth",
       (u"gauge", u"In-memory evaluation jobs waiting to be processed."))].

Definition label_leb : pystr * pystr → pystr * pystr → bool := pair_leb str_leb str_leb.

Definition _label_set (labels : option (list (pystr * pystr))) : LabelSet :=
  match labels with
  | None => []
  | Some l => sort_by label_leb l
  end.

(** [self._values[key] += amount] on a [defaultdict(float)]. *)
Definition increment (name : pystr) (labels : option (list (pystr * pystr))) (amount : float)
    (r : MetricsRegistry) : MetricsRegistry :=
  let key := (name, _label_set labels) in
  mkMetrics (<[key := float_add (default (S754_zero false) (_values r !! key)) amount]> (_values r)).

Definition set_gauge (name : pystr) (value : float) (labels : option (list (pystr * pystr)))
    (r : MetricsRegistry) : MetricsRegistry :=
  mkMetrics (<[(name, _label_set labels) := value]> (_values r)).

Definition observe_duration (name : pystr) (seconds : float) (labels : list (pystr * pystr))
    (r : MetricsRegistry) : MetricsRegistry :=
  increment (name ++ u"_sum") (Some labels) seconds
    (increment (name ++ u"_count") (Some labels) (float_of 1) r).

(** ** Rendering *)

(** [value.replace("\", "\\").replace(newline, "\n").replace(quote, "\quote")]. *)
Definition _escape_label (value : pystr) : pystr :=
  replace_char 34 [92; 34]%N (replace_char 10 [92; 110]%N (replace_char 92 [92; 92]%N value)).

Definition _format_labels (labels : LabelSet) : pystr :=
  match labels with
  | [] => []
  | _ => u"{" ++ join (u",") ((λ '(k, v), k ++ u"=" ++ [34%N] ++ _escape_label v ++ [34%N]) <$> labels)
         ++ u"}"
  end.

Definition key_leb : MetricKey → MetricKey → bool := pair_leb str_leb (tuple_leb label_leb).

(** [sorted({metric_name for metric_name, _ in values})]. *)
Definition metric_names (values : gmap MetricKey float) : list pystr :=
  sort_by str_leb (elements (list_to_set ((λ p, p.1.1) <$> map_to_list values) : gset pystr)).

(** The samples of one metric, in the order [sorted(values.items())] gives them. *)
Definition samples_of (values : gmap MetricKey float) (name : pystr) : list (MetricKey * float) :=
  filter (λ p, p.1.1 = name) (sort_by (λ p q, key_leb p.1 q.1) (map_to_list values)).

Definition sample_line (p : MetricKey * float) : pystr :=
  p.1.1 ++ _format_labels p.1.2 ++ u" " ++ format_g p.2.

Definition metric_lines (values : gmap MetricKey float) (name : pystr) : list pystr :=
  let '(metric_type, help_text) := default (u"gauge", name) (metadata name) in
  (u"# HELP " ++ name ++ u" " ++ help_text) :: (u"# TYPE " ++ name ++ u" " ++ metric_type)
  :: (sample_line <$> samples_of values name).

Definition render_prometheus (r : MetricsRegistry) : pystr :=
  join [10%N] ((metric_names (_values r) ≫= metric_lines (_values r)) ++ [[]]).

(** ** The recording functions *)

Definition record_http_request (method route : pystr) (status : Z) (duration : float)
    (r : MetricsRegistry) : MetricsRegistry :=
  let labels := [(u"method", method); (u"route", route); (u"status_code", str_of_Z status)] in
  observe_duration (u"http_request_duration_seconds") duration labels
    (increment (u"http_requests_total") (Some labels) (float_of 1) r).

Definition record_job_status (status : pystr) (r : MetricsRegistry) : MetricsRegistry :=
  increment (u"evaluation_jobs_total") (Some [(u"status", status)]) (float_of 1) r.

Definition record_scoring_duration (duration : float) (r : MetricsRegistry) : MetricsRegistry :=
  observe_duration (u"evaluation_scoring_duration_seconds") duration [] r.

Definition record_worker_recovered_jobs (count : Z) (r : MetricsRegistry) : MetricsRegistry :=
  increment (u"evaluation_worker_recovered_jobs_total") None (float_of count) r.

Definition record_queue_depth (depth : Z) (r : MetricsRegistry) : MetricsRegistry :=
  set_gauge (u"evaluation_queue_depth") (float_of (depth `max` 0)) None r.

Example render_ex :
  render_prometheus (record_queue_depth 3 (record_job_status (u"queued") (mkMetrics ∅)))
  = join [10%N]
      [u"# HELP evaluation_jobs_total Evaluation jobs by terminal or queued status.";
       u"# TYPE evaluation_jobs_total counter";
       u"evaluation_jobs_total{status=" ++ [34%N] ++ u"queued" ++ [34%N] ++ u"} 1";
       u"# HELP evaluation_queue_depth In-memory evaluation jobs waiting to be processed.";
       u"# TYPE evaluation_queue_depth gauge";
       u"evaluation_queue_depth 3"; []].
Proof. vm_compute. reflexivity. Qed.
