(* ===== verification/Counting.v ===== *)
(** What the counters of [app/core/metrics.py] count: sums of integers in IEEE doubles are exact
    up to [2 ^ 53], where a counter stops. *)
From S2P Require Export Metrics.

(** ** Integers as doubles *)

Section Doubles.
#[local] Open Scope Z_scope.
Notation dbl k p := (Nat.iter k xO p).
Notation digits p := (Z.pos (digits2_pos p)).

Lemma iter_pos_nat {A} (f : A → A) n x : SpecFloat.iter_pos f n x = Nat.iter (Pos.to_nat n) f x.
Proof.
  revert x. induction n as [n IH|n IH|]; intros x; cbn [SpecFloat.iter_pos].
  - rewrite !IH, <- Nat.iter_add, <- Nat.iter_succ_r, Pos2Nat.inj_xI. f_equal. lia.
  - rewrite !IH, Pos2Nat.inj_xO, <- Nat.iter_add. f_equal. lia.
  - done.
Qed.

Lemma dbl_dbl j k p : dbl j (dbl k p) = dbl (j + k)%nat p.
Proof. by rewrite Nat.iter_add. Qed.

Lemma dbl_add k p q : (dbl k p + dbl k q)%positive = dbl k (p + q)%positive.
Proof. induction k as [|k IH]; [done|]. simpl. by rewrite <- IH. Qed.

Lemma digits_dbl k p : digits (dbl k p) = digits p + Z.of_nat k.
Proof. induction k as [|k IH]; simpl Nat.iter; [lia|]. simpl digits2_pos. lia. Qed.

Lemma digits_bounds p : 2 ^ (digits p - 1) ≤ Z.pos p < 2 ^ digits p.
Proof.
  induction p as [p IH|p IH|]; [| |done]; simpl digits2_pos;
    rewrite Pos2Z.inj_succ, Z.pow_succ_r by done; rewrite Z.sub_1_r, Z.pred_succ;
    replace (digits p) with (Z.succ (digits p - 1)) at 1 by lia;
    rewrite Z.pow_succ_r by (pose proof (Pos2Z.is_pos (digits2_pos p)); lia); lia.
Qed.

Lemma digits_small p : Z.pos p < 2 ^ 53 → digits p ≤ 53.
Proof.
  intros Hp. destruct (Z.le_gt_cases (digits p) 53) as [|Hd]; [done|]. exfalso.
  pose proof (digits_bounds p) as [Hb _]. assert (2 ^ 53 ≤ 2 ^ (digits p - 1)) by (apply Z.pow_le_mono_r; lia). lia.
Qed.

Lemma shr_zeros k p e :
  shr (Build_shr_record (Z.pos (dbl k p)) false false) e (Z.of_nat k)
  = (Build_shr_record (Z.pos p) false false, e + Z.of_nat k).
Proof.
  assert (Nat.iter k shr_1 (Build_shr_record (Z.pos (dbl k p)) false false)
          = Build_shr_record (Z.pos p) false false) as Hk.
  { induction k as [|k IH]; [done|]. rewrite Nat.iter_succ_r. exact IH. }
  unfold shr. destruct k as [|k]; [simpl; by rewrite Z.add_0_r|].
  destruct (Z.of_nat (S k)) as [|n|n] eqn:En; [lia| |lia].
  rewrite iter_pos_nat. replace (Pos.to_nat n) with (S k) by lia. by rewrite Hk.
Qed.

(** Rounding a mantissa that is 53 digits and zeros. *)
Lemma round_aux_zeros k p e :
  digits p = 53 → -1074 ≤ e + Z.of_nat k ≤ 971 →
  binary_round_aux 53 1024 false (Z.pos (dbl k p)) e loc_Exact = S754_finite false p (e + Z.of_nat k).
Proof.
  intros Hp He. unfold binary_round_aux, shr_fexp, shr_record_of_loc, Zdigits2, fexp, emin.
  rewrite digits_dbl, Hp.
  replace (Z.max (53 + Z.of_nat k + e - 53) (3 - 1024 - 53) - e) with (Z.of_nat k) by lia.
  rewrite shr_zeros. cbn [shr_m shr_r shr_s loc_of_shr_record round_nearest_even]. rewrite Hp.
  replace (Z.max (53 + (e + Z.of_nat k) - 53) (3 - 1024 - 53) - (e + Z.of_nat k)) with 0 by lia.
  cbn [shr shr_m]. by rewrite (proj2 (Z.leb_le _ _)) by lia.
Qed.

Lemma shl_align_dbl m e e' : e' ≤ e → fst (shl_align m e e') = dbl (Z.to_nat (e - e')) m.
Proof.
  intros He. unfold shl_align. destruct (e' - e) as [|d|d] eqn:E; [|lia|].
  - by replace (e - e') with 0 by lia.
  - replace (e - e') with (Z.pos d) by lia. cbn [fst]. by rewrite Pos2Nat.inj_iter.
Qed.

(** An integer of at most 53 digits and a power of two, the doubles way. *)
Lemma round_integer K m :
  digits m ≤ 53 → Z.of_nat K ≤ 52 →
  binary_round 53 1024 false (dbl K m) (- Z.of_nat K)
  = S754_finite false (dbl (Z.to_nat (53 - digits m)) m) (digits m - 53).
Proof.
  intros Hm HK. unfold binary_round, fexp, emin. rewrite digits_dbl.
  replace (Z.max (digits m + Z.of_nat K + - Z.of_nat K - 53) (3 - 1024 - 53)) with (digits m - 53) by lia.
  destruct (Z.le_gt_cases (digits m + Z.of_nat K) 53) as [Hle|Hgt].
  - pose proof (shl_align_dbl (dbl K m) (- Z.of_nat K) (digits m - 53) ltac:(lia)) as Hs.
    destruct (shl_align _ _ _) as [mz ez] eqn:E. cbn [fst] in Hs. subst mz.
    assert (ez = digits m - 53) as ->.
    { unfold shl_align in E. destruct (digits m - 53 - - Z.of_nat K) eqn:Ed; simplify_eq; lia. }
    rewrite dbl_dbl. replace (Z.to_nat _ + K)%nat with (Z.to_nat (53 - digits m)) by lia.
    transitivity (S754_finite false (dbl (Z.to_nat (53 - digits m)) m) (digits m - 53 + Z.of_nat 0));
      [apply (round_aux_zeros 0); [rewrite digits_dbl; lia|lia]|f_equal; lia].
  - assert (shl_align (dbl K m) (- Z.of_nat K) (digits m - 53) = (dbl K m, - Z.of_nat K)) as ->.
    { unfold shl_align. destruct (digits m - 53 - - Z.of_nat K) eqn:Ed; [done|done|lia]. }
    replace (dbl K m) with (dbl (Z.to_nat (digits m + Z.of_nat K - 53)) (dbl (Z.to_nat (53 - digits m)) m))
      by (rewrite dbl_dbl; f_equal; lia).
    rewrite round_aux_zeros; [f_equal; lia|rewrite digits_dbl; lia|lia].
Qed.

Lemma float_of_pos m :
  Z.pos m < 2 ^ 53 →
  float_of (Z.pos m) = S754_finite false (dbl (Z.to_nat (53 - digits m)) m) (digits m - 53).
Proof. intros Hm. apply (round_integer 0 m (digits_small m Hm)). lia. Qed.

(** Sums of integers below [2 ^ 53] are exact. *)
Lemma float_add_of a b :
  0 ≤ a → 0 ≤ b → a + b < 2 ^ 53 → float_add (float_of a) (float_of b) = float_of (a + b).
Proof.
  intros Ha Hb Hab. destruct a as [|a|a]; [|destruct b as [|b|b]; [| |lia]|lia].
  { destruct b as [|b|b]; [done| |lia]. change (0 + Z.pos b) with (Z.pos b). rewrite float_of_pos by lia. reflexivity. }
  { rewrite Z.add_0_r. rewrite float_of_pos by lia. reflexivity. }
  change (Z.pos a + Z.pos b) with (Z.pos (a + b)) in *. rewrite !float_of_pos by lia.
  pose proof (digits_small a ltac:(lia)) as Hda. pose proof (digits_small b ltac:(lia)) as Hdb.
  pose proof (digits_small (a + b) Hab) as Hd. unfold float_add, SFadd. cbv zeta. cbn [cond_Zopp].
  set (ez := Z.min (digits a - 53) (digits b - 53)). rewrite !shl_align_dbl by lia. rewrite !dbl_dbl.
  replace (Z.to_nat (digits a - 53 - ez) + Z.to_nat (53 - digits a))%nat with (Z.to_nat (- ez)) by lia.
  replace (Z.to_nat (digits b - 53 - ez) + Z.to_nat (53 - digits b))%nat with (Z.to_nat (- ez)) by lia.
  match goal with |- binary_normalize _ _ (Z.pos ?x + Z.pos ?y) _ _ = _ => change (Z.pos x + Z.pos y) with (Z.pos (x + y)) end.
  rewrite dbl_add. unfold binary_normalize.
  replace ez with (- Z.of_nat (Z.to_nat (- ez))) at 2 by lia. apply round_integer; [done|lia].
Qed.

(** At [2 ^ 53] one more is lost. *)
Lemma float_add_one n :
  0 ≤ n → float_add (float_of (n `min` 2 ^ 53)) (float_of 1) = float_of ((n + 1) `min` 2 ^ 53).
Proof.
  intros Hn. destruct (Z.lt_ge_cases (n + 1) (2 ^ 53)) as [Hlt|Hge].
  - rewrite !Z.min_l by lia. apply float_add_of; lia.
  - rewrite (Z.min_r (n + 1)) by lia. destruct (Z.eq_dec n (2 ^ 53 - 1)) as [->|Hne].
    + rewrite Z.min_l by lia. vm_compute. reflexivity.
    + rewrite Z.min_r by lia. vm_compute. reflexivity.
Qed.
End Doubles.

(** ** Recording *)

(** One call of a recording function. *)
Inductive recording :=
| RequestRecorded (method route : pystr) (status : Z) (duration : float)
| JobStatusRecorded (status : pystr)
| ScoringRecorded (duration : float)
| RecoveryRecorded (count : Z)
| DepthRecorded (depth : Z).

Definition record_call (r : MetricsRegistry) (o : recording) : MetricsRegistry :=
  match o with
  | RequestRecorded method route status duration => record_http_request method route status duration r
  | JobStatusRecorded status => record_job_status status r
  | ScoringRecorded duration => record_scoring_duration duration r
  | RecoveryRecorded count => record_worker_recovered_jobs count r
  | DepthRecorded depth => record_queue_depth depth r
  end.

(** The registry of a process after some calls, in the order they were made. *)
Definition recorded (ops : list recording) : MetricsRegistry := foldl record_call (mkMetrics ∅) ops.

(** The value of a metric; what was never recorded counts as zero. *)
Definition value (r : MetricsRegistry) (key : MetricKey) : float := default (S754_zero false) (_values r !! key).

(** A count as the registry can hold it. *)
Definition counted (n : nat) : float := float_of (Z.of_nat n `min` 2 ^ 53).

Lemma value_increment name labels amount r key :
  value (increment name labels amount r) key
  = if decide (key = (name, _label_set labels)) then float_add (value r key) amount else value r key.
Proof.
  unfold value, increment. cbn [_values]. destruct (decide (key = _)) as [->|Hne].
  - by rewrite lookup_insert_eq.
  - by rewrite lookup_insert_ne.
Qed.

Lemma value_gauge name x labels r key :
  value (set_gauge name x labels r) key
  = if decide (key = (name, _label_set labels)) then x else value r key.
Proof.
  unfold value, set_gauge. cbn [_values]. destruct (decide (key = _)) as [->|Hne].
  - by rewrite lookup_insert_eq.
  - by rewrite lookup_insert_ne.
Qed.

(** Keys of different metrics differ. *)
Lemma other_metric name name' (l l' : LabelSet) :
  bool_decide (name = name') = false → ((name, l) : MetricKey) ≠ (name', l').
Proof. intros Hn%bool_decide_eq_false [= E _]. done. Qed.

(** A counter of the calls [counts] picks. *)
Definition calls (counts : recording → bool) (ops : list recording) : nat :=
  length (filter (λ o, counts o = true) ops).

Lemma counter_of key (counts : recording → bool) ops :
  (∀ r o, value (record_call r o) key
          = if counts o then float_add (value r key) (float_of 1) else value r key) →
  value (recorded ops) key = counted (calls counts ops).
Proof.
  intros Hstep. unfold recorded, calls. induction ops as [|o ops IH] using rev_ind; [done|].
  rewrite foldl_app. cbn [foldl]. rewrite Hstep, IH, filter_app, length_app. unfold counted.
  rewrite filter_cons. destruct (counts o).
  - rewrite decide_True by done. cbn [length filter list_filter]. rewrite float_add_one by lia. do 2 f_equal. lia.
  - rewrite decide_False by done. cbn [length filter list_filter]. by rewrite Nat.add_0_r.
Qed.

(** ** The metrics of the service *)

Definition jobs_total (status : pystr) : MetricKey :=
  (u"evaluation_jobs_total", [(u"status", status)]).
Definition of_request (name method route : pystr) (status : Z) : MetricKey :=
  (name, [(u"method", method); (u"route", route); (u"status_code", str_of_Z status)]).
Definition unlabelled (name : pystr) : MetricKey := (name, []).

Lemma str_of_Z_inj x y : str_of_Z x = str_of_Z y → x = y.
Proof.
  intros E. pose proof (scan_sign_str_of_Z x []) as Hx. rewrite E, scan_sign_str_of_Z, !app_nil_r in Hx.
  injection Hx as Hs Hd. destruct (str_of_N_spec (Z.to_N (Z.abs x))) as (_ & Hvx & _).
  destruct (str_of_N_spec (Z.to_N (Z.abs y))) as (_ & Hvy & _). rewrite <- Hd, Hvy in Hvx.
  destruct (Z.ltb_spec x 0), (Z.ltb_spec y 0); try done; lia.
Qed.

Definition is_status (s : pystr) (o : recording) : bool :=
  match o with JobStatusRecorded s' => bool_decide (s = s') | _ => false end.
Definition is_request (m p : pystr) (c : Z) (o : recording) : bool :=
  match o with RequestRecorded m' p' c' _ => bool_decide (m = m' ∧ p = p' ∧ c = c') | _ => false end.
Definition is_scoring (o : recording) : bool := match o with ScoringRecorded _ => true | _ => false end.

(** Follow one call, metric by metric. *)
Ltac solve_call :=
  unfold record_call, record_http_request, record_job_status, record_scoring_duration,
    record_worker_recovered_jobs, record_queue_depth, observe_duration;
  repeat first
    [ rewrite value_gauge | rewrite value_increment
    | rewrite decide_False by (apply other_metric; vm_compute; reflexivity) ].

Lemma job_call s r o :
  value (record_call r o) (jobs_total s)
  = if is_status s o then float_add (value r (jobs_total s)) (float_of 1) else value r (jobs_total s).
Proof.
  destruct o as [m p c d|s'|d|n|n]; solve_call; try done. unfold jobs_total, is_status.
  change (_label_set (Some [(u"status", s')])) with [(u"status", s')].
  destruct (decide (s = s')) as [->|Hne].
  - by rewrite decide_True, bool_decide_eq_true_2.
  - rewrite decide_False, bool_decide_eq_false_2; [done|done|congruence].
Qed.

Lemma request_labels m p c m' p' c' name :
  of_request name m p c = (name, _label_set (Some [(u"method", m'); (u"route", p'); (u"status_code", str_of_Z c')]))
  ↔ m = m' ∧ p = p' ∧ c = c'.
Proof.
  change (_label_set _) with [(u"method", m'); (u"route", p'); (u"status_code", str_of_Z c')]. unfold of_request.
  split; [|by intros (-> & -> & ->)]. intros [= -> -> Hc]. by apply str_of_Z_inj in Hc.
Qed.

Lemma request_call name m p c r o :
  name ∈ [u"http_requests_total"; u"http_request_duration_seconds_count"] →
  value (record_call r o) (of_request name m p c)
  = if is_request m p c o then float_add (value r (of_request name m p c)) (float_of 1)
    else value r (of_request name m p c).
Proof.
  rewrite !elem_of_cons. intros [-> | [-> | []%elem_of_nil]]; destruct o as [m' p' c' d|s'|d|n|n];
    solve_call; try done; unfold is_request.
  - destruct (decide (of_request _ m p c = _)) as [E|E].
    + apply request_labels in E. by rewrite bool_decide_eq_true_2.
    + rewrite bool_decide_eq_false_2; [done|]. intros E'. by apply E, request_labels.
  - destruct (decide (of_request _ m p c = _)) as [E|E].
    + apply (request_labels m p c m' p' c' (u"http_request_duration_seconds_count")) in E.
      by rewrite bool_decide_eq_true_2.
    + rewrite bool_decide_eq_false_2; [done|]. intros E'. by apply E, request_labels.
Qed.

Lemma scoring_call r o :
  let key := unlabelled (u"evaluation_scoring_duration_seconds_count") in
  value (record_call r o) key
  = if is_scoring o then float_add (value r key) (float_of 1) else value r key.
Proof. by destruct o as [m p c d|s|d|n|n]; solve_call. Qed.

(** The jobs recovered by a call. *)
Definition recovered_by (o : recording) : Z := match o with RecoveryRecorded n => n | _ => 0 end.
Definition recovered_in (ops : list recording) : Z := foldr (λ o n, recovered_by o + n)%Z 0%Z ops.

Lemma recovery_call r o :
  let key := unlabelled (u"evaluation_worker_recovered_jobs_total") in
  value (record_call r o) key
  = match o with RecoveryRecorded n => float_add (value r key) (float_of n) | _ => value r key end.
Proof. by destruct o as [m p c d|s|d|n|n]; solve_call. Qed.

Lemma recovered_in_snoc ops o : recovered_in (ops ++ [o]) = (recovered_in ops + recovered_by o)%Z.
Proof. unfold recovered_in. induction ops as [|x ops IH]; simpl; [lia|]. rewrite IH. lia. Qed.

Lemma recovered_total ops :
  Forall (λ o, 0 ≤ recovered_by o)%Z ops → (recovered_in ops < 2 ^ 53)%Z →
  (0 ≤ recovered_in ops)%Z
  ∧ value (recorded ops) (unlabelled (u"evaluation_worker_recovered_jobs_total")) = float_of (recovered_in ops).
Proof.
  unfold recorded. induction ops as [|o ops IH] using rev_ind; [done|].
  rewrite Forall_app, Forall_singleton, recovered_in_snoc. intros [Hops Ho] Hlt.
  destruct IH as [Hpos IH]; [done|lia|]. split; [lia|]. rewrite foldl_app. cbn [foldl].
  rewrite recovery_call, IH. destruct o; cbn [recovered_by] in *; rewrite ?Z.add_0_r; [done..| |done].
  apply float_add_of; lia.
Qed.

(** The depth recorded last. *)
Definition last_depth (ops : list recording) : Z :=
  foldl (λ n o, match o with DepthRecorded depth => depth `max` 0 | _ => n end)%Z 0%Z ops.

Lemma last_depth_pos ops : (0 ≤ last_depth ops)%Z.
Proof.
  unfold last_depth. induction ops as [|o ops IH] using rev_ind; [done|]. rewrite foldl_app.
  cbn [foldl]. destruct o; [done..|lia].
Qed.

Lemma depth_gauge ops : value (recorded ops) (unlabelled (u"evaluation_queue_depth")) = float_of (last_depth ops).
Proof.
  unfold recorded, last_depth. induction ops as [|o ops IH] using rev_ind; [done|]. rewrite !foldl_app.
  cbn [foldl]. destruct o as [m p c d|s|d|n|n]; solve_call; done.
Qed.

(** C34: the registry counts: however the recording calls of a process are interleaved, the counter of
    a job status, of the requests of a method, route and status (and of their durations), and of
    the scorings is the number of the calls that recorded it, exactly, up to [2 ^ 53], where the
    double stops growing; the recovered jobs add up exactly below that bound, and the gauge is the
    depth recorded last, never negative. *)
Theorem counters_count (ops : list recording) :
  let r := recorded ops in
  (∀ s, value r (jobs_total s) = counted (calls (is_status s) ops))
  ∧ (∀ m p c, value r (of_request (u"http_requests_total") m p c) = counted (calls (is_request m p c) ops)
       ∧ value r (of_request (u"http_request_duration_seconds_count") m p c)
         = counted (calls (is_request m p c) ops))
  ∧ value r (unlabelled (u"evaluation_scoring_duration_seconds_count")) = counted (calls is_scoring ops)
  ∧ (Forall (λ o, 0 ≤ recovered_by o)%Z ops → (recovered_in ops < 2 ^ 53)%Z →
     value r (unlabelled (u"evaluation_worker_recovered_jobs_total")) = float_of (recovered_in ops))
  ∧ value r (unlabelled (u"evaluation_queue_depth")) = float_of (last_depth ops) ∧ (0 ≤ last_depth ops)%Z.
Proof.
  intros r. split_and!.
  - intros s. apply counter_of, job_call.
  - intros m p c. split; apply counter_of; intros; apply request_call; set_solver.
  - apply counter_of, scoring_call.
  - apply recovered_total.
  - apply depth_gauge.
  - apply last_depth_pos.
Qed.

(** A scrape shows six digits of it: one million and the next count look the same. *)
Example million_sticks :
  format_g (float_of 1000000) = format_g (float_of 1000001) ∧ format_g (float_of 999999) = u"999999".
Proof. vm_compute. split; reflexivity. Qed.

Lemma counters_count_witness :
  let ops := [JobStatusRecorded (u"queued"); RecoveryRecorded 2; DepthRecorded 1;
              RequestRecorded (u"GET") (u"/health/live") 200 (float_of 1); JobStatusRecorded (u"queued");
              RecoveryRecorded 3; DepthRecorded (-1)] in
  value (recorded ops) (jobs_total (u"queued")) = float_of 2
  ∧ value (recorded ops) (of_request (u"http_requests_total") (u"GET") (u"/health/live") 200) = float_of 1
  ∧ value (recorded ops) (unlabelled (u"evaluation_worker_recovered_jobs_total")) = float_of 5
  ∧ value (recorded ops) (unlabelled (u"evaluation_queue_depth")) = float_of 0.
Proof.
  intros ops. destruct (counters_count ops) as (Hjobs & Hreq & _ & Hrec & Hdepth & _).
  split; [exact (Hjobs _)|]. split; [exact (proj1 (Hreq _ _ _))|]. split; [|exact Hdepth].
  apply Hrec; [repeat constructor; vm_compute; discriminate|reflexivity].
Defined.
