(* ===== verification/Exposition.v ===== *)
(** The Prometheus text the service exposes, read back: a reader of the text format that a
    scraper could use, and that it finds in the rendered text the samples of the registry. *)
From S2P Require Export Metrics.

(** ** A reader of the text format *)

(** A quoted label value, up to its closing quote. *)
Fixpoint read_value (s : pystr) : option (pystr * pystr) :=
  match s with
  | [] => None
  | c :: s' =>
      if (c =? 34)%N then Some ([], s')
      else if (c =? 92)%N then
        match s' with
        | d :: s'' => '(v, rest) ← read_value s''; Some ((if (d =? 110)%N then 10%N else d) :: v, rest)
        | [] => None
        end
      else '(v, rest) ← read_value s'; Some (c :: v, rest)
  end.

(** The labels after the opening brace, up to the closing one. *)
Fixpoint read_labels (fuel : nat) (s : pystr) : option (LabelSet * pystr) :=
  match fuel with
  | 0 => None
  | S fuel =>
      let '(key, found, rest) := partition 61 s in
      match rest with
      | 34%N :: rest =>
          '(v, rest) ← read_value rest;
          match rest with
          | 44%N :: rest => '(ls, rest) ← read_labels fuel rest; Some ((key, v) :: ls, rest)
          | 125%N :: rest => Some ([(key, v)], rest)
          | _ => None
          end
      | _ => None
      end
  end.

Definition name_char (c : N) : bool :=
  ((97 <=? c) && (c <=? 122) || (48 <=? c) && (c <=? 57) || (c =? 95))%N.

(** The longest prefix of name characters. *)
Fixpoint read_name (s : pystr) : pystr * pystr :=
  match s with
  | c :: s' => if name_char c then let '(n, rest) := read_name s' in (c :: n, rest) else ([], s)
  | [] => ([], [])
  end.

(** One line: a sample with the text of its value; comments and blank lines are skipped. *)
Definition read_sample (line : pystr) : option (MetricKey * pystr) :=
  let '(name, rest) := read_name line in
  if bool_decide (name = []) then None
  else
    match rest with
    | 32%N :: value => Some ((name, []), value)
    | 123%N :: rest =>
        '(labels, rest) ← read_labels (length rest) rest;
        match rest with 32%N :: value => Some ((name, labels), value) | _ => None end
    | _ => None
    end.

Definition read_samples (text : pystr) : list (MetricKey * pystr) :=
  omap read_sample (split_sep 10 text).

(** ** Reading labels back *)

Lemma escape_label_each v :
  _escape_label v
  = v ≫= λ c, if (c =? 92)%N then [92; 92]%N else if (c =? 10)%N then [92; 110]%N
              else if (c =? 34)%N then [92; 34]%N else [c].
Proof.
  unfold _escape_label, replace_char. induction v as [|c v IH]; [done|].
  csimpl. rewrite !bind_app, IH. f_equal.
  destruct (N.eqb_spec c 92) as [->|]; [done|].
  destruct (N.eqb_spec c 10) as [->|]; [done|]. csimpl.
  destruct (N.eqb_spec c 10); [done|]. csimpl. by destruct (N.eqb_spec c 34).
Qed.

(** Whatever the value holds, the reader gets it back from its escaped form. *)
Lemma read_escaped v rest : read_value (_escape_label v ++ 34%N :: rest) = Some (v, rest).
Proof.
  rewrite escape_label_each. induction v as [|c v IH]; [done|]. csimpl. rewrite <- (assoc_L (++)).
  destruct (N.eqb_spec c 92) as [->|H92]; [csimpl; by rewrite IH|].
  destruct (N.eqb_spec c 10) as [->|H10]; [csimpl; by rewrite IH|].
  destruct (N.eqb_spec c 34) as [->|H34]; [csimpl; by rewrite IH|].
  csimpl. rewrite (proj2 (N.eqb_neq c 34) H34), (proj2 (N.eqb_neq c 92) H92). by rewrite IH.
Qed.

Lemma escape_label_one_line v : 10%N ∉ _escape_label v.
Proof.
  rewrite escape_label_each. intros (c & Hc & _)%list_elem_of_bind.
  destruct (N.eqb_spec c 92); [set_solver|]. destruct (N.eqb_spec c 10); [set_solver|].
  destruct (N.eqb_spec c 34); set_solver.
Qed.

Definition label_text (l : pystr * pystr) : pystr :=
  l.1 ++ u"=" ++ [34%N] ++ _escape_label l.2 ++ [34%N].

Definition is_name (s : pystr) : Prop := s ≠ [] ∧ Forall (λ c, name_char c = true) s.

Lemma name_char_not c d : name_char c = true → name_char d = false → c ≠ d.
Proof. congruence. Qed.

Lemma read_name_all n rest c :
  Forall (λ c, name_char c = true) n → name_char c = false →
  read_name (n ++ c :: rest) = (n, c :: rest).
Proof.
  intros Hn Hc. induction Hn as [|d n Hd _ IH]; simpl; [by rewrite Hc|]. by rewrite Hd, IH.
Qed.

Lemma is_name_not s d : is_name s → name_char d = false → d ∉ s.
Proof. intros [_ Hs] Hd Hin. rewrite Forall_forall in Hs. specialize (Hs d Hin). congruence. Qed.

Lemma read_labels_back fuel ls rest :
  ls ≠ [] → Forall (λ l, is_name l.1) ls → length ls ≤ fuel →
  read_labels fuel (join (u",") (label_text <$> ls) ++ 125%N :: rest) = Some (ls, rest).
Proof.
  intros Hne Hls. revert fuel. induction Hls as [|[k v] ls Hk Hls IH]; [done|].
  intros [|fuel] Hfuel; simpl in Hfuel; [lia|]. cbn [read_labels fmap list_fmap].
  assert (∀ s, read_value (_escape_label v ++ [34%N] ++ s) = Some (v, s)) as Hv by apply read_escaped.
  assert (∀ s, partition 61 (label_text (k, v) ++ s)
               = (k, true, 34%N :: _escape_label v ++ [34%N] ++ s)) as Hp.
  { intros s. unfold label_text. cbn [fst snd]. rewrite <- !(assoc_L (++)).
    apply partition_found. by apply is_name_not. }
  destruct ls as [|l ls]; cbn [join fmap list_fmap].
  - rewrite Hp, Hv. done.
  - rewrite <- !(assoc_L (++)), Hp, Hv. cbn [mbind option_bind].
    change (u"," ++ ?s) with (44%N :: s). cbv beta iota.
    rewrite IH; [done|done|simpl in *; lia].
Qed.

Lemma length_labels ls rest :
  length ls ≤ length (join (u",") (label_text <$> ls) ++ 125%N :: rest).
Proof.
  rewrite length_app. simpl.
  enough (length ls ≤ length (join (u",") (label_text <$> ls)) + 1) by lia.
  induction ls as [|l [|l' ls] IH]; [simpl; lia..|].
  change (join (u",") (label_text <$> l :: l' :: ls))
    with (label_text l ++ u"," ++ join (u",") (label_text <$> l' :: ls)).
  rewrite !length_app. change (length (u",")) with 1. simpl length in *. lia.
Qed.

(** A line of the rendered text reads back as its sample. *)
Lemma read_sample_line name labels x :
  is_name name → Forall (λ l, is_name l.1) labels →
  read_sample (sample_line ((name, labels), x)) = Some ((name, labels), format_g x).
Proof.
  intros [Hne Hn] Hl. unfold sample_line, read_sample, _format_labels. cbn [fst snd].
  destruct labels as [|l ls].
  - change ([] ++ u " " ++ format_g x) with (32%N :: format_g x).
    rewrite read_name_all by done. by rewrite bool_decide_false.
  - set (all := l :: ls) in *.
    assert ((λ '(k, v), k ++ u "=" ++ [34%N] ++ _escape_label v ++ [34%N]) <$> all = label_text <$> all) as ->
      by (apply list_fmap_ext; by intros ? []).
    rewrite <- !(assoc_L (++)).
    change (u "{" ++ ?s) with (123%N :: s). rewrite read_name_all by done.
    rewrite bool_decide_false by done. change (u "}" ++ ?s) with (125%N :: s).
    rewrite read_labels_back; [done|done|done|apply length_labels].
Qed.

(** ** Lines *)

Lemma printable_one_line s : Forall printable s → 10%N ∉ s.
Proof. rewrite Forall_forall. unfold printable. intros H Hin. specialize (H _ Hin). lia. Qed.

Lemma drop_zeros_printable s : Forall printable s → Forall printable (drop_zeros s).
Proof. induction 1; simpl; [constructor|]. case_match; [done|by constructor]. Qed.

Lemma with_fraction_printable i f :
  Forall printable i → Forall printable f → Forall printable (with_fraction i f).
Proof.
  intros Hi Hf. unfold with_fraction. case_bool_decide; [done|].
  repeat (apply Forall_app; split); [done|by repeat constructor|].
  by apply Forall_reverse, drop_zeros_printable, Forall_reverse.
Qed.

Lemma digits6_printable n d : Forall printable (digits6 n d).1.
Proof.
  unfold digits6. destruct (scale _ _ _). by case_match; apply str_of_Z_printable.
Qed.

Lemma positive_g_printable n d : Forall printable (positive_g n d).
Proof.
  pose proof (digits6_printable n d) as Hds. unfold positive_g.
  destruct (digits6 n d) as [ds x]. simpl in Hds.
  assert (∀ k, Forall printable (replicate k 48%N)) as H0 by (intros; by apply Forall_replicate).
  repeat case_match; repeat (apply Forall_app; split);
    try apply with_fraction_printable; try done; try (by repeat constructor);
    try by apply Forall_take. all: try by apply Forall_drop.
  all: try (apply Forall_app; split); try done.
  all: unfold pad_left; try (apply Forall_app; split); try done; apply str_of_Z_printable.
Qed.

Lemma format_g_printable x : Forall printable (format_g x).
Proof.
  destruct x as [[]|[]| |s m e]; try (by repeat constructor). unfold format_g.
  apply Forall_app. split; [destruct s; by repeat constructor|].
  case_match; apply positive_g_printable.
Qed.

Lemma name_one_line n : is_name n → 10%N ∉ n.
Proof. intros H. by apply (is_name_not n 10%N H). Qed.

Lemma elem_of_join c sep parts : c ∈ join sep parts → c ∈ sep ∨ ∃ w, w ∈ parts ∧ c ∈ w.
Proof.
  induction parts as [|w [|w' ws] IH]; simpl; [set_solver..|].
  rewrite !elem_of_app. intros [?|[?|H]]; [set_solver..|].
  destruct (IH H) as [?|(w2 & ? & ?)]; [by left|right; exists w2; set_solver].
Qed.

Lemma literal_one_line (s : string) : bool_decide (10%N ∈ u s) = false → 10%N ∉ u s.
Proof. apply bool_decide_eq_false. Qed.

Lemma label_one_line l : is_name l.1 → 10%N ∉ label_text l.
Proof.
  intros Hl. unfold label_text. rewrite !not_elem_of_app. split_and!;
    [by apply name_one_line|by apply literal_one_line|set_solver|apply escape_label_one_line|set_solver].
Qed.

(** Metric names and label keys are names; label values are arbitrary. *)
Definition key_ok (k : MetricKey) : Prop := is_name k.1 ∧ Forall (λ l, is_name l.1) k.2.

Lemma rendered_one_line p : key_ok p.1 → 10%N ∉ sample_line p.
Proof.
  destruct p as [[name labels] x]. intros [Hn Hl]. unfold sample_line, _format_labels. cbn [fst snd] in *.
  rewrite !not_elem_of_app. split_and!; [by apply name_one_line| |by apply literal_one_line|
    apply printable_one_line, format_g_printable].
  destruct labels as [|l ls]; [set_solver|]. rewrite !not_elem_of_app.
  split_and!; [by apply literal_one_line| |by apply literal_one_line].
  intros [H|(w & Hw & Hin)]%elem_of_join; [by apply literal_one_line in H|].
  apply list_elem_of_fmap in Hw as ([k v] & -> & Hkv). rewrite Forall_forall in Hl.
  by apply (label_one_line (k, v) (Hl _ Hkv)).
Qed.

(** Every name has a help text on one line. *)
Lemma metadata_one_line name t h :
  is_name name → default (u"gauge", name) (metadata name) = (t, h) → 10%N ∉ t ∧ 10%N ∉ h.
Proof.
  intros Hn H. destruct (metadata name) as [[t' h']|] eqn:E; simpl in H; simplify_eq.
  - apply dict_get_Some in E. revert E. rewrite !elem_of_cons, elem_of_nil.
    intros E. repeat destruct E as [E|E]; [..|done]; simplify_eq; (split; by apply literal_one_line).
  - split; [by apply literal_one_line|by apply name_one_line].
Qed.

(** ** The registry *)

(** The samples in the order they are rendered. *)
Definition exposed (values : gmap MetricKey float) : list (MetricKey * float) :=
  metric_names values ≫= samples_of values.

Definition keys_ok (values : gmap MetricKey float) : Prop :=
  ∀ k x, values !! k = Some x → key_ok k.

Lemma elem_of_metric_names values n :
  n ∈ metric_names values ↔ ∃ k x, values !! k = Some x ∧ k.1 = n.
Proof.
  unfold metric_names. rewrite elem_of_sort_by, elem_of_elements, elem_of_list_to_set.
  rewrite list_elem_of_fmap. split.
  - intros ([k x] & -> & Hin). apply elem_of_map_to_list in Hin. eauto.
  - intros (k & x & Hk & <-). exists (k, x). by rewrite elem_of_map_to_list.
Qed.

Lemma elem_of_samples values n p :
  p ∈ samples_of values n ↔ values !! p.1 = Some p.2 ∧ p.1.1 = n.
Proof.
  unfold samples_of. rewrite list_elem_of_filter, elem_of_sort_by.
  destruct p as [k x]. rewrite elem_of_map_to_list. simpl. tauto.
Qed.

(** Grouping a list by a key, for every key once, loses nothing. *)
Lemma group_perm {A K} `{EqDecision K} (f : A → K) (ks : list K) (l : list A) :
  NoDup ks → (∀ x, x ∈ l → f x ∈ ks) → (ks ≫= λ k, filter (λ x, f x = k) l) ≡ₚ l.
Proof.
  intros Hnd. revert l. induction Hnd as [|k ks Hk _ IH]; intros l Hl.
  - destruct l as [|x l]; [done|]. specialize (Hl x). set_solver.
  - rewrite bind_cons. rewrite <- (filter_app_complement (λ x, f x = k) l) at 2. f_equiv.
    rewrite <- (IH (filter (λ x, f x ≠ k) l)).
    + apply reflexive_eq, Forall_bind_ext, Forall_forall. intros k' Hk'.
      rewrite list_filter_filter. apply list_filter_iff. intros x. split; [|tauto].
      intros ->. split; [done|]. intros ->. done.
    + intros x [Hne Hx]%list_elem_of_filter. specialize (Hl x Hx). set_solver.
Qed.

Lemma exposed_perm values : exposed values ≡ₚ map_to_list values.
Proof.
  unfold exposed, samples_of. set (l := sort_by _ (map_to_list values)).
  assert (l ≡ₚ map_to_list values) as Hl by apply sort_by_perm. rewrite <- Hl.
  apply (group_perm (λ p : MetricKey * float, p.1.1)).
  - unfold metric_names. rewrite sort_by_perm. apply NoDup_elements.
  - intros [k x] Hin. rewrite Hl in Hin. apply elem_of_map_to_list in Hin.
    apply elem_of_metric_names. eauto.
Qed.

Definition sample_text (p : MetricKey * float) : MetricKey * pystr := (p.1, format_g p.2).

Lemma read_sample_lines (l : list (MetricKey * float)) :
  (∀ p, p ∈ l → key_ok p.1) → omap read_sample (sample_line <$> l) = sample_text <$> l.
Proof.
  induction l as [|p l IH]; intros Hl; [done|]. rewrite !fmap_cons.
  assert (read_sample (sample_line p) = Some (sample_text p)) as Hp.
  { destruct p as [[name ls] x]. destruct (Hl ((name, ls), x)) as [? ?]; [set_solver|].
    by apply read_sample_line. }
  cbn [omap list_omap]. rewrite Hp. f_equal. apply IH. intros. apply Hl. set_solver.
Qed.

Lemma read_metric_lines values n :
  keys_ok values → omap read_sample (metric_lines values n) = sample_text <$> samples_of values n.
Proof.
  intros Hok. unfold metric_lines. destruct (default _ _) as [t h].
  etrans; [|apply read_sample_lines; intros p [Hp _]%elem_of_samples; by eapply Hok].
  reflexivity.
Qed.

Lemma metric_lines_one_line values n line :
  keys_ok values → n ∈ metric_names values → line ∈ metric_lines values n → 10%N ∉ line.
Proof.
  intros Hok (k & x & Hk & <-)%elem_of_metric_names. unfold metric_lines.
  destruct (Hok k x Hk) as [Hn _]. destruct (default _ _) as [t h] eqn:E.
  destruct (metadata_one_line _ _ _ Hn E) as [Ht Hh]. pose proof (name_one_line _ Hn).
  intros [->|[->|Hin]%elem_of_cons]%elem_of_cons.
  - rewrite !not_elem_of_app. split_and!; try done; by apply literal_one_line.
  - rewrite !not_elem_of_app. split_and!; try done; by apply literal_one_line.
  - apply list_elem_of_fmap in Hin as (p & -> & [Hp _]%elem_of_samples).
    apply rendered_one_line. by eapply Hok.
Qed.

Lemma read_render r :
  keys_ok (_values r) → read_samples (render_prometheus r) = sample_text <$> exposed (_values r).
Proof.
  intros Hok. unfold read_samples, render_prometheus. rewrite split_by_join.
  - rewrite omap_app. cbn. rewrite app_nil_r. unfold exposed.
    induction (metric_names (_values r)) as [|n ns IH]; [done|].
    rewrite !bind_cons, omap_app, fmap_app, read_metric_lines by done. by rewrite IH.
  - by destruct (metric_names _ ≫= _).
  - apply Forall_forall. intros line [Hin| ->%list_elem_of_singleton]%elem_of_app; [|apply not_elem_of_nil].
    apply list_elem_of_bind in Hin as (n & Hline & Hn). by eapply metric_lines_one_line.
Qed.

(** ** The recording functions *)

Inductive recorded : MetricsRegistry → MetricsRegistry → Prop :=
| recorded_request method route status duration r :
    recorded r (record_http_request method route status duration r)
| recorded_job status r : recorded r (record_job_status status r)
| recorded_scoring duration r : recorded r (record_scoring_duration duration r)
| recorded_recovery count r : recorded r (record_worker_recovered_jobs count r)
| recorded_depth depth r : recorded r (record_queue_depth depth r).

#[export] Instance is_name_dec s : Decision (is_name s).
Proof. unfold is_name. apply _. Defined.

(** A literal name, by computation. *)
Ltac literal_names :=
  cbn [from_option id]; repeat (apply Forall_cons; split); try apply Forall_nil;
  try exact I; cbn [fst]; try (apply (bool_decide_unpack _); vm_compute; exact I).

Lemma increment_keys name labels x r :
  is_name name → Forall (λ l, is_name l.1) (default [] labels) →
  keys_ok (_values r) → keys_ok (_values (increment name labels x r)).
Proof.
  intros Hn Hl Hr k y. cbn [increment _values].
  intros [[<- _]|[_ Hk]]%lookup_insert_Some; [|by eapply Hr]. split; [done|]. cbn [snd].
  destruct labels as [l|]; simpl in *; [|constructor]. by rewrite sort_by_perm.
Qed.

Lemma set_gauge_keys name x r :
  is_name name → keys_ok (_values r) → keys_ok (_values (set_gauge name x None r)).
Proof.
  intros Hn Hr k y. cbn [set_gauge _values].
  intros [[<- _]|[_ Hk]]%lookup_insert_Some; [|by eapply Hr]. by split; [|constructor].
Qed.

Lemma recorded_keys r r' : recorded r r' → keys_ok (_values r) → keys_ok (_values r').
Proof.
  intros [] Hr; unfold record_http_request, record_job_status, record_scoring_duration,
    record_worker_recovered_jobs, record_queue_depth, observe_duration;
    repeat apply increment_keys; try apply set_gauge_keys; try done; literal_names.
Qed.

Lemma rtc_recorded_keys r r' : rtc recorded r r' → keys_ok (_values r) → keys_ok (_values r').
Proof. induction 1; eauto using recorded_keys. Qed.

(** C35: a scraper loses nothing: whatever the service has recorded, with whatever methods,
    paths and statuses as label values (quotes, backslashes and line breaks included), a
    reader of the text format finds in the rendered text exactly one sample for every entry of
    the registry, with its name, its labels and its formatted value. *)
Theorem scrape_round_trip (r : MetricsRegistry) :
  rtc recorded (mkMetrics ∅) r →
  read_samples (render_prometheus r) ≡ₚ sample_text <$> map_to_list (_values r).
Proof.
  intros Hr. assert (keys_ok (_values r)) as Hok
    by (apply (rtc_recorded_keys _ _ Hr); intros k x; cbn; by rewrite lookup_empty).
  by rewrite read_render, exposed_perm.
Qed.

(** A request for a path that tries to forge a sample. *)
Definition forged_route : pystr := u"/" ++ [34; 125; 32; 49; 10; 92; 110]%N ++ u"x{y=".

Lemma scrape_round_trip_witness :
  let r := record_http_request (u"GET") forged_route 404 (float_of 2) (mkMetrics ∅) in
  read_samples (render_prometheus r) ≡ₚ sample_text <$> map_to_list (_values r)
  ∧ length (read_samples (render_prometheus r)) = 3.
Proof.
  intros r. split; [|vm_compute; reflexivity].
  apply (scrape_round_trip r). apply rtc_once. apply recorded_request.
Defined.
