(* ===== verification/Logging.v ===== *)
(** Structured logging ([app/core/logging.py]): log records and their JSON lines. *)
From S2P Require Export Models.

(** ** Time stamps *)

(** The date of day [n] since 1970-01-01, in the proleptic Gregorian calendar. *)
Definition civil_from_days (n : Z) : Z * Z * Z :=
  (let z := n + 719468 in
   let era := z / 146097 in
   let doe := z mod 146097 in
   let yoe := (doe - doe / 1460 + doe / 36524 - doe / 146096) / 365 in
   let doy := doe - (365 * yoe + yoe / 4 - yoe / 100) in
   let mp := (5 * doy + 2) / 153 in
   let d := doy - (153 * mp + 2) / 5 + 1 in
   let m := if mp <? 10 then mp + 3 else mp - 9 in
   (yoe + era * 400 + (if m <=? 2 then 1 else 0), m, d))%Z.

Definition pad (width : nat) (n : Z) : pystr :=
  let s := str_of_Z n in replicate (width - length s) 48%N ++ s.

(** [t.isoformat()] of a UTC [datetime] given in microseconds since the epoch. *)
Definition isoformat (t : datetime) : pystr :=
  (let '(y, m, d) := civil_from_days (t / 86400000000) in
   let us := t mod 86400000000 in
   let frac := us mod 1000000 in
   let secs := us / 1000000 in
   pad 4 y ++ u"-" ++ pad 2 m ++ u"-" ++ pad 2 d ++ u"T"
   ++ pad 2 (secs / 3600) ++ u":" ++ pad 2 (secs / 60 mod 60) ++ u":" ++ pad 2 (secs mod 60)
   ++ (if frac =? 0 then [] else u"." ++ pad 6 frac) ++ u"+00:00")%Z.

(** ** Records *)

Inductive LogLevel := INFO | WARNING | ERROR.

Definition levelname (l : LogLevel) : pystr :=
  match l with INFO => u"INFO" | WARNING => u"WARNING" | ERROR => u"ERROR" end.

(** A record as the logger hands it to the formatter: its level, logger, message,
    the attributes given by [extra=], and the exception being handled, if the call was
    [logger.exception]. *)
Record LogRecord := mkLogRecord {
  log_level : LogLevel;
  log_logger : pystr;
  log_message : pystr;
  log_extra : list (pystr * json);
  log_exc : option exn;
}.

Definition log_keys : list pystr := [u"tenant_id"; u"project_id"; u"job_id"; u"event_type"].

(** [payload[key] = getattr(record, key)] for the keys the record has. *)
Fixpoint add_extras (keys : list pystr) (extra payload : list (pystr * json)) : list (pystr * json) :=
  match keys with
  | [] => payload
  | k :: keys =>
      add_extras keys extra
        match dict_get k extra with Some v => dict_set k v payload | None => payload end
  end.

Section Format.
(** The text [Formatter.formatException] makes of an exception and its traceback. *)
Context (formatException : exn → pystr).

Definition base_payload (now : datetime) (request_id : pystr) (r : LogRecord)
    : list (pystr * json) :=
  let payload :=
    [(u"timestamp", JStr (isoformat now)); (u"level", JStr (levelname (log_level r)));
     (u"logger", JStr (log_logger r)); (u"message", JStr (log_message r));
     (u"request_id", JStr request_id)] in
  match log_exc r with
  | Some e => dict_set (u"exception") (JStr (formatException e)) payload
  | None => payload
  end.

Definition log_payload (now : datetime) (request_id : pystr) (r : LogRecord)
    : list (pystr * json) :=
  add_extras log_keys (log_extra r) (base_payload now request_id r).

(** [JsonFormatter.format]. *)
Definition format (now : datetime) (request_id : pystr) (r : LogRecord) : pystr :=
  json_dumps (JObj (log_payload now request_id r)).
End Format.

(** [logger.info(message, extra=...)] and the like. *)
Definition log_info (logger message : pystr) (extra : list (pystr * json)) : LogRecord :=
  mkLogRecord INFO logger message extra None.
Definition log_warning (logger message : pystr) (extra : list (pystr * json)) : LogRecord :=
  mkLogRecord WARNING logger message extra None.
Definition log_exception (logger message : pystr) (extra : list (pystr * json)) (e : exn) : LogRecord :=
  mkLogRecord ERROR logger message extra (Some e).

Example isoformat_ex :
  isoformat 1779624000123456%Z = u"2026-05-24T12:00:00.123456+00:00"
  ∧ isoformat 951827696000000%Z = u"2000-02-29T12:34:56+00:00"
  ∧ isoformat (-1)%Z = u"1969-12-31T23:59:59.999999+00:00".
Proof. vm_compute. auto. Qed.

(** ** Lines *)

Lemma add_extras_get keys extra payload k :
  NoDup keys →
  dict_get k (add_extras keys extra payload)
  = match (if decide (k ∈ keys) then dict_get k extra else None) with
    | Some v => Some v
    | None => dict_get k payload
    end.
Proof.
  revert payload. induction keys as [|k' keys IH]; intros payload Hnd.
  - by rewrite decide_False by set_solver.
  - apply NoDup_cons in Hnd as [Hk' Hnd]. simpl. rewrite IH by done.
    destruct (decide (k = k')) as [->|Hk].
    + rewrite decide_False, decide_True by set_solver.
      destruct (dict_get k' extra); [|done]. by rewrite dict_get_set, decide_True.
    + destruct (decide (k ∈ keys));
        [rewrite (decide_True (P := k ∈ k' :: keys)) by set_solver
        |rewrite (decide_False (P := k ∈ k' :: keys)) by set_solver];
        destruct (dict_get k' extra); rewrite ?dict_get_set, ?(decide_False (P := k = k')) by done;
        done.
Qed.

Lemma dict_set_Forall (P : pystr * json → Prop) k v payload :
  P (k, v) → Forall P payload → Forall P (dict_set k v payload).
Proof.
  intros Hv. induction 1 as [|[k' v'] payload Hx Hp IH]; simpl; [by repeat constructor|].
  case_decide; simplify_eq; by constructor.
Qed.

Lemma add_extras_Forall (P : pystr * json → Prop) keys extra payload :
  Forall (λ k, ∀ v, dict_get k extra = Some v → P (k, v)) keys →
  Forall P payload → Forall P (add_extras keys extra payload).
Proof.
  intros Hk. revert payload. induction Hk as [|k keys Hk Hks IH]; intros payload Hp; [done|].
  simpl. apply IH. destruct (dict_get k extra); [by apply dict_set_Forall; auto|done].
Qed.

Lemma add_extras_keys keys extra payload :
  NoDup payload.*1 → NoDup (add_extras keys extra payload).*1.
Proof.
  revert payload. induction keys as [|k keys IH]; intros payload Hp; [done|].
  simpl. apply IH. destruct (dict_get k extra); auto with pylib.
Qed.

Lemma log_keys_NoDup : NoDup log_keys.
Proof. apply (bool_decide_unpack _). by vm_compute. Qed.

(** A string that a JSON text can carry. *)
Definition text (v : json) : Prop := ∃ s, v = JStr s ∧ Forall scalar s.

Section Lines.
Context (formatException : exn → pystr).

Lemma log_payload_Forall (P : json → Prop) now rid r :
  P (JStr (isoformat now)) → P (JStr (levelname (log_level r))) → P (JStr (log_logger r)) →
  P (JStr (log_message r)) → P (JStr rid) →
  (∀ e, log_exc r = Some e → P (JStr (formatException e))) →
  (∀ k v, k ∈ log_keys → dict_get k (log_extra r) = Some v → P v) →
  Forall (λ p, p.1 ∈ [u"timestamp"; u"level"; u"logger"; u"message"; u"request_id"; u"exception"]
                     ++ log_keys ∧ P p.2)
    (log_payload formatException now rid r).
Proof.
  intros. unfold log_payload, base_payload. apply add_extras_Forall.
  - apply Forall_forall. intros k Hk v Hv. split; [|by eauto]. apply elem_of_app. by right.
  - assert (∀ k v, k ∈ [u"timestamp"; u"level"; u"logger"; u"message"; u"request_id"; u"exception"]
            → P v → (k, v).1 ∈ [u"timestamp"; u"level"; u"logger"; u"message"; u"request_id"; u"exception"]
                     ++ log_keys ∧ P (k, v).2) as Hin.
    { intros k v Hk Hv. split; [|done]. apply elem_of_app. by left. }
    destruct (log_exc r); [apply dict_set_Forall; [apply Hin; [by repeat constructor|eauto]|]|];
      (repeat apply Forall_cons_2; [..|constructor]); apply Hin; try done; by repeat constructor.
Qed.

Lemma log_payload_keys now rid r : NoDup (log_payload formatException now rid r).*1.
Proof.
  unfold log_payload, base_payload. apply add_extras_keys.
  assert (NoDup [u"timestamp"; u"level"; u"logger"; u"message"; u"request_id"]) as H.
  { apply (bool_decide_unpack _). by vm_compute. }
  destruct (log_exc r); [apply NoDup_dict_set|]; exact H.
Qed.
End Lines.

Lemma pad_printable w n : Forall printable (pad w n).
Proof.
  unfold pad. apply Forall_app. split; [|apply str_of_Z_printable].
  by apply Forall_replicate.
Qed.

Lemma isoformat_printable t : Forall printable (isoformat t).
Proof.
  unfold isoformat. destruct (civil_from_days _) as [[y m] d].
  repeat first [apply pad_printable | apply Forall_app; split]; try (by repeat constructor).
  case_match; [constructor|]. apply Forall_app. split; [by repeat constructor|apply pad_printable].
Qed.

Lemma levelname_text l : text (JStr (levelname l)).
Proof. eexists; split; [done|]. apply printable_scalar. destruct l; by repeat constructor. Qed.

(** The fields every payload has. *)
Definition base_keys : list pystr :=
  [u"timestamp"; u"level"; u"logger"; u"message"; u"request_id"; u"exception"].

(** A record of texts: what the service logs, and what comes with it. *)
Record loggable (formatException : exn → pystr) (rid : pystr) (r : LogRecord) : Prop := {
  log_rid_text : Forall scalar rid;
  log_message_text : Forall scalar (log_message r);
  log_logger_text : Forall scalar (log_logger r);
  log_exc_text e : Forall scalar (formatException e);
  log_extra_text k v : k ∈ log_keys → dict_get k (log_extra r) = Some v → text v;
}.

Lemma log_payload_text formatException now rid r :
  loggable formatException rid r →
  Forall (λ p, p.1 ∈ base_keys ++ log_keys ∧ text p.2) (log_payload formatException now rid r).
Proof.
  intros []. apply log_payload_Forall; [|apply levelname_text| | | |intros|done];
    eexists; (split; [reflexivity|]); auto. apply printable_scalar, isoformat_printable.
Qed.

Lemma line_printable formatException now rid r :
  loggable formatException rid r → Forall printable (format formatException now rid r).
Proof.
  intros Hr. apply dumps_printable; [by repeat constructor..|]. simpl. apply forallb_forall.
  intros p Hp%list_elem_of_In. pose proof (log_payload_text _ now _ _ Hr) as Hall.
  rewrite Forall_forall in Hall. destruct (Hall _ Hp) as [_ (s & -> & _)]. done.
Qed.

Lemma line_loads formatException now rid r d :
  loggable formatException rid r → 1 ≤ d →
  json_loads d (format formatException now rid r) = Parsed (JObj (log_payload formatException now rid r)).
Proof.
  intros Hr Hd. pose proof (log_payload_text _ now _ _ Hr) as Hall.
  assert (Forall (λ k, Forall printable k) (base_keys ++ log_keys)) as Hkeys by (by repeat constructor).
  rewrite Forall_forall in Hkeys.
  apply (json_loads_print [32%N] [32%N]); [repeat constructor..| |].
  - constructor; [apply log_payload_keys|..]; (eapply Forall_impl; [exact Hall|]);
      intros [k v] [Hk (s & Hs & Hss)]; simpl in *; subst.
    + by apply printable_scalar, Hkeys.
    + by constructor.
  - etrans; [|exact Hd]. simpl. apply le_n_S.
    clear -Hall. induction Hall as [|[k v] l [_ (s & Hs & _)] _ IH]; simpl in *; [done|]. by subst.
Qed.

(** Whatever the texts of a record hold (quotes, line breaks, any Unicode), its log
    line is one line of printable ASCII that loads back as exactly the payload; the
    payload carries the message and the request id, and of the extra fields of the
    record exactly the four allow-listed ones. *)
Theorem log_line (formatException : exn → pystr) (now : datetime) (rid : pystr) (r : LogRecord)
    (d : nat) :
  Forall scalar rid → Forall scalar (log_message r) → Forall scalar (log_logger r) →
  (∀ e, Forall scalar (formatException e)) →
  (∀ k v, k ∈ log_keys → dict_get k (log_extra r) = Some v → text v) → 1 ≤ d →
  let payload := log_payload formatException now rid r in
  let line := format formatException now rid r in
  Forall printable line ∧ json_loads d line = Parsed (JObj payload)
  ∧ dict_get (u"message") payload = Some (JStr (log_message r))
  ∧ dict_get (u"request_id") payload = Some (JStr rid)
  ∧ (∀ k, k ∉ base_keys →
      dict_get k payload = if decide (k ∈ log_keys) then dict_get k (log_extra r) else None).
Proof.
  intros Hrid Hmsg Hlog Hexc Hextra Hd payload line.
  assert (loggable formatException rid r) as Hr by by constructor.
  assert (∀ k, dict_get k payload
    = match (if decide (k ∈ log_keys) then dict_get k (log_extra r) else None) with
      | Some v => Some v
      | None => dict_get k (base_payload formatException now rid r)
      end) as Hget.
  { intros k. apply add_extras_get, log_keys_NoDup. }
  split_and!; [by apply line_printable|by apply line_loads|..].
  - rewrite Hget. unfold base_payload. destruct (log_exc r); reflexivity.
  - rewrite Hget. unfold base_payload. destruct (log_exc r); reflexivity.
  - intros k Hk. rewrite Hget.
    match goal with |- match ?x with _ => _ end = _ => destruct x as [v|]; [done|] end.
    apply dict_get_None. unfold base_payload. destruct (log_exc r); intros Hin; apply Hk;
      repeat (apply elem_of_cons in Hin as [->|Hin]; [by repeat constructor|]); set_solver.
Qed.

(** A tenant name with a quote, a line break and a non-ASCII letter. *)
Definition awkward_record : LogRecord :=
  log_info (u"app") (u"hello")
    [(u"tenant_id", JStr [34; 10; 233; 0x1F600]%N); (u"answer", JStr (u"secret"))].

Lemma log_line_witness :
  let line := format (λ _, []) 0%Z (u"rid") awkward_record in
  Forall printable line
  ∧ json_loads 1 line = Parsed (JObj (log_payload (λ _, []) 0%Z (u"rid") awkward_record))
  ∧ dict_get (u"answer") (log_payload (λ _, []) 0%Z (u"rid") awkward_record) = None.
Proof.
  destruct (log_line (λ _, []) 0%Z (u"rid") awkward_record 1) as (Hp & Hl & _ & _ & Hk).
  - apply printable_scalar. by repeat constructor.
  - apply printable_scalar. by repeat constructor.
  - apply printable_scalar. by repeat constructor.
  - constructor.
  - intros k v Hin Hv. unfold awkward_record in Hv. simpl in Hv.
    case_decide; simplify_eq; [|case_decide; simplify_eq; exfalso; revert Hin;
      apply (bool_decide_unpack (_ ∉ _)); vm_compute; exact I].
    eexists. split; [reflexivity|].
    repeat apply Forall_cons_2; [..|apply Forall_nil_2]; unfold scalar; lia.
  - lia.
  - split; [exact Hp|]. split; [exact Hl|]. rewrite Hk; [vm_compute; reflexivity|].
    apply (bool_decide_unpack (_ ∉ _)). vm_compute. exact I.
Defined.
