(* ===== verification/LogConfig.v ===== *)
(** What a process writes to its log ([configure_logging] of [app/core/logging.py] and the
    [logging] module below it): the level and the handlers of the root logger, which
    records they let through, and the text that reaches the standard output. *)
From S2P Require Export Logging.

(** ** Levels *)

(** [logging._nameToLevel]. *)
Definition level_names : list (pystr * Z) :=
  [(u"CRITICAL", 50%Z); (u"FATAL", 50%Z); (u"ERROR", 40%Z); (u"WARN", 30%Z); (u"WARNING", 30%Z);
   (u"INFO", 20%Z); (u"DEBUG", 10%Z); (u"NOTSET", 0%Z)].

Definition levelno (l : LogLevel) : Z :=
  match l with INFO => 20 | WARNING => 30 | ERROR => 40 end.

(** ** The root logger *)

(** A handler: the one of [configure_logging] (standard output, [JsonFormatter]), or one
    that something else installed. *)
Inductive Handler := JsonToStdout | OtherHandler (name : pystr).

Record RootLogger := mkRoot { root_level : Z; root_handlers : list Handler }.

(** The root logger of a fresh interpreter: [WARNING], no handlers. *)
Definition fresh_root : RootLogger := mkRoot 30 [].

(** [root.setLevel(level)] of a name; [repr] is the text of [%r]. *)
Definition set_level (repr : pystr → pystr) (level : pystr) : M RootLogger unit := λ root,
  match dict_get level level_names with
  | Some n => (Ok tt, mkRoot n (root_handlers root))
  | None => (Raise (ValueExn (u"Unknown level: " ++ repr level)), root)
  end.

(** [configure_logging]: [basicConfig] with [force] removes the handlers there are, adds
    the new ones and then sets the level. *)
Definition configure_logging (repr : pystr → pystr) (level : pystr) : M RootLogger unit :=
  modify (λ root, mkRoot (root_level root) []);;
  modify (λ root, mkRoot (root_level root) (root_handlers root ++ [JsonToStdout]));;
  set_level repr (upper level).

(** ** Output *)

(** A logged record, with the time and the request it was formatted in. *)
Record LogEntry := mkLogEntry { entry_now : datetime; entry_request_id : pystr; entry_record : LogRecord }.

(** [logger.isEnabledFor(level)]: the service's loggers have no level of their own. *)
Definition enabled (root : RootLogger) (e : LogEntry) : Prop :=
  (root_level root ≤ levelno (log_level (entry_record e)))%Z.

#[export] Instance enabled_dec root e : Decision (enabled root e).
Proof. unfold enabled. apply _. Defined.

Section Output.
Context (formatException : exn → pystr).

Definition format_entry (e : LogEntry) : pystr :=
  format formatException (entry_now e) (entry_request_id e) (entry_record e).

(** [StreamHandler.emit]: the formatted record and a newline. *)
Definition emit (e : LogEntry) (h : Handler) : pystr :=
  match h with JsonToStdout => format_entry e ++ [10%N] | OtherHandler _ => [] end.

(** [Logger.handle], for each of the records in turn. *)
Definition stdout (root : RootLogger) (es : list LogEntry) : pystr :=
  es ≫= λ e, if decide (enabled root e) then root_handlers root ≫= emit e else [].
End Output.

(** ** What is written *)

Lemma stdout_lines formatException n es :
  stdout formatException (mkRoot n [JsonToStdout]) es
  = unlines (format_entry formatException <$> filter (enabled (mkRoot n [JsonToStdout])) es).
Proof.
  induction es as [|e es IH]; [done|]. rewrite filter_cons. unfold stdout. rewrite bind_cons.
  fold (stdout formatException (mkRoot n [JsonToStdout]) es). rewrite IH.
  destruct (decide (enabled (mkRoot n [JsonToStdout]) e)); [|done].
  cbn [root_handlers]. unfold unlines. rewrite fmap_cons, !bind_cons. cbn [emit]. by rewrite app_nil_r.
Qed.

Lemma printable_no_breaks s : Forall printable s → one_line s.
Proof.
  intros H. eapply Forall_impl; [exact H|]. intros c [Hlo Hhi]. unfold is_line_break. apply bool_decide_eq_false_2.
  rewrite !elem_of_cons, elem_of_nil. unfold printable in *. intuition lia.
Qed.

(** C33: the log stream.  A level the interpreter knows, in any case, makes the JSON handler the
    only one, whatever was installed before, and the output is then one line per record
    at or above the level, in order, each loading back as the record's payload; a level
    it does not know raises [ValueError], leaves the level but has already
    replaced the handlers. *)
Theorem log_stream (repr : pystr → pystr) (formatException : exn → pystr) (level : pystr)
    (root : RootLogger) (es : list LogEntry) (d : nat) :
  1 ≤ d → (∀ e, e ∈ es → loggable formatException (entry_request_id e) (entry_record e)) →
  let '(r, root') := configure_logging repr level root in
  root_handlers root' = [JsonToStdout]
  ∧ match dict_get (upper level) level_names with
    | None => (∃ msg, r = Raise (ValueExn msg)) ∧ root_level root' = root_level root
    | Some n =>
        r = Ok tt
        ∧ json_loads d <$> splitlines (stdout formatException root' es)
          = (λ e, Parsed (JObj (log_payload formatException (entry_now e) (entry_request_id e)
                                  (entry_record e))))
            <$> filter (λ e, (n ≤ levelno (log_level (entry_record e)))%Z) es
    end.
Proof.
  intros Hd Hes. unfold configure_logging, set_level, modify. unfold mbind, M_bind. cbn [root_level root_handlers].
  destruct (dict_get (upper level) level_names) as [n|]; (split; [reflexivity|]); [|by eauto].
  split; [done|].
  change (filter (λ e, (n ≤ levelno (log_level (entry_record e)))%Z) es)
    with (filter (enabled (mkRoot n [JsonToStdout])) es).
  rewrite app_nil_l, stdout_lines. rewrite <- (app_nil_r (unlines _)), splitlines_unlines.
  - rewrite app_nil_r, <- list_fmap_compose. apply list_fmap_ext. intros i e He. unfold compose, format_entry.
    apply line_loads; [|done]. apply Hes. apply list_elem_of_lookup_2, list_elem_of_filter in He. naive_solver.
  - apply Forall_fmap, Forall_forall. intros e [_ He]%list_elem_of_filter.
    by apply printable_no_breaks, line_printable, Hes.
Qed.

(** A process that logs from [WARNING] up, and names the level in lower case. *)
Definition sample_entries : list LogEntry :=
  [mkLogEntry 0%Z (u"rid-1") awkward_record;
   mkLogEntry 1%Z (u"rid-2") (log_exception (u"app.services.queue") (u"job failed") [] TimeoutExn);
   mkLogEntry 2%Z (u"rid-3") (log_warning (u"app") (u"line" ++ [10%N] ++ u"break") [])].

Lemma sample_entries_loggable e :
  e ∈ sample_entries → loggable (λ _, []) (entry_request_id e) (entry_record e).
Proof.
  unfold sample_entries. rewrite !elem_of_cons, elem_of_nil. intros He.
  assert (∀ s, forallb (λ c, (c <? 0xd800)%N) s = true → Forall scalar s) as Htext.
  { intros s H. rewrite forallb_forall in H. apply Forall_forall. intros c Hc%list_elem_of_In.
    left. by apply N.ltb_lt, H. }
  destruct He as [-> | [-> | [-> | []]]]; constructor; intros; try (by apply Htext);
    match goal with H : dict_get ?k _ = Some _ |- _ => simpl in H end; [|done..].
  case_decide; simplify_eq; [|case_decide; simplify_eq; exfalso;
    match goal with H : u"answer" ∈ log_keys |- _ => revert H end;
    apply (bool_decide_unpack (_ ∉ _)); vm_compute; exact I].
  eexists. split; [reflexivity|]. repeat apply Forall_cons_2; [..|apply Forall_nil_2]; unfold scalar; lia.
Qed.

Lemma log_stream_witness :
  let '(r, root) := configure_logging id (u"warning") (mkRoot 0%Z [OtherHandler (u"old")]) in
  r = Ok tt ∧ root_handlers root = [JsonToStdout]
  ∧ length (splitlines (stdout (λ _, []) root sample_entries)) = 2
  ∧ json_loads 1 <$> splitlines (stdout (λ _, []) root sample_entries)
    = (λ e, Parsed (JObj (log_payload (λ _, []) (entry_now e) (entry_request_id e) (entry_record e))))
      <$> filter (λ e, (30 ≤ levelno (log_level (entry_record e)))%Z) sample_entries.
Proof.
  pose proof (log_stream id (λ _, []) (u"warning") (mkRoot 0%Z [OtherHandler (u"old")]) sample_entries 1
    ltac:(lia) sample_entries_loggable) as H.
  destruct (configure_logging id (u"warning") (mkRoot 0%Z [OtherHandler (u"old")])) as [r root] eqn:E.
  assert (match dict_get (upper (u"warning")) level_names with Some n => n | None => 0%Z end = 30%Z
          ∧ is_Some (dict_get (upper (u"warning")) level_names)) as [E30 [n En]]
    by (split; [vm_compute; reflexivity|eexists; vm_compute; reflexivity]).
  rewrite En in E30, H. destruct H as (Hh & Hr & Hl). subst n.
  split; [exact Hr|]. split; [exact Hh|]. split; [|exact Hl].
  rewrite <- (length_fmap (json_loads 1)), Hl, length_fmap. vm_compute. reflexivity.
Defined.
