(* ===== verification/AuditTrail.v ===== *)
(** The audit recorder ([app/core/audit.py]). *)
From S2P Require Export Logging.

Record AuditEvent := mkAuditEvent {
  event_type : pystr;
  event_tenant_id : pystr;
  event_project_id : pystr;
  event_job_id : pystr;
  event_created_at : datetime;
  event_metadata : list (pystr * json);
}.

(** [AuditRecorder.events], oldest first. *)
Record AuditRecorder := mkAudit { events : list AuditEvent }.

Definition audit_logger : pystr := u"app.core.audit".

Definition audit_log (e : AuditEvent) : LogRecord :=
  log_info audit_logger (u"audit event recorded")
    [(u"event_type", JStr (event_type e)); (u"tenant_id", JStr (event_tenant_id e));
     (u"project_id", JStr (event_project_id e)); (u"job_id", JStr (event_job_id e))].

(** [AuditRecorder.record]: the event is appended, then logged without its metadata. *)
Definition record (etype tenant project job : pystr) (metadata : list (pystr * json))
    : M ((AuditRecorder * list LogRecord) * clock) unit :=
  t ← now;
  let event := mkAuditEvent etype tenant project job t metadata in
  '(audit, logs) ← get_state;
  put_state (mkAudit (events audit ++ [event]), logs ++ [audit_log event]).
