(* ===== verification/Tracing.v ===== *)
(** Tracing ([app/core/tracing.py]): the spans the service opens, and the choice of an
    exporter.  OpenTelemetry itself is a library; a span is its name and the attributes
    the service sets. *)
From S2P Require Export Errors Effects.

Record Span := mkSpan { span_name : pystr; span_attributes : list (pystr * json) }.

(** The attributes [traced_span] sets: those that are not [None]. *)
Definition traced_span (name : pystr) (attributes : list (pystr * option json)) : Span :=
  mkSpan name (omap (λ '(k, v), v ← v; Some (k, v)) attributes).

Inductive SpanExporter :=
| ConsoleSpanExporter
| OTLPSpanExporter (endpoint : option pystr).

(** The type [OtelExporter] of the setting, [Literal["console", "otlp", "none"]]. *)
Inductive OtelExporter := console | otlp | none.

#[export] Instance OtelExporter_eq_dec : EqDecision OtelExporter.
Proof. solve_decision. Defined.

Definition exporter_value (e : OtelExporter) : pystr :=
  match e with console => u"console" | otlp => u"otlp" | none => u"none" end.

Definition _build_span_exporter (exporter : OtelExporter) (otlp_endpoint : option pystr)
    : res SpanExporter :=
  match exporter with
  | console => Ok ConsoleSpanExporter
  | otlp =>
      match otlp_endpoint with
      | Some endpoint => Ok (if decide (endpoint = []) then OTLPSpanExporter None
                             else OTLPSpanExporter (Some endpoint))
      | None => Ok (OTLPSpanExporter None)
      end
  | none =>
      Raise (ValueExn (u"Unsupported OpenTelemetry exporter: " ++ exporter_value exporter))
  end.

(** The last branch is dead: its callers have returned on ["none"]. *)
Lemma build_span_exporter_ok exporter otlp_endpoint :
  exporter ≠ none → ∃ e, _build_span_exporter exporter otlp_endpoint = Ok e.
Proof. destruct exporter, otlp_endpoint; intros; simpl; by eauto. Qed.

(** The tracer provider a process installs. *)
Record TracerProvider := mkProvider {
  provider_service_name : pystr;
  provider_exporter : SpanExporter;
  (** The URLs left out of request instrumentation; [None] without an application. *)
  excluded_urls : option pystr;
}.

Definition configure_tracing (service_name : pystr) (enabled : bool) (exporter : OtelExporter)
    (otlp_endpoint : option pystr) : res (option TracerProvider) :=
  if negb enabled || bool_decide (exporter = none) then Ok None
  else
    e ← _build_span_exporter exporter otlp_endpoint;
    Ok (Some (mkProvider service_name e (Some (u"/health/live,/health/ready")))).

Definition configure_worker_tracing (service_name : pystr) (enabled : bool) (exporter : OtelExporter)
    (otlp_endpoint : option pystr) : res (option TracerProvider) :=
  if negb enabled || bool_decide (exporter = none) then Ok None
  else
    e ← _build_span_exporter exporter otlp_endpoint;
    Ok (Some (mkProvider (service_name ++ u"-worker") e None)).

(** Tracing can always be configured. *)
Lemma configure_tracing_ok service_name enabled exporter otlp_endpoint :
  ∃ p, configure_tracing service_name enabled exporter otlp_endpoint = Ok p.
Proof.
  unfold configure_tracing. destruct enabled; [|by eexists]. case_bool_decide as Hn; [by eexists|].
  destruct (build_span_exporter_ok exporter otlp_endpoint Hn) as [e ->]. by eexists.
Qed.

Lemma configure_worker_tracing_ok service_name enabled exporter otlp_endpoint :
  ∃ p, configure_worker_tracing service_name enabled exporter otlp_endpoint = Ok p.
Proof.
  unfold configure_worker_tracing. destruct enabled; [|by eexists].
  case_bool_decide as Hn; [by eexists|].
  destruct (build_span_exporter_ok exporter otlp_endpoint Hn) as [e ->]. by eexists.
Qed.
