(* ===== verification/RateLimit.v ===== *)
(** The fixed-window rate limiter ([app/core/rate_limit.py]). *)
From S2P Require Export Errors Effects PyFloat.

(** ** The limiter *)

Record WindowCounter := mkCounter { window_start : float; count : Z }.

Record InMemoryRateLimiter := mkLimiter {
  window_seconds : Z;
  _counters : gmap pystr WindowCounter;
}.

Definition RateLimitExceeded : exn := AppExn (new_app_error RateLimitExceededError None).

Definition set_counter (key : pystr) (c : WindowCounter) (l : InMemoryRateLimiter)
    : InMemoryRateLimiter :=
  mkLimiter (window_seconds l) (<[key := c]> (_counters l)).

(** [now - counter.window_start >= self.window_seconds], in floats. *)
Definition window_over (l : InMemoryRateLimiter) (now : float) (c : WindowCounter) : bool :=
  float_geb (float_sub now (window_start c)) (float_of (window_seconds l)).

(** [check], with [now] the reading of [time.monotonic()].  The critical section is
    under a lock: one call is one step. *)
Definition check (now : float) (key : pystr) (limit : Z) : M InMemoryRateLimiter unit :=
  l ← gets id;
  match _counters l !! key with
  | None => modify (set_counter key (mkCounter now 1))
  | Some c =>
      if window_over l now c then modify (set_counter key (mkCounter now 1))
      else if (count c >=? limit)%Z then raise RateLimitExceeded
      else modify (set_counter key (mkCounter (window_start c) (count c + 1)))
  end.

(** ** Client keys *)

(** The parts of a request the key is made of. *)
Record ClientInfo := mkClient {
  x_forwarded_for : option pystr;
  client_host : option pystr;
}.

Definition client_ip (r : ClientInfo) : pystr :=
  match x_forwarded_for r with
  | Some ((_ :: _) as forwarded_for) => strip (default [] (head (split_sep 44%N forwarded_for)))
  | _ => match client_host r with Some host => host | None => u"unknown" end
  end.

Definition client_key (r : ClientInfo) (route_name : pystr) (tenant_id : option pystr) : pystr :=
  let tenant_part := match tenant_id with
                     | Some ((_ :: _) as t) => t
                     | _ => u"unknown-tenant"
                     end in
  route_name ++ u":" ++ tenant_part ++ u":" ++ client_ip r.

Example client_key_ex :
  client_key (mkClient (Some (u" 10.0.0.1 , 10.0.0.2")) (Some (u"::1"))) (u"get_evaluation")
    (Some (u"tenant-a")) = u"get_evaluation:tenant-a:10.0.0.1".
Proof. vm_compute. reflexivity. Qed.

(** ** Sequences of checks *)

(** What one check did: opened a window, was counted in it, or was refused. *)
Inductive verdict := Opened | Counted | Refused.

#[export] Instance verdict_eq_dec : EqDecision verdict.
Proof. solve_decision. Defined.

Definition verdict_of (l : InMemoryRateLimiter) (now : float) (key : pystr) (limit : Z) : verdict :=
  match _counters l !! key with
  | None => Opened
  | Some c => if window_over l now c then Opened
              else if (count c >=? limit)%Z then Refused else Counted
  end.

Definition admitted (v : verdict) : bool := match v with Refused => false | _ => true end.

(** A sequence of checks, each with its clock reading, key and limit. *)
Definition Checks := list (float * pystr * Z).

Fixpoint run_checks (xs : Checks) (l : InMemoryRateLimiter) : list (res unit) * InMemoryRateLimiter :=
  match xs with
  | [] => ([], l)
  | (now, key, limit) :: xs =>
      let '(r, l) := check now key limit l in
      let '(rs, l) := run_checks xs l in (r :: rs, l)
  end.

Fixpoint verdicts (xs : Checks) (l : InMemoryRateLimiter) : list (pystr * verdict) :=
  match xs with
  | [] => []
  | (now, key, limit) :: xs =>
      (key, verdict_of l now key limit) :: verdicts xs (check now key limit l).2
  end.

Definition count_verdicts (P : verdict → bool) (key : pystr) (vs : list (pystr * verdict)) : Z :=
  Z.of_nat (length (filter (λ p, p.1 = key ∧ P p.2 = true) vs)).

Lemma check_cases now key limit l :
  let '(r, l') := check now key limit l in
  r = (if admitted (verdict_of l now key limit) then Ok tt else Raise RateLimitExceeded)
  ∧ window_seconds l' = window_seconds l
  ∧ (∀ key', key' ≠ key → _counters l' !! key' = _counters l !! key')
  ∧ match verdict_of l now key limit with
    | Opened => _counters l' !! key = Some (mkCounter now 1)
    | Counted => ∃ c, _counters l !! key = Some c ∧ (count c < limit)%Z
                      ∧ _counters l' !! key = Some (mkCounter (window_start c) (count c + 1))
    | Refused => l' = l
    end.
Proof.
  unfold check, verdict_of, modify, raise, gets, mbind, M_bind, set_counter; simpl.
  destruct (_counters l !! key) as [c|] eqn:E; [destruct (window_over l now c) eqn:Ew;
    [|destruct (Z.geb_spec (count c) limit)]|]; simpl; split_and!; try done;
    try (intros; by rewrite lookup_insert_ne); try by rewrite lookup_insert_eq.
  exists c. rewrite lookup_insert_eq. split_and!; [done|lia|done].
Qed.

(** How often [key] was counted in its current window. *)
Definition window_count (l : InMemoryRateLimiter) (key : pystr) : Z :=
  match _counters l !! key with Some c => count c | None => 0 end.

Lemma count_verdicts_eq P key v vs :
  count_verdicts P key ((key, v) :: vs) = ((if P v then 1 else 0) + count_verdicts P key vs)%Z.
Proof.
  unfold count_verdicts. rewrite filter_cons; simpl. destruct (P v).
  - rewrite decide_True by done. simpl. lia.
  - by rewrite decide_False by (by intros [_ ?]).
Qed.

Lemma count_verdicts_ne P key k v vs :
  k ≠ key → count_verdicts P key ((k, v) :: vs) = count_verdicts P key vs.
Proof. intros. unfold count_verdicts. rewrite filter_cons_False; [done|]. by intros [? _]. Qed.

(** C32: however the checks of a key interleave with those of other keys, every window of
    the key admits at most [max 1 limit] requests: the number admitted is at most that
    times the number of windows opened (plus what was left of the window already open),
    and a request is refused exactly when its window is still open and full. *)
Theorem window_limit (xs : Checks) (l : InMemoryRateLimiter) (key : pystr) (limit : Z) :
  (∀ now k lim, (now, k, lim) ∈ xs → k = key → lim = limit) →
  (window_count l key ≤ 1 `max` limit)%Z →
  (run_checks xs l).1
    = (λ p, if admitted p.2 then Ok tt else Raise RateLimitExceeded) <$> verdicts xs l
  ∧ (count_verdicts admitted key (verdicts xs l)
     ≤ (1 `max` limit) * count_verdicts (λ v, bool_decide (v = Opened)) key (verdicts xs l)
       + (1 `max` limit - window_count l key))%Z.
Proof.
  intros Hlim. revert l.
  induction xs as [|[[now k] lim] xs IH]; intros l Hl; [split; [done|unfold count_verdicts; simpl; lia]|].
  assert (∀ now k lim, (now, k, lim) ∈ xs → k = key → lim = limit) as Hxs
    by (intros; eapply Hlim; [by right|done]).
  pose proof (check_cases now k lim l) as Hc. simpl run_checks. simpl verdicts.
  destruct (check now k lim l) as [r l'] eqn:E. destruct Hc as (-> & _ & Hother & Hv).
  simpl in *.
  destruct (decide (k = key)) as [->|Hk].
  - assert (lim = limit) as -> by (eapply Hlim; [by left|done]).
    assert (window_count l' key ≤ 1 `max` limit
            ∧ window_count l' key = match verdict_of l now key limit with
               | Opened => 1 | Counted => window_count l key + 1 | Refused => window_count l key end)%Z
      as [Hl' Hw].
    { unfold window_count in *. destruct (verdict_of l now key limit); [rewrite Hv; simpl; lia| |by subst].
      destruct Hv as (c & Hc & Hlt & ->). rewrite Hc in *. simpl in *. lia. }
    destruct (IH Hxs l' Hl') as [Hrs Hle]. destruct (run_checks xs l') as [rs l2]. simpl in *.
    split; [by rewrite Hrs|]. rewrite !count_verdicts_eq.
    destruct (verdict_of l now key limit); simpl in *; lia.
  - assert (window_count l' key = window_count l key) as Hw
      by (unfold window_count; by rewrite Hother).
    destruct (IH Hxs l' ltac:(lia)) as [Hrs Hle]. destruct (run_checks xs l') as [rs l2]. simpl in *.
    split; [by rewrite Hrs|]. rewrite !count_verdicts_ne by done. lia.
Qed.

Lemma window_limit_witness :
  let a := u"submit_evaluation:t:ip" in
  let xs := [(float_of 0, a, 1); (float_of 59, a, 1); (float_of 59, u"other", 1);
             (float_of 60, a, 1); (float_of 61, a, 1)]%Z in
  (verdicts xs (mkLimiter 60 ∅)).*2 = [Opened; Refused; Opened; Opened; Refused]
  ∧ (count_verdicts admitted a (verdicts xs (mkLimiter 60 ∅)) ≤ 1 * 2 + 1)%Z.
Proof.
  intros a xs. split; [vm_compute; reflexivity|].
  destruct (window_limit xs (mkLimiter 60 ∅) a 1) as [_ H].
  - intros now k lim Hin _. revert Hin. subst xs. rewrite !elem_of_cons, elem_of_nil.
    intros [?|[?|[?|[?|[?|[]]]]]]; congruence.
  - vm_compute. discriminate.
  - exact H.
Defined.

Lemma app_colon_inj (a b s t : pystr) :
  58%N ∉ a → 58%N ∉ b → a ++ 58%N :: s = b ++ 58%N :: t → a = b ∧ s = t.
Proof.
  revert b. induction a as [|c a IH]; intros [|d b] Ha Hb H; simplify_eq/=;
    rewrite ?not_elem_of_cons in *; [done|by destruct Hb|by destruct Ha|].
  destruct (IH b) as [-> ->]; [apply Ha|apply Hb|done|done].
Qed.

(** For tenants whose name holds no colon, two requests share a rate limit counter
    exactly when their route, tenant and client address agree.  The address is the first
    entry of [X-Forwarded-For] when the client sends one. *)
Theorem client_key_separates (r r' : ClientInfo) (route route' t t' : pystr) :
  58%N ∉ route → 58%N ∉ route' → 58%N ∉ t → 58%N ∉ t' → t ≠ [] → t' ≠ [] →
  client_key r route (Some t) = client_key r' route' (Some t')
  ↔ route = route' ∧ t = t' ∧ client_ip r = client_ip r'.
Proof.
  intros Hr Hr' Ht Ht' Hne Hne'. unfold client_key.
  destruct t as [|c t], t' as [|c' t']; try done. split; [|by intros (-> & -> & ->)].
  intros H. apply app_colon_inj in H as [-> H]; [|done..].
  apply app_colon_inj in H as [? ?]; [|done..]. done.
Qed.

Lemma client_key_separates_witness :
  client_key (mkClient (Some (u"1.2.3.4")) None) (u"get_evaluation") (Some (u"a"))
  ≠ client_key (mkClient (Some (u"1.2.3.4")) None) (u"get_evaluation") (Some (u"b")).
Proof.
  intros H. apply client_key_separates in H as (_ & H & _); [discriminate| | | | |discriminate..];
    apply (bool_decide_unpack _); vm_compute; exact I.
Defined.

(** A tenant name or a client-sent address with a colon can reach another counter. *)
Lemma client_key_collision :
  client_key (mkClient (Some (u"x:y")) None) (u"get_evaluation") (Some (u"a"))
  = client_key (mkClient (Some (u"y")) None) (u"get_evaluation") (Some (u"a:x")).
Proof. vm_compute. reflexivity. Qed.
