(* ===== verification/Factory.v ===== *)
(** The repository a process is given ([app/storage/factory.py]): the choice of a backend,
    and a repository of either kind behind the one interface, so that what is proved of any
    repository holds of the one the settings name. *)
From S2P Require Export Config InMemory Postgres.

(** ** Either backend *)

Inductive AnyRepository :=
| OfMemory (m : InMemoryJobRepository)
| OfPostgres (p : PostgresJobRepository).

Definition res_map {A B} (f : A → B) (r : res A) : res B :=
  match r with Ok a => Ok (f a) | Raise e => Raise e end.

(** A method of one backend, on a repository that is that backend. *)
Definition via {T S A B} (inj : T → S) (f : A → B) (m : M (T * clock) A) (t : T) (c : clock)
    : res B * (S * clock) :=
  let '(r, (t', c')) := m (t, c) in (res_map f r, (inj t', c')).

(** A method call: the object's class decides. *)
Definition dispatch {A B C} (fm : A → C) (fp : B → C) (on_memory : M (InMemoryJobRepository * clock) A)
    (on_postgres : M (PostgresJobRepository * clock) B) : M (AnyRepository * clock) C := λ '(s, c),
  match s with
  | OfMemory m => via OfMemory fm on_memory m c
  | OfPostgres p => via OfPostgres fp on_postgres p c
  end.

Section Factory.
Context `{QueryPlan}.

(** A job of either backend. *)
Definition of_memory (x : ref (S := InMemoryJobRepository)) : loc + EvaluationJob := inl x.
Definition of_postgres (x : ref (S := PostgresJobRepository)) : loc + EvaluationJob := inr x.

#[export] Instance Any_repository : JobRepository AnyRepository := {|
  ref := loc + EvaluationJob;
  (** A job of the one backend never meets a repository of the other. *)
  deref s x := match s, x with
               | OfMemory m, inl l => deref m l
               | OfPostgres _, inl l => deref Memory.init l
               | _, inr j => j
               end;
  create j := dispatch of_memory of_postgres (create j) (create j);
  get id := dispatch of_memory of_postgres (get id) (get id);
  get_for_tenant id tenant := dispatch of_memory of_postgres (get_for_tenant id tenant) (get_for_tenant id tenant);
  list_recent tenant project limit :=
    dispatch (fmap of_memory) (fmap of_postgres) (list_recent tenant project limit) (list_recent tenant project limit);
  claim_next_queued := dispatch (fmap of_memory) (fmap of_postgres) claim_next_queued claim_next_queued;
  recover_stale_running cutoff := dispatch id id (recover_stale_running cutoff) (recover_stale_running cutoff);
  set_running id := dispatch of_memory of_postgres (set_running id) (set_running id);
  set_succeeded id v := dispatch of_memory of_postgres (set_succeeded id v) (set_succeeded id v);
  set_failed id m := dispatch of_memory of_postgres (set_failed id m) (set_failed id m);
  health_check := dispatch id id health_check health_check;
  close := dispatch id id close close;
|}.

(** ** The contract *)

Definition any_inv (s : AnyRepository) : Prop :=
  match s with OfMemory m => repo_inv m | OfPostgres p => repo_inv p end.
Definition any_view (s : AnyRepository) : store :=
  match s with OfMemory m => view m | OfPostgres p => view p end.
Definition any_reliable (s : AnyRepository) : Prop :=
  match s with OfMemory m => reliable m | OfPostgres p => reliable p end.
Definition any_held (s : AnyRepository) : gset UUID :=
  match s with OfMemory m => held m | OfPostgres p => held p end.
Definition any_tracks (s : AnyRepository) (x : loc + EvaluationJob) (id : UUID) : Prop :=
  match s, x with
  | OfMemory m, inl l => tracks m l id
  | OfPostgres p, inr j => tracks p j id
  | _, _ => False
  end.
(** A repository keeps its kind. *)
Definition any_le (s s' : AnyRepository) : Prop :=
  match s, s' with
  | OfMemory m, OfMemory m' => repo_le m m'
  | OfPostgres p, OfPostgres p' => repo_le p p'
  | _, _ => False
  end.

Lemma via_run {T S A B} (inj : T → S) (f : A → B) m t c r s' c' :
  via inj f m t c = (r, (s', c')) →
  ∃ r0 t', m (t, c) = (r0, (t', c')) ∧ r = res_map f r0 ∧ s' = inj t'.
Proof.
  unfold via. destruct (m (t, c)) as [r0 [t' c'']]. intros ?. simplify_eq. eauto.
Qed.

(** A law of [AnyRepository] is the law of the backend, about the backend's run. *)
Tactic Notation "via_backend" hyp(Hrun) uconstr(law) :=
  apply via_run in Hrun as (r0 & t' & Hrun & -> & ->); apply law in Hrun; [|assumption..].

(** The backend's storage error is the repository's. *)
Ltac backend_failed := split; [done|]; try split; first [done | by eexists].

Ltac transition_backend Hrun r0 :=
  let Ht := fresh in let Hr := fresh in
  destruct Hrun as (? & ? & Ht & Hr); destruct r0; (split_and!; [done|done| |]);
  (try by intros x [= <-]; apply Ht); (destruct Hr as [?|(? & [? ?] & ?)]; [by left|]);
  simplify_eq; right; backend_failed.

#[export] Instance Any_laws : RepositoryLaws AnyRepository.
Proof.
  refine {| repo_inv := any_inv; view := any_view; reliable := any_reliable; held := any_held;
            tracks := any_tracks; repo_le := any_le |}.
  - intros [m|p]; apply repo_inv_ok.
  - intros [m|p] [x|x] id; try (by intros _ []).
    + exact (tracks_deref m x id).
    + exact (tracks_deref p x id).
  - split; [by intros [m|p]; cbn [any_le]|].
    intros [m1|p1] [m2|p2] [m3|p3]; cbn [any_le]; try done; apply transitivity.
  - intros [m|p] [m'|p']; cbn [any_le any_view]; try done; apply repo_le_evolves.
  - intros [m|p] [m'|p'] [x|x] id; try (by intros _ []).
    + exact (repo_le_tracks m m' x id).
    + exact (repo_le_tracks p p' x id).
  - intros [m|p] [m'|p']; cbn [any_le any_reliable]; try done; apply repo_le_reliable.
  - intros [m|p] [m'|p']; cbn [any_le any_held]; try done; apply repo_le_held.
  - intros j [m|p] c r s' c' Hs Hj Hq Hn Hrun; via_backend Hrun create_spec;
      destruct Hrun as (? & ? & [(x & -> & ?)|(? & [? ->] & ?)]); split_and!; try done;
      first [right; backend_failed|left; by eexists].
  - intros id [m|p] c r s' c' Hs Hrun; via_backend Hrun get_spec;
      destruct Hrun as (? & ? & ? & [Hr|[? [? ->]]]); split_and!; try done;
      first [right; backend_failed|left]; cbn [any_view]; case_match; (destruct Hr as (x & -> & ?) || rewrite Hr); first [done|by eexists].
  - intros id tenant [m|p] c r s' c' Hs Hrun; via_backend Hrun get_for_tenant_spec;
      destruct Hrun as (? & ? & ? & [Hr|[? [? ->]]]); split_and!; try done;
      first [right; backend_failed|left]; cbn [any_view]; repeat case_match; (destruct Hr as (x & -> & ?) || rewrite Hr);
      first [done|by eexists].
  - intros tenant project limit [m|p] c r s' c' Hs Hl Hrun; via_backend Hrun list_recent_spec;
      destruct Hrun as (? & ? & ? & [(xs & -> & Hlist & Hxs)|[? [? ->]]]); split_and!; try done;
      first [right; backend_failed|left]; eexists; (split_and!; [done| |by apply Forall_fmap]);
      by rewrite <- list_fmap_compose.
  - intros [m|p] c r s' c' Hs Hrun; via_backend Hrun claim_next_queued_spec;
      destruct Hrun as (? & ? & [(-> & ?)|[(x & id & j & t1 & t2 & -> & ?)|(? & [? ->] & ?)]]);
      split_and!; try done;
      first [by left|right; right; backend_failed|right; left; by eexists _, id, j, t1, t2].
  - intros cutoff [m|p] c r s' c' Hs Hrun; via_backend Hrun recover_stale_running_spec;
      destruct Hrun as (? & ? & [(-> & ?)|(? & [? ->] & ?)]); split_and!; try done;
      first [by left|right; backend_failed].
  - intros id [m|p] c r s' c' Hs Hrun; via_backend Hrun set_running_spec; transition_backend Hrun r0.
  - intros id v [m|p] c r s' c' Hs Hv Hrun; via_backend Hrun set_succeeded_spec; transition_backend Hrun r0.
  - intros id msg [m|p] c r s' c' Hs Hrun; via_backend Hrun set_failed_spec; transition_backend Hrun r0.
  - intros [m|p] c r s' c' Hs Hrun; via_backend Hrun health_check_spec;
      destruct Hrun as (? & ? & ? & b & -> & ?); split_and!; try done; by exists b.
  - intros [m|p] c r s' c' Hs Hrun; via_backend Hrun close_spec;
      destruct Hrun as (? & ? & ? & ->); by split_and!.
Defined.

Lemma via_clocked {T S A B} (inj : T → S) (f : A → B) (m : M (T * clock) A) t c :
  clocked m → rest_of c (via inj f m t c).2.2.
Proof. intros Hm. generalize (Hm t c). unfold via, clock. by destruct (m (t, c)) as [? [? ?]]. Qed.

Lemma dispatch_clocked {A B C} (fm : A → C) (fp : B → C) on_memory on_postgres :
  clocked on_memory → clocked on_postgres → clocked (dispatch fm fp on_memory on_postgres).
Proof. intros ?? [m|p] c; by apply via_clocked. Qed.

#[export] Instance Any_clocked : ClockedRepository AnyRepository := {|
  create_clocked j := dispatch_clocked _ _ _ _ (create_clocked j) (create_clocked j);
  get_clocked id := dispatch_clocked _ _ _ _ (get_clocked id) (get_clocked id);
  get_for_tenant_clocked id tenant :=
    dispatch_clocked _ _ _ _ (get_for_tenant_clocked id tenant) (get_for_tenant_clocked id tenant);
  list_recent_clocked tenant project limit :=
    dispatch_clocked _ _ _ _ (list_recent_clocked tenant project limit)
      (list_recent_clocked tenant project limit);
  claim_next_queued_clocked := dispatch_clocked _ _ _ _ claim_next_queued_clocked claim_next_queued_clocked;
  recover_stale_running_clocked cutoff :=
    dispatch_clocked _ _ _ _ (recover_stale_running_clocked cutoff) (recover_stale_running_clocked cutoff);
  set_running_clocked id := dispatch_clocked _ _ _ _ (set_running_clocked id) (set_running_clocked id);
  set_succeeded_clocked id v :=
    dispatch_clocked _ _ _ _ (set_succeeded_clocked id v) (set_succeeded_clocked id v);
  set_failed_clocked id m := dispatch_clocked _ _ _ _ (set_failed_clocked id m) (set_failed_clocked id m);
  health_check_clocked := dispatch_clocked _ _ _ _ health_check_clocked health_check_clocked;
  close_clocked := dispatch_clocked _ _ _ _ close_clocked close_clocked;
|}.
End Factory.

(** ** The factory *)

Section Build.
(** SQLAlchemy: the engine of a database URL and [create_all] over it.  An engine connects
    when it is used; [create_all] creates the tables that are missing. *)
Context (create_async_engine : pystr → res PostgresJobRepository).
Context (create_all : PostgresJobRepository → res PostgresJobRepository).

Definition build_repository (s : Settings) : res AnyRepository :=
  if decide (storage_backend s = u"memory") then Ok (OfMemory Memory.init)
  else if decide (storage_backend s = u"postgres") then
    repository ← create_async_engine (database_url s);
    if auto_create_schema s then
      repository ← create_all repository;
      Ok (OfPostgres repository)
    else Ok (OfPostgres repository)
  else Raise (ValueExn (u"Unsupported storage backend: " ++ storage_backend s)).
End Build.
