(* ===== verification/Auth.v ===== *)
(** Demo tokens ([app/core/auth.py]): JSON web tokens signed with HMAC-SHA256, created,
    decoded and validated, and the request context an Authorization header gives. *)
From S2P Require Export Sha256 Config.

Record RequestContext := mkContext {
  ctx_tenant_id : pystr;
  subject : pystr;
  scopes : list pystr;
}.

(** [UnauthorizedError(message)]. *)
Definition Unauthorized (message : pystr) : exn := AppExn (new_app_error UnauthorizedError (Some message)).

(** ** Time stamps *)

(** [int(t.timestamp())]: the microseconds over 10^6, rounded to the 53 bits of a double
    (half to even), then truncated. *)
Definition epoch_seconds (t : datetime) : Z :=
  let n := Z.abs t in
  let bits := (52 - Z.log2 (n / 1000000))%Z in
  (Z.sgn t * (round_half_even (n * 2 ^ bits) 1000000 / 2 ^ bits))%Z.

(** ** Base64 without padding *)

Definition _base64url_encode (value : bytes) : pystr :=
  rstrip_by (N.eqb 61) (urlsafe_b64encode value).

Definition _base64url_decode (value : pystr) : res bytes :=
  let padding := replicate (Z.to_nat ((- str_len value) mod 4)) 61%N in
  urlsafe_b64decode (value ++ padding).

(** ** Creating tokens *)

(** [json.dumps(value, separators=(",", ":"))]. *)
Definition compact_dumps : json → pystr := dumps (u",") (u":").

Definition jwt_header : json := JObj [(u"alg", JStr (u"HS256")); (u"typ", JStr (u"JWT"))].

Definition encode_demo_jwt (payload : json) (secret : pystr) : res pystr :=
  h ← utf8_encode (compact_dumps jwt_header);
  p ← utf8_encode (compact_dumps payload);
  let signing_input := join (u".") [_base64url_encode h; _base64url_encode p] in
  key ← utf8_encode secret;
  message ← ascii_encode signing_input;
  Ok (signing_input ++ u"." ++ _base64url_encode (hmac_sha256 key message)).

(** [create_demo_jwt]; [current_time] is its argument [now], or a reading of the clock,
    and [expires_delta] is in microseconds. *)
Definition create_demo_jwt (s : Settings) (tenant sub : pystr) (scs : list pystr) (expires_delta : Z)
    (current_time : datetime) : res pystr :=
  expires ← datetime_add current_time expires_delta;
  encode_demo_jwt
    (JObj [(u"iss", JStr (auth_issuer s)); (u"aud", JStr (auth_audience s)); (u"sub", JStr sub);
           (u"tenant_id", JStr tenant); (u"scopes", JList (JStr <$> scs));
           (u"iat", JInt (epoch_seconds current_time)); (u"exp", JInt (epoch_seconds expires))])
    (auth_demo_secret s).

(** ** Decoding tokens *)

Section Decode.
(** The nesting of JSON values that the interpreter's recursion limit admits. *)
Context (depth : nat).

(** The members of a JSON object. *)
Notation claims := (list (pystr * json)).

(** The three decodings of [_decode_token_parts], in its [try] block. *)
Definition decode_parts (p0 p1 p2 : pystr) : res (json * json * bytes) :=
  h ← _base64url_decode p0; header ← json_loads_bytes depth h;
  p ← _base64url_decode p1; payload ← json_loads_bytes depth p;
  signature ← _base64url_decode p2;
  Ok (header, payload, signature).

Definition _decode_token_parts (token : pystr) : res (claims * claims * pystr * bytes) :=
  match split_sep 46 token with
  | [p0; p1; p2] =>
      match decode_parts p0 p1 p2 with
      | Raise (ValueExn _) => Raise (Unauthorized (u"Invalid token encoding."))
      | Raise e => Raise e
      | Ok (JObj header, JObj payload, signature) =>
          Ok (header, payload, join (u".") [p0; p1], signature)
      | Ok _ => Raise (Unauthorized (u"Invalid token content."))
      end
  | _ => Raise (Unauthorized (u"Invalid token format."))
  end.

Definition missing_claim {A} (claim : pystr) : res A :=
  Raise (Unauthorized (u"Missing token claim: " ++ claim ++ u".")).

Definition _required_string (payload : claims) (claim : pystr) : res pystr :=
  match dict_get claim payload with
  | Some (JStr ((_ :: _) as v)) => Ok v
  | _ => missing_claim claim
  end.

(** A bool is an int. *)
Definition _required_int (payload : claims) (claim : pystr) : res Z :=
  match dict_get claim payload with
  | Some (JInt n) => Ok n
  | Some (JBool b) => Ok (if b then 1 else 0)%Z
  | _ => missing_claim claim
  end.

Definition is_str (s : pystr) (v : json) : bool :=
  match v with JStr t => bool_decide (t = s) | _ => false end.

Definition _audience_matches (value : option json) (expected : pystr) : bool :=
  match value with
  | Some (JStr v) => bool_decide (v = expected)
  | Some (JList vs) => existsb (is_str expected) vs
  | _ => false
  end.

(** The elements of a list, when all are strings. *)
Fixpoint strings_of (vs : list json) : option (list pystr) :=
  match vs with
  | [] => Some []
  | JStr s :: vs => cons s <$> strings_of vs
  | _ => None
  end.

Definition _scopes (payload : claims) : list pystr :=
  match dict_get (u"scopes") payload with
  | Some (JStr s) => filter (λ scope, scope ≠ []) (split s)
  | Some (JList vs) => default [] (strings_of vs)
  | _ => []
  end.

(** ** Validating tokens *)

(** [validate_demo_jwt]; [now] is its argument, or a reading of the clock. *)
Definition validate_demo_jwt (s : Settings) (token : pystr) (now : datetime) : res RequestContext :=
  '(header, payload, signing_input, signature) ← _decode_token_parts token;
  if negb (match dict_get (u"alg") header with Some v => is_str (u"HS256") v | None => false end)
  then Raise (Unauthorized (u"Unsupported token algorithm."))
  else
    key ← utf8_encode (auth_demo_secret s);
    message ← ascii_encode signing_input;
    if negb (bool_decide (signature = hmac_sha256 key message))
    then Raise (Unauthorized (u"Invalid token signature."))
    else
      let current_time := epoch_seconds now in
      iss ← _required_string payload (u"iss");
      if negb (bool_decide (iss = auth_issuer s))
      then Raise (Unauthorized (u"Invalid token issuer."))
      else if negb (_audience_matches (dict_get (u"aud") payload) (auth_audience s))
      then Raise (Unauthorized (u"Invalid token audience."))
      else
        exp ← _required_int payload (u"exp");
        if (exp <=? current_time)%Z then Raise (Unauthorized (u"Token has expired."))
        else
          tenant ← _required_string payload (u"tenant_id");
          sub ← _required_string payload (u"sub");
          Ok (mkContext tenant sub (_scopes payload)).

(** [get_request_context]: no context at all without authentication. *)
Definition get_request_context (s : Settings) (authorization : option pystr) (now : datetime)
    : res (option RequestContext) :=
  if negb (auth_enabled s) then Ok None
  else match authorization with
  | None => Raise (Unauthorized (u"Missing bearer token."))
  | Some authorization =>
      let '(scheme, _, token) := partition 32 authorization in
      if negb (bool_decide (lower scheme = u"bearer")) || bool_decide (token = [])
      then Raise (Unauthorized (u"Invalid authorization header."))
      else ctx ← validate_demo_jwt s token now; Ok (Some ctx)
  end.
End Decode.

(** *** A token, as the command line tool would print it *)

Definition auth_settings : Settings := default_settings.
Definition sample_now : datetime := 1779624000123456%Z.
Definition sample_token : res pystr :=
  create_demo_jwt auth_settings (u"tenant-a") (u"demo-user") [u"evaluations:read"] 3600000000 sample_now.

Example token_text :
  sample_token = Ok (u"eyJhbGciOiJIUzI1NiIsInR5cCI6IkpXVCJ9."
    ++ u"eyJpc3MiOiJsbG0tZXZhbHVhdGlvbi1zZXJ2aWNlIiwiYXVkIjoibGxtLWV2YWx1YXRpb24tc2VydmljZSIsInN1YiI6"
    ++ u"ImRlbW8tdXNlciIsInRlbmFudF9pZCI6InRlbmFudC1hIiwic2NvcGVzIjpbImV2YWx1YXRpb25zOnJlYWQiXSwi"
    ++ u"aWF0IjoxNzc5NjI0MDAwLCJleHAiOjE3Nzk2Mjc2MDB9.YsFKuCMUEavCO13Oxa9OznxIcmYWYAlKn85Me5ee5yY").
Proof. vm_compute. reflexivity. Qed.

Example token_ex :
  (t ← sample_token; validate_demo_jwt 100 auth_settings t (sample_now + 3599000000)%Z)
    = Ok (mkContext (u"tenant-a") (u"demo-user") [u"evaluations:read"])
  ∧ (t ← sample_token; validate_demo_jwt 100 auth_settings t (sample_now + 3600000000)%Z)
    = Raise (Unauthorized (u"Token has expired."))
  ∧ validate_demo_jwt 100 auth_settings (u"a.b") sample_now = Raise (Unauthorized (u"Invalid token format."))
  ∧ validate_demo_jwt 100 auth_settings (u"a.b.c") sample_now
    = Raise (Unauthorized (u"Invalid token encoding.")).
Proof. vm_compute. auto. Qed.

(** ** Encodings of printable text *)

Lemma printable_ascii s : Forall printable s → forallb is_ascii s = true.
Proof.
  intros H. apply forallb_forall. intros c Hc%list_elem_of_In.
  pose proof (proj1 (Forall_forall _ _) H c Hc) as Hp. unfold printable, is_ascii in *.
  apply N.ltb_lt. lia.
Qed.

Lemma utf8_encode_printable s : Forall printable s → utf8_encode s = Ok s.
Proof.
  induction 1 as [|c s Hc Hs IH]; [done|]. cbn [utf8_encode]. unfold printable in Hc.
  assert (is_surrogate c = false) as -> by (unfold is_surrogate; apply andb_false_iff; left; apply N.leb_gt; lia).
  rewrite IH. unfold utf8_char. by rewrite (proj2 (N.ltb_lt c 0x80)) by lia.
Qed.

Lemma utf8_decode_printable s : Forall printable s → utf8_decode s = Ok s.
Proof.
  induction 1 as [|c s Hc Hs IH]; [done|]. cbn [utf8_decode]. unfold printable in Hc.
  by rewrite (proj2 (N.ltb_lt c 0x80)), IH by lia.
Qed.

Lemma detect_printable s : Forall printable s → detect_encoding s = UTF8.
Proof.
  intros Hs. assert (∀ c, c ∈ s → (c =? 0)%N = false ∧ ∀ k, (0x80 <= k)%N → (k =? c)%N = false) as H.
  { intros c Hc. pose proof (proj1 (Forall_forall _ _) Hs c Hc) as Hp. unfold printable in Hp.
    split; [|intros k Hk]; apply N.eqb_neq; lia. }
  unfold detect_encoding. destruct s as [|a s]; [done|].
  destruct (H a ltac:(left)) as [Ha Ha']. assert (0 =? a = false)%N as Ha0 by (by rewrite N.eqb_sym).
  cbn [starts_with]. rewrite Ha0, !Ha' by lia. simpl.
  destruct s as [|b [|c [|d s]]]; try done; destruct (H b ltac:(right; left)) as [-> _]; by rewrite ?Ha.
Qed.

Lemma json_loads_bytes_dumps d j :
  plain j → no_float j = true → Json.depth j ≤ d → json_loads_bytes d (compact_dumps j) = Ok j.
Proof.
  intros Hp Hf Hd. unfold json_loads_bytes.
  assert (Forall printable (compact_dumps j)) as Hpr
    by (apply dumps_printable; [..|done]; repeat constructor; done).
  rewrite detect_printable by done. cbn [decode]. rewrite utf8_decode_printable by done.
  cbn [mbind res_bind]. change (compact_dumps j) with (dumps [44%N] [58%N] j).
  by rewrite json_loads_print.
Qed.

Lemma base64url_encode_body value :
  Forall is_byte value → _base64url_encode value = to_urlsafe <$> b64_body value.
Proof.
  intros Hv. unfold _base64url_encode, urlsafe_b64encode.
  destruct (b64encode_body value Hv) as (k & _ & -> & _). rewrite fmap_app.
  rewrite rstrip_by_app_all.
  2:{ rewrite fmap_replicate. apply Forall_replicate. done. }
  pose proof (b64_body_char value Hv) as Hb.
  unfold rstrip_by. rewrite <- (reverse_involutive (_ <$> b64_body value)) at 2. f_equal.
  destruct (reverse (to_urlsafe <$> b64_body value)) as [|c r] eqn:E; [done|].
  assert (c ∈ to_urlsafe <$> b64_body value) as Hc by (apply elem_of_reverse; rewrite E; left).
  apply list_elem_of_fmap in Hc as (x & -> & Hx).
  pose proof (proj1 (Forall_forall _ _) Hb x Hx) as Hu. unfold urlsafe_char in Hu. to_prop.
  cbn [drop_while]. by rewrite N.eqb_sym; match goal with H : (_ =? 61)%N = false |- _ => rewrite H end.
Qed.

Lemma base64url_roundtrip value :
  Forall is_byte value → _base64url_decode (_base64url_encode value) = Ok value.
Proof.
  intros Hv. unfold _base64url_decode. rewrite base64url_encode_body by done.
  destruct (b64encode_body value Hv) as (k & _ & He & Hk). unfold str_len. rewrite length_fmap, <- Hk.
  replace ((to_urlsafe <$> b64_body value) ++ replicate k 61%N) with (to_urlsafe <$> b64encode value)
    by (by rewrite He, fmap_app, fmap_replicate).
  unfold urlsafe_b64decode, ascii_encode. rewrite (proj2 (forallb_forall _ _)).
  - cbn [mbind res_bind]. by apply a2b_b64encode.
  - intros c (x & -> & Hx)%list_elem_of_In%list_elem_of_fmap. rewrite He in Hx.
    apply elem_of_app in Hx as [Hx|Hx].
    + pose proof (proj1 (Forall_forall _ _) (b64_body_char value Hv) x Hx) as Hu.
      unfold urlsafe_char in Hu. by to_prop.
    + by apply elem_of_replicate in Hx as [-> _].
Qed.

(** No character of an encoding is the separator of a token, and all are ASCII. *)
Lemma base64url_chars value :
  Forall is_byte value → 46%N ∉ _base64url_encode value ∧ Forall (λ c, is_ascii c = true) (_base64url_encode value).
Proof.
  intros Hv. rewrite base64url_encode_body by done.
  assert (Forall (λ c, urlsafe_char c = true) (to_urlsafe <$> b64_body value)) as H
    by (apply Forall_map, b64_body_char, Hv).
  split.
  - intros Hin. pose proof (proj1 (Forall_forall _ _) H _ Hin) as Hc. done.
  - eapply Forall_impl; [exact H|]. intros c Hc. unfold urlsafe_char in Hc. by to_prop.
Qed.

(** ** Time stamps fit *)

Lemma round_half_even_bounds n d : (0 < d → n / d <= round_half_even n d <= n / d + 1)%Z.
Proof. intros. unfold round_half_even. case_match; lia. Qed.

Lemma epoch_seconds_abs t : (Z.abs (epoch_seconds t) <= Z.abs t / 1000000 + 1)%Z.
Proof.
  unfold epoch_seconds. set (n := Z.abs t). set (e := (52 - Z.log2 (n / 1000000))%Z).
  set (m := (round_half_even (n * 2 ^ e) 1000000 / 2 ^ e)%Z).
  assert (0 <= m <= n / 1000000 + 1)%Z as Hm.
  { unfold m. destruct (Z.ltb_spec e 0) as [He|He].
    - rewrite (Z.pow_neg_r 2 e) by done. rewrite Zdiv_0_r. split; [lia|].
      pose proof (Z.div_pos n 1000000)%Z. lia.
    - pose proof (Z.pow_pos_nonneg 2 e ltac:(lia) He) as Hp.
      pose proof (round_half_even_bounds (n * 2 ^ e) 1000000 ltac:(lia)) as [Hl Hu].
      assert (0 <= n * 2 ^ e / 1000000)%Z by (apply Z.div_pos; lia).
      assert (n * 2 ^ e / 1000000 < (n / 1000000 + 1) * 2 ^ e)%Z.
      { apply Z.div_lt_upper_bound; [lia|]. pose proof (Z.mul_succ_div_gt n 1000000 ltac:(lia)). nia. }
      split; [apply Z.div_pos; lia|]. apply Z.div_le_upper_bound; lia. }
  rewrite Z.abs_mul. destruct (Z.sgn_spec t) as [[? ->]|[[? ->]|[? ->]]]; simpl; lia.
Qed.

(** Up to the year 2514 the rounding is invisible. *)
Lemma epoch_seconds_floor t :
  (0 <= t < 2 ^ 34 * 1000000)%Z → epoch_seconds t = (t / 1000000)%Z.
Proof.
  intros Ht. unfold epoch_seconds. rewrite Z.abs_eq by lia.
  set (e := (52 - Z.log2 (t / 1000000))%Z). assert (t / 1000000 < 2 ^ 34)%Z as Hq
    by (apply Z.div_lt_upper_bound; lia).
  assert (19 <= e)%Z as He.
  { unfold e. destruct (Z.eq_dec (t / 1000000)%Z 0%Z) as [->|Hne]; [simpl; lia|].
    pose proof (Z.div_pos t 1000000). pose proof (Z.log2_lt_pow2 (t / 1000000)%Z 34). lia. }
  pose proof (Z.pow_le_mono_r 2 19 e ltac:(lia) He) as Hp. change (2 ^ 19)%Z with 524288%Z in Hp.
  pose proof (Z.div_mod t 1000000 ltac:(lia)) as Hdm.
  pose proof (Z.mod_pos_bound t 1000000 ltac:(lia)) as Hr.
  set (q := (t / 1000000)%Z) in *. set (r := (t mod 1000000)%Z) in *.
  replace (round_half_even (t * 2 ^ e) 1000000 / 2 ^ e)%Z with q.
  { destruct (Z.sgn_spec t) as [[? ->]|[[? ->]|[? ->]]]; lia. }
  apply Z.div_unique_pos with (r := (round_half_even (t * 2 ^ e) 1000000 - q * 2 ^ e)%Z); [|lia].
  assert (t * 2 ^ e = (q * 2 ^ e) * 1000000 + r * 2 ^ e)%Z as E by (rewrite Hdm at 1; lia).
  unfold round_half_even. rewrite E, (Z.add_comm (_ * 1000000)), Z_div_plus, Z_mod_plus by lia.
  set (x := (r * 2 ^ e / 1000000)%Z).
  pose proof (Z.div_mod (r * 2 ^ e) 1000000 ltac:(lia)) as Hx.
  pose proof (Z.mod_pos_bound (r * 2 ^ e) 1000000 ltac:(lia)) as Hxr. fold x in Hx.
  assert (0 <= r * 2 ^ e)%Z by nia. assert (0 <= x)%Z by (unfold x; apply Z.div_pos; lia).
  assert (r * 2 ^ e + 524288 <= 1000000 * 2 ^ e)%Z by nia.
  match goal with |- context [if ?b then _ else _] => destruct b eqn:Eb end; [split; [lia|nia]|].
  apply orb_false_iff in Eb as [Eb _]. apply Z.ltb_ge in Eb. split; [lia|]. nia.
Qed.

Lemma digits_of_length f : ∀ n k,
  (n < 10 ^ N.of_nat k)%N → k ≠ 0 → length (digits_of f n) ≤ k.
Proof.
  induction f as [|f IH]; intros n k Hn Hk; [simpl; lia|]. simpl. rewrite length_app. simpl.
  destruct (N.ltb_spec n 10); [simpl; lia|]. destruct k as [|[|k]]; [done|simpl in Hn; lia|].
  assert (length (digits_of f (n / 10)) ≤ S k); [|lia]. apply IH; [|lia].
  apply N.Div0.div_lt_upper_bound. eapply N.lt_le_trans; [exact Hn|].
  rewrite (Nat2N.inj_succ (S k)), N.pow_succ_r'. lia.
Qed.

Lemma small_int_bound z : (Z.abs z < 10 ^ 20)%Z → small_int z.
Proof.
  intros Hz. unfold small_int, str_of_N. etrans; [apply (digits_of_length _ _ 20)|].
  - change (10 ^ N.of_nat 20)%N with (Z.to_N (10 ^ 20)). lia.
  - done.
  - by apply Nat.leb_le.
Qed.

Lemma epoch_seconds_small t : (datetime_min <= t <= datetime_max)%Z → small_int (epoch_seconds t).
Proof.
  intros Ht. apply small_int_bound. pose proof (epoch_seconds_abs t) as H.
  assert (Z.abs t / 1000000 <= 253402300799)%Z; [|lia].
  unfold datetime_min, datetime_max in Ht.
  change 253402300799%Z with (253402300799999999 / 1000000)%Z. apply Z.div_le_mono; lia.
Qed.

(** ** Tokens *)

Lemma strings_of_strs ss : strings_of (JStr <$> ss) = Some ss.
Proof. induction ss as [|s ss IH]; [done|]. cbn. by rewrite IH. Qed.

Lemma printable_byte s : Forall printable s → Forall is_byte s.
Proof. intros H. eapply Forall_impl; [exact H|]. unfold printable, is_byte. intros; lia. Qed.

Lemma compact_printable j : no_float j = true → Forall printable (compact_dumps j).
Proof. intros. apply dumps_printable; [..|done]; repeat constructor; done. Qed.

Lemma ascii_encode_app s t b c :
  ascii_encode s = Ok b → ascii_encode t = Ok c → ascii_encode (s ++ t) = Ok (b ++ c).
Proof.
  unfold ascii_encode. rewrite forallb_app. intros. repeat case_match; simplify_eq/=; done.
Qed.

Lemma ascii_encode_ok s : Forall (λ c, is_ascii c = true) s → ascii_encode s = Ok s.
Proof.
  intros H. unfold ascii_encode. rewrite (proj2 (forallb_forall _ _)); [done|].
  intros c Hc%list_elem_of_In. by apply (proj1 (Forall_forall _ _) H).
Qed.

(** What a token is made of, and how it is taken apart again. *)
Definition signing_input (payload : json) : pystr :=
  _base64url_encode (compact_dumps jwt_header) ++ u"." ++ _base64url_encode (compact_dumps payload).

Lemma encode_demo_jwt_run payload secret key :
  no_float payload = true → utf8_encode secret = Ok key →
  encode_demo_jwt payload secret
  = Ok (signing_input payload ++ u"." ++ _base64url_encode (hmac_sha256 key (signing_input payload)))
  ∧ ascii_encode (signing_input payload) = Ok (signing_input payload).
Proof.
  intros Hf Hk. pose proof (compact_printable jwt_header eq_refl) as Hh.
  pose proof (compact_printable payload Hf) as Hp.
  assert (ascii_encode (signing_input payload) = Ok (signing_input payload)) as Ha.
  { unfold signing_input. apply ascii_encode_app; [|apply ascii_encode_app; [done|]];
      apply ascii_encode_ok, base64url_chars, printable_byte; done. }
  split; [|exact Ha]. unfold encode_demo_jwt. rewrite (utf8_encode_printable _ Hh), (utf8_encode_printable _ Hp).
  cbn [mbind res_bind]. rewrite Hk. cbn [mbind res_bind join].
  fold (signing_input payload). by rewrite Ha.
Qed.

Lemma decode_encoded d header payload signature :
  plain (JObj header) → no_float (JObj header) = true → Json.depth (JObj header) ≤ d →
  plain (JObj payload) → no_float (JObj payload) = true → Json.depth (JObj payload) ≤ d →
  Forall is_byte signature →
  let p0 := _base64url_encode (compact_dumps (JObj header)) in
  let p1 := _base64url_encode (compact_dumps (JObj payload)) in
  _decode_token_parts d ((p0 ++ u"." ++ p1) ++ u"." ++ _base64url_encode signature)
  = Ok (header, payload, p0 ++ u"." ++ p1, signature).
Proof.
  intros Hh Hhf Hhd Hp Hpf Hpd Hs p0 p1.
  pose proof (printable_byte _ (compact_printable _ Hhf)) as Hhb.
  pose proof (printable_byte _ (compact_printable _ Hpf)) as Hpb.
  unfold _decode_token_parts. change (u".") with [46%N].
  replace ((p0 ++ _) ++ _) with (join [46%N] [p0; p1; _base64url_encode signature])
    by (cbn [join]; by rewrite <- !app_assoc).
  rewrite split_by_join; [|done|repeat constructor; by apply base64url_chars].
  unfold decode_parts, p0, p1. rewrite !base64url_roundtrip by done. cbn [mbind res_bind].
  rewrite !json_loads_bytes_dumps by done. done.
Qed.

Lemma claims_plain s tenant sub scs iat exp :
  Forall (Forall scalar) (auth_issuer s :: auth_audience s :: tenant :: sub :: scs) →
  small_int iat → small_int exp →
  plain (JObj [(u"iss", JStr (auth_issuer s)); (u"aud", JStr (auth_audience s)); (u"sub", JStr sub);
               (u"tenant_id", JStr tenant); (u"scopes", JList (JStr <$> scs));
               (u"iat", JInt iat); (u"exp", JInt exp)]).
Proof.
  rewrite !Forall_cons. intros (Hi & Ha & Ht & Hs & Hscs) Hiat Hexp. constructor.
  - apply (bool_decide_unpack _). vm_compute. exact I.
  - eapply (Forall_impl (λ p, Forall printable p.1)); [|intros p; apply printable_scalar].
    repeat (constructor; [apply (bool_decide_unpack _); vm_compute; exact I|]). constructor.
  - repeat apply Forall_cons_2; simpl; try by constructor.
    constructor. apply Forall_map. eapply Forall_impl; [exact Hscs|]. intros. by constructor.
Qed.

Lemma strs_depth (ss : list pystr) : foldr (λ x n, Json.depth x `max` n) 0 (JStr <$> ss) = 0.
Proof. induction ss as [|s ss IH]; [done|]. cbn. by rewrite IH. Qed.

Lemma strs_no_float (ss : list pystr) : forallb no_float (JStr <$> ss) = true.
Proof. by induction ss. Qed.

Lemma is_str_refl s : is_str s (JStr s) = true.
Proof. unfold is_str. by rewrite bool_decide_eq_true_2. Qed.

Ltac unfold_res := cbn [mbind res_bind].

Lemma created_token_validates (depth : nat) (s : Settings) (tenant sub : pystr) (scs : list pystr)
    (delta : Z) (t texp now : datetime) (key : bytes) :
  2 ≤ depth → utf8_encode (auth_demo_secret s) = Ok key →
  Forall (Forall scalar) (auth_issuer s :: auth_audience s :: tenant :: sub :: scs) →
  auth_issuer s ≠ [] → tenant ≠ [] → sub ≠ [] →
  (datetime_min <= t <= datetime_max)%Z → datetime_add t delta = Ok texp →
  ∃ token, create_demo_jwt s tenant sub scs delta t = Ok token
  ∧ validate_demo_jwt depth s token now
    = if (epoch_seconds texp <=? epoch_seconds now)%Z then Raise (Unauthorized (u"Token has expired."))
      else Ok (mkContext tenant sub scs).
Proof.
  intros Hd Hkey Hsc Hi Ht Hs Hrange Hexp. unfold create_demo_jwt. rewrite Hexp. unfold_res.
  assert (datetime_min <= texp <= datetime_max)%Z as Hrange'.
  { unfold datetime_add in Hexp. case_match eqn:E; simplify_eq. to_prop. lia. }
  pose proof (claims_plain s tenant sub scs _ _ Hsc (epoch_seconds_small t Hrange)
                (epoch_seconds_small texp Hrange')) as Hplain.
  set (claims := [(u"iss", _); _; _; _; _; _; _]) in *.
  assert (no_float (JObj claims) = true) as Hnf by (cbn; by rewrite strs_no_float).
  destruct (encode_demo_jwt_run (JObj claims) _ _ Hnf Hkey) as [Henc Hascii].
  eexists. split; [exact Henc|]. unfold validate_demo_jwt, signing_input at 1.
  unfold jwt_header. rewrite decode_encoded;
    [|by repeat constructor; apply (bool_decide_unpack _); vm_compute|done|cbn; lia|done|done|..].
  2:{ cbn. rewrite strs_depth. cbn. lia. }
  2:{ apply hmac_sha256_byte. }
  unfold_res. cbn [dict_get]. rewrite decide_True by done. rewrite is_str_refl. cbn [negb].
  rewrite Hkey. unfold_res. fold jwt_header. fold (signing_input (JObj claims)). rewrite Hascii. unfold_res.
  rewrite bool_decide_eq_true_2 by done. cbn [negb]. unfold _required_string, _required_int, _scopes.
  assert (dict_get (u"iss") claims = Some (JStr (auth_issuer s))) as -> by reflexivity.
  assert (dict_get (u"aud") claims = Some (JStr (auth_audience s))) as -> by reflexivity.
  assert (dict_get (u"exp") claims = Some (JInt (epoch_seconds texp))) as -> by reflexivity.
  assert (dict_get (u"tenant_id") claims = Some (JStr tenant)) as -> by reflexivity.
  assert (dict_get (u"sub") claims = Some (JStr sub)) as -> by reflexivity.
  assert (dict_get (u"scopes") claims = Some (JList (JStr <$> scs))) as -> by reflexivity.
  clear -Hi Ht Hs. destruct (auth_issuer s); [done|]. destruct tenant; [done|]. destruct sub; [done|].
  unfold_res. cbn [_audience_matches]. rewrite !bool_decide_eq_true_2 by done. cbn [negb]. unfold_res.
  by rewrite strings_of_strs.
Qed.

(** C14: a token created for a tenant validates, under the same settings and until the
    second it expires, to exactly the tenant, subject and scopes it was created for, and
    is refused as expired from then on. *)
Theorem demo_jwt_round_trip (depth : nat) (s : Settings) (tenant sub : pystr) (scs : list pystr)
    (delta : Z) (t texp now : datetime) (key : bytes) :
  2 ≤ depth → utf8_encode (auth_demo_secret s) = Ok key →
  Forall (Forall scalar) (auth_issuer s :: auth_audience s :: tenant :: sub :: scs) →
  auth_issuer s ≠ [] → tenant ≠ [] → sub ≠ [] →
  (datetime_min <= t <= datetime_max)%Z → datetime_add t delta = Ok texp →
  ∃ token, create_demo_jwt s tenant sub scs delta t = Ok token
  ∧ validate_demo_jwt depth s token now
    = if (epoch_seconds texp <=? epoch_seconds now)%Z then Raise (Unauthorized (u"Token has expired."))
      else Ok (mkContext tenant sub scs).
Proof. apply created_token_validates. Qed.

Lemma demo_jwt_round_trip_witness :
  ∃ token, create_demo_jwt auth_settings (u"tenant-a") (u"demo-user") [u"evaluations:read"] 3600000000
             sample_now = Ok token
  ∧ validate_demo_jwt 2 auth_settings token sample_now
    = Ok (mkContext (u"tenant-a") (u"demo-user") [u"evaluations:read"]).
Proof.
  destruct (demo_jwt_round_trip 2 auth_settings (u"tenant-a") (u"demo-user") [u"evaluations:read"]
    3600000000 sample_now (sample_now + 3600000000)%Z sample_now (u"local-demo-secret"))
    as (token & Hc & Hv).
  - lia.
  - vm_compute. reflexivity.
  - eapply (Forall_impl (Forall printable)); [|intros p; apply printable_scalar].
    apply (bool_decide_unpack _). vm_compute. exact I.
  - discriminate.
  - discriminate.
  - discriminate.
  - unfold datetime_min, datetime_max, sample_now. lia.
  - vm_compute. reflexivity.
  - exists token. split; [exact Hc|]. rewrite Hv. vm_compute. reflexivity.
Defined.

(** ** What validation accepts *)

(** A token is authentic for [ctx] at [now]: it is three encoded parts of which the last
    is the signature of the first two under the secret of the settings, its header names
    the algorithm, and its claims name the issuer, the audience, an expiry still to come
    and the context. *)
Record authentic (depth : nat) (s : Settings) (token : pystr) (now : datetime)
    (ctx : RequestContext) : Prop := {
  auth_parts : ∃ p0 p1 p2 header payload key,
    token = p0 ++ u"." ++ p1 ++ u"." ++ p2 ∧ 46%N ∉ p0 ∧ 46%N ∉ p1 ∧ 46%N ∉ p2
    ∧ (∃ h, _base64url_decode p0 = Ok h ∧ json_loads_bytes depth h = Ok (JObj header))
    ∧ (∃ p, _base64url_decode p1 = Ok p ∧ json_loads_bytes depth p = Ok (JObj payload))
    ∧ utf8_encode (auth_demo_secret s) = Ok key
    ∧ _base64url_decode p2 = Ok (hmac_sha256 key (p0 ++ u"." ++ p1))
    ∧ dict_get (u"alg") header = Some (JStr (u"HS256"))
    ∧ dict_get (u"iss") payload = Some (JStr (auth_issuer s))
    ∧ _audience_matches (dict_get (u"aud") payload) (auth_audience s) = true
    ∧ (∃ exp, _required_int payload (u"exp") = Ok exp ∧ (epoch_seconds now < exp)%Z)
    ∧ dict_get (u"tenant_id") payload = Some (JStr (ctx_tenant_id ctx))
    ∧ dict_get (u"sub") payload = Some (JStr (subject ctx))
    ∧ scopes ctx = _scopes payload;
  auth_issuer_set : auth_issuer s ≠ [];
  auth_tenant_set : ctx_tenant_id ctx ≠ [];
  auth_subject_set : subject ctx ≠ [];
}.

Lemma split_token token p0 p1 p2 :
  split_sep 46 token = [p0; p1; p2] ↔
  token = p0 ++ u"." ++ p1 ++ u"." ++ p2 ∧ 46%N ∉ p0 ∧ 46%N ∉ p1 ∧ 46%N ∉ p2.
Proof.
  change (p0 ++ u"." ++ p1 ++ u"." ++ p2) with (join [46%N] [p0; p1; p2]). split.
  - intros H. split; [by rewrite <- H, join_split_by|].
    assert (∀ w, w ∈ [p0; p1; p2] → 46%N ∉ w) as Hw.
    { rewrite <- H. intros w Hw Hin. apply split_by_pieces in Hw.
      pose proof (proj1 (Forall_forall _ _) Hw _ Hin) as E. done. }
    split_and!; apply Hw; set_solver.
  - intros (-> & ? & ? & ?). apply split_by_join; [done|by repeat constructor].
Qed.

Lemma base64url_decode_ascii p b : _base64url_decode p = Ok b → ascii_encode p = Ok p.
Proof.
  unfold _base64url_decode, urlsafe_b64decode. intros (x & Hx & _)%res_bind_Ok.
  unfold ascii_encode in *. case_match eqn:E; [|done]. rewrite forallb_app in E. to_prop.
  by match goal with H : forallb _ p = true |- _ => rewrite H end.
Qed.

Lemma ascii_encode_signing p0 p1 h p :
  _base64url_decode p0 = Ok h → _base64url_decode p1 = Ok p →
  ascii_encode (p0 ++ u"." ++ p1) = Ok (p0 ++ u"." ++ p1).
Proof.
  intros H0%base64url_decode_ascii H1%base64url_decode_ascii.
  apply ascii_encode_app; [done|]. by apply ascii_encode_app.
Qed.

Lemma required_string_Ok payload claim v :
  _required_string payload claim = Ok v ↔ dict_get claim payload = Some (JStr v) ∧ v ≠ [].
Proof.
  unfold _required_string. split; [|by intros [-> ?]; destruct v].
  intros. repeat case_match; simplify_eq. done.
Qed.

Lemma is_str_spec s v : is_str s v = true ↔ v = JStr s.
Proof. destruct v; simpl; try done. rewrite bool_decide_eq_true. split; [by intros ->|by intros [= ->]]. Qed.

(** A token is accepted for a context exactly when it is authentic for it: the signature
    under the secret of the settings, the issuer, the audience and the expiry are checked
    for every accepted token. *)
Lemma validate_accepted (depth : nat) (s : Settings) (token : pystr) (now : datetime)
    (ctx : RequestContext) :
  validate_demo_jwt depth s token now = Ok ctx ↔ authentic depth s token now ctx.
Proof.
  unfold validate_demo_jwt, _decode_token_parts, decode_parts. split.
  - intros ([[[header payload] input] signature] & Hdec & Hv)%res_bind_Ok.
    destruct (split_sep 46 token) as [|p0 [|p1 [|p2 []]]] eqn:Hsplit; try done.
    apply split_token in Hsplit as (Htok & H0 & H1 & H2).
    remember (join (u".") [p0; p1]) as sin eqn:Hsin.
    match type of Hdec with match ?d with _ => _ end = _ => destruct d as [[[hd pd] sg]|] eqn:Hparts end;
      [|by repeat case_match; simplify_eq].
    apply res_bind_Ok in Hparts as (h & Hh & (header' & Hhj & (p & Hp & (payload' & Hpj &
      (sg' & Hsg & [=]%symmetry)%res_bind_Ok)%res_bind_Ok)%res_bind_Ok)%res_bind_Ok).
    destruct hd, pd; try discriminate Hdec. injection Hdec as <- <- <- <-.
    case_match eqn:Halg; [done|]. to_prop.
    apply res_bind_Ok in Hv as (key & Hkey & (msg & Hmsg & Hv)%res_bind_Ok).
    rewrite Hsin in Hmsg. cbn [join] in Hmsg.
    rewrite (ascii_encode_signing p0 p1 h p Hh Hp) in Hmsg. injection Hmsg as <-.
    case_match eqn:Hsig; [done|]. to_prop.
    apply res_bind_Ok in Hv as (iss & (Hiss & Hne)%required_string_Ok & Hv).
    case_match eqn:Hi; [done|]. to_prop. case_match eqn:Haud; [done|]. to_prop.
    apply res_bind_Ok in Hv as (exp & Hexp & Hv). case_match eqn:Hlt; [done|]. to_prop.
    apply res_bind_Ok in Hv as (tn & (Htn & Htne)%required_string_Ok & Hv).
    apply res_bind_Ok in Hv as (sb & (Hsb & Hsbe)%required_string_Ok & [= <-]). subst.
    destruct (dict_get (u"alg") _) as [v|] eqn:Hget; [|done]. apply is_str_spec in Halg as ->.
    constructor; [|done..]. repeat eexists; eauto.
  - intros [(p0 & p1 & p2 & header & payload & key & -> & H0 & H1 & H2 & (h & Hh & Hhj) &
      (p & Hp & Hpj) & Hkey & Hsig & Halg & Hiss & Haud & (exp & Hexp & Hlt) & Htn & Hsb & Hsc) Hi Ht Hs].
    rewrite (proj2 (split_token _ p0 p1 p2)) by done.
    rewrite Hh, Hp. unfold_res. rewrite Hhj, Hpj. unfold_res. rewrite Hsig. unfold_res.
    rewrite Halg, is_str_refl, Hkey. unfold_res. cbn [negb].
    cbn [join]. rewrite (ascii_encode_signing p0 p1 h p Hh Hp). unfold_res.
    rewrite bool_decide_eq_true_2 by done. cbn [negb].
    rewrite (proj2 (required_string_Ok _ _ _) (conj Hiss Hi)). unfold_res.
    rewrite bool_decide_eq_true_2 by done. cbn [negb]. rewrite Haud, Hexp. cbn [negb]. unfold_res.
    rewrite (proj2 (Z.leb_gt _ _)) by done.
    rewrite (proj2 (required_string_Ok _ _ _) (conj Htn Ht)). unfold_res.
    rewrite (proj2 (required_string_Ok _ _ _) (conj Hsb Hs)). unfold_res.
    rewrite <- Hsc. by destruct ctx.
Qed.

(** ** What validation refuses *)

(** The exceptions an Authorization header can cause. *)
Definition auth_error (e : exn) : Prop := (∃ m, e = Unauthorized m) ∨ e = RecursionExn.

Definition auth_errors {A} (r : res A) : Prop := ∀ e, r = Raise e → auth_error e.

Lemma auth_errors_ok {A} (a : A) : auth_errors (Ok a).
Proof. done. Qed.

Lemma auth_errors_raise {A} m : auth_errors (Raise (Unauthorized m) : res A).
Proof. intros e [= <-]. left. by eexists. Qed.

Lemma auth_errors_bind {A B} (m : res A) (k : A → res B) :
  auth_errors m → (∀ a, m = Ok a → auth_errors (k a)) → auth_errors (m ≫= k).
Proof. intros Hm Hk e [He|(a & Ha & He)]%res_bind_Raise; [by apply Hm|by eapply Hk]. Qed.

Lemma decode_parts_error p0 p1 p2 d e :
  decode_parts d p0 p1 p2 = Raise e → (∃ m, e = ValueExn m) ∨ e = RecursionExn.
Proof.
  unfold decode_parts. intros H.
  repeat (apply res_bind_Raise in H as [H|(? & _ & H)];
    [first [left; by eapply urlsafe_b64decode_error | by eapply json_loads_bytes_error]|]). done.
Qed.

Lemma decode_token_parts_error d token : auth_errors (_decode_token_parts d token).
Proof.
  unfold _decode_token_parts. intros e He.
  repeat case_match; simplify_eq; try (left; by eexists);
    match goal with H : decode_parts _ _ _ _ = Raise _ |- _ =>
      apply decode_parts_error in H as [[? ?]|?] end; simplify_eq; by right.
Qed.

Lemma required_string_error payload claim : auth_errors (_required_string payload claim).
Proof. unfold _required_string, missing_claim. repeat case_match; try done; apply auth_errors_raise. Qed.

Lemma required_int_error payload claim : auth_errors (_required_int payload claim).
Proof. unfold _required_int, missing_claim. repeat case_match; try done; apply auth_errors_raise. Qed.

Lemma signing_input_ascii d token header payload input signature :
  _decode_token_parts d token = Ok (header, payload, input, signature) → ascii_encode input = Ok input.
Proof.
  unfold _decode_token_parts, decode_parts. intros H. destruct (split_sep 46 token) as [|p0 [|p1 [|p2 []]]]; try done.
  match type of H with match ?d with _ => _ end = _ => destruct d as [[[hd pd] sg]|] eqn:Hparts end;
    [|by repeat case_match; simplify_eq].
  apply res_bind_Ok in Hparts as (h & Hh & (? & _ & (p & Hp & _)%res_bind_Ok)%res_bind_Ok).
  destruct hd, pd; try discriminate H. injection H as _ _ <- _. by eapply ascii_encode_signing.
Qed.

Lemma validate_demo_jwt_error d s token now key :
  utf8_encode (auth_demo_secret s) = Ok key → auth_errors (validate_demo_jwt d s token now).
Proof.
  intros Hkey. apply auth_errors_bind; [apply decode_token_parts_error|].
  intros [[[header payload] input] signature] Hdec. rewrite Hkey, (signing_input_ascii _ _ _ _ _ _ Hdec).
  unfold_res.
  repeat first [ apply auth_errors_ok | apply auth_errors_raise | apply required_string_error
               | apply required_int_error | apply auth_errors_bind; [|intros ? _]
               | match goal with |- auth_errors (if ?b then _ else _) => destruct b end ].
Qed.

(** A header is accepted exactly when it carries an authentic token, and without a token
    there is no context. *)
Lemma get_request_context_accepts depth s authorization now :
  auth_enabled s = true →
  (∀ ctx, get_request_context depth s authorization now = Ok (Some ctx)
     ↔ ∃ scheme token, authorization = Some (scheme ++ u" " ++ token) ∧ 32%N ∉ scheme
         ∧ lower scheme = u"bearer" ∧ token ≠ [] ∧ authentic depth s token now ctx)
  ∧ get_request_context depth s authorization now ≠ Ok None.
Proof.
  intros Hen. unfold get_request_context. rewrite Hen. cbn [negb].
  destruct authorization as [a|]; [|split; [split; [done|by intros (? & ? & ? & _)]|done]].
  destruct (partition 32 a) as [[scheme found] token] eqn:Hp.
  pose proof (partition_spec 32 a) as Hs. rewrite Hp in Hs. destruct Hs as [Hn Ha].
  split; [intros ctx; split|].
  - destruct (_ || _) eqn:E; [discriminate|]. apply orb_false_iff in E as [E1 E2]. to_prop.
    intros (ctx' & Hv & [= ->])%res_bind_Ok. destruct found; [|by destruct Ha].
    exists scheme, token. split_and!; [by subst|done..|by apply validate_accepted].
  - intros (scheme' & token' & [= ->] & Hn' & Hb & Hne & Hv).
    change (u" ") with [32%N] in Hp. rewrite partition_found in Hp by done. simplify_eq.
    rewrite !bool_decide_eq_true_2, bool_decide_eq_false_2 by done. cbn [negb orb].
    by rewrite (proj2 (validate_accepted _ _ _ _ _) Hv).
  - destruct (_ || _); [discriminate|]. by intros (? & _ & ?)%res_bind_Ok.
Qed.

Lemma get_request_context_errors depth s authorization now key :
  utf8_encode (auth_demo_secret s) = Ok key →
  auth_errors (get_request_context depth s authorization now).
Proof.
  intros Hkey. unfold get_request_context. destruct (auth_enabled s); [|done]. cbn [negb].
  destruct authorization as [a|]; [|apply auth_errors_raise].
  destruct (partition 32 a) as [[scheme found] token]. destruct (_ || _); [apply auth_errors_raise|].
  apply auth_errors_bind; [|done]. by eapply validate_demo_jwt_error.
Qed.

(** C15: with authentication enabled, a request gets a context exactly when its header is
    the word bearer, in any case, a space and an authentic token; it never goes on
    without a context, and every other header ends in 401, or in the recursion limit of
    the JSON parser. *)
Theorem get_request_context_outcome (depth : nat) (s : Settings) (authorization : option pystr)
    (now : datetime) (key : bytes) :
  auth_enabled s = true → utf8_encode (auth_demo_secret s) = Ok key →
  (∀ ctx, get_request_context depth s authorization now = Ok (Some ctx)
     ↔ ∃ scheme token, authorization = Some (scheme ++ u" " ++ token) ∧ 32%N ∉ scheme
         ∧ lower scheme = u"bearer" ∧ token ≠ [] ∧ authentic depth s token now ctx)
  ∧ get_request_context depth s authorization now ≠ Ok None
  ∧ auth_errors (get_request_context depth s authorization now).
Proof.
  intros Hen Hkey. destruct (get_request_context_accepts depth s authorization now Hen) as [Hiff Hne].
  split; [exact Hiff|split; [exact Hne|]]. by apply (get_request_context_errors _ _ _ _ key).
Qed.

Lemma get_request_context_outcome_witness :
  let s := mkSettings (u"svc") combined (u"local") (u"INFO") [] false none None float_0_05
    (float_of 300) (float_of 5) (u"memory") [] true true 30 120 60 true (u"iss") (u"aud") (u"secret") in
  get_request_context 10 s (Some (u"Basic dXNlcg==")) sample_now ≠ Ok None
  ∧ ¬ (∃ scheme token, Some (u"Basic dXNlcg==") = Some (scheme ++ u" " ++ token) ∧ 32%N ∉ scheme
       ∧ lower scheme = u"bearer" ∧ token ≠ []
       ∧ authentic 10 s token sample_now (mkContext (u"t") (u"s") [])).
Proof.
  intros s.
  destruct (get_request_context_outcome 10 s (Some (u"Basic dXNlcg==")) sample_now (u"secret"))
    as (Hiff & Hn & _); [reflexivity|vm_compute; reflexivity|].
  split; [exact Hn|]. intros H. apply Hiff in H. vm_compute in H. discriminate.
Defined.

(** ** Deep nesting *)

(** An array nested deeper than the parser's limit. *)
Definition brackets (n : nat) : bytes := replicate n 91%N.

Lemma parse_brackets d : parse_value d (brackets (S d)) = TooDeep.
Proof.
  induction d as [|d IH]; [done|]. unfold brackets in *.
  change (replicate (S (S d)) 91%N) with (91%N :: replicate (S d) 91%N).
  cbn [parse_value]. change (91 =? 34)%N with false. change (91 =? 91)%N with true. cbv iota.
  assert (skip_ws (replicate (S d) 91%N) = replicate (S d) 91%N) as -> by done.
  change (starts_with [93%N] (replicate (S d) 91%N)) with false. cbv iota zeta.
  cbn [parse_elems]. by rewrite IH.
Qed.

Lemma json_loads_brackets d : json_loads_bytes d (brackets (S d)) = Raise RecursionExn.
Proof.
  assert (Forall printable (brackets (S d))) as Hpr by (apply Forall_replicate; done).
  unfold json_loads_bytes. rewrite detect_printable by done. cbn [decode].
  rewrite utf8_decode_printable by done. unfold_res. unfold json_loads.
  assert (skip_ws (brackets (S d)) = brackets (S d)) as -> by done. by rewrite parse_brackets.
Qed.

(** The header of a token is decoded before its signature is checked, so that anyone
    can send a token whose header nests arrays deeper than the interpreter's recursion
    limit: the exception is not one of the application's errors. *)
Theorem nested_token_recursion (depth : nat) (s : Settings) (now : datetime) :
  auth_enabled s = true →
  ∃ token, get_request_context depth s (Some (u"Bearer " ++ token)) now = Raise RecursionExn.
Proof.
  intros Hen. pose (h := _base64url_encode (brackets (S depth))).
  assert (Forall printable (brackets (S depth))) as Hpr by (apply Forall_replicate; done).
  pose proof (printable_byte _ Hpr) as Hb.
  exists (h ++ u"..AAAA"). unfold get_request_context. rewrite Hen. cbn [negb].
  change (partition 32 (u"Bearer " ++ h ++ u"..AAAA")) with (u"Bearer", true, h ++ u"..AAAA").
  cbv beta iota zeta. assert (bool_decide (lower (u"Bearer") = u"bearer") = true) as -> by (vm_compute; reflexivity).
  rewrite bool_decide_eq_false_2 by (by destruct h). cbn [negb orb].
  unfold validate_demo_jwt, _decode_token_parts.
  rewrite (proj2 (split_token _ h [] (u"AAAA")))
    by (split_and!; [done|by apply base64url_chars|..]; apply (bool_decide_unpack _); vm_compute; exact I).
  unfold decode_parts, h. rewrite base64url_roundtrip by done. unfold_res.
  by rewrite json_loads_brackets.
Qed.

Lemma nested_token_recursion_witness :
  ∃ token, get_request_context 1000 (mkSettings (u"svc") combined (u"local") (u"INFO") [] false none
    None float_0_05 (float_of 300) (float_of 5) (u"memory") [] true true 30 120 60 true (u"iss")
    (u"aud") (u"secret")) (Some (u"Bearer " ++ token)) sample_now = Raise RecursionExn.
Proof. apply (nested_token_recursion 1000). reflexivity. Defined.
