(* ===== verification/MigrationEnv.v ===== *)
(** The migration environment ([migrations/env.py]): which database Alembic migrates, in
    which transaction, and what is left open.  The engine, the connection, the transaction
    and Alembic's context are libraries; the bodies of the revisions are in [Migrations],
    their identifiers and order here.  Alembic records the revision a database is at in a
    table of its own, [alembic_version], and a command runs the revisions that are missing. *)
From S2P Require Export Migrations Config.

(** The databases there are, by URL, and the engines not disposed of. *)
Record Databases (D : Type) := mkDatabases { database : pystr → D; engines : list pystr }.
Arguments mkDatabases {_} _ _.
Arguments database {_} _ _.
Arguments engines {_} _.

Fixpoint remove_first (x : pystr) (l : list pystr) : list pystr :=
  match l with
  | [] => []
  | y :: l => if decide (y = x) then l else y :: remove_first x l
  end.

(** ** Revisions *)

(** A module of [migrations/versions/]. *)
Record Revision (D : Type) := mkRevision {
  revision : pystr;
  down_revision : option pystr;
  upgrade : M D unit;
}.
Arguments mkRevision {_} _ _ _.
Arguments revision {_} _.
Arguments down_revision {_} _.
Arguments upgrade {_} _.

Definition rev_0001 : pystr := u"20260524_0001".
Definition rev_0002 : pystr := u"20260526_0002".

Definition revisions {D} `{Alembic D} : list (Revision D) :=
  [mkRevision rev_0001 None upgrade_0001; mkRevision rev_0002 (Some rev_0001) upgrade_0002].

(** *** Alembic's record *)

Definition version_table : pystr := u"alembic_version".
Definition version_columns : list Column := [column "version_num" (StringType 32) false].

(** The revision a schema records: the history is one line, so there is at most one row. *)
Definition recorded (S : Schema) : option pystr :=
  tb ← S !! version_table;
  row ← head (table_rows tb);
  v ← row !! (u"version_num" : pystr);
  match v with JStr s => Some s | _ => None end.

(** The table with that one row. *)
Definition at_revision (rev : pystr) (tb : Table) : Table :=
  mkTable (table_columns tb) (table_key tb) (table_indexes tb) [{[ u"version_num" := JStr rev ]}].

(** [MigrationContext]: reading the record, and writing it (an INSERT, then UPDATEs). *)
Class AlembicVersion (D : Type) := {
  current_revision : M D (option pystr);
  write_version : pystr → M D unit;
}.

Class AlembicVersionLaws (D : Type) `{AL : AlembicLaws D} `{V : AlembicVersion D} := {
  current_revision_law s : current_revision s = (Ok (recorded (schema s)), s);
  write_version_law rev tb s :
    schema s !! version_table = Some tb →
    ∃ s', write_version rev s = (Ok tt, s')
          ∧ schema s' = <[version_table := at_revision rev tb]> (schema s);
}.

Section Commands.
Context {D : Type} `{Alembic D} `{AlembicVersion D}.

Definition CommandError : exn := ProviderExn (u"CommandError").

(** The revisions above [current], along [down_revision]; [fuel] bounds their number. *)
Fixpoint above (fuel : nat) (revs : list (Revision D)) (current : option pystr) : list (Revision D) :=
  match fuel, find (λ r, bool_decide (down_revision r = current)) revs with
  | S fuel, Some r => r :: above fuel revs (Some (revision r))
  | _, _ => []
  end.

(** The steps of [upgrade head]; Alembic must know the revision that is recorded. *)
Definition upgrade_path (revs : list (Revision D)) (current : option pystr) : res (list (Revision D)) :=
  match current with
  | None => Ok (above (length revs) revs None)
  | Some x => if decide (x ∈ revision <$> revs) then Ok (above (length revs) revs (Some x))
              else Raise CommandError
  end.

(** [_ensure_version_table]. *)
Definition ensure_version_table : M D unit :=
  present ← has_table version_table;
  unless present (create_table version_table version_columns [u"version_num"]).

Fixpoint run_steps (steps : list (Revision D)) : M D unit :=
  match steps with
  | [] => mret tt
  | r :: steps => upgrade r;; write_version (revision r);; run_steps steps
  end.

(** [context.run_migrations()] of the command [alembic upgrade head]. *)
Definition run_upgrade_head : M D unit :=
  current ← current_revision;
  (match current with None => ensure_version_table | Some _ => mret tt end);;
  steps ← of_res (upgrade_path revisions current);
  run_steps steps.
End Commands.

(** ** The environment *)

Section Env.
Context {D : Type}.
(** [async_engine_from_config(configuration, prefix=...)]: the URL of the engine. *)
Context (async_engine_from_config : list (pystr * pystr) → pystr → res pystr).
(** [connectable.connect()]. *)
Context (connect : pystr → res unit).
(** [with context.begin_transaction(): ...]. *)
Context (begin_transaction : M D unit → M D unit).
(** [context.run_migrations()]: the revisions the command asks for. *)
Context (run_migrations : M D unit).
Context (st : Settings).

Definition get_database_url : pystr := database_url st.

Definition do_run_migrations : M D unit := begin_transaction run_migrations.

Definition open_engine (url : pystr) : M (Databases D) unit :=
  modify (λ s, mkDatabases (database s) (url :: engines s)).
Definition dispose (url : pystr) : M (Databases D) unit :=
  modify (λ s, mkDatabases (database s) (remove_first url (engines s))).

(** Code on the database behind a connection. *)
Definition on_database {A} (url : pystr) (m : M D A) : M (Databases D) A :=
  zoom (λ s, database s url)
       (λ d s, mkDatabases (λ u, if decide (u = url) then d else database s u) (engines s)) m.

(** [run_async_migrations]; [section] is [config.get_section(...)]. *)
Definition run_async_migrations (section : list (pystr * pystr)) : M (Databases D) unit :=
  let configuration := dict_set (u"sqlalchemy.url") get_database_url section in
  connectable ← of_res (async_engine_from_config configuration (u"sqlalchemy."));
  open_engine connectable;;
  of_res (connect connectable);;
  on_database connectable do_run_migrations;;
  dispose connectable.

(** [asyncio.run(...)]. *)
Definition run_migrations_online (section : list (pystr * pystr)) : M (Databases D) unit :=
  run_async_migrations section.

(** In offline mode the context writes a script, with the same calls. *)
Definition run_migrations_offline : M D unit := begin_transaction run_migrations.

(** ** Outcomes *)

(** SQLAlchemy: an engine is one for the option [url] after the prefix; there may be none, when
    the URL does not parse or names no asynchronous driver.  Alembic and the database: a
    transaction keeps what its block did, or nothing when the block raises. *)
Context (engine_url : ∀ c p url engine,
  dict_get (p ++ u"url") c = Some url → async_engine_from_config c p = Ok engine → engine = url).
Context (transaction_commits : ∀ m s s', m s = (Ok tt, s') → begin_transaction m s = (Ok tt, s')).
Context (transaction_rolls_back : ∀ m s e s', m s = (Raise e, s') → begin_transaction m s = (Raise e, s)).

(** Nothing but the engines can have changed. *)
Definition same_databases (s s' : Databases D) : Prop := ∀ u, database s' u = database s u.

(** The configuration the engine is made from. *)
Definition engine_configuration (section : list (pystr * pystr)) : list (pystr * pystr) :=
  dict_set (u"sqlalchemy.url") get_database_url section.

Lemma online_engine section engine :
  async_engine_from_config (engine_configuration section) (u"sqlalchemy.") = Ok engine →
  engine = database_url st.
Proof.
  apply engine_url. change (u"sqlalchemy." ++ u"url") with (u"sqlalchemy.url").
  unfold engine_configuration. by rewrite dict_get_set, decide_True.
Qed.

Lemma online_outcome section s :
  let url := database_url st in
  let '(r, s') := run_migrations_online section s in
  match async_engine_from_config (engine_configuration section) (u"sqlalchemy.") with
  | Raise e => r = Raise e ∧ s' = s
  | Ok _ =>
      match connect url with
      | Raise e => r = Raise e ∧ same_databases s s' ∧ engines s' = url :: engines s
      | Ok _ =>
          match run_migrations (database s url) with
          | (Ok _, d) =>
              r = Ok tt ∧ database s' url = d ∧ (∀ u, u ≠ url → database s' u = database s u)
              ∧ engines s' = engines s
          | (Raise e, _) => r = Raise e ∧ same_databases s s' ∧ engines s' = url :: engines s
          end
      end
  end.
Proof.
  cbv zeta. unfold run_migrations_online, run_async_migrations. cbv zeta.
  fold (engine_configuration section). unfold of_res at 1, mbind at 1, M_bind at 1.
  destruct (async_engine_from_config _ _) as [engine|e] eqn:Hengine; [|done].
  rewrite (online_engine _ _ Hengine).
  unfold of_res, open_engine, modify, mbind, M_bind. cbv beta iota.
  destruct (connect (database_url st)) as [[]|e]; [|by split_and!].
  unfold on_database, zoom, do_run_migrations. cbn [database engines].
  destruct (run_migrations (database s (database_url st))) as [[[]|e] d] eqn:Hm.
  - rewrite (transaction_commits _ _ _ Hm). cbn [database engines].
    split_and!; [done|by cbn; rewrite decide_True|intros u Hu; by cbn; rewrite decide_False|].
    unfold dispose, modify. cbn [engines remove_first]. by rewrite decide_True.
  - rewrite (transaction_rolls_back _ _ _ _ Hm). split_and!; [done| |done].
    intros u. cbn. case_decide; by subst.
Qed.
End Env.

(** ** Upgrading to the head *)

Section Upgrading.
Context {D : Type} `{VL : AlembicVersionLaws D}.

Notation clean S0 := (∀ t tb n, S0 !! t = Some tb → t ≠ jobs_table → is_Some (head_indexes !! n) →
                                table_indexes tb !! n = None).

Lemma jobs_not_version : jobs_table ≠ version_table.
Proof. apply (bool_decide_unpack _). vm_compute. exact I. Qed.

Lemma upgrade_path_none : upgrade_path (D := D) revisions None = Ok revisions.
Proof. reflexivity. Qed.
Lemma upgrade_path_0001 :
  upgrade_path (D := D) revisions (Some rev_0001)
  = Ok [mkRevision rev_0002 (Some rev_0001) upgrade_0002].
Proof. reflexivity. Qed.
Lemma upgrade_path_0002 : upgrade_path (D := D) revisions (Some rev_0002) = Ok [].
Proof. reflexivity. Qed.

Lemma recorded_at S0 tb vt rev :
  recorded (<[jobs_table := tb]> (<[version_table := at_revision rev vt]> S0)) = Some rev.
Proof.
  unfold recorded. rewrite lookup_insert_ne by apply jobs_not_version. rewrite lookup_insert_eq.
  unfold mbind, option_bind, at_revision. cbn [table_rows head]. by rewrite lookup_singleton_eq.
Qed.

Lemma clean_version (S0 : Schema) vt :
  clean S0 → (∀ n, is_Some (head_indexes !! n) → table_indexes vt !! n = None) →
  clean (<[version_table := vt]> S0).
Proof.
  intros Hc Hvt t tb n [[<- <-]|[_ Ht]]%lookup_insert_Some Hne Hn; [by apply Hvt|by eapply Hc].
Qed.

(** Recording a revision, next to the jobs table. *)
Lemma write_run rev d S0 tb vt :
  S0 !! version_table = Some vt → schema d = <[jobs_table := tb]> S0 →
  ∃ d', write_version rev d = (Ok tt, d')
        ∧ schema d' = <[jobs_table := tb]> (<[version_table := at_revision rev vt]> S0).
Proof.
  intros Hvt Hd. destruct (write_version_law rev vt d) as (d' & Hrun & Hd').
  { rewrite Hd, lookup_insert_ne by apply jobs_not_version. done. }
  exists d'. split; [done|]. rewrite Hd', Hd. apply insert_insert_ne. intros E. by apply jobs_not_version.
Qed.

(** The second revision, on a table the first one left. *)
Lemma second_step d S0 tb vt :
  clean S0 → S0 !! version_table = Some vt → schema d = <[jobs_table := tb]> S0 →
  table_indexes tb ⊆ head_indexes →
  ∃ d', run_steps [mkRevision rev_0002 (Some rev_0001) upgrade_0002] d = (Ok tt, d')
    ∧ schema d' = <[jobs_table := add_index (ix "claimed_at") [u"claimed_at"] (columns_0002 tb)]>
                    (<[version_table := at_revision rev_0002 vt]> S0).
Proof.
  intros Hc Hvt Hd Hsub.
  destruct (moves_upgrade_0002 S0 Hc tb Hsub d Hd) as (d1 & Hrun1 & Hd1).
  destruct (write_run rev_0002 d1 S0 _ vt Hvt Hd1) as (d2 & Hrun2 & Hd2).
  exists d2. split; [|done]. cbn [run_steps upgrade revision]. unfold mbind, M_bind.
  by rewrite Hrun1, Hrun2.
Qed.

(** Both revisions, when there is a table for the record. *)
Lemma both_steps d d1 S0 tb vt :
  clean S0 → S0 !! version_table = Some vt → partial tb →
  upgrade_0001 d = (Ok tt, d1) → schema d1 = <[jobs_table := index_0001 tb]> S0 →
  ∃ d', run_steps revisions d = (Ok tt, d')
    ∧ schema d' = <[jobs_table := migrated tb]> (<[version_table := at_revision rev_0002 vt]> S0).
Proof.
  intros Hc Hvt Hp Hrun1 Hd1.
  destruct (write_run rev_0001 d1 S0 _ vt Hvt Hd1) as (d2 & Hrun2 & Hd2).
  destruct (second_step d2 (<[version_table := at_revision rev_0001 vt]> S0) (index_0001 tb)
              (at_revision rev_0001 vt)) as (d3 & Hrun3 & Hd3).
  - apply clean_version; [done|]. intros n Hn. cbn [table_indexes at_revision].
    eapply Hc; [exact Hvt|intros E; by apply jobs_not_version|done].
  - apply lookup_insert_eq.
  - done.
  - by apply index_0001_indexes.
  - exists d3. split; [|by rewrite Hd3, insert_insert_eq].
    unfold revisions. cbn [run_steps upgrade revision]. unfold mbind, M_bind. rewrite Hrun1, Hrun2.
    exact Hrun3.
Qed.

(** A database [upgrade head] can bring to the head: with no revision recorded, there is no
    jobs table, or a part of it ([init_schema] made one); with the first one recorded, the
    table has its indexes. *)
Inductive upgradable (S0 : Schema) (d : D) : list (gmap pystr json) → Prop :=
| upgradable_new :
    recorded (schema d) = None → schema d = S0 → S0 !! jobs_table = None → upgradable S0 d []
| upgradable_unrecorded tb :
    recorded (schema d) = None → schema d = <[jobs_table := tb]> S0 → partial tb →
    upgradable S0 d (filled (names tb) <$> table_rows tb)
| upgradable_0001 tb :
    recorded (schema d) = Some rev_0001 → schema d = <[jobs_table := tb]> S0 → partial tb →
    index_0001 tb = tb → upgradable S0 d (filled (names tb) <$> table_rows tb).

(** The table for the record exists afterwards, and takes no index name of ours. *)
Lemma ensure_version_run d :
  clean (delete jobs_table (schema d)) →
  ∃ d' vt, ensure_version_table d = (Ok tt, d') ∧ schema d' = <[version_table := vt]> (schema d)
           ∧ ∀ n, is_Some (head_indexes !! n) → table_indexes vt !! n = None.
Proof.
  intros Hc. unfold ensure_version_table, mbind, M_bind, unless. rewrite has_table_law.
  destruct (schema d !! version_table) as [vt|] eqn:Hvt.
  - rewrite bool_decide_eq_true_2 by eauto. exists d, vt. split_and!; [done|by rewrite insert_id|].
    intros n Hn. apply (Hc version_table vt n); [|intros E; by apply jobs_not_version|done].
    rewrite lookup_delete_ne by apply jobs_not_version. done.
  - rewrite bool_decide_eq_false_2 by (by intros []).
    destruct (create_table_law version_table version_columns [u"version_num"] d Hvt) as (d' & Hrun & Hd').
    exists d', (mkTable version_columns [u"version_num"] ∅ []). split_and!; [done..|].
    intros n _. apply lookup_empty.
Qed.

(** What the upgrade leaves: the head is recorded, and but for the record only the jobs table
    has changed. *)
Definition at_head (S0 : Schema) (rows : list (gmap pystr json)) (d' : D) : Prop :=
  ∃ tb, recorded (schema d') = Some rev_0002
        ∧ delete version_table (schema d') = delete version_table (<[jobs_table := tb]> S0)
        ∧ tb ≡ head_table rows.

Lemma at_head_intro S0 d' tb vt rows :
  schema d' = <[jobs_table := tb]> (<[version_table := at_revision rev_0002 vt]> S0) →
  tb ≡ head_table rows → at_head S0 rows d'.
Proof.
  intros Hd Htb. exists tb. rewrite Hd. split_and!; [apply recorded_at| |done].
  rewrite (insert_insert_ne S0) by apply jobs_not_version. by rewrite delete_insert_eq.
Qed.

Lemma upgrade_head_run S0 d rows :
  clean S0 → upgradable S0 d rows → ∃ d', run_upgrade_head d = (Ok tt, d') ∧ at_head S0 rows d'.
Proof.
  intros Hc Hup. unfold run_upgrade_head, mbind, M_bind. rewrite current_revision_law.
  assert (∀ tb, clean S0 → clean (delete jobs_table (<[jobs_table := tb]> S0))) as Hc1.
  { intros tb _ t tb' n [Hne Ht]%lookup_delete_Some. rewrite lookup_insert_ne in Ht by done. by apply Hc. }
  destruct Hup as [Hrec Hd Hnone|tb Hrec Hd Hp|tb Hrec Hd Hp Hix]; rewrite Hrec.
  - destruct (ensure_version_run d) as (d1 & vt & Hrun & Hd1 & Hvt).
    { rewrite Hd, delete_id by done. exact Hc. }
    rewrite Hrun, upgrade_path_none. cbv beta iota. unfold of_res. rewrite Hd in Hd1.
    assert (clean (<[version_table := vt]> S0)) as Hc2 by by apply clean_version.
    destruct (upgrade_0001_absent (<[version_table := vt]> S0) Hc2) with d1 as (d2 & Hrun2 & Hd2); [|done|].
    { rewrite lookup_insert_ne; [done|]. intros E. by apply jobs_not_version. }
    destruct (both_steps d1 d2 _ empty_0001 vt Hc2 (lookup_insert_eq _ _ _) partial_empty Hrun2 Hd2)
      as (d3 & Hrun3 & Hd3).
    exists d3. split; [done|]. rewrite insert_insert_eq in Hd3.
    eapply at_head_intro; [exact Hd3|]. apply (migrated_head S0 Hc _ partial_empty).
  - destruct (ensure_version_run d) as (d1 & vt & Hrun & Hd1 & Hvt); [rewrite Hd; by apply Hc1|].
    rewrite Hrun, upgrade_path_none. cbv beta iota. unfold of_res.
    rewrite Hd, insert_insert_ne in Hd1 by (intros E; by apply jobs_not_version).
    assert (clean (<[version_table := vt]> S0)) as Hc2 by by apply clean_version.
    destruct (moves_upgrade_0001 _ Hc2 tb Hp d1 Hd1) as (d2 & Hrun2 & Hd2).
    destruct (both_steps d1 d2 _ tb vt Hc2 (lookup_insert_eq _ _ _) Hp Hrun2 Hd2) as (d3 & Hrun3 & Hd3).
    exists d3. split; [done|]. rewrite insert_insert_eq in Hd3.
    eapply at_head_intro; [exact Hd3|]. by apply (migrated_head S0 Hc).
  - rewrite upgrade_path_0001. unfold mret, M_ret, of_res. cbv beta iota.
    assert (∃ vt, S0 !! version_table = Some vt) as [vt Hvt].
    { unfold recorded in Hrec. rewrite Hd, lookup_insert_ne in Hrec by apply jobs_not_version.
      destruct (S0 !! version_table); [by eexists|done]. }
    destruct (second_step d S0 tb vt Hc Hvt Hd (partial_indexes _ Hp)) as (d' & Hrun & Hd').
    exists d'. split; [done|]. eapply at_head_intro; [exact Hd'|].
    rewrite <- Hix at 1. by apply (migrated_head S0 Hc).
Qed.

Lemma upgrade_head_idle d :
  recorded (schema d) = Some rev_0002 → run_upgrade_head d = (Ok tt, d).
Proof.
  intros Hrec. unfold run_upgrade_head, mbind, M_bind. by rewrite current_revision_law, Hrec, upgrade_path_0002.
Qed.

Lemma upgrade_head_unknown d rev :
  recorded (schema d) = Some rev → rev ∉ [rev_0001; rev_0002] →
  run_upgrade_head d = (Raise CommandError, d).
Proof.
  intros Hrec Hn. unfold run_upgrade_head, mbind, M_bind. rewrite current_revision_law, Hrec.
  unfold upgrade_path. by rewrite decide_False.
Qed.
End Upgrading.

(** C38: [alembic upgrade head] works on the database of the service's settings, whatever URL
    [alembic.ini] names, and on no other.  When SQLAlchemy makes no engine of the URL, its
    exception is raised and nothing has happened; when the connection fails, its exception is
    raised, every database is as it was, and the engine is left open.  Otherwise the outcome
    depends on the revision the database records.  With none recorded, over no jobs table or a
    part of it, both revisions run; with the first one recorded the second one runs: either
    way, unless another table has taken the name of one of its indexes, the head's table results, its rows kept and filled, the head is recorded, and the
    engine is disposed of.  With the head recorded nothing changes, whatever the tables are
    like.  With a revision Alembic does not know, and with any command that fails halfway, the
    exception is raised, every database is as it was, and the engine is left open. *)
Theorem online_migrates {D} `{VL : AlembicVersionLaws D}
    (async_engine_from_config : list (pystr * pystr) → pystr → res pystr) (connect : pystr → res unit)
    (begin_transaction : M D unit → M D unit)
    (st : Settings) (section : list (pystr * pystr)) (s : Databases D) :
  (∀ c p url engine, dict_get (p ++ u"url") c = Some url →
                     async_engine_from_config c p = Ok engine → engine = url) →
  (∀ m d d', m d = (Ok tt, d') → begin_transaction m d = (Ok tt, d')) →
  (∀ m (d : D) e d', m d = (Raise e, d') → begin_transaction m d = (Raise e, d)) →
  let url := database_url st in
  let online m := run_migrations_online async_engine_from_config connect begin_transaction m st section s in
  let failed e m := ∃ s', online m = (Raise e, s') ∧ same_databases s s' ∧ engines s' = url :: engines s in
  match async_engine_from_config (engine_configuration st section) (u"sqlalchemy.") with
  | Raise e => online run_upgrade_head = (Raise e, s)
  | Ok _ =>
      match connect url with
      | Raise e => failed e run_upgrade_head
      | Ok _ =>
          (∀ S0 rows,
             (∀ t tb n, S0 !! t = Some tb → t ≠ jobs_table → is_Some (head_indexes !! n) →
                        table_indexes tb !! n = None) →
             upgradable S0 (database s url) rows →
             ∃ s', online run_upgrade_head = (Ok tt, s') ∧ at_head S0 rows (database s' url)
                   ∧ (∀ u, u ≠ url → database s' u = database s u) ∧ engines s' = engines s)
          ∧ (∀ rev, recorded (schema (database s url)) = Some rev →
               (rev = rev_0002 →
                  ∃ s', online run_upgrade_head = (Ok tt, s') ∧ same_databases s s' ∧ engines s' = engines s)
               ∧ (rev ∉ [rev_0001; rev_0002] → failed CommandError run_upgrade_head))
          ∧ (∀ m e d, m (database s url) = (Raise e, d) → failed e m)
      end
  end.
Proof.
  intros Hurl Hc Hr url online failed.
  pose proof (λ m, online_outcome async_engine_from_config connect begin_transaction m st Hurl Hc Hr section s)
    as Hout. cbv zeta in Hout. fold url in Hout.
  destruct (async_engine_from_config _ _) as [engine|e] eqn:Hengine.
  2:{ specialize (Hout run_upgrade_head). subst online. cbv beta.
      by destruct (run_migrations_online _ _ _ _ _ _ _) as [r s'], Hout as [-> ->]. }
  destruct (connect url) as [[]|e] eqn:Hconnect.
  2:{ specialize (Hout run_upgrade_head). subst failed online. cbv beta.
      destruct (run_migrations_online _ _ _ _ _ _ _) as [r s'], Hout as (-> & ? & ?). by eexists. }
  assert (∀ m e d, m (database s url) = (Raise e, d) → failed e m) as Hfailed.
  { intros m e d Hm. specialize (Hout m). rewrite Hm in Hout. subst failed online. cbv beta.
    destruct (run_migrations_online _ _ _ _ _ _ _) as [r s'], Hout as (-> & ? & ?). by eexists. }
  assert (∀ m d, m (database s url) = (Ok tt, d) →
            ∃ s', online m = (Ok tt, s') ∧ database s' url = d
                  ∧ (∀ u, u ≠ url → database s' u = database s u) ∧ engines s' = engines s) as Hdone.
  { intros m d Hm. specialize (Hout m). rewrite Hm in Hout. subst online. cbv beta.
    destruct (run_migrations_online _ _ _ _ _ _ _) as [r s'], Hout as (-> & ? & ? & ?). by eexists. }
  clearbody online. split_and!; [| |exact Hfailed].
  - intros S0 rows Hclean Hup. destruct (upgrade_head_run S0 _ rows Hclean Hup) as (d' & Hrun & Hd').
    destruct (Hdone _ _ Hrun) as (s' & Hs' & Hd & ? & ?). exists s'. by rewrite Hd.
  - intros rev Hrec. split.
    + intros ->. destruct (Hdone _ _ (upgrade_head_idle _ Hrec)) as (s' & Hs' & Hd & Ho & ?).
      exists s'. split_and!; [done| |done]. intros u. destruct (decide (u = url)) as [->|]; auto.
    + intros Hn. eapply Hfailed. by apply (upgrade_head_unknown _ rev).
Qed.

(** Offline there is no connection: Alembic takes no revision as recorded, and creates its
    table by a statement of the script.  But the first migration begins by inspecting the
    connection, so no script can be written. *)
Lemma offline_fails {D} `{Alembic D} (begin_transaction : M D unit → M D unit) (e : exn) (s : D)
    (start finish : M D unit) :
  (∀ t s, has_table t s = (Raise e, s)) → (∃ s', start s = (Ok tt, s')) →
  (∀ m s e s', m s = (Raise e, s') → begin_transaction m s = (Raise e, s)) →
  run_migrations_offline begin_transaction (start;; upgrade_0001;; finish) s = (Raise e, s).
Proof.
  intros Hinspect [s' Hstart] Hr. unfold run_migrations_offline. apply (Hr _ _ _ s').
  unfold upgrade_0001, mbind, M_bind. by rewrite Hstart, Hinspect.
Qed.

(** ** Examples *)

(** A transaction over a schema that rolls back. *)
Definition plain_transaction (m : M Schema unit) : M Schema unit := λ s,
  match m s with (Ok a, s') => (Ok a, s') | (Raise e, _) => (Raise e, s) end.

(** SQLAlchemy, as far as it refuses URLs with no asynchronous driver. *)
Definition plain_engine (c : list (pystr * pystr)) (p : pystr) : res pystr :=
  match dict_get (p ++ u"url") c with
  | Some url =>
      if starts_with (u"postgresql+asyncpg://") url then Ok url
      else Raise (ProviderExn (u"InvalidRequestError"))
  | None => Raise (ProviderExn (u"KeyError"))
  end.

#[export] Instance plain_version : AlembicVersion Schema := {|
  current_revision s := (Ok (recorded s), s);
  write_version rev := on_table version_table (λ tb, Ok (at_revision rev tb));
|}.

#[export] Instance plain_version_laws : AlembicVersionLaws Schema.
Proof.
  split; [done|]. intros rev tb s Hs. by apply (on_table_run _ _ tb (at_revision rev tb) s).
Qed.

(** An [alembic.ini] that names another database; the service's holds the first migration. *)
Definition other_ini : list (pystr * pystr) := [(u"sqlalchemy.url", u"postgresql://elsewhere")].
Definition stamped_0001 : Table :=
  at_revision rev_0001 (mkTable version_columns [u"version_num"] ∅ []).
Definition old_schema : Schema := <[jobs_table := old_table]> {[ version_table := stamped_0001 ]}.
Definition two_databases : Databases Schema :=
  mkDatabases (λ u, if decide (u = database_url default_settings) then old_schema else ∅) [].

Lemma old_schema_clean t tb n :
  ({[ version_table := stamped_0001 ]} : Schema) !! t = Some tb → t ≠ jobs_table →
  is_Some (head_indexes !! n) → table_indexes tb !! n = None.
Proof. intros [_ <-]%lookup_singleton_Some _ _. apply lookup_empty. Qed.

Lemma online_migrates_witness :
  ∃ s', run_migrations_online plain_engine (λ _, Ok tt) plain_transaction run_upgrade_head default_settings
             other_ini two_databases = (Ok tt, s')
    ∧ at_head {[ version_table := stamped_0001 ]} (filled (names old_table) <$> [old_row])
        (database s' (database_url default_settings))
    ∧ database s' (u"postgresql://elsewhere") = ∅.
Proof.
  pose proof (online_migrates plain_engine (λ _, Ok tt) plain_transaction default_settings other_ini
    two_databases) as H. cbv zeta in H.
  assert (plain_engine (engine_configuration default_settings other_ini) (u"sqlalchemy.")
          = Ok (database_url default_settings)) as Hengine by (vm_compute; reflexivity).
  rewrite Hengine in H. destruct H as [H _].
  - intros c p url engine Hc. unfold plain_engine. rewrite Hc. by case_match; intros [= ->].
  - intros m d d' Hm. unfold plain_transaction. by rewrite Hm.
  - intros m d e d' Hm. unfold plain_transaction. by rewrite Hm.
  - destruct (H {[ version_table := stamped_0001 ]} (filled (names old_table) <$> [old_row]))
      as (s' & Hrun & Hhead & Hother & _).
    + exact old_schema_clean.
    + assert (database two_databases (database_url default_settings) = old_schema) as Hdb
        by (unfold two_databases; cbn [database]; by rewrite decide_True).
      apply (upgradable_0001 _ _ old_table); [| |exact old_partial|].
      * rewrite Hdb. vm_compute. reflexivity.
      * exact Hdb.
      * unfold index_0001, add_index, old_table. cbn [table_columns table_key table_indexes table_rows].
        f_equal.
    + exists s'. split; [exact Hrun|]. split; [exact Hhead|].
      rewrite Hother by (apply (bool_decide_unpack (_ ≠ _)); vm_compute; exact I).
      unfold two_databases. cbn [database]. rewrite decide_False; [done|].
      apply (bool_decide_unpack (_ ≠ _)). vm_compute. exact I.
Defined.
