(* ===== verification/World.v ===== *)
(** The state of one process: the objects [lifespan] and [run_worker] wire together,
    the process-wide registries, and the readings of the environment still to come. *)
From S2P Require Export Repository Metrics AuditTrail Tracing RateLimit Config.

(** The state of [InMemoryJobQueue]: the [asyncio.Queue] with its count of unfinished
    tasks, the runner task and the stop event ([app/services/queue.py]). *)
Inductive TaskState :=
| TaskRunning
(** Ended, by an exception or not. *)
| TaskDone (exc : option exn).

Record InMemoryJobQueue := mkQueue {
  _queue : list (option UUID);
  _unfinished : Z;
  _task : option TaskState;
  _stopping : bool;
}.

(** The state of [EvaluationWorker]: its task and its stop event
    ([app/services/worker.py]). *)
Record EvaluationWorker := mkWorker {
  worker_task : option TaskState;
  worker_stopping : bool;
}.

(** What the environment answers: [uuid4()], [time.perf_counter()], [time.monotonic()],
    and, of the operations given a timeout, which ones outlive it: [Some n] says that the
    operation is abandoned after [n] of its atomic pieces. *)
Record Environment := mkEnv {
  uuids : nat → UUID;
  perf : nat → float;
  monotonic : nat → float;
  late : nat → float → option nat;
}.

Record World (R : Type) := mkWorld {
  w_repo : R;
  w_clock : clock;
  w_env : Environment;
  w_queue : InMemoryJobQueue;
  w_worker : EvaluationWorker;
  w_audit : AuditRecorder;
  w_metrics : MetricsRegistry;
  w_logs : list LogRecord;
  w_spans : list Span;
  w_limiter : InMemoryRateLimiter;
  (** The delays given to [asyncio.sleep] so far. *)
  w_sleeps : list float;
}.
Arguments mkWorld {_} _ _ _ _ _ _ _ _ _ _ _.
Arguments w_repo {_} _.
Arguments w_clock {_} _.
Arguments w_env {_} _.
Arguments w_queue {_} _.
Arguments w_worker {_} _.
Arguments w_audit {_} _.
Arguments w_metrics {_} _.
Arguments w_logs {_} _.
Arguments w_spans {_} _.
Arguments w_limiter {_} _.
Arguments w_sleeps {_} _.

Section Access.
Context {R : Type}.
Notation W := (World R).

(** ** Parts of the state *)

Definition repo_part (w : W) : R * clock := (w_repo w, w_clock w).
Definition set_repo_part (p : R * clock) (w : W) : W :=
  mkWorld p.1 p.2 (w_env w) (w_queue w) (w_worker w) (w_audit w) (w_metrics w) (w_logs w) (w_spans w)
    (w_limiter w) (w_sleeps w).
Definition set_env (x : Environment) (w : W) : W :=
  mkWorld (w_repo w) (w_clock w) x (w_queue w) (w_worker w) (w_audit w) (w_metrics w) (w_logs w) (w_spans w)
    (w_limiter w) (w_sleeps w).
Definition set_queue (x : InMemoryJobQueue) (w : W) : W :=
  mkWorld (w_repo w) (w_clock w) (w_env w) x (w_worker w) (w_audit w) (w_metrics w) (w_logs w) (w_spans w)
    (w_limiter w) (w_sleeps w).
Definition set_worker (x : EvaluationWorker) (w : W) : W :=
  mkWorld (w_repo w) (w_clock w) (w_env w) (w_queue w) x (w_audit w) (w_metrics w) (w_logs w)
    (w_spans w) (w_limiter w) (w_sleeps w).
Definition audit_part (w : W) : (AuditRecorder * list LogRecord) * clock :=
  ((w_audit w, w_logs w), w_clock w).
Definition set_audit_part (p : (AuditRecorder * list LogRecord) * clock) (w : W) : W :=
  mkWorld (w_repo w) p.2 (w_env w) (w_queue w) (w_worker w) p.1.1 (w_metrics w) p.1.2 (w_spans w)
    (w_limiter w) (w_sleeps w).
Definition set_metrics (x : MetricsRegistry) (w : W) : W :=
  mkWorld (w_repo w) (w_clock w) (w_env w) (w_queue w) (w_worker w) (w_audit w) x (w_logs w) (w_spans w)
    (w_limiter w) (w_sleeps w).
Definition set_limiter (x : InMemoryRateLimiter) (w : W) : W :=
  mkWorld (w_repo w) (w_clock w) (w_env w) (w_queue w) (w_worker w) (w_audit w) (w_metrics w) (w_logs w)
    (w_spans w) x (w_sleeps w).
Definition add_log (x : LogRecord) (w : W) : W :=
  mkWorld (w_repo w) (w_clock w) (w_env w) (w_queue w) (w_worker w) (w_audit w) (w_metrics w)
    (w_logs w ++ [x]) (w_spans w) (w_limiter w) (w_sleeps w).
Definition add_span (x : Span) (w : W) : W :=
  mkWorld (w_repo w) (w_clock w) (w_env w) (w_queue w) (w_worker w) (w_audit w) (w_metrics w) (w_logs w)
    (w_spans w ++ [x]) (w_limiter w) (w_sleeps w).
Definition add_sleep (x : float) (w : W) : W :=
  mkWorld (w_repo w) (w_clock w) (w_env w) (w_queue w) (w_worker w) (w_audit w) (w_metrics w) (w_logs w)
    (w_spans w) (w_limiter w) (w_sleeps w ++ [x]).

(** ** Readings of the environment *)

Definition uuid4 : M W UUID := λ w,
  let e := w_env w in
  (Ok (uuids e 0), set_env (mkEnv (λ n, uuids e (1 + n)) (perf e) (monotonic e) (late e)) w).
Definition perf_counter : M W float := λ w,
  let e := w_env w in
  (Ok (perf e 0), set_env (mkEnv (uuids e) (λ n, perf e (1 + n)) (monotonic e) (late e)) w).
Definition time_monotonic : M W float := λ w,
  let e := w_env w in
  (Ok (monotonic e 0), set_env (mkEnv (uuids e) (perf e) (λ n, monotonic e (1 + n)) (late e)) w).
(** Whether and when the operation now started is abandoned. *)
Definition outlives (timeout : float) : M W (option nat) := λ w,
  let e := w_env w in
  (Ok (late e 0 timeout), set_env (mkEnv (uuids e) (perf e) (monotonic e) (λ n, late e (1 + n))) w).
Definition wall_now : M W datetime := zoom repo_part set_repo_part now.

(** ** The components, from the whole state *)

Definition in_repo {A} (m : M (R * clock) A) : M W A := zoom repo_part set_repo_part m.
Definition audit_record (etype tenant project job : pystr) (metadata : list (pystr * json)) : M W unit :=
  zoom audit_part set_audit_part (record etype tenant project job metadata).
Definition metric (f : MetricsRegistry → MetricsRegistry) : M W unit :=
  modify (λ w, set_metrics (f (w_metrics w)) w).
Definition log (x : LogRecord) : M W unit := modify (add_log x).
Definition open_span (x : Span) : M W unit := modify (add_span x).

(** [await asyncio.sleep(seconds)]. *)
Definition asyncio_sleep (seconds : float) : co W unit := atomically (modify (add_sleep seconds)).
End Access.
