(* ===== verification/Resilience.v ===== *)
(** Timeouts and retries ([app/core/resilience.py]). *)
From S2P Require Export World.

(** ** Timeouts *)

(** A task abandoned by [asyncio.wait_for] after [n] of its atomic pieces; one that ended
    earlier keeps its outcome. *)
Fixpoint cancel_after {S A} (n : nat) (c : co S A) {struct c} : co S A :=
  match c, n with
  | Done r, _ => Done r
  | Step _ _, 0 => Done (Raise TimeoutExn)
  | Step next eff, Datatypes.S n => Step (λ s, cancel_after n (next s)) eff
  end.

Definition with_timeout {R A} (operation : co (World R) A) (timeout_seconds : float)
    : co (World R) A :=
  cut ← atomically (outlives timeout_seconds);
  match cut with
  | Some n => cancel_after n operation
  | None => operation
  end.

(** ** Retries *)

Section Retry.
Context {S : Type} (sleep : float → co S unit).

(** The delay after attempt number [attempt]. *)
Definition delay (initial : float) (attempt : Z) : float :=
  float_mul initial (float_of (2 ^ attempt)).

(** The [for] loop from [attempt] on, [k] attempts left. *)
Fixpoint retry_loop {A} (operation : co S A) (attempts : Z) (initial : float) (k : nat)
    (attempt : Z) (last_error : option exn) : co S A :=
  match k with
  | 0 => match last_error with
         | None => Done (Raise AssertionExn)
         | Some e => Done (Raise e)
         end
  | Datatypes.S k =>
      co_except operation (λ exc,
        (if (attempt <? attempts - 1)%Z then sleep (delay initial attempt) else mret tt);;
        retry_loop operation attempts initial k (attempt + 1) (Some exc))
  end.

Definition retry_async {A} (operation : co S A) (attempts : Z) (initial_delay_seconds : float)
    : co S A :=
  retry_loop operation attempts initial_delay_seconds (Z.to_nat attempts) 0 None.

(** What the loop does with an operation whose outcomes are known: [pending] gives the
    outcomes of its next calls, [slept] the delays asked for so far. *)
Context {A : Type} (operation : co S A) (pending : S → list (res A)) (slept : S → list float).
Hypothesis Hop : ∀ s o os, pending s = o :: os →
  ∃ s', run operation s = (o, s') ∧ pending s' = os ∧ slept s' = slept s.
Hypothesis Hsleep : ∀ d s,
  ∃ s', run (sleep d) s = (Ok tt, s') ∧ pending s' = pending s ∧ slept s' = slept s ++ [d].

Definition final_outcome (last : bool) (o : res A) : bool :=
  match o with Ok _ => true | Raise e => negb (is_Exception e) || last end.

Lemma retry_loop_run attempts initial errs : ∀ k attempt o os last s,
  pending s = (Raise <$> errs) ++ o :: os → Forall (λ e, is_Exception e = true) errs →
  length errs < k → (attempt + Z.of_nat k = attempts)%Z →
  final_outcome (bool_decide (length errs + 1 = k)) o = true →
  ∃ s', run (retry_loop operation attempts initial k attempt last) s = (o, s') ∧ pending s' = os
        ∧ slept s' = slept s ++ ((λ i, delay initial (attempt + Z.of_nat i)) <$> seq 0 (length errs)).
Proof.
  induction errs as [|e errs IH]; intros k attempt o os last s Hp He Hk Ha Ho;
    destruct k as [|k]; simpl in Hk; try lia; simpl retry_loop; rewrite run_except; simpl in Hp.
  - destruct (Hop _ _ _ Hp) as (s1 & -> & Hp1 & Hs1). simpl. rewrite app_nil_r.
    destruct o as [a|e]; [by exists s1|]. simpl in Ho.
    destruct (is_Exception e); [|by exists s1]. simpl in Ho. to_prop.
    assert (k = 0) as -> by (simpl in Ho; lia). rewrite run_bind.
    rewrite (proj2 (Z.ltb_ge _ _)) by lia. by exists s1.
  - apply Forall_cons in He as [He Hes].
    destruct (Hop _ _ _ Hp) as (s1 & -> & Hp1 & Hs1). rewrite He, run_bind.
    rewrite (proj2 (Z.ltb_lt _ _)) by lia.
    destruct (Hsleep (delay initial attempt) s1) as (s2 & -> & Hp2 & Hs2).
    destruct (IH k (attempt + 1)%Z o os (Some e) s2) as (s3 & -> & Hp3 & Hs3);
      [by rewrite Hp2, Hp1|done|lia|lia| |].
    { rewrite <- Ho. f_equal. apply bool_decide_ext. simpl. lia. }
    exists s3. split_and!; [done|done|].
    rewrite Hs3, Hs2, Hs1, <- app_assoc. f_equal. simpl. rewrite Z.add_0_r. f_equal.
    rewrite <- seq_shift, <- list_fmap_compose. apply list_fmap_ext. intros i x Hx. simpl.
    f_equal. lia.
Qed.

(** [retry_async] returns the outcome of the first attempt that succeeds, is
    cancelled, or is the last one allowed, and before it waits exactly once after each
    failure, twice as long every time; without attempts it fails its assertion. *)
Theorem retry_async_outcome (attempts : Z) (initial : float) (errs : list exn) (o : res A)
    (os : list (res A)) (s : S) :
  pending s = (Raise <$> errs) ++ o :: os → Forall (λ e, is_Exception e = true) errs →
  (Z.of_nat (length errs) < attempts)%Z →
  final_outcome (bool_decide (Z.of_nat (length errs) + 1 = attempts)%Z) o = true →
  (∃ s', run (retry_async operation attempts initial) s = (o, s') ∧ pending s' = os
         ∧ slept s' = slept s ++ ((λ i, delay initial (Z.of_nat i)) <$> seq 0 (length errs)))
  ∧ ∀ none, (none ≤ 0)%Z →
      run (retry_async operation none initial) s = (Raise AssertionExn, s).
Proof.
  intros Hp He Hlt Ho. split.
  - destruct (retry_loop_run attempts initial errs (Z.to_nat attempts) 0 o os None s)
      as (s' & Hrun & ? & Hs); [done|done|lia|lia| |by exists s'].
    rewrite <- Ho. f_equal. apply bool_decide_ext. lia.
  - intros none Hn. unfold retry_async. by rewrite Z2Nat.nonpos.
Qed.
End Retry.

(** Two failures, then a success; the delays are 0.05 and 0.1 seconds. *)
Lemma retry_async_outcome_witness :
  let script := λ s : list (res Z) * list float, s.1 in
  let operation := atomically (λ s, match s.1 with o :: os => (o, (os, s.2)) | [] => (Ok 0%Z, s) end) in
  let sleep := λ d, atomically (λ s : list (res Z) * list float, (Ok tt, (s.1, s.2 ++ [d]))) in
  ∃ s', run (retry_async sleep operation 3 float_0_05) ([Raise TimeoutExn; Raise TimeoutExn; Ok 7%Z], [])
        = (Ok 7%Z, s') ∧ format_g <$> s'.2 = [u"0.05"; u"0.1"].
Proof.
  intros script operation sleep.
  destruct (retry_async_outcome sleep operation script snd) with
    (attempts := 3%Z) (initial := float_0_05) (errs := [TimeoutExn; TimeoutExn]) (o := Ok 7%Z)
    (os := @nil (res Z)) (s := ([Raise TimeoutExn; Raise TimeoutExn; Ok 7%Z], @nil float))
    as [(s' & Hrun & _ & Hs) _].
  - intros [p d] o os Hp. simpl in Hp. subst p. by eexists.
  - intros d [p d']. by eexists.
  - reflexivity.
  - by repeat constructor.
  - simpl. lia.
  - reflexivity.
  - exists s'. split; [exact Hrun|]. rewrite Hs. vm_compute. reflexivity.
Defined.
