(* ===== verification/Evaluator.v ===== *)
(** The evaluator ([app/services/evaluator.py]) and the interface the job service uses. *)
From S2P Require Export Resilience Evaluation.

(** ** The interface *)

Class Scorer (R : Type) := evaluator_score : EvaluationRequest → co (World R) EvaluationResult.

(** What a piece of a scorer may change: metrics, spans, timers and the readings of the
    environment, but no stored job, queue, audit trail or log. *)
Record scorer_frame {R} (w w' : World R) : Prop := {
  frame_repo : repo_part w' = repo_part w;
  frame_uuids : uuids (w_env w') = uuids (w_env w);
  frame_queue : w_queue w' = w_queue w;
  frame_worker : w_worker w' = w_worker w;
  frame_audit : w_audit w' = w_audit w;
  frame_logs : w_logs w' = w_logs w;
  frame_limiter : w_limiter w' = w_limiter w;
  frame_spans : w_spans w `prefix_of` w_spans w';
  frame_late : rest_of (late (w_env w)) (late (w_env w'));
}.

(** A piece whose effect computes. *)
Ltac scorer_piece :=
  constructor; simpl; first [reflexivity | apply rest_of_next | by exists 2 | by eexists].

Class ScorerLaws (R : Type) `{Scorer R} := {
  (** A scorer stays in its frame and returns only valid results, whatever runs between
      its pieces. *)
  score_along (P : World R → Prop) (Rel : World R → World R → Prop) `{!PreOrder Rel} r w :
    (∀ w w', scorer_frame w w' → P w → P w' ∧ Rel w w') → P w →
    steps_along P Rel (okay (λ v _, valid_result v = true)) (evaluator_score r) w;
}.

(** ** The mock evaluator *)

Definition float_0_01 : float := S754_finite false 5764607523034235 (-59).

Module Evaluator.
Section Score.
Context {R : Type} (timeout_seconds : float).

(** The closure [operation]: the two pieces around its [await]. *)
Definition operation (r : EvaluationRequest) : co (World R) EvaluationResult :=
  asyncio_sleep float_0_01;;
  atomically (of_res (score_mock_response r)).

Definition scoring_span (r : EvaluationRequest) : Span :=
  traced_span (u"evaluation.scoring")
    [(u"tenant_id", Some (JStr (req_tenant_id r)));
     (u"project_id", Some (JStr (req_project_id r)));
     (u"rubric_present", Some (JBool (bool_decide (req_rubric r ≠ None))))].

(** [record_scoring_duration(time.perf_counter() - started_at)]. *)
Definition record_duration (started_at : float) : M (World R) unit :=
  t ← perf_counter;
  metric (record_scoring_duration (float_sub t started_at)).

Definition score (r : EvaluationRequest) : co (World R) EvaluationResult :=
  started_at ← atomically (open_span (scoring_span r);; perf_counter);
  co_finally
    (retry_async asyncio_sleep (with_timeout (operation r) timeout_seconds) 2 float_0_05)
    (λ _ w, (record_duration started_at w).2).
End Score.
End Evaluator.

(** ** The mock evaluator implements the interface *)

Section MockLaws.
Context {R : Type} (P : World R → Prop) (Rel : World R → World R → Prop) `{!PreOrder Rel}.
Context (Hframe : ∀ w w', scorer_frame w w' → P w → P w' ∧ Rel w w').

Notation valid := (okay (λ v (_ : World R), valid_result v = true)).

Lemma framed {A} (Q : res A → World R → Prop) (m : M (World R) A) w :
  (∀ w, scorer_frame w (m w).2 ∧ ∀ w', Q (m w).1 w') → steps_along P Rel Q (atomically m) w.
Proof.
  intros Hm. apply along_atomically. intros w' Hw' _. destruct (Hm w') as [Hf HQ].
  destruct (Hframe _ _ Hf Hw'). auto.
Qed.

Lemma along_any {A} (Q : res A → World R → Prop) (c : co (World R) A) w :
  steps_along P Rel Q c w → steps_along P Rel any c w.
Proof. intros H. by eapply along_weaken. Qed.

Lemma along_cancel n r w :
  steps_along P Rel valid (cancel_after n (Evaluator.operation r)) w.
Proof.
  assert (∀ w, steps_along P Rel valid (atomically (of_res (score_mock_response r))) w) as Hscore.
  { intros w'. apply framed. intros w2. split; [scorer_piece|]. intros w3. simpl.
    destruct (score_mock_response_valid r) as (v & -> & ?). done. }
  unfold Evaluator.operation. destruct n as [|n]; simpl; intros w' Hw' _; [done|].
  destruct (Hframe w' (add_sleep float_0_01 w')) as [? ?]; [scorer_piece|done|].
  split_and!; [done..|]. destruct n as [|n]; simpl; [done|].
  intros w2 Hw2 H2. specialize (Hscore w2 w2 Hw2 ltac:(done)). simpl in Hscore.
  destruct Hscore as (? & ? & ?). by split_and!.
Qed.

Lemma along_operation timeout r w :
  P w → steps_along P Rel valid (with_timeout (Evaluator.operation r) timeout) w.
Proof.
  intros Hw. unfold with_timeout.
  eapply (along_bind _ _ any); [done|apply framed; intros; by split; [scorer_piece|]| |done].
  intros [n|] w' Hw' _ _; [apply along_cancel|].
  pose proof (along_cancel 2 r w') as H. exact H.
Qed.

Lemma along_retry timeout r k : ∀ attempt last w,
  P w →
  steps_along P Rel valid
    (retry_loop asyncio_sleep (with_timeout (Evaluator.operation r) timeout) 2 float_0_05 k attempt last) w.
Proof.
  induction k as [|k IH]; intros attempt last w Hw; [by destruct last|].
  cbn [retry_loop]. apply (along_except _ _ valid); [done|by apply along_operation|done|].
  intros e w' Hw' _ _. case_match; [|done].
  eapply (along_bind _ _ any); [done| |intros; by apply IH|done].
  case_match; [|done]. apply framed. intros w2. split; [|done]. scorer_piece.
Qed.

Lemma along_score timeout r w : P w → steps_along P Rel valid (Evaluator.score timeout r) w.
Proof.
  intros Hw. unfold Evaluator.score.
  eapply (along_bind _ _ any); [done| | |done].
  - apply framed. intros w'. split; [|done]. scorer_piece.
  - intros t w' Hw' _ _. apply along_finally; [done| | |].
    + by apply along_retry.
    + intros o w2 Hw2. apply Hframe; [scorer_piece|done].
    + by intros [].
Qed.
End MockLaws.

#[export] Instance mock_scorer {R} (timeout : float) : Scorer R := Evaluator.score timeout.

#[export] Instance mock_scorer_laws {R} (timeout : float) : ScorerLaws R (H := mock_scorer timeout).
Proof. constructor. intros P Rel ? r w Hf Hw. by apply along_score. Qed.

(** ** Scoring run on its own *)

Section Outcome.
Context {R : Type} (timeout : float).

(** The [k]-th attempt from [w] on ends before it is abandoned; what it sleeps. *)
Definition in_time (w : World R) (k : nat) : bool :=
  match late (w_env w) k timeout with Some n => 2 <=? n | None => true end.
Definition attempt_sleeps (w : World R) (k : nat) : list float :=
  match late (w_env w) k timeout with Some 0 => [] | _ => [float_0_01] end.

Definition after_attempt (w : World R) (ds : list float) : World R :=
  mkWorld (w_repo w) (w_clock w)
    (mkEnv (uuids (w_env w)) (perf (w_env w)) (monotonic (w_env w)) (λ n, late (w_env w) (1 + n)))
    (w_queue w) (w_worker w) (w_audit w) (w_metrics w) (w_logs w) (w_spans w) (w_limiter w) (w_sleeps w ++ ds).

Lemma attempt_run r w :
  run (with_timeout (Evaluator.operation r) timeout) w
  = (if in_time w 0 then score_mock_response r else Raise TimeoutExn,
     after_attempt w (attempt_sleeps w 0)).
Proof.
  unfold with_timeout. rewrite run_bind, run_atomically. unfold outlives, in_time, attempt_sleeps.
  destruct (late (w_env w) 0 timeout) as [[|[|n]]|]; simpl; try done.
  unfold after_attempt, set_env; simpl. by rewrite app_nil_r.
Qed.

Lemma retry_run r w :
  let slept := attempt_sleeps w 0 ++
               if in_time w 0 then [] else float_0_05 :: attempt_sleeps w 1 in
  ∃ w', run (retry_async asyncio_sleep (with_timeout (Evaluator.operation r) timeout) 2 float_0_05) w
        = (if in_time w 0 || in_time w 1 then score_mock_response r else Raise TimeoutExn, w')
        ∧ scorer_frame w w' ∧ w_sleeps w' = w_sleeps w ++ slept ∧ w_metrics w' = w_metrics w
        ∧ perf (w_env w') = perf (w_env w) ∧ w_spans w' = w_spans w.
Proof.
  intros slept. subst slept. destruct (score_mock_response_valid r) as (v & Hv & _).
  unfold retry_async. change (Z.to_nat 2) with 2. cbn [retry_loop].
  rewrite run_except, attempt_run, Hv.
  destruct (in_time w 0) eqn:E0; cbn [orb].
  { eexists. split; [done|]. rewrite app_nil_r. split_and!; [scorer_piece|done..]. }
  cbn [is_Exception]. rewrite run_bind. change (0 <? 2 - 1)%Z with true. cbv iota.
  unfold asyncio_sleep. rewrite run_atomically.
  change (delay float_0_05 0) with float_0_05. unfold modify.
  rewrite run_except, attempt_run, Hv.
  assert (in_time (add_sleep float_0_05 (after_attempt w (attempt_sleeps w 0))) 0 = in_time w 1)
    as -> by done.
  destruct (in_time w 1); cbn [is_Exception];
    rewrite ?run_bind; cbn [run]; eexists; (split; [reflexivity|]);
    simpl; rewrite <- !app_assoc; (split_and!; [scorer_piece|done..]).
Qed.

(** C29: scoring succeeds when either of its two attempts ends in time and otherwise
    reports the timeout; it retries once, after 50 ms; and in every case it leaves
    exactly one span, records exactly one duration, and touches nothing else. *)
Theorem score_outcome (r : EvaluationRequest) (w : World R) :
  ∃ w', run (Evaluator.score timeout r) w
        = (if in_time w 0 || in_time w 1 then score_mock_response r else Raise TimeoutExn, w')
        ∧ w_spans w' = w_spans w ++ [Evaluator.scoring_span r]
        ∧ w_metrics w' = record_scoring_duration
                           (float_sub (perf (w_env w) 1) (perf (w_env w) 0)) (w_metrics w)
        ∧ w_sleeps w' = w_sleeps w ++ attempt_sleeps w 0 ++
                          (if in_time w 0 then [] else float_0_05 :: attempt_sleeps w 1)
        ∧ scorer_frame w w'.
Proof.
  unfold Evaluator.score. rewrite run_bind, run_atomically.
  unfold mbind at 1, M_bind at 1, open_span, modify, perf_counter. cbn [fst snd].
  rewrite run_finally.
  match goal with |- context [run (retry_async _ _ _ _) ?w1] => set (w1' := w1) end.
  destruct (retry_run r w1') as (w2 & Hrun & Hf & Hsl & Hm & Hp & Hs). rewrite Hrun.
  eexists. split; [reflexivity|]. destruct Hf as [Hr1 Hu Hq Hwk Ha Hl Hli _ Hlt].
  unfold Evaluator.record_duration, metric, modify, perf_counter, mbind, M_bind. simpl.
  rewrite Hp, Hm, Hsl, Hs. split_and!; try done.
  constructor; simpl; [exact Hr1|exact Hu|exact Hq|exact Hwk|exact Ha|exact Hl|exact Hli| |exact Hlt].
  rewrite Hs. by eexists.
Qed.
End Outcome.
