(* ===== verification/Queue.v ===== *)
(** The in-memory queue and its runner task ([app/services/queue.py]).

    The runner is a loop without end; [_run fuel] is its first [fuel] turns, so a
    statement about every [fuel] is a statement about the loop. *)
From S2P Require Export Resilience.

Definition queue_logger : pystr := u"app.services.queue".

Definition init_queue : InMemoryJobQueue := mkQueue [] 0 None false.

Module Queue.
Section Queue.
Context {R : Type}.
Notation W := (World R).

(** ** Operations *)

Definition on_queue (f : InMemoryJobQueue → InMemoryJobQueue) : M W unit :=
  modify (λ w, set_queue (f (w_queue w)) w).

(** [asyncio.Queue.put] on an unbounded queue: it never waits. *)
Definition put (x : option UUID) (q : InMemoryJobQueue) : InMemoryJobQueue :=
  mkQueue (_queue q ++ [x]) (_unfinished q + 1) (_task q) (_stopping q).

Definition qsize (q : InMemoryJobQueue) : Z := Z.of_nat (length (_queue q)).

(** [record_queue_depth(self._queue.qsize())]. *)
Definition gauge_depth : M W unit :=
  q ← gets w_queue; metric (record_queue_depth (qsize q)).

Definition enqueue (id : UUID) : M W unit := on_queue (put (Some id));; gauge_depth.

Definition set_task (t : option TaskState) (q : InMemoryJobQueue) : InMemoryJobQueue :=
  mkQueue (_queue q) (_unfinished q) t (_stopping q).
Definition set_stopping (b : bool) (q : InMemoryJobQueue) : InMemoryJobQueue :=
  mkQueue (_queue q) (_unfinished q) (_task q) b.

(** [start]: [true] when it creates a new runner task. *)
Definition start : M W bool :=
  q ← gets w_queue;
  match _task q with
  | Some TaskRunning => mret false
  | _ => on_queue (set_stopping false);; on_queue (set_task (Some TaskRunning));; mret true
  end.

(** [stop] up to its [await self._task]: [true] when there is a task to wait for. *)
Definition stop : M W bool :=
  on_queue (set_stopping true);;
  q ← gets w_queue;
  match _task q with
  | Some _ => on_queue (put None);; mret true
  | None => mret false
  end.

(** ** The runner *)

Inductive turn := Ended | Waiting | Got (x : option UUID).

(** The loop condition, unless the loop is already inside [get()], then one look at
    the queue. *)
Definition poll (waiting : bool) : M W turn :=
  q ← gets w_queue;
  if negb waiting && _stopping q then mret Ended
  else match _queue q with
       | [] => mret Waiting
       | x :: rest =>
           on_queue (λ q, mkQueue rest (_unfinished q) (_task q) (_stopping q));;
           mret (Got x)
       end.

(** The [finally] clause. *)
Definition task_done : M W unit :=
  on_queue (λ q, mkQueue (_queue q) (_unfinished q - 1) (_task q) (_stopping q));;
  gauge_depth.

Definition handler_failed (id : UUID) (e : exn) : LogRecord :=
  log_exception queue_logger (u"background job handler failed")
    [(u"job_id", JStr (uuid_str id))] e.

(** The body of the loop for one job. *)
Definition handle (handler : UUID → co W unit) (id : UUID) : co W unit :=
  co_finally
    (co_except (handler id) (λ e, atomically (log (handler_failed id e))))
    (λ _ w, (task_done w).2).

(** [true] when the loop has ended within its [fuel] turns. *)
Fixpoint _run (fuel : nat) (handler : UUID → co W unit) (waiting : bool) : co W bool :=
  match fuel with
  | 0 => mret false
  | S fuel =>
      t ← atomically (poll waiting);
      match t with
      | Ended => mret true
      | Waiting => _run fuel handler true
      | Got None => atomically task_done;; mret true
      | Got (Some id) => handle handler id;; _run fuel handler false
      end
  end.

(** The task, at the head of the loop or inside [get()]: when the loop ends, it is done. *)
Definition runner_at (waiting : bool) (fuel : nat) (handler : UUID → co W unit) : co W unit :=
  co_finally (_run fuel handler waiting)
    (λ r w, if ended r then (on_queue (set_task (Some (TaskDone (failure r)))) w).2 else w);;
  mret tt.
Definition runner : nat → (UUID → co W unit) → co W unit := runner_at false.

(** ** Draining the queue *)

(** What one turn of the runner does with the job at the head of the queue. *)
Definition handle_head (handler : UUID → co W unit) (w : W) (id : UUID) : W :=
  (run (handle handler id) (poll false w).2).2.

Definition queued_ids (w : W) : list (option UUID) := _queue (w_queue w).

(** A handler that never stops the queue, nor adds to it. *)
Definition leaves_queue (handler : UUID → co W unit) : Prop :=
  ∀ id w, w_queue (run (handler id) w).2 = w_queue w ∧
          (run (handler id) w).1 ≠ Raise CancelledExn.

Lemma run_handle handler id w :
  leaves_queue handler →
  ∃ w', run (handle handler id) w = (Ok tt, w')
        ∧ w_repo w' = w_repo (run (handler id) w).2
        ∧ w_audit w' = w_audit (run (handler id) w).2
        ∧ w_queue w' = mkQueue (_queue (w_queue w)) (_unfinished (w_queue w) - 1)
                         (_task (w_queue w)) (_stopping (w_queue w)).
Proof.
  intros Hh. destruct (Hh id w) as [Hq Hc]. unfold handle. rewrite run_finally, run_except.
  destruct (run (handler id) w) as [[[]|e] w1]; simpl in *.
  - eexists. split; [done|]. simpl. by rewrite Hq.
  - assert (is_Exception e = true) as -> by (destruct e; try done; by destruct Hc).
    simpl. eexists. split; [done|]. simpl. by rewrite Hq.
Qed.

Lemma run_loop_drains handler ids : ∀ fuel w,
  leaves_queue handler → _stopping (w_queue w) = false → queued_ids w = Some <$> ids →
  length ids ≤ fuel →
  ∃ w', run (_run fuel handler false) w = run (_run (fuel - length ids) handler false) w'
        ∧ w' = foldl (handle_head handler) w ids
        ∧ w_queue w' = mkQueue [] (_unfinished (w_queue w) - Z.of_nat (length ids))
                         (_task (w_queue w)) false.
Proof.
  induction ids as [|id ids IH]; intros fuel w Hh Hs Hq Hf.
  { exists w. rewrite Nat.sub_0_r. split_and!; [done..|].
    unfold queued_ids in Hq. destruct (w_queue w); simpl in *. subst. by rewrite Z.sub_0_r. }
  destruct fuel as [|fuel]; simpl in Hf; [lia|]. cbn [_run]. rewrite run_bind, run_atomically.
  set (w1 := set_queue (mkQueue (Some <$> ids) (_unfinished (w_queue w)) (_task (w_queue w))
                          (_stopping (w_queue w))) w).
  assert (poll false w = (Ok (Got (Some id)), w1)) as Hpoll.
  { unfold poll, gets, mbind, M_bind. unfold queued_ids in Hq. rewrite Hs, Hq. done. }
  rewrite Hpoll. cbv beta iota. rewrite run_bind. destruct (run_handle handler id w1 Hh) as (w2 & Hrun & _ & _ & Hq2).
  rewrite Hrun.
  destruct (IH fuel w2 Hh) as (w3 & Hrun3 & Hw3 & Hq3); [by rewrite Hq2|by unfold queued_ids; rewrite Hq2|lia|].
  exists w3. split_and!; [exact Hrun3| |].
  - rewrite Hw3. simpl. f_equal. unfold handle_head. rewrite Hpoll. cbn [snd]. by rewrite Hrun.
  - rewrite Hq3, Hq2. simpl. f_equal. lia.
Qed.

(** Left alone with the jobs [ids] in its queue and turns enough, the runner hands
    every one of them to the handler, once and in the order they were queued, whether
    or not the handler fails on some, and leaves the queue empty with no task
    unfinished. *)
Theorem runner_drains (handler : UUID → co W unit) (ids : list UUID) (fuel : nat) (w : W) :
  leaves_queue handler → _stopping (w_queue w) = false → queued_ids w = Some <$> ids →
  _unfinished (w_queue w) = Z.of_nat (length ids) → length ids < fuel →
  ∃ w', run (_run fuel handler false) w = (Ok false, w')
        ∧ w' = foldl (handle_head handler) w ids
        ∧ queued_ids w' = [] ∧ _unfinished (w_queue w') = 0%Z.
Proof.
  intros Hh Hs Hq Hu Hf.
  destruct (run_loop_drains handler ids fuel w Hh Hs Hq ltac:(lia)) as (w' & -> & Hw' & Hq').
  assert (∀ n b, run (_run n handler b) w' = (Ok false, w')) as Hidle.
  { induction n as [|n IHn]; intros b; [done|]. cbn [_run]. rewrite run_bind, run_atomically.
    unfold poll, gets, mbind, M_bind. rewrite Hq'. simpl. rewrite andb_false_r. apply IHn. }
  exists w'. unfold queued_ids. rewrite Hidle, Hq'. split_and!; [done..|]. simpl. lia.
Qed.

(** The job a runner that is told to stop still takes: only one that is inside [get()]
    takes any. *)
Definition last_taken (waiting : bool) (w : W) : option UUID :=
  if waiting then match queued_ids w with Some id :: _ => Some id | _ => None end else None.

(** A runner that is told to stop ends within two turns, having handled at most the
    job it was already waiting for; everything else that was queued, and the sentinel if
    the runner never got to it, stays in the queue, so jobs that were accepted but not
    started are not processed by this process any more. *)
Theorem runner_stops (handler : UUID → co W unit) (waiting : bool) (fuel : nat) (w : W) :
  leaves_queue handler → _task (w_queue w) ≠ None → 2 <= fuel →
  ∃ w1 w', stop w = (Ok true, w1) ∧ run (_run fuel handler waiting) w1 = (Ok true, w')
  ∧ queued_ids w' = drop (if waiting then 1 else 0) (queued_ids w ++ [None])
  ∧ w_repo w' = match last_taken waiting w with
                | Some id => w_repo (run (handler id) (poll true w1).2).2
                | None => w_repo w
                end.
Proof.
  intros Hh Ht Hf. destruct fuel as [|fuel]; [lia|]. unfold last_taken, queued_ids.
  set (w1 := set_queue (mkQueue (_queue (w_queue w) ++ [None]) (_unfinished (w_queue w) + 1)
                          (_task (w_queue w)) true) w).
  assert (stop w = (Ok true, w1)) as Hstop.
  { subst w1. destruct w as [? ? ? [? ? [task|] ?] ? ? ? ? ? ? ?]; [done|by destruct Ht]. }
  exists w1. assert (∀ w' n, 1 <= n → _stopping (w_queue w') = true →
    run (_run n handler false) w' = (Ok true, w')) as Hend.
  { intros w' [|n] Hn Hs; [lia|]. cbn [_run]. rewrite run_bind, run_atomically. unfold poll, gets, mbind, M_bind.
    by rewrite Hs. }
  destruct waiting; [|exists w1; by rewrite Hend by (done || lia)].
  assert (∀ x rest, _queue (w_queue w1) = x :: rest →
    poll true w1 = (Ok (Got x), set_queue (mkQueue rest (_unfinished (w_queue w1)) (_task (w_queue w1))
                                            (_stopping (w_queue w1))) w1)) as Hpoll.
  { intros x rest Hq. unfold poll, gets, mbind, M_bind. cbn [negb andb]. by rewrite Hq. }
  change (_queue (w_queue w1)) with (_queue (w_queue w) ++ [None]) in Hpoll.
  cbn [_run]. rewrite run_bind, run_atomically.
  destruct (_queue (w_queue w)) as [|[id|] rest]; rewrite (Hpoll _ _ eq_refl); cbv beta iota.
  - eexists. split; [done|]. split; [reflexivity|]. by split.
  - cbn [fst snd]. match goal with |- context [run (handle handler id ≫= _) ?s] => set (w2 := s) end.
    destruct (run_handle handler id w2 Hh) as (w3 & Hrun & Hr & _ & Hq).
    rewrite run_bind, Hrun. exists w3. rewrite Hend by (rewrite ?Hq; done || lia). split_and!; [done|done|by rewrite Hq|].
    exact Hr.
  - eexists. split; [done|]. split; [reflexivity|]. by split.
Qed.
(** ** Stopping among other tasks *)

(** What the runner relies on while it is being stopped: nobody starts it again, ends it or
    takes from the queue; jobs may still be added. *)
Record stop_rely (w w' : W) : Prop := {
  rely_stopping : _stopping (w_queue w) = true → _stopping (w_queue w') = true;
  rely_task : _task (w_queue w') = _task (w_queue w);
  rely_queue : ∃ later, queued_ids w' = queued_ids w ++ later;
}.

#[export] Instance stop_rely_preorder : PreOrder stop_rely.
Proof.
  split; [intros w; constructor; [done|done|exists []; by rewrite app_nil_r]|].
  intros w1 w2 w3 [H1 T1 [l1 Q1]] [H2 T2 [l2 Q2]]. constructor; [auto|congruence|].
  exists (l1 ++ l2). by rewrite Q2, Q1, app_assoc.
Qed.

Lemma stop_rely_same w w' : w_queue w' = w_queue w → stop_rely w w'.
Proof. intros E. constructor; unfold queued_ids; rewrite ?E; [done|done|exists []; by rewrite app_nil_r]. Qed.

(** The state once a waiting runner has taken the head of the queue. *)
Definition taken (waiting : bool) (w : W) : W :=
  set_queue (mkQueue (drop (if waiting then 1 else 0) (queued_ids w)) (_unfinished (w_queue w))
               (_task (w_queue w)) (_stopping (w_queue w))) w.

Definition run_ends (w : W) (r : res bool) (s : W) : Prop :=
  (r = Ok true ∨ r = Raise CancelledExn) ∧ stop_rely w s.

(** At the head of the loop the runner ends in this turn. *)
Lemma stopped_ends handler fuel w0 w :
  _stopping (w_queue w0) = true → stop_rely w0 w → 1 ≤ fuel →
  under_rely stop_rely (run_ends w0) (_run fuel handler false) w.
Proof.
  intros Hs H0 Hf. destruct fuel as [|fuel]; [lia|]. cbn [_run]. apply (rely_bind stop_rely), (rely_atomically stop_rely).
  intros s s' Hws. assert (poll false s = (Ok Ended, s)) as ->.
  { unfold poll, gets, mbind, M_bind. cbn [negb]. by rewrite (rely_stopping w0 s ltac:(by etrans) Hs). }
  intros Hs'. apply (rely_ret stop_rely). intros s2 Hs2. split; [by left|]. by do 3 (etrans; [eassumption|]).
Qed.

(** One job through the runner. *)
Lemma handle_ends handler id w0 w (Q : W → Prop) :
  (∀ id, kept_code stop_rely (handler id)) → stop_rely w0 w →
  (∀ s, stop_rely w0 s → Q s) →
  under_rely stop_rely (λ r s, (r = Ok tt ∨ r = Raise CancelledExn) ∧ Q s) (handle handler id) w.
Proof.
  intros Hh H0 HQ. apply (rely_finally stop_rely), (rely_except stop_rely).
  assert (∀ r s, stop_rely w0 s → ∀ s', stop_rely (task_done s).2 s' → r = Ok tt ∨ r = Raise CancelledExn →
            (r = Ok tt ∨ r = Raise CancelledExn) ∧ Q s') as Hend.
  { intros r s Hs s' Hs' Hr. split; [done|]. apply HQ. etrans; [exact Hs|]. etrans; [|exact Hs'].
    constructor; [done|done|exists []; by rewrite app_nil_r]. }
  eapply (rely_weaken stop_rely); [apply (rely_kept stop_rely (stop_rely w0)); [|apply Hh|exact H0]|].
  - intros s s' ??. by etrans.
  - intros [[]|e] s Hs; cbv beta.
    + intros s' Hs'. apply (Hend _ s); auto.
    + destruct e; cbn [is_Exception]; try (intros s' Hs'; apply (Hend _ s); by auto).
      all: apply (rely_atomically stop_rely); intros s1 s2 H1 H2 s' Hs'; apply (Hend _ s2); [|done|by left].
      all: etrans; [exact Hs|]; etrans; [exact H1|]; etrans; [|exact H2]; by apply stop_rely_same.
Qed.

Lemma stopping_runner_ends handler waiting fuel w :
  (∀ id, kept_code stop_rely (handler id)) → _stopping (w_queue w) = true → queued_ids w ≠ [] → 2 ≤ fuel →
  under_rely stop_rely (run_ends (taken waiting w)) (_run fuel handler waiting) w.
Proof.
  intros Hh Hs Hq Hf. destruct waiting; [|apply (stopped_ends _ _ (taken false w)); [done| |lia]]. 2:{
    constructor; [done|done|]. exists []. by rewrite app_nil_r. }
  destruct fuel as [|fuel]; [lia|]. cbn [_run]. apply (rely_bind stop_rely), (rely_atomically stop_rely).
  intros s s' [Hs1 Ht1 [later Hq1]]. destruct (queued_ids w) as [|x rest] eqn:E; [done|].
  set (s2 := set_queue (mkQueue (rest ++ later) (_unfinished (w_queue s)) (_task (w_queue s))
                          (_stopping (w_queue s))) s).
  assert (poll true s = (Ok (Got x), s2)) as ->.
  { unfold poll, gets, mbind, M_bind. cbn [negb andb]. unfold queued_ids in Hq1. by rewrite Hq1. }
  assert (stop_rely (taken true w) s2) as Htaken.
  { constructor; [by intros _; apply Hs1|done|]. exists later. unfold taken. by rewrite E. }
  intros Hs'. cbv beta iota. destruct x as [id|].
  - apply (rely_bind stop_rely). eapply (rely_weaken stop_rely); [apply (handle_ends _ _ (taken true w) _ (stop_rely (taken true w)));
      [done|by etrans|done]|].
    intros [[]|e] s3 [Hr H3]; [|split; [destruct Hr as [|[= ->]]; [done|by right]|done]].
    by apply (stopped_ends _ _ (taken true w)); [| |lia].
  - apply (rely_bind stop_rely), (rely_atomically stop_rely). intros s3 s4 H3 H4. apply (rely_ret stop_rely). intros s5 H5. split; [by left|].
    do 2 (etrans; [eassumption|]). etrans; [exact H3|]. etrans; [|etrans; [exact H4|exact H5]].
    constructor; [done|done|exists []; by rewrite app_nil_r].
Qed.

(** How the runner's task has ended, and what it has left in the queue of [w]. *)
Definition runner_ended (waiting : bool) (w : W) (r : res unit) (s : W) : Prop :=
  (r = Ok tt ∨ r = Raise CancelledExn) ∧ _task (w_queue s) = Some (TaskDone (failure r))
  ∧ ∃ later, queued_ids s = drop (if waiting then 1 else 0) (queued_ids w) ++ later.

Lemma stopping_task_ends handler waiting fuel w :
  (∀ id, kept_code stop_rely (handler id)) → _stopping (w_queue w) = true → queued_ids w ≠ [] → 2 ≤ fuel →
  under_rely stop_rely (runner_ended waiting w) (runner_at waiting fuel handler) w.
Proof.
  intros Hh Hs Hq Hf. apply (rely_bind stop_rely), (rely_finally stop_rely).
  eapply (rely_weaken stop_rely); [by apply stopping_runner_ends|]. intros r s [Hr [_ _ [later Hl]]] s' [_ Ht [later' Hl']].
  assert (runner_ended waiting w (_ ← r; Ok tt) s') as Hend.
  { split; [by destruct Hr as [->| ->]; [left|right]|]. split.
    - rewrite Ht. by destruct Hr as [->| ->].
    - exists (later ++ later'). rewrite Hl'. destruct Hr as [->| ->]; cbn [ended];
        (etrans; [exact (f_equal (.++ later') Hl)|]); by rewrite <- app_assoc. }
  destruct Hr as [->| ->]; [|done]. apply (rely_ret stop_rely). intros s2 [_ Ht2 [later2 Hl2]].
  destruct Hend as (_ & Ht3 & [later3 Hl3]). split; [by left|]. split; [by rewrite Ht2, Ht3|].
  exists (later3 ++ later2). by rewrite Hl2, Hl3, <- app_assoc.
Qed.
End Queue.
End Queue.

(** Two jobs, and a handler that fails on both. *)
Definition two_queued : World unit :=
  mkWorld () (λ _, 0%Z) (mkEnv N.of_nat (λ _, float_of 0) (λ _, float_of 0) (λ _ _, None))
    (mkQueue [Some 3%N; Some 4%N] 2 (Some TaskRunning) false) (mkWorker None false) (mkAudit [])
    (mkMetrics ∅) [] [] (mkLimiter 60 ∅) [].

Lemma runner_drains_witness :
  ∃ w', run (Queue._run 3 (λ _, Done (Raise (StorageExn (u"connection was closed")))) false) two_queued = (Ok false, w')
        ∧ length (w_logs w') = 2 ∧ Queue.queued_ids w' = [] ∧ _unfinished (w_queue w') = 0%Z.
Proof.
  destruct (Queue.runner_drains (λ _, Done (Raise (StorageExn (u"connection was closed")))) [3; 4]%N 3 two_queued)
    as (w' & Hrun & Hw' & Hq & Hu).
  - intros id w. split; [reflexivity|discriminate].
  - reflexivity.
  - reflexivity.
  - reflexivity.
  - simpl. lia.
  - exists w'. split; [exact Hrun|]. split; [rewrite Hw'; vm_compute; reflexivity|]. split; assumption.
Defined.

(** The runner waits while a job and the sentinel arrive: it handles the job. *)
Lemma runner_stops_witness :
  ∃ w1 w', Queue.stop two_queued = (Ok true, w1)
           ∧ run (Queue._run 2 (λ _, Done (Raise (StorageExn (u"connection was closed")))) true) w1 = (Ok true, w')
           ∧ Queue.queued_ids w' = [Some 4%N; None].
Proof.
  destruct (Queue.runner_stops (λ _, Done (Raise (StorageExn (u"connection was closed")))) true 2 two_queued) as (w1 & w' & Hs & Hrun & Hq & _).
  - intros id w. split; [reflexivity|discriminate].
  - discriminate.
  - lia.
  - exists w1, w'. split; [exact Hs|]. split; [exact Hrun|exact Hq].
Defined.
