(* ===== verification/JobService.v ===== *)
(** The job service ([app/services/job_service.py]): submitting, reading and processing
    evaluation jobs, over any repository and any scorer. *)
From S2P Require Export Evaluator Queue.

Definition service_logger : pystr := u"app.services.job_service".
Definition failure_message : pystr := u"Evaluation failed.".

Definition opt_str (s : pystr) : option json := Some (JStr s).

(** The extra fields of the log of a success, and of a failure. *)
Definition succeeded_log (tenant project : pystr) (id : UUID) : LogRecord :=
  log_info service_logger (u"evaluation job succeeded")
    [(u"tenant_id", JStr tenant); (u"project_id", JStr project); (u"job_id", JStr (uuid_str id))].
Definition failed_log (id : UUID) (e : exn) : LogRecord :=
  log_exception service_logger (u"evaluation job failed") [(u"job_id", JStr (uuid_str id))] e.

Definition job_span (name tenant project : pystr) (id : UUID) : Span :=
  traced_span name
    [(u"tenant_id", opt_str tenant); (u"project_id", opt_str project);
     (u"job_id", opt_str (uuid_str id))].

Module EvaluationJobService.
Section Service.
Context {R : Type} `{JobRepository R, !Scorer R}.
(** [repr] of an exception. *)
Context (repr : exn → pystr).
Notation W := (World R).

(** The fields of a job object, now. *)
Definition read (x : ref) : M W EvaluationJob := gets (λ w, deref (w_repo w) x).

Definition unpersisted_log (id : UUID) (original e : exn) : LogRecord :=
  log_exception service_logger (u"failed to persist evaluation job failure")
    [(u"job_id", JStr (uuid_str id)); (u"original_error", JStr (repr original))] e.

Definition audit_job (etype : pystr) (j : EvaluationJob) (metadata : list (pystr * json)) : M W unit :=
  audit_record etype (tenant_id j) (project_id j) (uuid_str (job_id j)) metadata.

(** ** Submitting *)

(** Up to and including [await repository.create(job)]. *)
Definition submit_create (request : EvaluationRequest) : M W ref :=
  id ← uuid4;
  t ← wall_now;
  t' ← wall_now;
  open_span (job_span (u"job.create") (req_tenant_id request) (req_project_id request) id);;
  in_repo (create (new_job id request t t')).

(** The rest: nothing in it waits. *)
Definition submit_announce (x : ref) : M W unit :=
  j ← read x;
  Queue.enqueue (job_id j);;
  audit_job (u"evaluation.job_queued") j [];;
  metric (record_job_status (status_value QUEUED)).

Definition submit (request : EvaluationRequest) : co W ref :=
  x ← atomically (submit_create request);
  atomically (submit_announce x);;
  mret x.

(** ** Reading *)

Definition get (id : UUID) : co W ref := atomically (in_repo (Repository.get id)).
Definition get_for_tenant (id : UUID) (tenant : pystr) : co W ref :=
  atomically (in_repo (Repository.get_for_tenant id tenant)).
Definition list_recent (tenant : pystr) (project : option pystr) (limit : Z) : co W (list ref) :=
  atomically (in_repo (Repository.list_recent tenant project limit)).

(** ** Processing *)

Definition _record_failure (x : ref) (message : pystr) (original_error : exn) : co W unit :=
  co_except
    (id ← atomically (j ← read x; mret (job_id j));
     atomically (in_repo (set_failed id message));;
     atomically (j ← read x; audit_job (u"evaluation.job_failed") j [];;
                 metric (record_job_status (status_value FAILED))))
    (λ e, atomically (j ← read x; log (unpersisted_log (job_id j) original_error e))).

(** [set_succeeded], then the audit event, the log and the metric. *)
Definition succeed (id : UUID) (v : EvaluationResult) : co W unit :=
  updated ← atomically (in_repo (set_succeeded id v));
  atomically (
    uj ← read updated;
    audit_record (u"evaluation.job_succeeded") (tenant_id uj) (project_id uj) (uuid_str id)
      [(u"score", JInt (Models.score v))];;
    log (succeeded_log (tenant_id uj) (project_id uj) id);;
    metric (record_job_status (status_value SUCCEEDED))).

(** [except Exception as exc: ...; raise]. *)
Definition or_fail (x : ref) (id : UUID) (body : co W unit) : co W unit :=
  co_except body (λ e,
    _record_failure x failure_message e;;
    atomically (log (failed_log id e));;
    Done (Raise e)).

Definition process (id : UUID) : co W unit :=
  x ← get id;
  atomically (j ← read x;
              open_span (job_span (u"job.process") (tenant_id j) (project_id j) id));;
  or_fail x id (
    atomically (in_repo (set_running id));;
    atomically (j ← read x;
                audit_record (u"evaluation.job_running") (tenant_id j) (project_id j)
                  (uuid_str id) []);;
    request ← atomically (j ← read x; mret (request j));
    v ← evaluator_score request;
    succeed id v).

Definition process_claimed (x : ref) : co W unit :=
  id ← atomically (j ← read x;
                   open_span (job_span (u"job.process") (tenant_id j) (project_id j) (job_id j));;
                   mret (job_id j));
  or_fail x id (
    atomically (j ← read x; audit_job (u"evaluation.job_running") j []);;
    request ← atomically (j ← read x; mret (request j));
    v ← evaluator_score request;
    succeed id v).
End Service.
End EvaluationJobService.
