(* ===== verification/Worker.v ===== *)
(** The polling worker ([app/services/worker.py]).

    Like the queue's runner, [run] is a loop without end; [run fuel] is its first
    [fuel] turns. *)
From S2P Require Export JobService.

Definition worker_logger : pystr := u"app.services.worker".

(** ** Durations *)

(** A finite double as a fraction. *)
Definition float_fraction (x : float) : option (Z * Z) :=
  match x with
  | S754_zero _ => Some (0, 1)%Z
  | S754_finite s m e =>
      let n := if s then Z.neg m else Z.pos m in
      Some (if (0 <=? e)%Z then (n * 2 ^ e, 1)%Z else (n, 2 ^ (- e))%Z)
  | _ => None
  end.

(** Round a fraction to an integer, ties to even, for either sign. *)
Definition round_fraction (n d : Z) : Z :=
  if (n <? 0)%Z then (- round_half_even (- n) d)%Z else round_half_even n d.

Definition us_per_day : Z := 86400000000.

(** The double cannot become an integer. *)
Definition not_integral {A} (x : float) : res A :=
  match x with
  | S754_infinity _ => Raise (OverflowExn (u"cannot convert float infinity to integer"))
  | _ => Raise (ValueExn (u"cannot convert float NaN to integer"))
  end.

(** [timedelta(seconds=x)] in microseconds: the whole seconds are exact, the fraction is
    scaled as a double and rounded half to even. *)
Definition timedelta_seconds (x : float) : res Z :=
  match float_fraction x with
  | None => not_integral x
  | Some (n, d) =>
      let whole := Z.quot n d in
      let frac := float_mul (float_sub x (float_of whole)) (float_of 1000000) in
      match float_fraction frac with
      | None => not_integral frac
      | Some (fn, fd) =>
          let us := (whole * 1000000 + round_fraction fn fd)%Z in
          if (Z.abs (us / us_per_day) <=? 999999999)%Z then Ok us
          else Raise (OverflowExn (u"days; must have magnitude <= 999999999"))
      end
  end.

Example timedelta_seconds_ex :
  timedelta_seconds (float_of 300) = Ok 300000000%Z
  ∧ timedelta_seconds float_0_05 = Ok 50000%Z
  ∧ timedelta_seconds (SFopp float_0_05) = Ok (-50000)%Z
  ∧ timedelta_seconds (S754_infinity false) = Raise (OverflowExn (u"cannot convert float infinity to integer")).
Proof. vm_compute. auto. Qed.

Module Worker.
Section Worker.
Context {R : Type} `{JobRepository R, !Scorer R}.
Context (repr : exn → pystr) (poll_seconds stale_job_seconds : float).
Notation W := (World R).

Definition on_worker (f : EvaluationWorker → EvaluationWorker) : M W unit :=
  modify (λ w, set_worker (f (w_worker w)) w).

(** [start]: [true] when it creates a new task. *)
Definition start : M W bool :=
  k ← gets w_worker;
  match worker_task k with
  | Some TaskRunning => mret false
  | _ => on_worker (λ _, mkWorker (Some TaskRunning) false);; mret true
  end.

(** [stop] up to its [await self._task]: [true] when there is a task to wait for. *)
Definition stop : M W bool :=
  on_worker (λ k, mkWorker (worker_task k) true);;
  k ← gets w_worker;
  mret (bool_decide (worker_task k ≠ None)).

(** [datetime.now(UTC) - timedelta(seconds=self.stale_job_seconds)]. *)
Definition stale_cutoff : M W datetime :=
  t ← wall_now;
  d ← of_res (timedelta_seconds stale_job_seconds);
  of_res (datetime_add t (- d)).

Definition recovered_log (count : Z) : LogRecord :=
  log_warning worker_logger (u"recovered stale running jobs") [(u"job_count", JInt count)].

Definition recover_stale : co W unit :=
  cutoff ← atomically stale_cutoff;
  recovered ← atomically (in_repo (recover_stale_running cutoff));
  if (recovered =? 0)%Z then mret tt
  else atomically (metric (record_worker_recovered_jobs recovered);; log (recovered_log recovered)).

(** [true] when the loop has ended within its [fuel] turns. *)
Fixpoint run_loop (fuel : nat) : co W bool :=
  match fuel with
  | 0 => mret false
  | S fuel =>
      stopping ← atomically (gets (λ w, worker_stopping (w_worker w)));
      if (stopping : bool) then mret true
      else
        recover_stale;;
        claimed ← atomically (in_repo claim_next_queued);
        match claimed with
        | None => asyncio_sleep poll_seconds;; run_loop fuel
        | Some x => EvaluationJobService.process_claimed repr x;; run_loop fuel
        end
  end.

Definition run (fuel : nat) : co W bool :=
  atomically (log (log_info worker_logger (u"evaluation worker started") []));;
  co_finally (run_loop fuel)
    (λ r w, if ended r then (log (log_info worker_logger (u"evaluation worker stopped") []) w).2
            else w).

(** The task: when [run] ends, by return or by exception, it is done. *)
Definition task (fuel : nat) : co W unit :=
  co_finally (run fuel)
    (λ r w, if ended r then (on_worker (λ k, mkWorker (Some (TaskDone (failure r))) (worker_stopping k)) w).2
            else w);;
  mret tt.
End Worker.
End Worker.

(** The objects [lifespan] and [run_worker] build around a repository; [registry] is the
    process-wide one. *)
Definition init_world {R} (repository : R) (c : clock) (env : Environment) (registry : MetricsRegistry)
    : World R :=
  mkWorld repository c env init_queue (mkWorker None false) (mkAudit []) registry [] []
    (mkLimiter 60 ∅) [].
