(* ===== verification/Safety.v ===== *)
(** What holds however the tasks of a process interleave: the invariant of the whole
    state, its evolution, and the pieces of the job service that keep both.  The
    theorems are over the repository and scorer interfaces. *)
From S2P Require Export Worker InMemory.

Notation ev_queued := (u"evaluation.job_queued").
Notation ev_running := (u"evaluation.job_running").
Notation ev_succeeded := (u"evaluation.job_succeeded").
Notation ev_failed := (u"evaluation.job_failed").

(** An audit event tells the truth about the stored jobs. *)
Definition event_ok (v : store) (e : AuditEvent) : Prop :=
  ∃ id j, v !! id = Some j ∧ event_job_id e = uuid_str id
          ∧ event_tenant_id e = tenant_id j ∧ event_project_id e = project_id j
          ∧ event_type e ∈ [ev_queued; ev_running; ev_succeeded; ev_failed]
          ∧ (event_type e = ev_succeeded →
               status j = SUCCEEDED ∧ ∃ r, result j = Some r
               ∧ event_metadata e = [(u"score", JInt (Models.score r))])
          ∧ (event_type e = ev_failed → status j = FAILED).

(** A queue entry is the sentinel or names a stored job. *)
Definition entry_ok (v : store) (x : option UUID) : Prop :=
  match x with Some id => is_Some (v !! id) | None => True end.

(** Nothing is left to be done to a finished job. *)
Lemma evolves_terminal v v' id j :
  evolves v v' → v !! id = Some j → terminal j → v' !! id = Some j.
Proof.
  intros He Hj Ht. destruct (He id j Hj) as (j' & Hj' & Hrtc).
  by rewrite (terminal_rtc _ _ Ht Hrtc) in Hj'.
Qed.

Lemma event_ok_evolves v v' e : evolves v v' → event_ok v e → event_ok v' e.
Proof.
  intros He (id & j & Hj & Hid & Ht & Hp & Htype & Hs & Hf).
  destruct (He id j Hj) as (j' & Hj' & Hrtc).
  destruct (rtc_lstep_identity _ _ Hrtc) as (_ & Et & Ep & _).
  exists id, j'. split_and!; [done|done|congruence|congruence|done| |].
  - intros E. destruct (Hs E) as [Hst Hr].
    assert (terminal j) as Hterm by by left. by rewrite (terminal_rtc _ _ Hterm Hrtc).
  - intros E. specialize (Hf E). assert (terminal j) as Hterm by by right.
    by rewrite (terminal_rtc _ _ Hterm Hrtc).
Qed.

Lemma entry_ok_evolves v v' x : evolves v v' → entry_ok v x → entry_ok v' x.
Proof.
  intros He. destruct x as [id|]; [|done]. intros [j Hj].
  destruct (He id j Hj) as (j' & ? & _). by exists j'.
Qed.

(** A piece whose effect computes, and which leaves repository and identifiers alone. *)
Ltac quiet_step := constructor; simpl; [reflexivity|reflexivity| |auto| |];
  try (by eexists); try (by exists []; rewrite app_nil_r); try done.

Section Safety.
Context {R : Type} `{RL : RepositoryLaws R} `{SL : ScorerLaws R}.
(** The identifiers other processes on the same storage will draw. *)
Context {others : UUID → Prop}.
Notation W := (World R).

(** ** The invariant and the evolution of the state *)

Record world_inv_among (w : W) : Prop := {
  inv_repo : repo_inv (w_repo w);
  (** [uuid4] gives distinct, unused identifiers, here and in the other processes. *)
  inv_fresh n : view (w_repo w) !! uuids (w_env w) n = None;
  inv_distinct m n : uuids (w_env w) m = uuids (w_env w) n → m = n;
  inv_others id : others id → view (w_repo w) !! id = None ∧ ∀ n, id ≠ uuids (w_env w) n;
  inv_audit : Forall (event_ok (view (w_repo w))) (events (w_audit w));
  inv_queue : Forall (entry_ok (view (w_repo w))) (_queue (w_queue w));
}.

Notation world_inv := world_inv_among.

(** A process starts in the invariant, whatever earlier processes left in the repository. *)
Lemma init_world_inv (repository : R) c env registry :
  repo_inv repository → (∀ n, view repository !! uuids env n = None) →
  (∀ m n, uuids env m = uuids env n → m = n) →
  (∀ id, others id → view repository !! id = None ∧ ∀ n, id ≠ uuids env n) →
  world_inv (init_world repository c env registry).
Proof. intros. by constructor. Qed.

Record world_le (w w' : W) : Prop := {
  le_repo : repo_le (w_repo w) (w_repo w');
  le_audit : events (w_audit w) `prefix_of` events (w_audit w');
  le_logs : w_logs w `prefix_of` w_logs w';
  le_spans : w_spans w `prefix_of` w_spans w';
  (** No identifier comes back. *)
  le_uuids n : ∃ m, uuids (w_env w') n = uuids (w_env w) m;
}.

#[export] Instance world_le_preorder : PreOrder world_le.
Proof.
  split; [intros w; by constructor; eauto|]. intros w1 w2 w3 [? ? ? ? H12] [? ? ? ? H23].
  constructor; [by etrans..|]. intros n. destruct (H23 n) as [m ->]. apply H12.
Qed.

Lemma le_evolves w w' : world_le w w' → evolves (view (w_repo w)) (view (w_repo w')).
Proof. intros []. by apply repo_le_evolves. Qed.

Lemma le_tracks w w' x id :
  world_inv w → world_le w w' → tracks (w_repo w) x id → tracks (w_repo w') x id.
Proof. intros [] []. by apply repo_le_tracks. Qed.

(** ** Pieces that leave the repository alone *)

Record quiet (w w' : W) : Prop := {
  quiet_repo : w_repo w' = w_repo w;
  quiet_uuids : uuids (w_env w') = uuids (w_env w);
  quiet_audit : ∃ new, events (w_audit w') = events (w_audit w) ++ new
                       ∧ Forall (event_ok (view (w_repo w))) new;
  quiet_queue : Forall (entry_ok (view (w_repo w))) (_queue (w_queue w)) →
                Forall (entry_ok (view (w_repo w))) (_queue (w_queue w'));
  quiet_logs : w_logs w `prefix_of` w_logs w';
  quiet_spans : w_spans w `prefix_of` w_spans w';
}.

Lemma quiet_ok w w' : quiet w w' → world_inv w → world_inv w' ∧ world_le w w'.
Proof.
  intros [Hr Hu (new & Ha & Hnew) Hq Hl Hs] [Hi Hf Hd Ho Hau Hqu]. split; constructor;
    rewrite ?Hr, ?Hu, ?Ha; auto.
  - by apply Forall_app.
  - reflexivity.
  - by eexists.
  - eauto.
Qed.

Lemma scorer_quiet w w' : scorer_frame w w' → world_inv w → world_inv w' ∧ world_le w w'.
Proof.
  intros [Hr Hu Hq _ Ha Hl _ Hs _]. apply quiet_ok. unfold repo_part in Hr. simplify_eq.
  constructor; [done|done| |by rewrite Hq|by rewrite Hl|done].
  exists []. by rewrite Ha, app_nil_r.
Qed.

(** The judgement of the development: from a state of the invariant, [c] keeps it. *)
Notation safe := (steps_along world_inv world_le).

Lemma safe_quiet {A} (Q : res A → W → Prop) (m : M W A) w :
  (∀ s, world_inv s → world_le w s → quiet s (m s).2
        ∧ ∀ s', world_inv s' → world_le s s' → Q (m s).1 s') →
  safe Q (atomically m) w.
Proof.
  intros HH. apply along_atomically. intros s Hs Hws. destruct (HH s Hs Hws) as [Hq HQ].
  destruct (quiet_ok _ _ Hq Hs). split_and!; [done..|]. intros s' Hs' ?. apply HQ; [done|].
  by etrans.
Qed.

Lemma safe_any {A} (Q : res A → W → Prop) (c : co W A) w : safe Q c w → safe any c w.
Proof. intros HH. by apply (along_weaken _ _ Q). Qed.

Lemma safe_bind {A B} (Q : A → W → Prop) (c : co W A) (k : A → co W B) w :
  world_inv w → safe (okay Q) c w →
  (∀ a s, world_inv s → world_le w s → Q a s → safe any (k a) s) → safe any (c ≫= k) w.
Proof. intros Hw Hc Hk. by apply (along_bind _ _ (okay Q)). Qed.

Lemma safe_seq {A B} (c : co W A) (k : co W B) w :
  world_inv w → safe any c w → (∀ s, world_inv s → world_le w s → safe any k s) →
  safe any (c;; k) w.
Proof. intros Hw Hc Hk. apply (along_bind _ _ any); [done|done|auto|done]. Qed.

Lemma safe_except {A} (c : co W A) h w :
  world_inv w → safe any c w → (∀ e s, world_inv s → world_le w s → safe any (h e) s) →
  safe any (co_except c h) w.
Proof.
  intros Hw Hc Hh. apply (along_except _ _ any); [done..|]. intros e s ???. case_match; auto.
Qed.

(** ** Pieces that change the repository *)

Lemma safe_repo {A} (Q : res A → W → Prop) (m : M (R * clock) A) w :
  (∀ s c r s' c', repo_inv s → m (s, c) = (r, (s', c')) →
     repo_inv s' ∧ repo_le s s' ∧ (∀ id, view s !! id = None → view s' !! id = None)
     ∧ (∀ w', world_inv w' → repo_le s' (w_repo w') → Q r w')) →
  safe Q (atomically (in_repo m)) w.
Proof.
  intros Hm. apply along_atomically. intros s Hs _. unfold in_repo, zoom, repo_part.
  destruct (m (w_repo s, w_clock s)) as [r [s' c']] eqn:E.
  destruct (Hm _ _ _ _ _ (inv_repo _ Hs) E) as (Hi & Hle & Hdom & HQ).
  pose proof (repo_le_evolves _ _ Hle) as He. destruct Hs as [_ Hf Hd Ho Ha Hq].
  split_and!.
  - constructor; simpl; [done|auto|done| | |].
    + intros id Hid. destruct (Ho id Hid). auto.
    + eapply Forall_impl; [exact Ha|]. intros e. by apply event_ok_evolves.
    + eapply Forall_impl; [exact Hq|]. intros x. by apply entry_ok_evolves.
  - constructor; simpl; eauto.
  - intros w' Hw' [Hle' _ _ _ _]. by apply HQ.
Qed.

(** A status change keeps the set of jobs. *)
Lemma transition_dom v id from upd r v' :
  transition_spec v id from upd r v' → ∀ id', v !! id' = None → v' !! id' = None.
Proof.
  unfold transition_spec. intros HH id' Hn. destruct (v !! id) as [j|] eqn:Hj;
    [case_decide|]; destruct_and?; subst; try done.
  destruct HH as (j' & _ & _ & ->). rewrite lookup_insert_ne; [done|congruence].
Qed.

Lemma transition_dom_or_failed v id from upd r v' (F F' : Prop) :
  transition_spec v id from upd r v'
  ∨ (F ∧ F' ∧ (v' = v ∨ ∃ j', transition_spec v id from upd (Ok j') v')) →
  ∀ id', v !! id' = None → v' !! id' = None.
Proof.
  intros [HH|(_ & _ & [->|[j' HH]])]; [by eapply transition_dom|done|by eapply transition_dom].
Qed.

Lemma safe_get id w :
  safe (okay (λ x s, tracks (w_repo s) x id)) (EvaluationJobService.get id) w.
Proof.
  apply safe_repo. intros s c r s' c' Hs Hrun.
  destruct (get_spec _ _ _ _ _ _ Hs Hrun) as (Hi & Hle & Hv & HH).
  split_and!; [done|done|by rewrite Hv|]. intros w' Hw' Hle'.
  destruct HH as [HH|[_ [? ->]]]; [|done]. destruct (view s !! id); [|by subst].
  destruct HH as (x & -> & _ & Ht). simpl. by apply (repo_le_tracks s').
Qed.

Lemma safe_set_running id w : safe any (atomically (in_repo (set_running id))) w.
Proof.
  apply safe_repo. intros s c r s' c' Hs Hrun.
  destruct (set_running_spec _ _ _ _ _ _ Hs Hrun) as (Hi & Hle & _ & HH).
  split_and!; [done|done| |done]. by eapply transition_dom_or_failed.
Qed.

(** The job [id] is stored, finished as [P] says. *)
Definition finished (id : UUID) (P : EvaluationJob → Prop) (w : W) : Prop :=
  ∃ j, view (w_repo w) !! id = Some j ∧ terminal j ∧ P j.

Lemma finished_later s (w' : W) id P j :
  repo_le s (w_repo w') → view s !! id = Some j → terminal j → P j → finished id P w'.
Proof.
  intros Hle Hj Ht HP. exists j. split_and!; [|done..].
  apply (evolves_terminal (view s)); [by apply repo_le_evolves|done..].
Qed.

Lemma safe_set_succeeded id v w :
  valid_result v = true →
  safe (okay (λ x s, tracks (w_repo s) x id
                     ∧ finished id (λ j, status j = SUCCEEDED ∧ result j = Some v) s))
    (atomically (in_repo (set_succeeded id v))) w.
Proof.
  intros Hv. apply safe_repo. intros s c r s' c' Hs Hrun.
  destruct (set_succeeded_spec _ _ _ _ _ _ _ Hs Hv Hrun) as (Hi & Hle & Ht & HH).
  split_and!; [done|done| |].
  { by eapply transition_dom_or_failed. }
  intros w' Hw' Hle'. destruct r as [x|e]; [|done].
  destruct HH as [HH|(_ & [? ?] & _)]; [|done]. split; [apply (repo_le_tracks s'); auto|].
  apply transition_ok in HH as (j & Hj & _ & (c2 & t & _ & Hj') & Hv').
  apply (finished_later s' _ _ _ (succeed_job v c2 t j)); [done| |by left|done].
  by rewrite Hv', Hj', lookup_insert_eq.
Qed.

Lemma safe_set_failed id m w :
  safe (okay (λ x s, finished id (λ j, status j = FAILED) s))
    (atomically (in_repo (set_failed id m))) w.
Proof.
  apply safe_repo. intros s c r s' c' Hs Hrun.
  destruct (set_failed_spec _ _ _ _ _ _ _ Hs Hrun) as (Hi & Hle & Ht & HH).
  split_and!; [done|done| |].
  { by eapply transition_dom_or_failed. }
  intros w' Hw' Hle'. destruct r as [x|e]; [|done].
  destruct HH as [HH|(_ & [? ?] & _)]; [|done].
  apply transition_ok in HH as (j & Hj & _ & (c2 & t & _ & Hj') & Hv').
  apply (finished_later s' _ _ _ (fail_job m c2 t j)); [done| |by right|done].
  by rewrite Hv', Hj', lookup_insert_eq.
Qed.

(** ** The job service *)

Lemma tracked_job s x id :
  world_inv s → tracks (w_repo s) x id →
  ∃ j, view (w_repo s) !! id = Some j ∧ same_identity (deref (w_repo s) x) j ∧ job_id j = id
       ∧ job_id (deref (w_repo s) x) = id.
Proof.
  intros Hs Hx. destruct (tracks_deref _ _ _ (inv_repo _ Hs) Hx) as (j & Hj & Hid).
  destruct (repo_inv_ok _ (inv_repo _ Hs) _ _ Hj) as [Hjid _].
  exists j. split_and!; [done..|]. destruct Hid as [-> _]. done.
Qed.

Lemma event_progress v id j d et t md :
  v !! id = Some j → same_identity d j → et ∈ [ev_queued; ev_running] →
  event_ok v (mkAuditEvent et (tenant_id d) (project_id d) (uuid_str id) t md).
Proof.
  intros Hj (_ & Ht & Hp & _) Het. exists id, j. simpl.
  assert (et ≠ ev_succeeded ∧ et ≠ ev_failed) as [Hns Hnf].
  { rewrite !elem_of_cons, elem_of_nil in Het.
    split; intros ->; destruct Het as [E|[E|[]]]; vm_compute in E; discriminate. }
  split_and!; [done..| |done|done].
  rewrite !elem_of_cons in Het |- *. destruct Het as [->|[->|[]%elem_of_nil]]; repeat first [by left | right].
Qed.

Lemma event_finished v id j d et t md :
  v !! id = Some j → same_identity d j → et ∈ [ev_succeeded; ev_failed] →
  (et = ev_succeeded → status j = SUCCEEDED ∧ ∃ r, result j = Some r
                       ∧ md = [(u"score", JInt (Models.score r))]) →
  (et = ev_failed → status j = FAILED) →
  event_ok v (mkAuditEvent et (tenant_id d) (project_id d) (uuid_str id) t md).
Proof.
  intros Hj (_ & Ht & Hp & _) Het Hs Hf. exists id, j. simpl. split_and!; [done..| |done|done].
  rewrite !elem_of_cons in Het |- *. destruct Het as [->|[->|[]%elem_of_nil]]; repeat first [by left | right].
Qed.

Context (repr : exn → pystr).

Lemma safe_log (x : W → LogRecord) w :
  safe any (atomically (λ s, log (x s) s)) w.
Proof. apply safe_quiet. intros s Hs _. split; [|done]. quiet_step. Qed.

Lemma safe_record_failure x id m e w :
  world_inv w → tracks (w_repo w) x id →
  safe any (EvaluationJobService._record_failure repr x m e) w.
Proof.
  intros Hw Hx. unfold EvaluationJobService._record_failure.
  apply safe_except; [done| |].
  - apply (safe_bind (λ i _, i = id)); [done| |].
    { apply safe_quiet. intros s Hs Hws.
      destruct (tracked_job s x id Hs (le_tracks _ _ _ _ Hw Hws Hx)) as (j & _ & _ & _ & Hid).
      split; [quiet_step|]. intros s' Hs' _. exact Hid. }
    intros i s Hs Hws ->. pose proof (le_tracks _ _ _ _ Hw Hws Hx) as Hx'.
    apply (safe_bind (λ y s, finished id (λ j, status j = FAILED) s)); [done|apply safe_set_failed|].
    intros y s1 Hs1 Hws1 Hfin. pose proof (le_tracks _ _ _ _ Hs Hws1 Hx') as Hx1.
    apply safe_quiet. intros s2 Hs2 Hws2. split; [|done].
    pose proof (le_tracks _ _ _ _ Hs1 Hws2 Hx1) as Hx2.
    destruct (tracked_job s2 x id Hs2 Hx2) as (j & Hj & Hsame & _ & Hid).
    destruct Hfin as (j1 & Hj1 & Hterm & Hst).
    pose proof (evolves_terminal _ _ _ _ (le_evolves _ _ Hws2) Hj1 Hterm) as Hj2.
    assert (j1 = j) as -> by congruence.
    quiet_step. eexists. split; [reflexivity|]. apply Forall_singleton.
    rewrite Hid. apply (event_finished _ _ j); [done|done|set_solver| |done].
    intros E. vm_compute in E. discriminate.
  - intros e2 s Hs Hws. apply (safe_log (λ s, EvaluationJobService.unpersisted_log repr
      (job_id (deref (w_repo s) x)) e e2)).
Qed.

Lemma safe_or_fail x id body w :
  world_inv w → tracks (w_repo w) x id → safe any body w →
  safe any (EvaluationJobService.or_fail repr x id body) w.
Proof.
  intros Hw Hx Hb. apply safe_except; [done..|]. intros e s Hs Hws.
  pose proof (le_tracks _ _ _ _ Hw Hws Hx) as Hx'.
  apply safe_seq; [done|by eapply safe_record_failure|]. intros s1 Hs1 Hws1.
  apply safe_seq; [done|apply (safe_log (λ _, failed_log id e))|]. done.
Qed.

Lemma safe_succeed id v w :
  world_inv w → valid_result v = true → safe any (EvaluationJobService.succeed id v) w.
Proof.
  intros Hw Hv. unfold EvaluationJobService.succeed.
  eapply safe_bind; [done|by apply safe_set_succeeded|].
  intros y s1 Hs1 Hws1 [Hy Hfin]. apply safe_quiet. intros s2 Hs2 Hws2. split; [|done].
  pose proof (le_tracks _ _ _ _ Hs1 Hws2 Hy) as Hy2.
  destruct (tracked_job s2 y id Hs2 Hy2) as (j & Hj & Hsame & _ & Hid).
  destruct Hfin as (j1 & Hj1 & Hterm & Hst & Hres).
  pose proof (evolves_terminal _ _ _ _ (le_evolves _ _ Hws2) Hj1 Hterm) as Hj2.
  assert (j1 = j) as -> by congruence.
  quiet_step.
  - eexists. split; [reflexivity|]. apply Forall_singleton.
    apply (event_finished _ _ j); [done|done|set_solver|by eauto|].
    intros E. vm_compute in E. discriminate.
  - rewrite <- app_assoc. by eexists.
Qed.

Lemma safe_running_event x id w :
  world_inv w → tracks (w_repo w) x id →
  safe any (atomically (j ← EvaluationJobService.read x;
    audit_record ev_running (tenant_id j) (project_id j) (uuid_str id) [])) w.
Proof.
  intros Hw Hx. apply safe_quiet. intros s Hs Hws. split; [|done].
  destruct (tracked_job s x id Hs (le_tracks _ _ _ _ Hw Hws Hx)) as (j & Hj & Hsame & _ & Hid).
  quiet_step. eexists. split; [reflexivity|]. apply Forall_singleton.
  apply (event_progress _ _ j); [done|done|set_solver].
Qed.

(** From reading the request to the end. *)
Lemma safe_evaluate x id w :
  world_inv w →
  safe any (request ← atomically (j ← EvaluationJobService.read x; mret (request j));
            v ← evaluator_score request;
            EvaluationJobService.succeed id v) w.
Proof.
  intros Hw. apply (safe_bind (λ _ _, True)); [done| |].
  { apply safe_quiet. intros s Hs _. split; [quiet_step|done]. }
  intros q s Hs _ _. eapply safe_bind; [done| |].
  - apply score_along; [apply _|apply scorer_quiet|done].
  - intros v s1 Hs1 _ Hv. by apply safe_succeed.
Qed.

Lemma safe_process id w : world_inv w → safe any (EvaluationJobService.process repr id) w.
Proof.
  intros Hw. unfold EvaluationJobService.process.
  eapply safe_bind; [done|apply safe_get|]. intros x s Hs Hws Hx.
  apply safe_seq; [done| |].
  { apply safe_quiet. intros s1 Hs1 _. split; [quiet_step|done]. }
  intros s1 Hs1 Hws1. pose proof (le_tracks _ _ _ _ Hs Hws1 Hx) as Hx1.
  apply safe_or_fail; [done..|]. apply safe_seq; [done|apply safe_set_running|].
  intros s2 Hs2 Hws2. pose proof (le_tracks _ _ _ _ Hs1 Hws2 Hx1) as Hx2.
  apply safe_seq; [done|by apply safe_running_event|]. intros s3 Hs3 _. by apply safe_evaluate.
Qed.

Lemma safe_process_claimed x id w :
  world_inv w → tracks (w_repo w) x id →
  safe any (EvaluationJobService.process_claimed repr x) w.
Proof.
  intros Hw Hx. unfold EvaluationJobService.process_claimed.
  apply (safe_bind (λ i _, i = id)); [done| |].
  { apply safe_quiet. intros s Hs Hws.
    destruct (tracked_job s x id Hs (le_tracks _ _ _ _ Hw Hws Hx)) as (j & _ & _ & _ & Hid).
    split; [quiet_step|]. intros s' Hs' _. exact Hid. }
  intros i s Hs Hws ->. pose proof (le_tracks _ _ _ _ Hw Hws Hx) as Hx'.
  apply safe_or_fail; [done..|]. apply safe_seq; [done| |intros; by apply safe_evaluate].
  apply safe_quiet. intros s1 Hs1 Hws1. split; [|done].
  destruct (tracked_job s1 x id Hs1 (le_tracks _ _ _ _ Hs Hws1 Hx')) as (j & Hj & Hsame & _ & Hid).
  quiet_step. eexists. split; [reflexivity|]. apply Forall_singleton. rewrite Hid.
  apply (event_progress _ _ j); [done|done|set_solver].
Qed.

(** Creating a job under the next identifier. *)
Lemma safe_submit_create request w :
  valid_request request = true →
  safe (okay (λ x s, ∃ id, tracks (w_repo s) x id))
    (atomically (EvaluationJobService.submit_create request)) w.
Proof.
  intros Hreq. apply along_atomically. intros s Hs _.
  unfold EvaluationJobService.submit_create, uuid4, wall_now, open_span, in_repo, zoom, modify, now,
    repo_part, mbind, M_bind; simpl.
  set (job := new_job _ request _ _).
  destruct (create job _) as [r [s' c']] eqn:E. simpl.
  pose proof (new_job_ok (uuids (w_env s) 0) request (w_clock s 0) (w_clock s 1) Hreq) as Hok.
  destruct (create_spec _ _ _ _ _ _ (inv_repo _ Hs) Hok eq_refl (inv_fresh _ Hs 0) E)
    as (Hi & Hle & HH).
  pose proof (repo_le_evolves _ _ Hle) as He. destruct Hs as [_ Hf Hd Ho Ha Hq].
  assert (∀ id, view (w_repo s) !! id = None → id ≠ uuids (w_env s) 0 → view s' !! id = None) as Hnew.
  { intros id Hn Hid.
    destruct HH as [(x & _ & _ & _ & ->)|(_ & _ & [->| ->])]; by rewrite ?lookup_insert_ne. }
  split_and!.
  - constructor; simpl; [done| | | | |].
    + intros n. apply Hnew; [apply Hf|]. intros E2. by apply Hd in E2.
    + intros m n E2. apply Hd in E2. by simplify_eq.
    + intros id Hid. destruct (Ho id Hid) as [Hn Hne]. split; [by apply Hnew|]. intros n. apply Hne.
    + eapply Forall_impl; [exact Ha|]. intros e. by apply event_ok_evolves.
    + eapply Forall_impl; [exact Hq|]. intros e. by apply entry_ok_evolves.
  - constructor; simpl; [done|done|done|by eexists|]. intros n. by eexists.
  - intros w' Hw' [Hle' _ _ _ _]. destruct HH as [(x & -> & _ & Ht & _)|(_ & [? ->] & _)]; [|done].
    eexists. by apply (repo_le_tracks s').
Qed.

Lemma safe_submit request w :
  world_inv w → valid_request request = true →
  safe any (EvaluationJobService.submit request) w.
Proof.
  intros Hw Hreq. unfold EvaluationJobService.submit.
  eapply safe_bind; [done|by apply safe_submit_create|]. intros x s Hs Hws [id Hx].
  apply safe_seq; [done| |done]. apply safe_quiet. intros s1 Hs1 Hws1. split; [|done].
  destruct (tracked_job s1 x id Hs1 (le_tracks _ _ _ _ Hs Hws1 Hx)) as (j & Hj & Hsame & _ & Hid).
  constructor; simpl; try done.
  - eexists. split; [reflexivity|]. apply Forall_singleton. rewrite Hid.
    apply (event_progress _ _ j); [done|done|set_solver].
  - intros Hq. apply Forall_app. split; [done|]. apply Forall_singleton. rewrite Hid. by exists j.
  - by eexists.
Qed.

(** ** The runner and the worker *)

Lemma safe_finally {A} (c : co W A) fin w :
  safe any c w → (∀ r s, world_inv s → quiet s (fin r s)) → safe any (co_finally c fin) w.
Proof.
  intros Hc Hf. apply along_finally; [apply _|done| |done]. intros r s Hs.
  apply quiet_ok; auto.
Qed.

Lemma safe_handle handler id w :
  world_inv w → (∀ id w, world_inv w → safe any (handler id) w) →
  safe any (Queue.handle handler id) w.
Proof.
  intros Hw Hh. unfold Queue.handle. apply safe_finally; [|intros r s Hs; quiet_step].
  apply safe_except; [done|by apply Hh|]. intros e s Hs _.
  apply (safe_log (λ _, Queue.handler_failed id e)).
Qed.

Lemma safe_runner_loop handler fuel : ∀ waiting w,
  world_inv w → (∀ id w, world_inv w → safe any (handler id) w) →
  safe any (Queue._run fuel handler waiting) w.
Proof.
  induction fuel as [|fuel IH]; intros waiting w Hw Hh; [done|]. cbn [Queue._run].
  apply (safe_bind (λ _ _, True)); [done| |].
  - apply safe_quiet. intros s Hs _. split; [|intros; by destruct (Queue.poll waiting s).1].
    unfold Queue.poll, gets, mbind, M_bind. case_match; [quiet_step|].
    destruct (_queue (w_queue s)) as [|x rest] eqn:Eq; [quiet_step|].
    constructor; simpl; try done; [by exists []; rewrite app_nil_r|]. rewrite Eq.
    by intros [_ ?]%Forall_cons.
  - intros t s Hs _ _. destruct t as [| |[id|]]; [done|by apply IH| |].
    + apply safe_seq; [done|by apply safe_handle|]. intros; by apply IH.
    + apply safe_seq; [done| |done]. apply safe_quiet. intros s1 Hs1 _. split; [quiet_step|done].
Qed.

Lemma safe_recover_stale stale w : world_inv w → safe any (Worker.recover_stale stale) w.
Proof.
  intros Hw. unfold Worker.recover_stale. apply (safe_bind (λ _ _, True)); [done| |].
  { apply safe_quiet. intros s1 Hs1 _. unfold Worker.stale_cutoff, wall_now, of_res, mbind, M_bind.
    destruct (timedelta_seconds stale) as [d|]; simpl; [destruct (datetime_add _ _)|];
      (split; [quiet_step|by repeat case_match]). }
  intros cutoff s1 Hs1 _ _. apply (safe_bind (λ _ _, True)); [done| |].
  { apply safe_repo. intros s2 c r s' c' Hs2 Hrun.
    destruct (recover_stale_running_spec _ _ _ _ _ _ Hs2 Hrun) as (Hi & Hle & HH).
    split_and!; [done|done| |by destruct r]. intros id Hn.
    destruct HH as [[_ HH]|(_ & _ & [->|HH])]; [|done|]; specialize (HH id); by rewrite Hn in HH. }
  intros n s2 Hs2 _ _. case_match; [done|].
  apply safe_quiet. intros s3 Hs3 _. split; [quiet_step|done].
Qed.

Lemma safe_claim w :
  safe (okay (λ y s, ∀ x, y = Some x → ∃ id, tracks (w_repo s) x id))
    (atomically (in_repo claim_next_queued) : co W (option ref)) w.
Proof.
  apply safe_repo. intros s2 c r s' c' Hs2 Hrun.
  destruct (claim_next_queued_spec _ _ _ _ _ Hs2 Hrun) as (Hi & Hle & HH).
  split_and!; [done|done| |].
  - assert (∀ id j t t' id', is_next (view s2) (held s2) id j → view s2 !! id' = None →
              <[id := claim_job t t' j]> (view s2) !! id' = None) as Hother.
    { intros id j t t' id' (Hj & _) Hn. rewrite lookup_insert_ne; [done|congruence]. }
    destruct HH as [(_ & -> & _)|[(x & id & j & t & t' & _ & Hj & _ & _ & ->)
      |(_ & _ & [->|(id & j & t & t' & Hj & ->)])]]; auto.
  - intros w' Hw' Hle'. destruct r as [y|e]; [|done]. simpl. intros x ->.
    destruct HH as [(? & _)|[HH|(_ & [? ?] & _)]]; [done| |done].
    destruct HH as (x' & id & j & t & t' & ? & _ & _ & Ht & _). simplify_eq.
    exists id. by apply (repo_le_tracks s').
Qed.

Lemma safe_worker_loop poll stale fuel : ∀ w,
  world_inv w → safe any (Worker.run_loop repr poll stale fuel) w.
Proof.
  induction fuel as [|fuel IH]; intros w Hw; [done|]. cbn [Worker.run_loop].
  apply (safe_bind (λ _ _, True)); [done| |].
  { apply safe_quiet. intros s Hs _. split; [quiet_step|done]. }
  intros stopping s Hs _ _. destruct stopping; [done|].
  apply safe_seq; [done|by apply safe_recover_stale|]. intros s1 Hs1 _.
  eapply safe_bind; [done|apply safe_claim|]. intros [x|] s2 Hs2 _ Hy.
  - destruct (Hy x eq_refl) as [id Hx].
    apply safe_seq; [done|by eapply safe_process_claimed|]. intros; by apply IH.
  - apply safe_seq; [done| |intros; by apply IH].
    apply safe_quiet. intros s3 Hs3 _. split; [quiet_step|done].
Qed.

(** ** The whole service *)

(** The tasks of the service: requests being submitted, jobs being processed, queue
    runners and workers, however far their loops are unfolded. *)
Inductive service_task : co W unit → Prop :=
| task_submit request :
    valid_request request = true →
    service_task (EvaluationJobService.submit request;; mret tt)
| task_process id : service_task (EvaluationJobService.process repr id)
| task_runner fuel : service_task (Queue.runner fuel (EvaluationJobService.process repr))
| task_worker poll stale fuel : service_task (Worker.task repr poll stale fuel).

Lemma service_task_safe c w : world_inv w → service_task c → safe any c w.
Proof.
  intros Hw. destruct 1 as [request Hreq|id|fuel|poll stale fuel].
  - apply safe_seq; [done|by apply safe_submit|done].
  - by apply safe_process.
  - apply safe_seq; [done| |done]. apply safe_finally; [|intros [[]|] s Hs; quiet_step].
    apply safe_runner_loop; [done|]. intros. by apply safe_process.
  - apply safe_seq; [done| |done]. apply safe_finally; [|intros [[]|] s Hs; quiet_step].
    apply safe_seq; [done| |].
    + apply safe_quiet. intros s Hs _. split; [quiet_step|done].
    + intros s Hs _. apply safe_finally; [|intros [[]|] s1 Hs1; quiet_step].
      by apply safe_worker_loop.
Qed.
End Safety.

(** A process alone on its storage. *)
Notation world_inv := (world_inv_among (others := λ _, False)).

(** C1: however the scheduler interleaves any number of submissions, processing tasks,
    queue runners and workers, and whatever storage failures and timeouts occur: every
    stored job stays well formed, no job is lost, each only moves along its life, the
    audit trail only grows and every event in it is true of the stored job it names
    (a success event carries the stored score), and the queue names stored jobs only. *)
Theorem service_safety {R} `{RL : RepositoryLaws R} `{SL : ScorerLaws R}
    (repr : exn → pystr) (ts ts' : list (co (World R) unit)) (w w' : World R) :
  world_inv w → Forall (service_task repr) ts → rtc pool_step (ts, w) (ts', w') →
  store_ok (view (w_repo w')) ∧ evolves (view (w_repo w)) (view (w_repo w'))
  ∧ events (w_audit w) `prefix_of` events (w_audit w')
  ∧ Forall (event_ok (view (w_repo w'))) (events (w_audit w'))
  ∧ Forall (entry_ok (view (w_repo w'))) (_queue (w_queue w')).
Proof.
  intros Hw Hts Hrun.
  destruct (pool_along world_inv world_le any ts w ts' w' Hrun Hw) as (Hw' & Hle & _).
  { eapply Forall_impl; [exact Hts|]. intros c. by apply service_task_safe. }
  pose proof Hw' as [Hi _ _ _ Ha Hq]. split_and!; [by apply repo_inv_ok|by apply le_evolves| |done..].
  by destruct Hle.
Qed.

(** A fresh process over the in-memory repository, in which nothing times out. *)
Definition sample_world : World InMemoryJobRepository :=
  init_world Memory.init (λ n, Z.of_nat n)
    (mkEnv N.of_nat (λ n, float_of (Z.of_nat n)) (λ n, float_of (Z.of_nat n)) (λ _ _, None))
    (mkMetrics ∅).

#[local] Instance sample_scorer : Scorer InMemoryJobRepository := mock_scorer (float_of 5).
#[local] Instance sample_scorer_laws : ScorerLaws InMemoryJobRepository := mock_scorer_laws (float_of 5).

Definition sample_repr (e : exn) : pystr := u"exception".

Lemma sample_world_inv : world_inv sample_world.
Proof.
  apply init_world_inv.
  - constructor; simpl; [apply NoDup_nil_2..|]. intros id l Hin. by apply not_elem_of_nil in Hin.
  - intros n. apply lookup_empty.
  - intros m n. simpl. lia.
  - done.
Qed.

Definition sample_tasks : list (co (World InMemoryJobRepository) unit) :=
  [EvaluationJobService.submit sample_request;; mret tt;
   Queue.runner 3 (EvaluationJobService.process sample_repr)].

Lemma sample_tasks_service : Forall (service_task sample_repr) sample_tasks.
Proof.
  repeat apply Forall_cons_2; [by apply task_submit|apply task_runner|constructor].
Qed.

(** The runner looks at the empty queue, the submission stores and announces its job, and
    the runner processes it to the end. *)
Lemma service_safety_witness :
  let '(ts', w') := schedule ([1; 0; 0] ++ replicate 20 1) (sample_tasks, sample_world) in
  status <$> (map_to_list (view (w_repo w'))).*2 = [SUCCEEDED]
  ∧ event_type <$> events (w_audit w') = [ev_queued; ev_running; ev_succeeded]
  ∧ store_ok (view (w_repo w')) ∧ Forall (event_ok (view (w_repo w'))) (events (w_audit w')).
Proof.
  destruct (schedule _ _) as [ts' w'] eqn:E.
  assert (w' = (schedule ([1; 0; 0] ++ replicate 20 1) (sample_tasks, sample_world)).2) as Hw'
    by (by rewrite E).
  split; [rewrite Hw'; vm_compute; reflexivity|].
  split; [rewrite Hw'; vm_compute; reflexivity|].
  pose proof (schedule_steps ([1; 0; 0] ++ replicate 20 1) (sample_tasks, sample_world)) as Hrun.
  rewrite E in Hrun.
  destruct (service_safety sample_repr _ _ _ _ sample_world_inv sample_tasks_service Hrun)
    as (? & _ & _ & ? & _).
  split; assumption.
Defined.
