(* ===== verification/DataSafety.v ===== *)
(** What telemetry carries of evaluation content ([docs/observability-data-safety.md]).  Over
    the in-memory repository, with the mock evaluator, nothing: two runs of the service whose
    jobs differ only in question, answer and the text of the rubric emit the same logs, spans
    and metrics, and audit events that differ at most in their metadata.  Over Postgres this
    fails: the text of a storage error is SQLAlchemy's, with the parameters of the statement,
    and the job service logs it ([storage_text_logged]). *)
From S2P Require Export Safety Postgres.

(** ** Runs that go in step *)

Section Lockstep.
Context {S : Type} (Rel : S → S → Prop).

Definition res_alike {A} (V : A → A → Prop) (r r' : res A) : Prop :=
  match r, r' with
  | Ok a, Ok a' => V a a'
  | Raise e, Raise e' => e = e'
  | _, _ => False
  end.

(** Two pieces of code that do alike from alike states. *)
Definition alike_code {A} (V : A → A → Prop) (m m' : M S A) : Prop :=
  ∀ s s', Rel s s' → res_alike V (m s).1 (m' s').1 ∧ Rel (m s).2 (m' s').2.

(** Two tasks that go in step, whatever alike states they find. *)
Fixpoint in_step {A} (V : A → A → Prop) (c c' : co S A) : Prop :=
  match c, c' with
  | Done r, Done r' => res_alike V r r'
  | Step next eff, Step next' eff' =>
      ∀ s s', Rel s s' → Rel (eff s) (eff' s') ∧ in_step V (next s) (next' s')
  | _, _ => False
  end.

Context {A B : Type} (V : A → A → Prop) (V' : B → B → Prop).

Lemma alike_bind (m m' : M S A) (k k' : A → M S B) :
  alike_code V m m' → (∀ a a', V a a' → alike_code V' (k a) (k' a')) →
  alike_code V' (m ≫= k) (m' ≫= k').
Proof.
  intros Hm Hk s s' Hs. unfold mbind, M_bind. destruct (Hm s s' Hs) as [Hr Hs1].
  destruct (m s) as [[a|e] s1], (m' s') as [[a'|e'] s1']; simpl in *; try done.
  by apply Hk.
Qed.

Lemma in_step_atomically (m m' : M S A) :
  alike_code V m m' → in_step V (atomically m) (atomically m').
Proof. intros Hm s s' Hs. destruct (Hm s s' Hs). by split. Qed.

Lemma in_step_bind (c c' : co S A) (k k' : A → co S B) :
  in_step V c c' → (∀ a a', V a a' → in_step V' (k a) (k' a')) → in_step V' (c ≫= k) (c' ≫= k').
Proof.
  unfold mbind, co_bind_inst. intros Hc Hk. revert c' Hc.
  induction c as [[a|e]|next IH eff]; intros [[a'|e']|next' eff'] Hc; simpl in *; try done; [by apply Hk|].
  intros s s' Hs. destruct (Hc s s' Hs). split; [done|]. by apply IH.
Qed.

Lemma in_step_except (c c' : co S A) (h h' : exn → co S A) :
  in_step V c c' → (∀ e, in_step V (h e) (h' e)) → in_step V (co_except c h) (co_except c' h').
Proof.
  intros Hc Hh. revert c' Hc.
  induction c as [[a|e]|next IH eff]; intros [[a'|e']|next' eff'] Hc; simpl in *; try done.
  - subst e'. by destruct (is_Exception e).
  - intros s s' Hs. destruct (Hc s s' Hs). split; [done|]. by apply IH.
Qed.

Lemma in_step_finally (c c' : co S A) (fin fin' : res A → S → S) :
  in_step V c c' →
  (∀ r r' s s', res_alike V r r' → Rel s s' → Rel (fin r s) (fin' r' s')) →
  in_step V (co_finally c fin) (co_finally c' fin').
Proof.
  intros Hc Hf. revert c' Hc.
  induction c as [r|next IH eff]; intros [r'|next' eff'] Hc; cbn [co_finally in_step] in *; try done.
  - intros s s' Hs. split; [by apply Hf|done].
  - intros s s' Hs. destruct (Hc s s' Hs). split; [done|]. by apply IH.
Qed.

Lemma in_step_cancel n (c c' : co S A) :
  in_step V c c' → in_step V (cancel_after n c) (cancel_after n c').
Proof.
  intros Hc. revert n c' Hc.
  induction c as [r|next IH eff]; intros n [r'|next' eff'] Hc; simpl in *; try (by destruct n).
  destruct n as [|n]; [done|]. intros s s' Hs. destruct (Hc s s' Hs). split; [done|]. by apply IH.
Qed.

Lemma in_step_raise e : in_step V (Done (Raise e)) (Done (Raise e)).
Proof. done. Qed.
End Lockstep.

(** Pools of tasks in step stay in step under the same schedule. *)
Lemma schedule_in_step {S} (Rel : S → S → Prop) ks : ∀ ts ts' s s',
  Forall2 (in_step Rel eq) ts ts' → Rel s s' →
  Forall2 (in_step Rel eq) (schedule ks (ts, s)).1 (schedule ks (ts', s')).1
  ∧ Rel (schedule ks (ts, s)).2 (schedule ks (ts', s')).2.
Proof.
  induction ks as [|k ks IH]; intros ts ts' s s' Hts Hs; [done|]. cbn [schedule fst snd].
  destruct (ts !! k) as [c|] eqn:Hk.
  - destruct (Forall2_lookup_l _ _ _ _ _ Hts Hk) as (c' & Hk' & Hc). rewrite Hk'.
    destruct c as [r|next eff], c' as [r'|next' eff']; try done; [by apply IH|].
    destruct (Hc s s' Hs) as [Hs1 Hn]. apply IH; [|done]. by apply Forall2_insert.
  - assert (ts' !! k = None) as ->; [|by apply IH].
    apply lookup_ge_None. rewrite <- (Forall2_length _ _ _ Hts). by apply lookup_ge_None.
Qed.

(** ** What may differ *)

Record alike_request (r r' : EvaluationRequest) : Prop := {
  alike_req_tenant : req_tenant_id r = req_tenant_id r';
  alike_req_project : req_project_id r = req_project_id r';
  alike_req_rubric : bool_decide (req_rubric r ≠ None) = bool_decide (req_rubric r' ≠ None);
}.

Record alike_job (j j' : EvaluationJob) : Prop := {
  alike_id : job_id j = job_id j';
  alike_tenant : tenant_id j = tenant_id j';
  alike_project : project_id j = project_id j';
  alike_status : status j = status j';
  alike_content : alike_request (request j) (request j');
  alike_error : error_message j = error_message j';
  alike_attempts : attempt_count j = attempt_count j';
  alike_max : max_attempts j = max_attempts j';
  alike_claimed : claimed_at j = claimed_at j';
  alike_created : created_at j = created_at j';
  alike_updated : updated_at j = updated_at j';
}.

Record alike_repo (s s' : InMemoryJobRepository) : Prop := {
  alike_jobs : _jobs s = _jobs s';
  alike_next : next_loc s = next_loc s';
  alike_heap l : option_Forall2 alike_job (heap s !! l) (heap s' !! l);
}.

(** The metadata of an event, which holds the score, is not emitted. *)
Record alike_event (e e' : AuditEvent) : Prop := {
  alike_type : event_type e = event_type e';
  alike_event_tenant : event_tenant_id e = event_tenant_id e';
  alike_event_project : event_project_id e = event_project_id e';
  alike_event_job : event_job_id e = event_job_id e';
  alike_event_time : event_created_at e = event_created_at e';
}.

Notation W := (World InMemoryJobRepository).

Record alike_world (w w' : W) : Prop := {
  alike_w_repo : alike_repo (w_repo w) (w_repo w');
  alike_w_clock : w_clock w = w_clock w';
  alike_w_env : w_env w = w_env w';
  alike_w_queue : w_queue w = w_queue w';
  alike_w_worker : w_worker w = w_worker w';
  alike_w_audit : Forall2 alike_event (events (w_audit w)) (events (w_audit w'));
  alike_w_metrics : w_metrics w = w_metrics w';
  alike_w_logs : w_logs w = w_logs w';
  alike_w_spans : w_spans w = w_spans w';
  alike_w_limiter : w_limiter w = w_limiter w';
  alike_w_sleeps : w_sleeps w = w_sleeps w';
}.

(** ** The repository *)

#[export] Instance alike_request_refl : Reflexive alike_request.
Proof. intros r. by constructor. Qed.
#[export] Instance alike_job_refl : Reflexive alike_job.
Proof. intros j. by constructor. Qed.

Definition alike_im (p p' : InMemoryJobRepository * clock) : Prop :=
  alike_repo p.1 p'.1 ∧ p.2 = p'.2.

Notation alike_method V m := (alike_code alike_im V m m).

Lemma alike_obj s s' l : alike_repo s s' → alike_job (obj s l) (obj s' l).
Proof.
  intros [_ _ Hh]. unfold obj. rewrite !lookup_total_alt. specialize (Hh l).
  destruct Hh as [j j' Hj|]; [exact Hj|reflexivity].
Qed.

Lemma alike_alloc j j' : alike_job j j' → alike_code alike_im eq (alloc j) (alloc j').
Proof.
  intros Hj [s c] [s' c'] [[Hjobs Hn Hh] Hc]. simpl in *. split; [done|]. split; [|done].
  simpl. constructor; simpl; [done|by rewrite Hn|]. intros l. rewrite <- Hn, !lookup_insert.
  by case_decide; [constructor|].
Qed.

Lemma alike_assign l f f' :
  (∀ j j', alike_job j j' → alike_job (f j) (f' j')) → alike_code alike_im eq (assign l f) (assign l f').
Proof.
  intros Hf [s c] [s' c'] [[Hjobs Hn Hh] Hc]. simpl in *. split; [done|]. split; [|done].
  simpl. constructor; simpl; [done|done|]. intros k. specialize (Hh k). rewrite !lookup_alter.
  case_decide; [subst k|done]. destruct Hh; simpl; constructor. by apply Hf.
Qed.

Lemma alike_set_item id l : alike_method eq (set_item id l).
Proof.
  intros [s c] [s' c'] [[Hjobs Hn Hh] Hc]. simpl in *. split; [done|]. split; [|done].
  constructor; simpl; [by rewrite Hjobs|done..].
Qed.

Lemma alike_now : alike_method eq now.
Proof. intros [s c] [s' c'] [Hs Hc]. simpl in *. by subst c'. Qed.

Lemma alike_get_state : alike_method alike_repo get_state.
Proof. intros [s c] [s' c'] [Hs Hc]. by simpl in *. Qed.

Lemma alike_mret {A} (V : A → A → Prop) (a a' : A) : V a a' → alike_code alike_im V (mret a) (mret a').
Proof. intros Ha p p' Hp. by split. Qed.
Lemma alike_raise {A} (V : A → A → Prop) e : alike_method V (raise e).
Proof. intros p p' Hp. by split. Qed.

Lemma sorted_by_alike {A} (f g : A → Z) l : (∀ x, f x = g x) → sorted_by f l = sorted_by g l.
Proof.
  intros Hfg. unfold sorted_by, sort_by. induction l as [|x l IH]; simpl; [done|]. rewrite IH.
  generalize (foldr (insert_by (λ x y, (g x <=? g y)%Z)) [] l). intros k.
  induction k as [|y k IHk]; simpl; [done|]. by rewrite !Hfg, IHk.
Qed.

(** The next piece of a method; assigned fields stay alike. *)
Ltac alike_fields := intros ? ? []; constructor; simpl; congruence.
Ltac alike_step :=
  first
    [ apply (alike_bind _ eq); [apply alike_assign; alike_fields|intros ? ? _]
    | apply (alike_bind _ eq); [apply alike_now|intros ? ? ->]
    | apply (alike_bind _ eq); [apply alike_set_item|intros ? ? _]
    | apply (alike_bind _ alike_repo); [apply alike_get_state|intros ? ? ?]
    | apply alike_mret; reflexivity
    | apply alike_raise ].
Ltac same_id l :=
  match goal with
  | H : alike_repo ?s _ |- context [job_id (obj ?s l)] => rewrite (alike_id _ _ (alike_obj _ _ l H))
  end.

Lemma alike_create j j' : alike_job j j' → alike_code alike_im eq (Memory.create j) (Memory.create j').
Proof.
  intros Hj. unfold Memory.create. apply (alike_bind _ eq); [by apply alike_alloc|]. intros l ? <-.
  rewrite (alike_id _ _ Hj). by repeat alike_step.
Qed.

Lemma alike_get id : alike_method eq (Memory.get id).
Proof.
  unfold Memory.get. alike_step. rewrite (alike_jobs _ _ H). destruct (dict_get id _); alike_step.
Qed.

Lemma alike_claim : alike_method eq Memory.claim_next_queued.
Proof.
  unfold Memory.claim_next_queued. alike_step. rename a into s, a' into s', H into Hs.
  assert (values s = values s') as -> by (unfold values; by rewrite (alike_jobs _ _ Hs)).
  erewrite (list_filter_iff _ (λ l, status (obj s' l) = QUEUED ∧ (attempt_count (obj s' l) < max_attempts (obj s' l))%Z)).
  2:{ intros l. destruct (alike_obj _ _ l Hs) as [_ _ _ -> _ _ -> -> _ _ _]. reflexivity. }
  rewrite (sorted_by_alike _ (λ l, created_at (obj s' l)))
    by (intros l; apply (alike_created _ _ (alike_obj _ _ l Hs))).
  destruct (sorted_by _ _) as [|l ls]; [alike_step|]. do 7 alike_step.
  same_id l. by repeat alike_step.
Qed.

Lemma alike_recover_one cutoff l : alike_method eq (Memory.recover_one cutoff l).
Proof.
  unfold Memory.recover_one. alike_step. rename a into s, a' into s', H into Hs.
  destruct (alike_obj _ _ l Hs) as [_ _ _ -> _ _ -> -> -> _ _].
  case_decide; [alike_step|]. destruct (claimed_at (obj s' l)) as [c|]; [|alike_step].
  destruct (c >=? cutoff)%Z; [alike_step|]. apply (alike_bind _ eq).
  { destruct (_ >=? _)%Z; alike_step; apply alike_assign; alike_fields. }
  intros _ _ _. do 4 alike_step.
  same_id l. by repeat alike_step.
Qed.

Lemma alike_recover cutoff : alike_method eq (Memory.recover_stale_running cutoff).
Proof.
  unfold Memory.recover_stale_running. alike_step. unfold values. rewrite (alike_jobs _ _ H).
  generalize 0%Z. generalize ((_jobs a').*2). intros ls. induction ls as [|l ls IH]; intros n; cbn [Memory.recover_loop].
  - alike_step.
  - apply (alike_bind _ eq); [apply alike_recover_one|]. intros k ? <-. apply IH.
Qed.

Lemma alike_transition id from target : alike_method eq (Memory._transition id from target).
Proof.
  unfold Memory._transition. alike_step. rewrite (alike_jobs _ _ H).
  destruct (dict_get id _) as [l|]; [|alike_step].
  destruct (alike_obj _ _ l H) as [_ _ _ -> _ _ _ _ _ _ _]. case_decide; by repeat alike_step.
Qed.

Lemma alike_set_succeeded id v v' :
  alike_code alike_im eq (Memory.set_succeeded id v) (Memory.set_succeeded id v').
Proof.
  unfold Memory.set_succeeded. apply (alike_bind _ eq); [apply alike_transition|]. intros l ? <-.
  by repeat alike_step.
Qed.

Lemma alike_set_failed id m : alike_method eq (Memory.set_failed id m).
Proof.
  unfold Memory.set_failed. apply (alike_bind _ eq); [apply alike_transition|]. intros l ? <-.
  by repeat alike_step.
Qed.

(** ** The pieces of a process *)

Lemma alike_in_repo {A} (V : A → A → Prop) m m' :
  alike_code alike_im V m m' → alike_code alike_world V (in_repo m) (in_repo m').
Proof.
  intros Hm w w' [Hr Hc]. unfold in_repo, zoom, repo_part.
  destruct (Hm (w_repo w, w_clock w) (w_repo w', w_clock w')) as [Hv [Hr1 Hc1]]; [by split|].
  destruct (m _) as [r [s c]], (m' _) as [r' [s' c']]. split; [exact Hv|]. by constructor.
Qed.

(** A piece that neither reads nor writes what may differ. *)
Ltac world_piece :=
  intros [] [] []; simpl in *; subst; split; [reflexivity | by constructor].

Lemma alike_world_ret {A} (V : A → A → Prop) (a a' : A) :
  V a a' → alike_code alike_world V (mret a) (mret a').
Proof. intros Ha w w' Hw. by split. Qed.

Lemma alike_read x :
  alike_code alike_world alike_job (EvaluationJobService.read x) (EvaluationJobService.read x).
Proof. intros w w' Hw. split; [|done]. apply alike_obj, Hw. Qed.

Lemma alike_log r : alike_code alike_world eq (log r) (log r).
Proof. world_piece. Qed.
Lemma alike_metric f : alike_code alike_world eq (metric f) (metric f).
Proof. world_piece. Qed.
Lemma alike_open_span x : alike_code alike_world eq (open_span x) (open_span x).
Proof. world_piece. Qed.
Lemma alike_uuid4 : alike_code alike_world eq uuid4 uuid4.
Proof. world_piece. Qed.
Lemma alike_wall_now : alike_code alike_world eq wall_now wall_now.
Proof. world_piece. Qed.
Lemma alike_perf_counter : alike_code alike_world eq perf_counter perf_counter.
Proof. world_piece. Qed.
Lemma alike_outlives t : alike_code alike_world eq (outlives t) (outlives t).
Proof. world_piece. Qed.
Lemma alike_on_queue f : alike_code alike_world eq (Queue.on_queue f) (Queue.on_queue f).
Proof. world_piece. Qed.
Lemma alike_on_worker f : alike_code alike_world eq (Worker.on_worker f) (Worker.on_worker f).
Proof. world_piece. Qed.
Lemma alike_sleep t : alike_code alike_world eq (modify (add_sleep t)) (modify (add_sleep t)).
Proof. world_piece. Qed.
Lemma alike_gets {A} (f : W → A) :
  (∀ w w', alike_world w w' → f w = f w') → alike_code alike_world eq (gets f) (gets f).
Proof. intros Hf w w' Hw. split; [by apply Hf|done]. Qed.
Lemma alike_of_res {A} (V : A → A → Prop) r r' :
  res_alike V r r' → alike_code alike_world V (of_res r) (of_res r').
Proof. intros Hr w w' Hw. by split. Qed.

(** An audit event is emitted without its metadata. *)
Lemma alike_audit et tn pr jb md md' :
  alike_code alike_world eq (audit_record et tn pr jb md) (audit_record et tn pr jb md').
Proof.
  intros w w' [Hr Hc He Hq Hw Ha Hm Hl Hs Hli Hsl].
  unfold audit_record, zoom, audit_part, record, now, get_state, put_state, mbind, M_bind. simpl.
  rewrite Hc, Hl. split; [done|]. constructor; simpl; try done.
  apply Forall2_app; [done|]. by repeat constructor.
Qed.

(** The job an effect was given, by its fields that may not differ. *)
Ltac job_fields :=
  match goal with
  | H : alike_job ?j ?j' |- _ =>
      first
        [ rewrite (alike_id _ _ H) | rewrite (alike_tenant _ _ H) | rewrite (alike_project _ _ H) ]
  end.

Lemma alike_audit_job et j j' md md' :
  alike_job j j' →
  alike_code alike_world eq (EvaluationJobService.audit_job et j md) (EvaluationJobService.audit_job et j' md').
Proof. intros Hj. unfold EvaluationJobService.audit_job. repeat job_fields. apply alike_audit. Qed.

Create HintDb alike.
#[export] Hint Resolve alike_log alike_metric alike_open_span alike_uuid4 alike_wall_now alike_perf_counter
  alike_outlives alike_on_queue alike_on_worker alike_sleep alike_audit alike_audit_job alike_read
  alike_in_repo alike_create alike_get alike_claim alike_recover alike_transition alike_set_succeeded
  alike_set_failed alike_world_ret : alike.

(** Walk through a piece, or a task, statement by statement. *)
Ltac solve_alike :=
  repeat first
    [ solve [eauto with alike]
    | apply in_step_atomically
    | eapply in_step_bind; [|intros ? ? ?]
    | eapply alike_bind; [|intros ? ? ?]
    | progress subst
    | progress (repeat job_fields) ].

Lemma alike_submit_create r r' :
  alike_request r r' →
  alike_code alike_world eq (EvaluationJobService.submit_create r) (EvaluationJobService.submit_create r').
Proof.
  intros [Ht Hp Hr]. unfold EvaluationJobService.submit_create. rewrite Ht, Hp.
  eapply alike_bind; [apply alike_uuid4|intros id ? <-]. eapply alike_bind; [apply alike_wall_now|intros t ? <-].
  eapply alike_bind; [apply alike_wall_now|intros t' ? <-].
  eapply alike_bind; [apply alike_open_span|intros _ _ _].
  apply alike_in_repo, alike_create. by constructor.
Qed.

Lemma alike_submit_announce x :
  alike_code alike_world eq (EvaluationJobService.submit_announce x) (EvaluationJobService.submit_announce x).
Proof.
  unfold EvaluationJobService.submit_announce, Queue.enqueue, Queue.gauge_depth.
  eapply alike_bind; [apply alike_read|intros j j' Hj]. rewrite (alike_id _ _ Hj).
  eapply (alike_bind _ eq); [|intros _ _ _].
  { eapply alike_bind; [apply alike_on_queue|intros _ _ _].
    eapply (alike_bind _ eq); [apply alike_gets; by destruct 1|intros q ? <-]. apply alike_metric. }
  eapply alike_bind; [by apply alike_audit_job|intros _ _ _]. apply alike_metric.
Qed.

Lemma in_step_submit r r' :
  alike_request r r' →
  in_step alike_world eq (EvaluationJobService.submit r) (EvaluationJobService.submit r').
Proof.
  intros Hr. unfold EvaluationJobService.submit.
  eapply in_step_bind; [by apply in_step_atomically, alike_submit_create|intros x ? <-].
  eapply in_step_bind; [apply in_step_atomically, alike_submit_announce|intros _ _ _]. done.
Qed.

(** ** Scoring: alike requests have different scores, at the same pace *)

Notation any_value := (λ _ _ : EvaluationResult, True).

Lemma in_step_operation r r' :
  in_step alike_world any_value (Evaluator.operation r) (Evaluator.operation r').
Proof.
  unfold Evaluator.operation, asyncio_sleep.
  eapply in_step_bind; [apply in_step_atomically, alike_sleep|intros _ _ _].
  apply in_step_atomically, alike_of_res.
  destruct (score_mock_response_valid r) as (v & -> & _), (score_mock_response_valid r') as (v' & -> & _). done.
Qed.

Lemma in_step_with_timeout {A} (V : A → A → Prop) (c c' : co W A) timeout :
  in_step alike_world V c c' → in_step alike_world V (with_timeout c timeout) (with_timeout c' timeout).
Proof.
  intros Hc. unfold with_timeout.
  eapply in_step_bind; [apply in_step_atomically, alike_outlives|intros cut ? <-].
  destruct cut; [by apply in_step_cancel|done].
Qed.

Lemma in_step_retry {A} (V : A → A → Prop) (c c' : co W A) attempts initial :
  in_step alike_world V c c' →
  in_step alike_world V (retry_async asyncio_sleep c attempts initial)
    (retry_async asyncio_sleep c' attempts initial).
Proof.
  intros Hc. unfold retry_async.
  match goal with |- in_step _ _ (retry_loop _ _ _ _ ?k ?a ?l) _ => generalize k a l end.
  intros k. induction k as [|k IH]; intros a l; cbn [retry_loop]; [by destruct l|].
  apply in_step_except; [done|]. intros e.
  eapply (in_step_bind _ eq); [|intros _ _ _; apply IH].
  destruct (_ <? _)%Z; [apply in_step_atomically, alike_sleep|done].
Qed.

Lemma in_step_score timeout r r' :
  alike_request r r' →
  in_step alike_world any_value (Evaluator.score timeout r) (Evaluator.score timeout r').
Proof.
  intros [Ht Hp Hr]. unfold Evaluator.score.
  assert (Evaluator.scoring_span r = Evaluator.scoring_span r') as ->.
  { unfold Evaluator.scoring_span. by rewrite Ht, Hp, Hr. }
  eapply in_step_bind.
  { apply in_step_atomically. eapply alike_bind; [apply alike_open_span|intros _ _ _]. apply alike_perf_counter. }
  intros started ? <-. apply in_step_finally; [by apply in_step_retry, in_step_with_timeout, in_step_operation|].
  intros o o' w w' _ Hw.
  assert (alike_code alike_world eq (Evaluator.record_duration started) (Evaluator.record_duration started)) as Hd.
  { unfold Evaluator.record_duration. eapply alike_bind; [apply alike_perf_counter|intros t ? <-]. apply alike_metric. }
  by destruct (Hd w w' Hw).
Qed.

(** ** Processing *)

Section Tasks.
Context (timeout : float) (repr : exn → pystr).
#[local] Instance safe_scorer : Scorer InMemoryJobRepository := Evaluator.score timeout.

Lemma in_step_succeed id v v' :
  in_step alike_world eq (EvaluationJobService.succeed id v) (EvaluationJobService.succeed id v').
Proof.
  unfold EvaluationJobService.succeed.
  eapply in_step_bind; [apply in_step_atomically, alike_in_repo, alike_set_succeeded|intros x ? <-].
  apply in_step_atomically. eapply alike_bind; [apply alike_read|intros j j' Hj]. repeat job_fields.
  eapply alike_bind; [apply alike_audit|intros _ _ _]. eapply alike_bind; [apply alike_log|intros _ _ _].
  apply alike_metric.
Qed.

(** Reading the request, scoring it, storing the result. *)
Lemma in_step_evaluate x id :
  in_step alike_world eq
    (request ← atomically (j ← EvaluationJobService.read x; mret (request j));
     v ← evaluator_score request; EvaluationJobService.succeed id v)
    (request ← atomically (j ← EvaluationJobService.read x; mret (request j));
     v ← evaluator_score request; EvaluationJobService.succeed id v).
Proof.
  eapply (in_step_bind _ alike_request).
  { apply in_step_atomically. eapply alike_bind; [apply alike_read|intros j j' Hj].
    apply alike_world_ret, (alike_content _ _ Hj). }
  intros r r' Hr. eapply in_step_bind; [by apply in_step_score|]. intros v v' _. apply in_step_succeed.
Qed.

Lemma in_step_record_failure x message e :
  in_step alike_world eq (EvaluationJobService._record_failure repr x message e)
    (EvaluationJobService._record_failure repr x message e).
Proof.
  unfold EvaluationJobService._record_failure. apply in_step_except.
  - eapply (in_step_bind _ eq).
    { apply in_step_atomically. eapply alike_bind; [apply alike_read|intros j j' Hj]. job_fields.
      by apply alike_world_ret. }
    intros id ? <-. eapply in_step_bind; [apply in_step_atomically, alike_in_repo, alike_set_failed|intros _ _ _].
    apply in_step_atomically. eapply alike_bind; [apply alike_read|intros j j' Hj].
    eapply alike_bind; [by apply alike_audit_job|intros _ _ _]. apply alike_metric.
  - intros e2. apply in_step_atomically. eapply alike_bind; [apply alike_read|intros j j' Hj].
    job_fields. apply alike_log.
Qed.

Lemma in_step_or_fail x id body body' :
  in_step alike_world eq body body' →
  in_step alike_world eq (EvaluationJobService.or_fail repr x id body)
    (EvaluationJobService.or_fail repr x id body').
Proof.
  intros Hb. unfold EvaluationJobService.or_fail. apply in_step_except; [done|]. intros e.
  eapply in_step_bind; [apply in_step_record_failure|intros _ _ _].
  eapply in_step_bind; [apply in_step_atomically, alike_log|intros _ _ _]. done.
Qed.

Lemma in_step_process id :
  in_step alike_world eq (EvaluationJobService.process repr id) (EvaluationJobService.process repr id).
Proof.
  unfold EvaluationJobService.process, EvaluationJobService.get.
  eapply in_step_bind; [apply in_step_atomically, alike_in_repo, alike_get|intros x ? <-].
  eapply (in_step_bind _ eq); [|intros _ _ _].
  { apply in_step_atomically. eapply alike_bind; [apply alike_read|intros j j' Hj]. repeat job_fields.
    apply alike_open_span. }
  apply in_step_or_fail. eapply in_step_bind; [apply in_step_atomically, alike_in_repo, alike_transition|intros _ _ _].
  eapply (in_step_bind _ eq); [|intros _ _ _; apply in_step_evaluate].
  apply in_step_atomically. eapply alike_bind; [apply alike_read|intros j j' Hj]. repeat job_fields.
  apply alike_audit.
Qed.

Lemma in_step_process_claimed x :
  in_step alike_world eq (EvaluationJobService.process_claimed repr x) (EvaluationJobService.process_claimed repr x).
Proof.
  unfold EvaluationJobService.process_claimed. eapply (in_step_bind _ eq).
  { apply in_step_atomically. eapply alike_bind; [apply alike_read|intros j j' Hj]. repeat job_fields.
    eapply alike_bind; [apply alike_open_span|intros _ _ _]. by apply alike_world_ret. }
  intros id ? <-. apply in_step_or_fail. eapply (in_step_bind _ eq); [|intros _ _ _; apply in_step_evaluate].
  apply in_step_atomically. eapply alike_bind; [apply alike_read|intros j j' Hj]. by apply alike_audit_job.
Qed.

(** ** The runner and the worker *)

Lemma in_step_piece {A} (c : co W A) (m : M W unit) V :
  alike_code alike_world eq m m → in_step alike_world V c c →
  in_step alike_world V (co_finally c (λ _ w, (m w).2)) (co_finally c (λ _ w, (m w).2)).
Proof.
  intros Hm Hc. apply in_step_finally; [done|]. intros r r' w w' _ Hw. by destruct (Hm w w' Hw).
Qed.

Lemma alike_task_done : alike_code alike_world eq Queue.task_done Queue.task_done.
Proof.
  unfold Queue.task_done, Queue.gauge_depth. eapply alike_bind; [apply alike_on_queue|intros _ _ _].
  eapply (alike_bind _ eq); [apply alike_gets; by destruct 1|intros q ? <-]. apply alike_metric.
Qed.

Lemma alike_poll b : alike_code alike_world eq (Queue.poll b) (Queue.poll b).
Proof.
  unfold Queue.poll. eapply (alike_bind _ eq); [apply alike_gets; by destruct 1|intros q ? <-].
  destruct (negb b && _stopping q); [by apply alike_world_ret|].
  destruct (_queue q) as [|x rest]; [by apply alike_world_ret|].
  eapply alike_bind; [apply alike_on_queue|intros _ _ _]. by apply alike_world_ret.
Qed.

Lemma in_step_run_queue fuel : ∀ b,
  in_step alike_world eq (Queue._run fuel (EvaluationJobService.process repr) b)
    (Queue._run fuel (EvaluationJobService.process repr) b).
Proof.
  induction fuel as [|fuel IH]; intros b; [done|]. cbn [Queue._run].
  eapply in_step_bind; [apply in_step_atomically, alike_poll|intros t ? <-].
  destruct t as [| |[id|]]; [done|apply IH| |].
  - eapply (in_step_bind _ eq); [|intros _ _ _; apply IH]. unfold Queue.handle.
    apply in_step_piece; [apply alike_task_done|].
    apply in_step_except; [apply in_step_process|]. intros e. apply in_step_atomically, alike_log.
  - eapply in_step_bind; [apply in_step_atomically, alike_task_done|intros _ _ _]. done.
Qed.

(** A clean-up at the end of a task, which looks only at how the task ended. *)
Lemma in_step_when_ended (c : co W bool) (m : res bool → M W unit) :
  (∀ r, alike_code alike_world eq (m r) (m r)) → in_step alike_world eq c c →
  in_step alike_world eq (co_finally c (λ r w, if ended r then (m r w).2 else w))
    (co_finally c (λ r w, if ended r then (m r w).2 else w)).
Proof.
  intros Hm Hc. apply in_step_finally; [done|]. intros r r' w w' Hr Hw.
  assert (r' = r) as -> by (destruct r, r'; simpl in Hr; try done; by subst).
  destruct (ended r); [by destruct (Hm r w w' Hw)|done].
Qed.

Lemma in_step_runner fuel :
  in_step alike_world eq (Queue.runner fuel (EvaluationJobService.process repr))
    (Queue.runner fuel (EvaluationJobService.process repr)).
Proof.
  unfold Queue.runner, Queue.runner_at. eapply in_step_bind; [|intros ? ? _; done].
  apply (in_step_when_ended _ (λ r, Queue.on_queue (Queue.set_task (Some (TaskDone (failure r)))))).
  - intros r. apply alike_on_queue.
  - apply in_step_run_queue.
Qed.

Lemma in_step_recover_stale stale :
  in_step alike_world eq (Worker.recover_stale stale) (Worker.recover_stale stale).
Proof.
  assert (∀ A (r : res A), res_alike eq r r) as Hr by (by intros A []).
  unfold Worker.recover_stale, Worker.stale_cutoff. eapply (in_step_bind _ eq).
  { apply in_step_atomically. eapply alike_bind; [apply alike_wall_now|intros t ? <-].
    eapply (alike_bind _ eq); [by apply alike_of_res|intros d ? <-]. by apply alike_of_res. }
  intros cutoff ? <-. eapply in_step_bind; [apply in_step_atomically, alike_in_repo, alike_recover|intros n ? <-].
  destruct (n =? 0)%Z; [done|]. apply in_step_atomically.
  eapply alike_bind; [apply alike_metric|intros _ _ _]. apply alike_log.
Qed.

Lemma in_step_worker_loop poll stale fuel :
  in_step alike_world eq (Worker.run_loop repr poll stale fuel) (Worker.run_loop repr poll stale fuel).
Proof.
  induction fuel as [|fuel IH]; [done|]. cbn [Worker.run_loop].
  eapply (in_step_bind _ eq).
  { apply in_step_atomically, alike_gets. intros w w' Hw. by rewrite (alike_w_worker _ _ Hw). }
  intros stopping ? <-. destruct stopping; [done|].
  eapply in_step_bind; [apply in_step_recover_stale|intros _ _ _].
  eapply in_step_bind; [apply in_step_atomically, alike_in_repo, alike_claim|intros claimed ? <-].
  destruct claimed as [x|].
  - eapply in_step_bind; [apply in_step_process_claimed|intros _ _ _; apply IH].
  - eapply (in_step_bind _ eq); [apply in_step_atomically, alike_sleep|intros _ _ _; apply IH].
Qed.

Lemma in_step_worker poll stale fuel :
  in_step alike_world eq (Worker.task repr poll stale fuel) (Worker.task repr poll stale fuel).
Proof.
  unfold Worker.task, Worker.run. eapply in_step_bind; [|intros ? ? _; done].
  apply (in_step_when_ended _ (λ r, Worker.on_worker (λ k, mkWorker (Some (TaskDone (failure r))) (worker_stopping k))));
    [intros r; apply alike_on_worker|].
  eapply in_step_bind; [apply in_step_atomically, alike_log|intros _ _ _].
  apply (in_step_when_ended _ (λ r, log (log_info worker_logger (u"evaluation worker stopped") [])));
    [intros r; apply alike_log|apply in_step_worker_loop].
Qed.

(** ** The whole service *)

(** The tasks of the service, twice: only the content of what is submitted may differ. *)
Inductive alike_task : co W unit → co W unit → Prop :=
| alike_submission r r' :
    alike_request r r' →
    alike_task (EvaluationJobService.submit r;; mret tt) (EvaluationJobService.submit r';; mret tt)
| alike_processing id :
    alike_task (EvaluationJobService.process repr id) (EvaluationJobService.process repr id)
| alike_runner fuel :
    alike_task (Queue.runner fuel (EvaluationJobService.process repr))
      (Queue.runner fuel (EvaluationJobService.process repr))
| alike_worker poll stale fuel :
    alike_task (Worker.task repr poll stale fuel) (Worker.task repr poll stale fuel).

Lemma alike_task_in_step c c' : alike_task c c' → in_step alike_world eq c c'.
Proof.
  destruct 1 as [r r' Hr|id|fuel|poll stale fuel].
  - eapply in_step_bind; [by apply in_step_submit|]. by intros.
  - apply in_step_process.
  - apply in_step_runner.
  - apply in_step_worker.
Qed.

End Tasks.

(** Two submissions of different content, then the runner: six turns of the scheduler on
    the first task and the rest on the second. *)
Definition other_request : EvaluationRequest :=
  mkEvaluationRequest (req_tenant_id sample_request) (req_project_id sample_request)
    (u"Is this secret?") (u"Nobody may read this answer.")
    (match req_rubric sample_request with Some _ => Some (u"Be discreet.") | None => None end).


(** ** The text of a storage error *)

Definition stored_job : EvaluationJob := new_job 1%N sample_request 0%Z 0%Z.

(** A process whose database holds one job, and fails at round trip [k] with the text [text]. *)
Definition failing_database (k : nat) (text : pystr) : PostgresJobRepository :=
  mkPg {[ 1%N := _to_row stored_job ]} ∅ (λ n, if n =? k then Fails text else Fine).

Definition failing_world (k : nat) (text : pystr) : World PostgresJobRepository :=
  init_world (failing_database k text) (λ n, Z.of_nat n)
    (mkEnv N.of_nat (λ n, float_of (Z.of_nat n)) (λ n, float_of (Z.of_nat n)) (λ _ _, None))
    (mkMetrics ∅).

(** With the Postgres repository, whatever text the commit of [set_succeeded] fails with, and
    SQLAlchemy's holds the parameters of the UPDATE, the last record of [process] carries it. *)
Example storage_text_logged (text : pystr) :
  let _ := key_order in
  let w := (run (EvaluationJobService.process (Scorer0 := mock_scorer (float_of 5)) sample_repr 1%N)
              (failing_world 5 text)).2 in
  log_exc <$> last (w_logs w) = Some (Some (StorageExn text)).
Proof. intros p. vm_compute. reflexivity. Qed.
