(* ===== verification/Processing.v ===== *)
(** Processing one job on its own: the outcome of every branch of [process] and
    [process_claimed] with the mock evaluator, over any reliable repository. *)
From S2P Require Export Safety.

(** ** Weakest preconditions of a run *)

Definition wp {S A} (c : co S A) (Φ : res A → S → Prop) (s : S) : Prop :=
  Φ (run c s).1 (run c s).2.

Section Wp.
Context {S : Type}.

Lemma wp_bind {A B} (c : co S A) (k : A → co S B) Φ s :
  wp c (λ r s', match r with Ok a => wp (k a) Φ s' | Raise e => Φ (Raise e) s' end) s →
  wp (c ≫= k) Φ s.
Proof. unfold wp. rewrite run_bind. by destruct (run c s) as [[] ?]. Qed.

Lemma wp_except {A} (c : co S A) h Φ s :
  wp c (λ r s', match r with
                | Ok a => Φ (Ok a) s'
                | Raise e => if is_Exception e then wp (h e) Φ s' else Φ (Raise e) s'
                end) s →
  wp (co_except c h) Φ s.
Proof. unfold wp. rewrite run_except. destruct (run c s) as [[] ?]; simpl; [done|by case_match]. Qed.

Lemma wp_finally {A} (c : co S A) fin Φ s :
  wp c (λ r s', Φ r (fin r s')) s → wp (co_finally c fin) Φ s.
Proof. unfold wp. rewrite run_finally. by destruct (run c s). Qed.

Lemma wp_atomically {A} (m : M S A) (Φ : res A → S → Prop) s :
  Φ (m s).1 (m s).2 → wp (atomically m) Φ s.
Proof. unfold wp. by rewrite run_atomically. Qed.

(** A piece whose effect computes. *)
Lemma wp_piece {A} (m : M S A) (Φ : res A → S → Prop) s r s' :
  m s = (r, s') → Φ r s' → wp (atomically m) Φ s.
Proof. intros E H. apply wp_atomically. by rewrite E. Qed.

Lemma wp_run {A} (c : co S A) (Φ : res A → S → Prop) s :
  wp c Φ s → ∃ r s', run c s = (r, s') ∧ Φ r s'.
Proof. unfold wp. destruct (run c s) as [r s']. eauto. Qed.

Lemma wp_mono {A} (c : co S A) (Φ Ψ : res A → S → Prop) s :
  wp c Φ s → (∀ r s', Φ r s' → Ψ r s') → wp c Ψ s.
Proof. unfold wp. auto. Qed.
End Wp.
Arguments wp : simpl never.

(** What an audit event says, but for its owner and time. *)
Definition event_summary (e : AuditEvent) : pystr * pystr * list (pystr * json) :=
  (event_type e, event_job_id e, event_metadata e).

Section Processing.
Context {R : Type} `{RL : RepositoryLaws R} (timeout : float) (repr : exn → pystr).
Notation W := (World R).
#[local] Instance scorer : Scorer R := Evaluator.score timeout.

(** From [w0], the state has come to store [v] and recorded the events [evs]; [l] is
    what the environment says of the next timeouts. *)
Record reached (w0 : W) (l : nat → float → option nat) (v : store) (evs : list (pystr * pystr * list (pystr * json))) (w : W)
    : Prop := {
  at_inv : repo_inv (w_repo w);
  at_reliable : reliable (w_repo w);
  at_view : view (w_repo w) = v;
  at_events : ∃ new, events (w_audit w) = events (w_audit w0) ++ new
                     ∧ event_summary <$> new = evs;
  at_late : late (w_env w) = l;
  at_queue : w_queue w = w_queue w0;
  at_le : repo_le (w_repo w0) (w_repo w);
}.

Lemma reached_start w v :
  repo_inv (w_repo w) → reliable (w_repo w) → view (w_repo w) = v → reached w (late (w_env w)) v [] w.
Proof. intros. constructor; try done. exists []. by rewrite app_nil_r. Qed.

(** A repository operation on the whole state. *)
Lemma wp_repo {A} (m : M (R * clock) A) Φ w0 l v evs w :
  reached w0 l v evs w →
  (∀ s c r s' c', repo_inv s → reliable s → view s = v → (∀ x id, tracks (w_repo w) x id → tracks s x id) →
     m (s, c) = (r, (s', c')) →
     repo_inv s' ∧ repo_le s s' ∧ ∀ w', reached w0 l (view s') evs w' → w_repo w' = s' → Φ r w') →
  wp (atomically (in_repo m)) Φ w.
Proof.
  intros [Hi Hr Hv He Hl Hq Hk] Hm. apply wp_atomically. unfold in_repo, zoom, repo_part.
  destruct (m (w_repo w, w_clock w)) as [r [s' c']] eqn:E.
  destruct (Hm _ _ _ _ _ Hi Hr Hv ltac:(done) E) as (Hi' & Hle & HΦ). apply HΦ; [|done].
  constructor; simpl; try done; [by eapply repo_le_reliable|by etrans].
Qed.

(** ** Repository operations *)

Notation keeps w w' := (∀ x id, tracks (w_repo w) x id → tracks (w_repo w') x id).

Lemma le_keeps (w w' : W) :
  repo_inv (w_repo w) → repo_le (w_repo w) (w_repo w') → keeps w w'.
Proof. intros Hi Hle x id. by apply repo_le_tracks. Qed.

Lemma wp_get id Φ w0 l v evs w :
  reached w0 l v evs w →
  (∀ x w' j, v !! id = Some j → reached w0 l v evs w' → tracks (w_repo w') x id → Φ (Ok x) w') →
  (∀ w', v !! id = None → reached w0 l v evs w' → Φ (Raise NotFound) w') →
  wp (EvaluationJobService.get id) Φ w.
Proof.
  intros Hw Hsome Hnone. apply (wp_repo _ _ _ _ _ _ _ Hw). intros s c r s' c' Hi Hr Hv _ Hrun.
  destruct (get_spec _ _ _ _ _ _ Hi Hrun) as (Hi' & Hle & Hv' & Hres).
  split_and!; [done..|]. intros w' Hw' Hs'. rewrite Hv', Hv in *.
  destruct Hres as [Hres|[? _]]; [|done]. destruct (v !! id) as [j|] eqn:Hj; [|subst r; auto].
  destruct Hres as (x & -> & _ & Ht). eapply Hsome; [done..|]. by rewrite Hs'.
Qed.

(** A status change on a stored job: done, or refused without a trace. *)
Lemma wp_change m from upd id j Φ w0 l v evs w :
  reached w0 l v evs w → v !! id = Some j →
  (∀ s c r s' c', repo_inv s → reliable s → m (s, c) = (r, (s', c')) →
     repo_inv s' ∧ repo_le s s' ∧ (∀ x, r = Ok x → tracks s' x id)
     ∧ transition_spec (view s) id from upd
         (match r with Ok x => Ok (deref s' x) | Raise e => Raise e end) (view s')) →
  (∀ x j' w', status j ∈ from → upd j j' → reached w0 l (<[id := j']> v) evs w' → keeps w w' →
     tracks (w_repo w') x id → Φ (Ok x) w') →
  (∀ w', status j ∉ from → reached w0 l v evs w' → keeps w w' → Φ (Raise InvalidStateTransition) w') →
  wp (atomically (in_repo m)) Φ w.
Proof.
  intros Hw Hj Hm Hdone Hrefused. apply (wp_repo _ _ _ _ _ _ _ Hw).
  intros s c r s' c' Hi Hr Hv Hts Hrun. destruct (Hm _ _ _ _ _ Hi Hr Hrun) as (Hi' & Hle & Ht & Htr).
  split_and!; [done..|]. intros w' Hw' Hs'.
  assert (keeps w w') as Hk by (intros x i Hx; rewrite Hs'; apply (repo_le_tracks s); auto).
  unfold transition_spec in Htr. rewrite Hv, Hj in Htr. case_decide as Hst.
  - destruct Htr as (j' & Hu & Hr' & Hv'). destruct r as [x|]; simplify_eq.
    rewrite Hv' in Hw'. eapply Hdone; [done..|]. by apply Ht.
  - destruct Htr as [Hr' Hv']. destruct r; simplify_eq. rewrite Hv' in Hw'. by apply Hrefused.
Qed.

(** ** Pieces outside the repository *)

Lemma reached_quiet w0 l v evs w w' new ev :
  reached w0 l v evs w → w_repo w' = w_repo w → late (w_env w') = late (w_env w) →
  w_queue w' = w_queue w → events (w_audit w') = events (w_audit w) ++ new →
  event_summary <$> new = ev → reached w0 l v (evs ++ ev) w'.
Proof.
  intros [Hi Hr Hv (old & He & Hs) Hl Hq Hk] Hrepo Hlate Hqueue Hev <-.
  constructor; rewrite ?Hrepo, ?Hlate, ?Hqueue; try done.
  exists (old ++ new). by rewrite Hev, He, fmap_app, Hs, app_assoc.
Qed.

(** A piece that records nothing. *)
Lemma reached_silent w0 l v evs w w' :
  reached w0 l v evs w → w_repo w' = w_repo w → late (w_env w') = late (w_env w) →
  w_queue w' = w_queue w → events (w_audit w') = events (w_audit w) → reached w0 l v evs w'.
Proof.
  intros [Hi Hr Hv He Hl Hq Hk] Hrepo Hlate Hqueue Hev.
  by constructor; rewrite ?Hrepo, ?Hlate, ?Hqueue, ?Hev.
Qed.

Lemma read_identity w0 l v evs w x id j :
  reached w0 l v evs w → tracks (w_repo w) x id → v !! id = Some j →
  same_identity (deref (w_repo w) x) j ∧ job_id (deref (w_repo w) x) = id.
Proof.
  intros [Hi _ Hv _ _ _ _] Hx Hj. destruct (tracks_deref _ _ _ Hi Hx) as (j' & Hj' & Hid).
  destruct (repo_inv_ok _ Hi _ _ Hj') as [Hjid _]. rewrite Hv, Hj in Hj'.
  assert (j' = j) as -> by congruence. split; [done|]. by destruct Hid as [-> _].
Qed.

(** The failure path: the job is marked failed unless it is already finished. *)
Definition fails_into (id : UUID) (v : store) (v' : store) (ev : list (pystr * pystr * list (pystr * json))) : Prop :=
  ∃ j, v !! id = Some j ∧
    ((terminal j ∧ v' = v ∧ ev = [])
     ∨ (¬ terminal j ∧ (∃ j', failed failure_message j j' ∧ v' = <[id := j']> v)
        ∧ ev = [(ev_failed, uuid_str id, [])])).

Lemma wp_record_failure x id e j Φ w0 l v evs w :
  reached w0 l v evs w → tracks (w_repo w) x id → v !! id = Some j →
  (∀ w' v' ev, fails_into id v v' ev → reached w0 l v' (evs ++ ev) w' → Φ (Ok tt) w') →
  wp (EvaluationJobService._record_failure repr x failure_message e) Φ w.
Proof.
  intros Hw Hx Hj HΦ. apply wp_except, wp_bind. eapply wp_piece; [reflexivity|].
  destruct (read_identity _ _ _ _ _ _ _ _ Hw Hx Hj) as [_ ->].
  apply wp_bind. eapply (wp_change _ [QUEUED; RUNNING] (failed failure_message)); [done|done| | |].
  - intros s c r s' c' Hi Hr Hrun.
    destruct (set_failed_spec _ _ _ _ _ _ _ Hi Hrun) as (? & ? & ? & [?|[? _]]); [by split_and!|done].
  - intros y j' w' Hst Hu Hw' Hk _. eapply wp_piece; [reflexivity|].
    assert (same_identity j j') as Hsame by (by destruct Hu as (c & t & _ & ->)).
    pose proof (read_identity _ _ _ _ _ _ _ j' Hw' (Hk _ _ Hx) (lookup_insert_eq _ _ _)) as [_ Hid].
    apply (HΦ _ (<[id := j']> v) [(ev_failed, uuid_str id, [])]).
    + exists j. split; [done|]. right. split_and!; [|by eauto|done].
      intros [Ht|Ht]; rewrite Ht in Hst; set_solver.
    + eapply reached_quiet; [exact Hw'|reflexivity..|]. unfold event_summary; simpl. by rewrite Hid.
  - intros w' Hst Hw' Hk. cbn [is_Exception]. eapply wp_piece; [reflexivity|]. apply (HΦ _ v []).
    + exists j. split; [done|]. left. split_and!; [|done..]. unfold terminal.
      destruct (status j); [set_solver|set_solver|by left|by right].
    + rewrite app_nil_r. by eapply reached_silent.
Qed.

(** ** Scoring *)

Definition scores (w : W) : bool := in_time timeout w 0 || in_time timeout w 1.

Lemma wp_score r Φ w0 v evs w :
  reached w0 (late (w_env w0)) v evs w →
  (∀ w' o l, o = (if scores w0 then score_mock_response r else Raise TimeoutExn) →
     reached w0 l v evs w' → (∀ x id, tracks (w_repo w) x id → tracks (w_repo w') x id) →
     Φ o w') →
  wp (evaluator_score r) Φ w.
Proof.
  intros Hw HΦ. unfold wp, evaluator_score, scorer.
  destruct (score_outcome timeout r w) as (w' & -> & _ & _ & _ & [Hr _ Hq _ Ha _ _ _ _]).
  pose proof Hw as [Hi Hrel Hv He Hl Hqu Hle].
  unfold repo_part in Hr. injection Hr as Hrepo _. simpl. apply (HΦ _ _ (late (w_env w'))).
  - unfold scores, in_time. by rewrite Hl.
  - constructor; rewrite ?Hrepo, ?Hq, ?Ha; done.
  - by rewrite Hrepo.
Qed.

(** ** From the request to the stored result *)

Definition succeeded_event (id : UUID) (res : EvaluationResult) :
    pystr * pystr * list (pystr * json) :=
  (ev_succeeded, uuid_str id, [(u"score", JInt (Models.score res))]).
Definition progress_event (etype : pystr) (id : UUID) : pystr * pystr * list (pystr * json) :=
  (etype, uuid_str id, []).

Lemma wp_evaluate x id j Φ w0 v evs w :
  reached w0 (late (w_env w0)) v evs w → tracks (w_repo w) x id → v !! id = Some j →
  (∀ w' res j' l, scores w0 = true → score_mock_response (request j) = Ok res →
     status j = RUNNING → succeeded res j j' →
     reached w0 l (<[id := j']> v) (evs ++ [succeeded_event id res]) w' → Φ (Ok tt) w') →
  (∀ w' l, scores w0 = false → reached w0 l v evs w' → keeps w w' → Φ (Raise TimeoutExn) w') →
  (∀ w' l, scores w0 = true → status j ≠ RUNNING → reached w0 l v evs w' → keeps w w' →
     Φ (Raise InvalidStateTransition) w') →
  wp (request ← atomically (j ← EvaluationJobService.read x; mret (request j));
      res ← evaluator_score request;
      EvaluationJobService.succeed id res) Φ w.
Proof.
  intros Hw Hx Hj Hok Htime Hrefused. apply wp_bind. eapply wp_piece; [reflexivity|].
  destruct (read_identity _ _ _ _ _ _ _ _ Hw Hx Hj) as [(_ & _ & _ & -> & _) _].
  apply wp_bind. eapply wp_score; [exact Hw|]. intros w1 o l1 Ho Hw1 Hk1.
  destruct (scores w0) eqn:Hs; subst o; [|by eapply Htime].
  destruct (score_mock_response_valid (request j)) as (res & Hres & Hvalid). rewrite Hres.
  apply wp_bind. eapply (wp_change _ [RUNNING] (succeeded res)); [done|done| | |].
  - intros s c r s' c' Hi Hr Hrun.
    destruct (set_succeeded_spec _ _ _ _ _ _ _ Hi Hvalid Hrun) as (? & ? & ? & [?|[? _]]); [by split_and!|done].
  - intros y j' w2 Hst Hu Hw2 Hk2 Hy. eapply wp_piece; [reflexivity|].
    apply list_elem_of_singleton in Hst. eapply Hok; [done..|].
    eapply reached_quiet; [exact Hw2|reflexivity..].
  - intros w2 Hst Hw2 Hk2. eapply Hrefused; [done| |done|by auto].
    intros E. apply Hst. by apply list_elem_of_singleton.
Qed.

(** What [or_fail] needs of its body: its success is final, its failure is followed by
    the failure path. *)
Definition or_fail_post (w0 : W) (id : UUID) (w : W) (Φ : res unit → W → Prop) (r : res unit)
    (w' : W) : Prop :=
  match r with
  | Ok _ => Φ (Ok tt) w'
  | Raise e =>
      is_Exception e = true ∧ ∃ l v evs j, v !! id = Some j ∧ reached w0 l v evs w' ∧ keeps w w'
      ∧ ∀ w2 v' ev, fails_into id v v' ev → reached w0 l v' (evs ++ ev) w2 → Φ (Raise e) w2
  end.

Lemma wp_or_fail x id body Φ w0 w :
  tracks (w_repo w) x id → wp body (or_fail_post w0 id w Φ) w →
  wp (EvaluationJobService.or_fail repr x id body) Φ w.
Proof.
  intros Hx Hbody. apply wp_except. eapply wp_mono; [exact Hbody|].
  intros [[]|e] w1; [done|]. intros (-> & l' & v1 & evs1 & j1 & Hj1 & Hw1 & Hk & HΦ).
  apply wp_bind. eapply wp_record_failure; [exact Hw1|by apply Hk|exact Hj1|].
  intros w2 v' ev Hfail Hw2. apply wp_bind. eapply wp_piece; [reflexivity|].
  apply (HΦ _ v' ev); [done|]. by eapply reached_silent.
Qed.

(** ** Outcomes *)

(** The repository is still sound, and these audit events were recorded in between. *)
Definition recorded (w w' : W) (evs : list (pystr * pystr * list (pystr * json))) : Prop :=
  repo_inv (w_repo w') ∧ repo_le (w_repo w) (w_repo w')
  ∧ ∃ new, events (w_audit w') = events (w_audit w) ++ new ∧ event_summary <$> new = evs.

Lemma reached_recorded w0 l v evs w : reached w0 l v evs w → recorded w0 w evs ∧ view (w_repo w) = v.
Proof. by intros [Hi _ Hv He _ _ Hle]. Qed.

(** The job [id], stored as [j], is marked failed by the service, unless it is
    finished already. *)
Definition ends_failed (id : UUID) (j : EvaluationJob) (v v' : store)
    (evs : list (pystr * pystr * list (pystr * json))) : Prop :=
  match status j with
  | SUCCEEDED | FAILED => v' = v ∧ evs = []
  | _ => (∃ j', failed failure_message j j' ∧ v' = <[id := j']> v)
         ∧ evs = [progress_event ev_failed id]
  end.

(** What scoring job [j] and storing the result amount to. *)
Definition evaluated (w : W) (id : UUID) (j : EvaluationJob) (v : store) (r : res unit)
    (v' : store) (evs : list (pystr * pystr * list (pystr * json))) : Prop :=
  if scores w && bool_decide (status j = RUNNING) then
    r = Ok tt ∧ ∃ v1 j', score_mock_response (request j) = Ok v1 ∧ succeeded v1 j j'
      ∧ v' = <[id := j']> v ∧ evs = [progress_event ev_running id; succeeded_event id v1]
  else
    r = Raise (if scores w then InvalidStateTransition else TimeoutExn)
    ∧ ∃ ev, ends_failed id j v v' ev ∧ evs = progress_event ev_running id :: ev.

Lemma fails_into_ends id j v v' ev :
  v !! id = Some j → fails_into id v v' ev → ends_failed id j v v' ev.
Proof.
  intros Hj (j1 & Hj1 & Hf). assert (j1 = j) as -> by congruence.
  unfold ends_failed, terminal in *.
  destruct Hf as [([->| ->] & -> & ->)|(Ht & Hf & ->)]; [done..|].
  destruct (status j); [done..|tauto|tauto].
Qed.

Lemma wp_body x id j v w w2 w4 Φ :
  reached w (late (w_env w)) v [progress_event ev_running id] w4 → keeps w2 w4 →
  tracks (w_repo w4) x id → v !! id = Some j →
  (∀ w' r evs, recorded w w' evs → evaluated w id j v r (view (w_repo w')) evs → Φ r w') →
  wp (request ← atomically (j ← EvaluationJobService.read x; mret (request j));
      res ← evaluator_score request;
      EvaluationJobService.succeed id res) (or_fail_post w id w2 Φ) w4.
Proof.
  intros Hw4 Hk4 Hx Hj HΦ.
  assert (∀ w5 e l, reached w l v [progress_event ev_running id] w5 → keeps w4 w5 →
      is_Exception e = true →
      e = (if scores w then InvalidStateTransition else TimeoutExn) →
      (scores w = true → status j ≠ RUNNING) → or_fail_post w id w2 Φ (Raise e) w5) as Hfail.
  { intros w5 e l Hw5 Hk5 Hexn He Hst. split; [exact Hexn|].
    exists l, v, [progress_event ev_running id], j. split_and!; [done|done|by auto|].
    intros w6 v' ev Hev [He6 Hv6]%reached_recorded. eapply HΦ; [exact He6|]. unfold evaluated.
    assert (scores w && bool_decide (status j = RUNNING) = false) as ->.
    { destruct (scores w); [|done]. simpl. apply bool_decide_eq_false_2. auto. }
    split; [by rewrite He|]. exists ev. split; [|done]. rewrite Hv6. by apply fails_into_ends. }
  eapply wp_evaluate; [exact Hw4|exact Hx|exact Hj| | |].
  - intros w5 res j2 l5 Hs Hres Hst Hj2 [He5 Hv5]%reached_recorded. eapply HΦ; [exact He5|].
    unfold evaluated. rewrite Hs, bool_decide_eq_true_2 by done. split; [done|]. by exists res, j2.
  - intros w5 l5 Hs Hw5 Hk5. apply (Hfail w5 _ l5); [done..|by rewrite Hs|]. congruence.
  - intros w5 l5 Hs Hne Hw5 Hk5. apply (Hfail w5 _ l5); [done..|by rewrite Hs|done].
Qed.

Definition process_spec (id : UUID) (w w' : W) (r : res unit) : Prop :=
  let v := view (w_repo w) in
  let v' := view (w_repo w') in
  ∃ evs, recorded w w' evs ∧
    match v !! id with
    | None => r = Raise NotFound ∧ v' = v ∧ evs = []
    | Some j =>
        if decide (status j = QUEUED)
        then ∃ t, let j1 := move_job RUNNING t j in evaluated w id j1 (<[id := j1]> v) r v' evs
        else r = Raise InvalidStateTransition ∧ ends_failed id j v v' evs
    end.

Lemma wp_process id w :
  repo_inv (w_repo w) → reliable (w_repo w) →
  wp (EvaluationJobService.process repr id) (λ r w', process_spec id w w' r) w.
Proof.
  intros Hi Hr. set (v := view (w_repo w)).
  pose proof (reached_start w v Hi Hr eq_refl) as Hw.
  apply wp_bind. eapply wp_get; [exact Hw| |].
  2:{ intros w' Hn [He Hv]%reached_recorded. exists []. split; [exact He|]. fold v. by rewrite Hn. }
  intros x w1 j Hj Hw1 Hx1. apply wp_bind. eapply wp_piece; [reflexivity|]. cbv beta iota.
  match goal with |- wp _ _ ?s => set (w2 := s) end.
  assert (reached w (late (w_env w)) v [] w2) as Hw2 by (by eapply reached_silent).
  assert (tracks (w_repo w2) x id) as Hx2 by done. clearbody w2.
  apply (wp_or_fail _ _ _ _ w); [exact Hx2|].
  apply wp_bind. eapply (wp_change _ [QUEUED] started); [exact Hw2|exact Hj| | |].
  { intros s c r s' c' Hsi Hsr Hrun.
    destruct (set_running_spec _ _ _ _ _ _ Hsi Hrun) as (? & ? & ? & [?|[? _]]); [by split_and!|done]. }
  2:{ intros w3 Hst Hw3 Hk3. split; [done|]. exists (late (w_env w)), v, [], j.
      split_and!; [done|done|done|]. intros w4 v' ev Hfail [He Hv]%reached_recorded.
      exists ev. split; [exact He|]. fold v. rewrite Hj, Hv.
      rewrite decide_False by (by rewrite <- list_elem_of_singleton).
      split; [done|]. by apply fails_into_ends. }
  intros y j1 w3 Hst%list_elem_of_singleton [t Hj1] Hw3 Hk3 _.
  apply wp_bind. eapply wp_piece; [reflexivity|].
  eapply (wp_body _ _ j1); [|exact Hk3|by apply Hk3|by apply lookup_insert_eq|].
  - change [progress_event ev_running id] with ([] ++ [progress_event ev_running id]).
    eapply reached_quiet; [exact Hw3|reflexivity..].
  - intros w' r evs Hrec Hev. exists evs. split; [done|]. fold v.
    rewrite Hj, decide_True by done. exists t. by rewrite <- Hj1.
Qed.

Lemma wp_process_claimed x id j w :
  repo_inv (w_repo w) → reliable (w_repo w) → tracks (w_repo w) x id →
  view (w_repo w) !! id = Some j →
  wp (EvaluationJobService.process_claimed repr x)
    (λ r w', ∃ evs, recorded w w' evs
             ∧ evaluated w id j (view (w_repo w)) r (view (w_repo w')) evs) w.
Proof.
  intros Hi Hr Hx Hj. pose proof (reached_start w _ Hi Hr eq_refl) as Hw.
  pose proof (read_identity _ _ _ _ _ _ _ _ Hw Hx Hj) as [_ Hid].
  apply wp_bind. eapply wp_piece; [reflexivity|]. cbv beta iota.
  match goal with |- wp _ _ ?s => set (w2 := s) end. rewrite Hid.
  apply (wp_or_fail _ _ _ _ w); [exact Hx|].
  apply wp_bind. eapply wp_piece; [reflexivity|].
  eapply (wp_body _ _ j); [|done|exact Hx|exact Hj|by eauto].
  change [progress_event ev_running id] with ([] ++ [progress_event ev_running id]).
  eapply reached_quiet; [exact Hw|reflexivity..|]. unfold event_summary; simpl. by rewrite Hid.
Qed.

(** C19: [process] on its own, branch by branch: an unknown job is reported and nothing
    changes; a queued job is started, scored and stored as succeeded with the score
    of its request, or, when both attempts run out of time, as failed, and the audit
    trail says so; any other job is refused, and a running one is marked failed. *)
Theorem process_outcome (id : UUID) (w : W) :
  repo_inv (w_repo w) → reliable (w_repo w) →
  ∃ r w', run (EvaluationJobService.process repr id) w = (r, w') ∧ process_spec id w w' r.
Proof.
  intros Hi Hr. pose proof (wp_process id w Hi Hr) as Hwp. unfold wp in Hwp.
  destruct (run (EvaluationJobService.process repr id) w) as [r w']. by exists r, w'.
Qed.

(** C20: [process_claimed] on its own: a job that is still running is scored and ends
    succeeded or failed; a job taken back meanwhile by a recovery is not overwritten
    with a result but marked failed, although it had been queued again; a finished
    job is left as it is. *)
Theorem process_claimed_outcome (x : ref) (id : UUID) (j : EvaluationJob) (w : W) :
  repo_inv (w_repo w) → reliable (w_repo w) → tracks (w_repo w) x id →
  view (w_repo w) !! id = Some j →
  ∃ r w' evs, run (EvaluationJobService.process_claimed repr x) w = (r, w')
              ∧ recorded w w' evs
              ∧ evaluated w id j (view (w_repo w)) r (view (w_repo w')) evs.
Proof.
  intros Hi Hr Hx Hj. destruct (wp_process_claimed x id j w Hi Hr Hx Hj) as (evs & Hrec & Hev).
  destruct (run (EvaluationJobService.process_claimed repr x) w) as [r w']. by exists r, w', evs.
Qed.
End Processing.

(** ** Concrete runs *)

(** One job submitted; [late] says what times out. *)
Definition submitted (cut : nat → float → option nat) : World InMemoryJobRepository :=
  let w := (run (EvaluationJobService.submit sample_request) sample_world).2 in
  set_env (mkEnv (uuids (w_env w)) (perf (w_env w)) (monotonic (w_env w)) cut) w.

#[local] Existing Instance sample_scorer.
#[local] Existing Instance sample_scorer_laws.

Lemma submitted_inv cut : repo_inv (w_repo (submitted cut)).
Proof.
  destruct (run_along world_inv world_le any (EvaluationJobService.submit sample_request) sample_world)
    as ([Hi _ _ _ _] & _); [|apply sample_world_inv|exact Hi].
  apply (safe_submit sample_request sample_world sample_world_inv). reflexivity.
Qed.

Definition never : nat → float → option nat := λ _ _, None.
Definition always : nat → float → option nat := λ _ _, Some 1.

Definition sample_process (cut : nat → float → option nat) :
    res unit * World InMemoryJobRepository :=
  run (EvaluationJobService.process sample_repr 0%N) (submitted cut).

(** The job is scored; with an evaluator that always times out it fails. *)
Lemma process_outcome_witness :
  process_spec (float_of 5) 0%N (submitted never) (sample_process never).2 (sample_process never).1
  ∧ process_spec (float_of 5) 0%N (submitted always) (sample_process always).2 (sample_process always).1
  ∧ status <$> view (w_repo (sample_process never).2) !! 0%N = Some SUCCEEDED
  ∧ status <$> view (w_repo (sample_process always).2) !! 0%N = Some FAILED.
Proof.
  destruct (process_outcome (float_of 5) sample_repr 0%N (submitted never) (submitted_inv _) I)
    as (r1 & w1 & Hrun1 & Hspec1).
  destruct (process_outcome (float_of 5) sample_repr 0%N (submitted always) (submitted_inv _) I)
    as (r2 & w2 & Hrun2 & Hspec2).
  assert (sample_process never = (r1, w1)) as E1 by exact Hrun1.
  assert (sample_process always = (r2, w2)) as E2 by exact Hrun2.
  split; [rewrite E1; exact Hspec1|]. split; [rewrite E2; exact Hspec2|].
  split; vm_compute; reflexivity.
Defined.

(** The job is claimed, then processed; or a recovery takes it back first. *)
Definition claimed : World InMemoryJobRepository :=
  (in_repo claim_next_queued (submitted never)).2.
Definition claimed_back : World InMemoryJobRepository :=
  (in_repo (recover_stale_running 1000%Z) claimed).2.

Definition sample_ref : @ref InMemoryJobRepository _ := 0%N.

Definition sample_claimed (w : World InMemoryJobRepository) : res unit * World InMemoryJobRepository :=
  run (EvaluationJobService.process_claimed sample_repr sample_ref) w.

Lemma claimed_inv : repo_inv (w_repo claimed) ∧ repo_inv (w_repo claimed_back).
Proof.
  assert (repo_inv (w_repo claimed)) as Hc.
  { unfold claimed, in_repo, zoom. destruct (claim_next_queued _) as [r [s c]] eqn:E.
    destruct (claim_next_queued_spec _ _ _ _ _ (submitted_inv never) E) as (Hi & _). exact Hi. }
  split; [exact Hc|]. unfold claimed_back, in_repo, zoom.
  destruct (recover_stale_running _ _) as [r [s c]] eqn:E.
  destruct (recover_stale_running_spec _ _ _ _ _ _ Hc E) as (Hi & _). exact Hi.
Qed.

Lemma process_claimed_outcome_witness :
  (∃ j evs, evaluated (float_of 5) claimed 0%N j (view (w_repo claimed)) (Ok tt)
              (view (w_repo (sample_claimed claimed).2)) evs ∧ status j = RUNNING)
  ∧ ∃ j evs, evaluated (float_of 5) claimed_back 0%N j (view (w_repo claimed_back))
              (Raise InvalidStateTransition) (view (w_repo (sample_claimed claimed_back).2)) evs
             ∧ status j = QUEUED
             ∧ status <$> view (w_repo (sample_claimed claimed_back).2) !! 0%N = Some FAILED.
Proof.
  destruct (view (w_repo claimed) !! 0%N) as [j1|] eqn:Hj1; [|vm_compute in Hj1; discriminate].
  destruct (view (w_repo claimed_back) !! 0%N) as [j2|] eqn:Hj2; [|vm_compute in Hj2; discriminate].
  assert (Some (status j1) = Some RUNNING) as Hs1.
  { change (Some (status j1)) with (status <$> Some j1). rewrite <- Hj1. vm_compute. reflexivity. }
  assert (Some (status j2) = Some QUEUED) as Hs2.
  { change (Some (status j2)) with (status <$> Some j2). rewrite <- Hj2. vm_compute. reflexivity. }
  destruct (process_claimed_outcome (float_of 5) sample_repr sample_ref 0%N j1 claimed (proj1 claimed_inv) I
              ltac:(vm_compute; reflexivity) Hj1) as (r1 & w1 & evs1 & Hrun1 & _ & H1).
  destruct (process_claimed_outcome (float_of 5) sample_repr sample_ref 0%N j2 claimed_back (proj2 claimed_inv) I
              ltac:(vm_compute; reflexivity) Hj2) as (r2 & w2 & evs2 & Hrun2 & _ & H2).
  assert (sample_claimed claimed = (r1, w1)) as E1 by exact Hrun1.
  assert (sample_claimed claimed_back = (r2, w2)) as E2 by exact Hrun2.
  assert (r1 = Ok tt) as -> by (change r1 with (r1, w1).1; rewrite <- E1; vm_compute; reflexivity).
  assert (r2 = Raise InvalidStateTransition) as ->
    by (change r2 with (r2, w2).1; rewrite <- E2; vm_compute; reflexivity).
  split.
  - exists j1, evs1. rewrite E1. split; [exact H1|congruence].
  - exists j2, evs2. split; [rewrite E2; exact H2|]. split; [congruence|]. vm_compute. reflexivity.
Defined.
