(* ===== verification/Api.v ===== *)
(** The evaluation routes ([app/api/routes.py]): tenant resolution, rate limiting and the
    four handlers, over any repository.

    A handler receives the parameters FastAPI has parsed and validated; the request
    context dependency runs before it. *)
From S2P Require Export Auth Processing.

(** What a handler sees of its request; [state.request_id] is set by the middleware and is
    a separate argument of the handlers. *)
Record HttpRequest := mkHttpRequest {
  http_method : pystr;
  x_request_id : option pystr;
  authorization : option pystr;
  request_client : ClientInfo;
}.

(** [BadRequestError("tenant_id is required.")]. *)
Definition tenant_required : exn :=
  AppExn (new_app_error BadRequestError (Some (u"tenant_id is required."))).

Definition tenant_from_context_or_request (context : option RequestContext)
    (tenant : option pystr) : res pystr :=
  match context, tenant with
  | Some context, _ => Ok (ctx_tenant_id context)
  | None, None => Raise tenant_required
  | None, Some tenant => Ok tenant
  end.

(** The declared constraints of the query parameters. *)
Definition valid_listing_query (tenant project : option pystr) (limit : Z) : bool :=
  opt_len_ok 1 128 tenant && opt_len_ok 1 128 project && (1 <=? limit)%Z && (limit <=? 100)%Z.

Section Routes.
Context {R : Type} `{JobRepository R}.
(** The settings, and the nesting of JSON the interpreter admits. *)
Context (st : Settings) (json_depth : nat).
Notation W := (World R).

(** The dependency [get_request_context] of a request. *)
Definition request_context (req : HttpRequest) : M W (option RequestContext) :=
  t ← wall_now;
  of_res (get_request_context json_depth st (authorization req) t).

Definition check_rate_limit (req : HttpRequest) (route_name : pystr) (limit : Z) (tenant : pystr)
    : M W unit :=
  if negb (rate_limit_enabled st) then mret tt
  else
    now ← time_monotonic;
    zoom w_limiter set_limiter
      (check now (client_key (request_client req) route_name (Some tenant)) limit).

(** What every handler does before it calls the service. *)
Definition enter (req : HttpRequest) (context : option RequestContext) (tenant : option pystr)
    (route_name : pystr) (limit : Z) : M W pystr :=
  tenant ← of_res (tenant_from_context_or_request context tenant);
  check_rate_limit req route_name limit tenant;;
  mret tenant.

Definition submit_evaluation (payload : SubmitEvaluationRequest) (req : HttpRequest)
    (request_id : pystr) : co W SubmitEvaluationResponse :=
  context ← atomically (request_context req);
  tenant ← atomically (enter req context (sub_tenant_id payload) (u"submit_evaluation")
                         (rate_limit_submit_per_minute st));
  request ← atomically (of_res (to_evaluation_request payload tenant));
  x ← EvaluationJobService.submit request;
  atomically (
    job ← EvaluationJobService.read x;
    mret (mkSubmitEvaluationResponse (job_id job) (status job) request_id)).

Definition list_evaluations (tenant project : option pystr) (limit : Z) (req : HttpRequest)
    (request_id : pystr) : co W EvaluationListResponse :=
  context ← atomically (request_context req);
  tenant ← atomically (enter req context tenant (u"list_evaluations")
                         (rate_limit_list_per_minute st));
  xs ← EvaluationJobService.list_recent tenant project limit;
  atomically (
    js ← gets (λ w, deref (w_repo w) <$> xs);
    summaries ← of_res (mapM to_summary js);
    mret (mkEvaluationListResponse summaries request_id)).

Definition get_evaluation_details (id : UUID) (tenant : option pystr) (req : HttpRequest)
    (request_id : pystr) : co W EvaluationJobDetailResponse :=
  context ← atomically (request_context req);
  tenant ← atomically (enter req context tenant (u"get_evaluation_details")
                         (rate_limit_read_per_minute st));
  x ← EvaluationJobService.get_for_tenant id tenant;
  atomically (job ← EvaluationJobService.read x; of_res (to_detail_response job request_id)).

Definition get_evaluation (id : UUID) (tenant : option pystr) (req : HttpRequest)
    (request_id : pystr) : co W EvaluationJobResponse :=
  context ← atomically (request_context req);
  tenant ← atomically (enter req context tenant (u"get_evaluation")
                         (rate_limit_read_per_minute st));
  x ← EvaluationJobService.get_for_tenant id tenant;
  atomically (job ← EvaluationJobService.read x; of_res (to_response job request_id)).
End Routes.

(** ** Admission, as a function of the state *)

Section Admission.
Context {R : Type} (st : Settings) (json_depth : nat).
Notation W := (World R).

Definition limit_reached (w : W) (req : HttpRequest) (route_name : pystr) (limit : Z) (tenant : pystr)
    : bool :=
  rate_limit_enabled st &&
  bool_decide (verdict_of (w_limiter w) (monotonic (w_env w) 0)
                 (client_key (request_client req) route_name (Some tenant)) limit = Refused).

Definition entrance (w : W) (req : HttpRequest) (context : option RequestContext)
    (tenant : option pystr) (route_name : pystr) (limit : Z) : res pystr :=
  t ← tenant_from_context_or_request context tenant;
  if limit_reached w req route_name limit t then Raise RateLimitExceeded else Ok t.

(** The tenant a request acts for, or why it is refused. *)
Definition admission (w : W) (req : HttpRequest) (tenant : option pystr) (route_name : pystr)
    (limit : Z) : res pystr :=
  context ← get_request_context json_depth st (authorization req) (w_clock w 0);
  entrance w req context tenant route_name limit.

(** What admitting a request may change: the clocks and the limiter. *)
Record entry_frame (w w' : W) : Prop := {
  entry_repo : w_repo w' = w_repo w;
  entry_uuids : uuids (w_env w') = uuids (w_env w);
  entry_queue : w_queue w' = w_queue w;
  entry_worker : w_worker w' = w_worker w;
  entry_audit : w_audit w' = w_audit w;
  entry_metrics : w_metrics w' = w_metrics w;
  entry_logs : w_logs w' = w_logs w;
  entry_spans : w_spans w' = w_spans w;
}.

#[export] Instance entry_frame_preorder : PreOrder entry_frame.
Proof. split; [intros w; by constructor|]. intros w1 w2 w3 [] []. constructor; congruence. Qed.

Lemma request_context_run req w :
  ∃ w', request_context st json_depth req w
        = (get_request_context json_depth st (authorization req) (w_clock w 0), w')
        ∧ entry_frame w w' ∧ w_limiter w' = w_limiter w ∧ w_env w' = w_env w.
Proof. eexists. split; [reflexivity|]. by split; [constructor|]. Qed.

Lemma enter_run req context tenant route_name limit w :
  ∃ w', enter st req context tenant route_name limit w
        = (entrance w req context tenant route_name limit, w') ∧ entry_frame w w'.
Proof.
  unfold enter, entrance, of_res, mbind, M_bind.
  destruct (tenant_from_context_or_request context tenant) as [t|e]; simpl; [|by exists w].
  unfold check_rate_limit, limit_reached. destruct (rate_limit_enabled st); simpl; [|by exists w].
  unfold mbind, M_bind, time_monotonic, zoom; simpl.
  pose proof (check_cases (monotonic (w_env w) 0)
    (client_key (request_client req) route_name (Some t)) limit (w_limiter w)) as Hc.
  destruct (check _ _ _ _) as [r l']. destruct Hc as (-> & _).
  destruct (verdict_of _ _ _ _); simpl; eexists; (split; [reflexivity|by constructor]).
Qed.

(** The two pieces that precede a handler's work, for any continuation. *)
Lemma wp_admission {A} (rest : pystr → co W A) (Φ : res A → W → Prop) req tenant route_name limit w :
  (∀ w', entry_frame w w' → match admission w req tenant route_name limit with
                            | Ok t => wp (rest t) Φ w'
                            | Raise e => Φ (Raise e) w'
                            end) →
  wp (context ← atomically (request_context st json_depth req);
      t ← atomically (enter st req context tenant route_name limit); rest t) Φ w.
Proof.
  intros HΦ. apply wp_bind, wp_atomically. unfold admission in HΦ.
  destruct (request_context_run req w) as (w1 & -> & Hf1 & Hl & He). cbn [fst snd].
  destruct (get_request_context json_depth st (authorization req) (w_clock w 0)) as [context|e];
    cbn [mbind res_bind] in HΦ; [|by apply (HΦ w1)].
  apply wp_bind, wp_atomically. destruct (enter_run req context tenant route_name limit w1) as (w2 & Hw2 & Hf2).
  assert (entrance w1 req context tenant route_name limit = entrance w req context tenant route_name limit)
    as Hent by (unfold entrance, limit_reached; by rewrite Hl, He).
  rewrite Hent in Hw2. rewrite Hw2. cbn [fst snd]. specialize (HΦ w2 ltac:(by etrans)).
  by destruct (entrance w req context tenant route_name limit).
Qed.
End Admission.

(** ** The responses *)

(** The summary of a job; its result is not validated again. *)
Definition summary_of (j : EvaluationJob) : EvaluationJobSummary :=
  mkEvaluationJobSummary (job_id j) (tenant_id j) (project_id j) (status j) (result j)
    (error_message j) (attempt_count j) (max_attempts j) (claimed_at j) (created_at j) (updated_at j).

Lemma to_summary_ok j : job_valid j = true → to_summary j = Ok (summary_of j).
Proof.
  unfold job_valid, to_summary, summary_of, validate_opt_result, validate_result.
  intros [_ Hr]%andb_true_iff. by destruct (result j); [rewrite Hr|].
Qed.

Lemma to_response_ok j rid :
  job_valid j = true →
  to_response j rid = Ok (mkEvaluationJobResponse (summary_of j)
    (mkEvaluationRequestSummary (req_tenant_id (request j)) (req_project_id (request j))
       (req_rubric (request j))) rid).
Proof. intros Hj. unfold to_response. by rewrite to_summary_ok. Qed.

Lemma to_detail_response_ok j rid :
  job_valid j = true →
  to_detail_response j rid = Ok (mkEvaluationJobDetailResponse (summary_of j) (request j) rid).
Proof.
  intros Hj. unfold to_detail_response, validate_request. rewrite to_summary_ok by done. unfold_res.
  by rewrite (job_valid_request _ Hj).
Qed.

Lemma to_summaries_ok js :
  Forall (λ j, job_valid j = true) js → mapM to_summary js = Ok (summary_of <$> js).
Proof.
  induction 1 as [|j js Hj _ IH]; [done|]. cbn [mapM]. rewrite to_summary_ok by done. unfold_res.
  by rewrite IH.
Qed.

Section Handlers.
Context {R : Type} `{RL : RepositoryLaws R} (st : Settings) (json_depth : nat).
Notation W := (World R).
Notation admission := (admission st json_depth).

(** What a read may change, besides what admission may. *)
Record read_frame (w w' : W) : Prop := {
  read_inv : repo_inv (w_repo w');
  read_view : view (w_repo w') = view (w_repo w);
  read_le : repo_le (w_repo w) (w_repo w');
  read_queue : w_queue w' = w_queue w;
  read_audit : w_audit w' = w_audit w;
  read_metrics : w_metrics w' = w_metrics w;
  read_logs : w_logs w' = w_logs w;
  read_spans : w_spans w' = w_spans w;
}.

Lemma entry_read w w' : repo_inv (w_repo w) → entry_frame w w' → read_frame w w'.
Proof. intros Hi [Hr]. constructor; rewrite ?Hr; done. Qed.

(** The job [id] of a tenant, as [get_for_tenant] answers. *)
Definition owned (v : store) (id : UUID) (tenant : pystr) : res EvaluationJob :=
  match v !! id with
  | Some j => if decide (tenant_id j = tenant) then Ok j else Raise NotFound
  | None => Raise NotFound
  end.

(** Looking up a job and rendering it; only storage that is not reliable fails. *)
Lemma wp_render {A} (render : EvaluationJob → res A) (Φ : res A → W → Prop) id tenant w0 w :
  repo_inv (w_repo w0) → entry_frame w0 w →
  (¬ reliable (w_repo w0) → ∀ text w', Φ (Raise (StorageExn text)) w') →
  (∀ w', read_frame w0 w' → Φ (j ← owned (view (w_repo w0)) id tenant; render j) w') →
  wp (x ← EvaluationJobService.get_for_tenant id tenant;
      atomically (j ← EvaluationJobService.read x; of_res (render j))) Φ w.
Proof.
  intros Hi Hf Hfail HΦ. pose proof (entry_read _ _ Hi Hf) as [Hi1 Hv1 Hle1 Hq Ha Hm Hl Hs].
  apply wp_bind, wp_atomically. unfold in_repo, zoom, repo_part.
  destruct (get_for_tenant id tenant (w_repo w, w_clock w)) as [r [s' c']] eqn:E.
  destruct (get_for_tenant_spec _ _ _ _ _ _ _ Hi1 E) as (Hi2 & Hle2 & Hv2 & [Hres|[Hn [text ->]]]);
    [|apply Hfail; intros Hr; by destruct Hn; eapply repo_le_reliable].
  assert (∀ w', w' = set_repo_part (s', c') w → read_frame w0 w') as Hframe.
  { intros w' ->. constructor; simpl; [done|congruence|by etrans|done..]. }
  rewrite Hv1 in Hres. specialize (HΦ _ (Hframe _ eq_refl)). unfold owned in HΦ.
  destruct (view (w_repo w0) !! id) as [j|]; [|by subst]. case_decide; [|by subst].
  destruct Hres as (x & -> & Hx & _). apply wp_atomically. cbn [snd fst].
  unfold EvaluationJobService.read, gets, of_res, mbind, M_bind. simpl. by rewrite Hx.
Qed.

Lemma owned_ok w id t j :
  repo_inv (w_repo w) → owned (view (w_repo w)) id t = Ok j →
  job_ok j ∧ tenant_id j = t ∧ view (w_repo w) !! id = Some j.
Proof.
  intros Hi. unfold owned. destruct (view (w_repo w) !! id) as [j'|] eqn:E; [|done].
  case_decide; [|done]. intros [= <-]. by destruct (repo_inv_ok _ Hi _ _ E).
Qed.

(** A read handler: admission, then the rendered job. *)
Lemma wp_read_handler {A} route (render : EvaluationJob → res A) (final : pystr → EvaluationJob → A)
    (id : UUID) (tenant : option pystr) (req : HttpRequest) (w : W) :
  repo_inv (w_repo w) → reliable (w_repo w) →
  (∀ t j, owned (view (w_repo w)) id t = Ok j → render j = Ok (final t j)) →
  wp (context ← atomically (request_context st json_depth req);
      t ← atomically (enter st req context tenant route (rate_limit_read_per_minute st));
      x ← EvaluationJobService.get_for_tenant id t;
      atomically (j ← EvaluationJobService.read x; of_res (render j)))
     (λ r w', r = (t ← admission w req tenant route (rate_limit_read_per_minute st);
                   j ← owned (view (w_repo w)) id t; Ok (final t j)) ∧ read_frame w w') w.
Proof.
  intros Hi Hr Hren. apply wp_admission. intros w1 Hf.
  destruct (admission _ _ _ _ _) as [t|e]; unfold_res; [|split; [done|by apply entry_read]].
  apply (wp_render _ _ _ _ w); [done..|]. intros w' Hw'. split; [|done].
  destruct (owned (view (w_repo w)) id t) as [j|] eqn:Ho; unfold_res; [by apply Hren|done].
Qed.

Lemma wp_details id tenant req request_id w :
  repo_inv (w_repo w) → reliable (w_repo w) →
  wp (get_evaluation_details st json_depth id tenant req request_id)
    (λ r w', r = (t ← admission w req tenant (u"get_evaluation_details") (rate_limit_read_per_minute st);
                  j ← owned (view (w_repo w)) id t;
                  Ok (mkEvaluationJobDetailResponse (summary_of j) (request j) request_id))
             ∧ read_frame w w') w.
Proof.
  intros Hi Hr. apply (wp_read_handler _ (λ j, to_detail_response j request_id)
    (λ t j, mkEvaluationJobDetailResponse (summary_of j) (request j) request_id)); [done..|].
  intros t j Ho. destruct (owned_ok _ _ _ _ Hi Ho) as (Hok & _).
  apply to_detail_response_ok, (ok_valid _ Hok).
Qed.

Lemma wp_get_evaluation id tenant req request_id w :
  repo_inv (w_repo w) → reliable (w_repo w) →
  wp (get_evaluation st json_depth id tenant req request_id)
    (λ r w', r = (t ← admission w req tenant (u"get_evaluation") (rate_limit_read_per_minute st);
                  j ← owned (view (w_repo w)) id t;
                  Ok (mkEvaluationJobResponse (summary_of j)
                        (mkEvaluationRequestSummary t (project_id j) (req_rubric (request j))) request_id))
             ∧ read_frame w w') w.
Proof.
  intros Hi Hr. apply (wp_read_handler _ (λ j, to_response j request_id)
    (λ t j, mkEvaluationJobResponse (summary_of j)
       (mkEvaluationRequestSummary t (project_id j) (req_rubric (request j))) request_id)); [done..|].
  intros t j Ho. destruct (owned_ok _ _ _ _ Hi Ho) as (Hok & <- & _).
  rewrite to_response_ok by apply (ok_valid _ Hok). by destruct (ok_owner _ Hok) as [-> ->].
Qed.

(** C22: reading one evaluation, over a reliable repository: the request is first
    authenticated, resolved to a tenant and counted against the limit, in this order;
    then it is answered with the stored job if the job exists and is the tenant's, and
    with 404 in both other cases alike.  Nothing but the clocks and the limiter changes,
    and rendering a stored job never fails. *)
Theorem get_evaluation_outcome (id : UUID) (tenant : option pystr) (req : HttpRequest)
    (request_id : pystr) (w : W) :
  repo_inv (w_repo w) → reliable (w_repo w) →
  (∃ w', run (get_evaluation st json_depth id tenant req request_id) w
         = (t ← admission w req tenant (u"get_evaluation") (rate_limit_read_per_minute st);
            j ← owned (view (w_repo w)) id t;
            Ok (mkEvaluationJobResponse (summary_of j)
                  (mkEvaluationRequestSummary t (project_id j) (req_rubric (request j))) request_id), w')
         ∧ read_frame w w')
  ∧ (∃ w', run (get_evaluation_details st json_depth id tenant req request_id) w
           = (t ← admission w req tenant (u"get_evaluation_details") (rate_limit_read_per_minute st);
              j ← owned (view (w_repo w)) id t;
              Ok (mkEvaluationJobDetailResponse (summary_of j) (request j) request_id), w')
           ∧ read_frame w w').
Proof.
  intros Hi Hr.
  assert (∀ A (c : co W A) (r : res A),
    wp c (λ r' w', r' = r ∧ read_frame w w') w → ∃ w', run c w = (r, w') ∧ read_frame w w') as Hex.
  { intros A c r (r' & w' & ? & -> & ?)%wp_run. by exists w'. }
  split; apply Hex; [by apply wp_get_evaluation|by apply wp_details].
Qed.

(** ** Listing *)

(** What a listing answers, once admitted. *)
Definition list_spec (tenant project : option pystr) (limit : Z) (req : HttpRequest)
    (request_id : pystr) (w : W) (r : res EvaluationListResponse) : Prop :=
  match admission w req tenant (u"list_evaluations") (rate_limit_list_per_minute st) with
  | Raise e => r = Raise e
  | Ok t => ∃ js, is_listing (view (w_repo w)) t project limit js
                  ∧ Forall (λ j, tenant_id j = t) js ∧ (Z.of_nat (length js) <= limit)%Z
                  ∧ r = Ok (mkEvaluationListResponse (summary_of <$> js) request_id)
  end.

(** Listing and rendering; only storage that is not reliable fails. *)
Lemma wp_listing (Φ : res EvaluationListResponse → W → Prop) t project limit request_id w0 w :
  repo_inv (w_repo w0) → entry_frame w0 w → (0 <= limit)%Z →
  (¬ reliable (w_repo w0) → ∀ text w', Φ (Raise (StorageExn text)) w') →
  (∀ js w', read_frame w0 w' → is_listing (view (w_repo w0)) t project limit js →
     Forall (λ j, tenant_id j = t) js → (Z.of_nat (length js) <= limit)%Z →
     Φ (Ok (mkEvaluationListResponse (summary_of <$> js) request_id)) w') →
  wp (xs ← EvaluationJobService.list_recent t project limit;
      atomically (
        js ← gets (λ w, deref (w_repo w) <$> xs);
        summaries ← of_res (mapM to_summary js);
        mret (mkEvaluationListResponse summaries request_id))) Φ w.
Proof.
  intros Hi Hf Hlimit Hfail HΦ. pose proof (entry_read _ _ Hi Hf) as [Hi1 Hv1 Hle1 Hqu Ha Hm Hl Hs].
  apply wp_bind, wp_atomically. unfold in_repo, zoom, repo_part.
  destruct (list_recent t project limit (w_repo w, w_clock w)) as [r [s' c']] eqn:E.
  destruct (list_recent_spec _ _ _ _ _ _ _ _ Hi1 Hlimit E) as (Hi2 & Hle2 & Hv2 & [(xs & -> & Hlist & _)|[Hn [text ->]]]);
    [|apply Hfail; intros Hr; by destruct Hn; eapply repo_le_reliable].
  cbn [fst snd]. apply wp_atomically. unfold gets, of_res, mbind, M_bind. cbn [fst snd].
  rewrite Hv1 in Hlist. set (js := deref _ <$> xs).
  assert (∀ j, j ∈ js → tenant_id j = t ∧ job_valid j = true) as Hjs.
  { intros j Hj. destruct (is_listing_elem _ _ _ _ _ _ Hlist Hj) as [[Ht _] [id Hid]]. split; [done|].
    destruct (repo_inv_ok _ Hi _ _ Hid) as [_ Hok]. apply (ok_valid _ Hok). }
  rewrite to_summaries_ok by (apply Forall_forall; intros j Hj; by apply Hjs). cbn [fst snd].
  apply HΦ; [constructor; simpl; [done|congruence|by etrans|done..]|done| |].
  - apply Forall_forall. intros j Hj. by apply Hjs.
  - destruct Hlist as (all & _ & _ & Hall). change js with (deref s' <$> xs). rewrite Hall.
    rewrite slice_to_length by done. lia.
Qed.

Lemma wp_list_evaluations tenant project limit req request_id w :
  repo_inv (w_repo w) → reliable (w_repo w) → valid_listing_query tenant project limit = true →
  wp (list_evaluations st json_depth tenant project limit req request_id)
    (λ r w', read_frame w w' ∧ list_spec tenant project limit req request_id w r) w.
Proof.
  intros Hi Hr Hq. unfold list_spec.
  apply wp_admission. intros w1 Hf.
  destruct (admission _ _ _ _ _) as [t|e]; [|split; [by apply entry_read|done]].
  apply (wp_listing _ _ _ _ _ w); [done..| |done|].
  - unfold valid_listing_query in Hq. to_prop. lia.
  - intros js w' Hw' ???. split; [done|]. by exists js.
Qed.

(** C23: listing, over a reliable repository: once admitted, the response holds the
    summaries of a listing of the store for the resolved tenant, most recent first and at
    most [limit] of them. *)
Theorem list_evaluations_outcome (tenant project : option pystr) (limit : Z) (req : HttpRequest)
    (request_id : pystr) (w : W) :
  repo_inv (w_repo w) → reliable (w_repo w) → valid_listing_query tenant project limit = true →
  ∃ r w', run (list_evaluations st json_depth tenant project limit req request_id) w = (r, w')
  ∧ read_frame w w'
  ∧ list_spec tenant project limit req request_id w r.
Proof. intros Hi Hr Hq. by apply wp_run, wp_list_evaluations. Qed.
(** ** Submitting *)

(** What accepting a request adds to the state: its job, stored, queued, audited, counted
    and traced. *)
Record accepted (w : W) (job : EvaluationJob) (w' : W) : Prop := {
  accepted_inv : repo_inv (w_repo w');
  accepted_le : repo_le (w_repo w) (w_repo w');
  accepted_view : view (w_repo w') = <[job_id job := job]> (view (w_repo w));
  accepted_queue : w_queue w' = Queue.put (Some (job_id job)) (w_queue w);
  accepted_audit : ∃ t, let event := mkAuditEvent ev_queued (tenant_id job) (project_id job)
                                       (uuid_str (job_id job)) t [] in
                   events (w_audit w') = events (w_audit w) ++ [event]
                   ∧ w_logs w' = w_logs w ++ [audit_log event];
  accepted_metrics : w_metrics w'
    = record_job_status (status_value QUEUED)
        (record_queue_depth (Queue.qsize (Queue.put (Some (job_id job)) (w_queue w))) (w_metrics w));
  accepted_spans : w_spans w' = w_spans w ++ [job_span (u"job.create") (tenant_id job) (project_id job) (job_id job)];
}.

(** The request a payload makes for a tenant. *)
Definition request_of (payload : SubmitEvaluationRequest) (tenant : pystr) : EvaluationRequest :=
  mkEvaluationRequest tenant (sub_project_id payload) (sub_question payload) (sub_answer payload)
    (sub_rubric payload).

Lemma wp_submit (request : EvaluationRequest) (request_id : pystr) (Φ : res SubmitEvaluationResponse → W → Prop) (w0 w : W) :
  repo_inv (w_repo w0) → entry_frame w0 w →
  view (w_repo w0) !! uuids (w_env w0) 0 = None → valid_request request = true →
  (¬ reliable (w_repo w0) → ∀ text w', Φ (Raise (StorageExn text)) w') →
  (∀ t t' w', let job := new_job (uuids (w_env w0) 0) request t t' in
     accepted w0 job w' → Φ (Ok (mkSubmitEvaluationResponse (job_id job) QUEUED request_id)) w') →
  wp (x ← EvaluationJobService.submit request;
      atomically (job ← EvaluationJobService.read x;
                  mret (mkSubmitEvaluationResponse (job_id job) (status job) request_id))) Φ w.
Proof.
  intros Hi [Hrepo Hu Hq _ Ha Hm Hl Hs] Hfresh Hv Hfail HΦ. apply wp_bind. unfold EvaluationJobService.submit.
  apply wp_bind, wp_atomically.
  unfold EvaluationJobService.submit_create, uuid4, wall_now, open_span, in_repo, zoom, modify, now,
    repo_part, mbind, M_bind. cbn [fst snd w_repo w_clock w_env set_env set_repo_part add_span uuids].
  rewrite Hrepo, Hu. set (job := new_job _ request _ _).
  destruct (create job _) as [r [s' c']] eqn:E.
  pose proof (new_job_ok (uuids (w_env w0) 0) request (w_clock w 0) (w_clock w 1) Hv) as Hok.
  destruct (create_spec _ _ _ _ _ _ Hi Hok eq_refl Hfresh E) as (Hi2 & Hle2 & [(x & -> & Hx & _ & Hview)|(Hn & [text ->] & _)]);
    [|by apply Hfail].
  cbn [fst snd]. apply wp_bind, wp_atomically.
  unfold EvaluationJobService.submit_announce, EvaluationJobService.read, EvaluationJobService.audit_job,
    Queue.enqueue, Queue.gauge_depth, Queue.on_queue, metric, audit_record, zoom, modify, record, now, gets,
    get_state, put_state, mbind, M_bind.
  simpl. rewrite Hx. cbn [job_id status job new_job]. 
  unfold wp. simpl. rewrite Hx. apply HΦ. constructor; simpl; rewrite ?Hq, ?Hm, ?Hs; try done.
  eexists. rewrite Ha, Hl. done.
Qed.
(** The outcome of a submission: refused, refused for its tenant, or accepted. *)
Definition submit_spec (payload : SubmitEvaluationRequest) (req : HttpRequest) (request_id : pystr)
    (w : W) (r : res SubmitEvaluationResponse) (w' : W) : Prop :=
  match admission w req (sub_tenant_id payload) (u"submit_evaluation") (rate_limit_submit_per_minute st) with
  | Raise e => r = Raise e ∧ read_frame w w'
  | Ok t =>
      if len_ok 1 128 t then
        ∃ t1 t2, let job := new_job (uuids (w_env w) 0) (request_of payload t) t1 t2 in
          r = Ok (mkSubmitEvaluationResponse (job_id job) QUEUED request_id) ∧ accepted w job w'
      else r = Raise (ValidationExn (u"EvaluationRequest") (dump_request (request_of payload t)))
           ∧ read_frame w w'
  end.

Lemma wp_submit_evaluation payload req request_id w :
  repo_inv (w_repo w) → reliable (w_repo w) → view (w_repo w) !! uuids (w_env w) 0 = None →
  valid_submit payload = true →
  wp (submit_evaluation st json_depth payload req request_id)
    (submit_spec payload req request_id w) w.
Proof.
  intros Hi Hr Hfresh Hp. apply wp_admission. intros w1 Hf. unfold submit_spec.
  destruct (admission _ _ _ _ _) as [t|e]; [|split; [done|by apply entry_read]].
  apply wp_bind, wp_atomically. unfold of_res, to_evaluation_request. cbn [fst snd].
  fold (request_of payload t). unfold validate_request.
  assert (valid_request (request_of payload t) = len_ok 1 128 t) as ->.
  { unfold valid_submit in Hp. unfold valid_request, request_of. to_prop. simpl.
    repeat match goal with H : _ = true |- _ => rewrite H end. by rewrite !andb_true_r. }
  destruct (len_ok 1 128 t) eqn:Ht; [|split; [done|by apply entry_read]].
  apply (wp_submit _ _ _ w); [done..| |done|].
  - unfold valid_submit in Hp. unfold valid_request, request_of. to_prop. simpl. rewrite Ht.
    by repeat match goal with H : _ = true |- _ => rewrite H end.
  - intros t1 t2 w' job Hacc. by exists t1, t2.
Qed.

(** C21: submitting, over a reliable repository: a refused request leaves everything but
    the clocks and the limiter alone; an admitted one is answered with the identifier of
    a new queued job of the resolved tenant, which is stored, queued, audited, counted and
    traced, once each.  A validated payload can only fail later on by a tenant, taken from
    the token, that the model's constraints exclude. *)
Theorem submit_evaluation_outcome (payload : SubmitEvaluationRequest) (req : HttpRequest)
    (request_id : pystr) (w : W) :
  repo_inv (w_repo w) → reliable (w_repo w) → view (w_repo w) !! uuids (w_env w) 0 = None →
  valid_submit payload = true →
  ∃ r w', run (submit_evaluation st json_depth payload req request_id) w = (r, w')
  ∧ submit_spec payload req request_id w r w'.
Proof. intros Hi Hr Hfresh Hp. by apply wp_run, wp_submit_evaluation. Qed.

(** ** Reading what was submitted *)

(** An evaluation that was accepted can be read from then on, whatever happened in
    between: a later request of the same tenant that is admitted is answered with that
    job, under the owner and with the request that were submitted. *)
Theorem submitted_evaluation_readable (payload : SubmitEvaluationRequest) (req req' : HttpRequest)
    (request_id request_id' : pystr) (tenant' : option pystr) (t : pystr) (w w1 w2 : W)
    (resp : SubmitEvaluationResponse) :
  world_inv w → reliable (w_repo w) → valid_submit payload = true →
  run (submit_evaluation st json_depth payload req request_id) w = (Ok resp, w1) →
  admission w req (sub_tenant_id payload) (u"submit_evaluation") (rate_limit_submit_per_minute st) = Ok t →
  world_inv w2 → world_le w1 w2 →
  admission w2 req' tenant' (u"get_evaluation_details") (rate_limit_read_per_minute st) = Ok t →
  ∃ d w3, run (get_evaluation_details st json_depth (submitted_job_id resp) tenant' req' request_id') w2
          = (Ok d, w3)
  ∧ s_job_id (d_job d) = submitted_job_id resp ∧ d_request d = request_of payload t
  ∧ s_tenant_id (d_job d) = t ∧ s_project_id (d_job d) = sub_project_id payload.
Proof.
  intros Hw Hr Hp Hrun Hadm Hw2 Hle Hadm'. pose proof (inv_repo _ Hw) as Hi.
  pose proof (wp_submit_evaluation payload req request_id w Hi Hr (inv_fresh _ Hw 0) Hp) as Hs.
  unfold wp, submit_spec in Hs. rewrite Hrun, Hadm in Hs. cbn [fst snd] in Hs.
  destruct (len_ok 1 128 t); [|by destruct Hs]. destruct Hs as (t1 & t2 & [= ->] & [Hi1 Hle1 Hv1 _ _ _ _]).
  set (job := new_job _ _ _ _) in *.
  destruct (le_evolves _ _ Hle (job_id job) job) as (j2 & Hj2 & Hsteps).
  { rewrite Hv1. apply lookup_insert_eq. }
  destruct (rtc_lstep_identity _ _ Hsteps) as (Hid & Ht & Hpr & Hreq & _).
  assert (reliable (w_repo w2)) as Hr2.
  { apply (repo_le_reliable (w_repo w1)); [by destruct Hle|]. by apply (repo_le_reliable (w_repo w)). }
  pose proof (wp_details (job_id job) tenant' req' request_id' w2 (inv_repo _ Hw2) Hr2) as Hd.
  apply wp_run in Hd as (r & w3 & Hrun3 & -> & _). rewrite Hadm' in Hrun3.
  cbn [mbind res_bind] in Hrun3. unfold owned in Hrun3. rewrite Hj2 in Hrun3.
  rewrite decide_True in Hrun3 by (by rewrite <- Ht). cbn [mbind res_bind] in Hrun3.
  eexists _, w3. split; [exact Hrun3|]. simpl. by rewrite <- Hid, <- Ht, <- Hpr, <- Hreq.
Qed.
End Handlers.

(** ** Tenants *)

Section Isolation.
Context {R : Type} `{RL : RepositoryLaws R} (st : Settings) (json_depth : nat).
(** The identifiers other processes on the same storage will draw. *)
Context {others : UUID → Prop}.
Notation W := (World R).
Notation world_inv := (world_inv_among (others := others)).
Notation safe := (steps_along world_inv world_le).

(** The tenant [t] is the one of the request's token, or, without authentication, the
    one its parameters name. *)
Definition acts_for (req : HttpRequest) (tenant : option pystr) (t : pystr) : Prop :=
  ∃ now context, get_request_context json_depth st (authorization req) now = Ok context
    ∧ tenant_from_context_or_request context tenant = Ok t.

(** A job of the store that belongs to [t] (and to [project], when one is asked for). *)
Definition job_of (t : pystr) (project : option pystr) (id : UUID) (s : W) : Prop :=
  ∃ j, view (w_repo s) !! id = Some j ∧ listed t project j.

Lemma listed_same t project j j' : same_identity j j' → listed t project j → listed t project j'.
Proof.
  intros (_ & Ht & Hp & _) [Hl Hlp]. split; [congruence|]. intros p E. rewrite <- (Hlp p E). done.
Qed.

Lemma job_of_evolves t project id v w j :
  evolves v (view (w_repo w)) → v !! id = Some j → listed t project j → job_of t project id w.
Proof.
  intros He Hj Hl. destruct (evolves_identity _ _ id j He Hj) as (j' & Hj' & Hs). exists j'.
  split; [done|]. by eapply listed_same.
Qed.

Lemma job_of_later t project id w w' : world_le w w' → job_of t project id w → job_of t project id w'.
Proof. intros Hle (j & Hj & Hl). eapply job_of_evolves; [by apply le_evolves|done..]. Qed.

(** The object behind a reference has the owner of the stored job. *)
Lemma tracked_listed t project id s x :
  world_inv s → tracks (w_repo s) x id → job_of t project id s →
  listed t project (deref (w_repo s) x) ∧ job_id (deref (w_repo s) x) = id
  ∧ req_tenant_id (request (deref (w_repo s) x)) = t.
Proof.
  intros Hs Hx (j' & Hj' & Hl). destruct (tracked_job s x id Hs Hx) as (j & Hj & Hsame & _ & Hid).
  assert (j' = j) as -> by congruence. destruct (repo_inv_ok _ (inv_repo _ Hs) _ _ Hj) as [_ Hok].
  destruct (ok_owner _ Hok) as [Ho _]. split_and!; [|done|].
  - eapply listed_same; [|done]. by symmetry.
  - destruct Hsame as (_ & _ & _ & -> & _). rewrite <- Ho. apply Hl.
Qed.

Lemma entry_quiet w w' : entry_frame w w' → quiet w w'.
Proof.
  intros [Hr Hu Hq Hwk Ha Hm Hl Hs]. constructor; rewrite ?Hr, ?Hu, ?Hq, ?Hl, ?Hs; try done.
  exists []. by rewrite Ha, app_nil_r.
Qed.

Lemma safe_chain {A B} (Q : A → W → Prop) (Q' : B → W → Prop) (c : co W A) (k : A → co W B) w :
  world_inv w → safe (okay Q) c w →
  (∀ a s, world_inv s → world_le w s → Q a s → safe (okay Q') (k a) s) →
  safe (okay Q') (c ≫= k) w.
Proof. intros Hw Hc Hk. by apply (along_bind _ _ (okay Q)). Qed.

(** The entry of a handler only lets a request through for the tenant it acts for. *)
Lemma safe_admission {A} (Q : A → W → Prop) (rest : pystr → co W A) req tenant route limit w :
  world_inv w →
  (∀ t s, world_inv s → world_le w s → acts_for req tenant t → safe (okay Q) (rest t) s) →
  safe (okay Q) (context ← atomically (request_context st json_depth req);
                 t ← atomically (enter st req context tenant route limit); rest t) w.
Proof.
  intros Hw Hrest. apply (safe_chain (λ context _, ∃ now, get_request_context json_depth st
    (authorization req) now = Ok context)); [done| |].
  { apply safe_quiet. intros s Hs _. destruct (request_context_run st json_depth req s) as (s' & -> & Hf & _).
    split; [by apply entry_quiet|]. intros s2 _ _. cbn [fst]. destruct (get_request_context _ _ _ _) eqn:E;
      [by eexists|done]. }
  intros context s1 Hs1 Hle1 [now Hnow].
  apply (safe_chain (λ t _, tenant_from_context_or_request context tenant = Ok t)); [done| |].
  { apply safe_quiet. intros s Hs _. destruct (enter_run st req context tenant route limit s) as (s' & -> & Hf).
    split; [by apply entry_quiet|]. intros s2 _ _. cbn [fst]. unfold entrance.
    destruct (tenant_from_context_or_request context tenant); unfold_res; [|done]. by case_match. }
  intros t s2 Hs2 Hle2 Ht. apply Hrest; [done|by etrans|]. by exists now, context.
Qed.

Lemma safe_get_for_tenant id t w :
  safe (okay (λ x s, tracks (w_repo s) x id ∧ job_of t None id s))
    (EvaluationJobService.get_for_tenant id t) w.
Proof.
  apply safe_repo. intros s c r s' c' Hs Hrun.
  destruct (get_for_tenant_spec _ _ _ _ _ _ _ Hs Hrun) as (Hi & Hle & Hv & HH).
  split_and!; [done|done|by rewrite Hv|]. intros w' Hw' Hle'.
  destruct HH as [HH|[_ [? ->]]]; [|done]. destruct (view s !! id) as [j|] eqn:Hj; [|by subst].
  case_decide; [|by subst]. destruct HH as (x & -> & _ & Ht). split; [by apply (repo_le_tracks s')|].
  apply (job_of_evolves _ _ _ (view s') _ j); [by apply repo_le_evolves|by rewrite Hv|done].
Qed.

(** The response of a read handler, for a rendering that keeps owner and identifier. *)
Lemma safe_read_handler {A} route (render : EvaluationJob → res A) (Q : pystr → A → Prop)
    id tenant req w :
  world_inv w →
  (∀ j d, render j = Ok d → job_id j = id → req_tenant_id (request j) = tenant_id j → Q (tenant_id j) d) →
  safe (okay (λ d s, ∃ t, acts_for req tenant t ∧ Q t d ∧ job_of t None id s))
    (context ← atomically (request_context st json_depth req);
     t ← atomically (enter st req context tenant route (rate_limit_read_per_minute st));
     x ← EvaluationJobService.get_for_tenant id t;
     atomically (j ← EvaluationJobService.read x; of_res (render j))) w.
Proof.
  intros Hw HQ. apply safe_admission; [done|]. intros t s Hs _ Ht.
  eapply safe_chain; [done|by apply safe_get_for_tenant|]. intros x s1 Hs1 Hle1 [Hx Hjob].
  apply safe_quiet. intros s2 Hs2 Hle2. split.
  { constructor; simpl; try done. exists []. by rewrite app_nil_r. }
  intros s3 Hs3 Hle3. unfold EvaluationJobService.read, gets, of_res, mbind, M_bind. cbn [fst].
  destruct (render (deref (w_repo s2) x)) as [d|] eqn:E; [|done]. exists t.
  pose proof (job_of_later _ _ _ _ _ Hle2 Hjob) as Hjob2.
  destruct (tracked_listed _ _ _ _ _ Hs2 (le_tracks _ _ _ _ Hs1 Hle2 Hx) Hjob2) as ([Hlt _] & Hid & Hrt).
  split_and!; [done| |by apply (job_of_later _ _ _ _ _ Hle3)].
  rewrite <- Hlt. apply (HQ (deref (w_repo s2) x)); [done|done|congruence].
Qed.
Lemma to_summary_owner j d :
  to_summary j = Ok d → s_job_id d = job_id j ∧ s_tenant_id d = tenant_id j ∧ s_project_id d = project_id j.
Proof. by intros (r & _ & [= <-])%res_bind_Ok. Qed.

Lemma mapM_Ok {A B} (f : A → res B) l k : mapM f l = Ok k → Forall2 (λ x y, f x = Ok y) l k.
Proof.
  revert k. induction l as [|x l IH]; intros k; cbn [mapM]; [intros [= <-]; constructor|].
  intros (y & Hy & (ys & Hys & [= <-])%res_bind_Ok)%res_bind_Ok. constructor; [done|by apply IH].
Qed.

Lemma safe_list tenant project limit req rid w :
  world_inv w → (0 <= limit)%Z →
  safe (okay (λ d s, ∃ t, acts_for req tenant t
                ∧ Forall (λ x, s_tenant_id x = t ∧ job_of t project (s_job_id x) s) (jobs d)))
    (list_evaluations st json_depth tenant project limit req rid) w.
Proof.
  intros Hw Hlimit. apply safe_admission; [done|]. intros t s Hs _ Ht.
  apply (safe_chain (λ xs s, Forall (λ x, ∃ id, tracks (w_repo s) x id ∧ job_of t project id s) xs)); [done| |].
  - apply safe_repo. intros s1 c r s' c' Hs1 Hrun.
    destruct (list_recent_spec _ _ _ _ _ _ _ _ Hs1 Hlimit Hrun) as (Hi & Hle & Hv & HH).
    split_and!; [done|done|by rewrite Hv|]. intros w' Hw' Hle'.
    destruct HH as [(xs & -> & Hlist & Htr)|[_ [? ->]]]; [|done]. apply Forall_forall. intros x Hx.
    destruct (proj1 (Forall_forall _ _) Htr x Hx) as [id Hid]. exists id.
    split; [by apply (repo_le_tracks s')|]. destruct (tracks_deref _ _ _ Hi Hid) as (j & Hj & Hsame).
    apply (job_of_evolves _ _ _ (view s') _ j); [by apply repo_le_evolves|done|].
    eapply listed_same; [exact Hsame|].
    by destruct (is_listing_elem _ _ _ _ _ _ Hlist (list_elem_of_fmap_2 _ _ _ Hx)).
  - intros xs s1 Hs1 _ Hxs. apply safe_quiet. intros s2 Hs2 Hle2. unfold gets, of_res, mbind, M_bind.
    destruct (mapM to_summary (deref (w_repo s2) <$> xs)) as [ds|] eqn:E.
    2:{ split; [|done]. constructor; simpl; try done. exists []. by rewrite app_nil_r. }
    split; [constructor; simpl; try done; exists []; by rewrite app_nil_r|].
    intros s3 Hs3 Hle3. exists t. split; [done|]. simpl.
    apply Forall_forall. intros d (i & Hi)%list_elem_of_lookup.
    destruct (Forall2_lookup_r _ _ _ _ _ (mapM_Ok _ _ _ E) Hi) as (j & Hj & Hd).
    apply list_lookup_fmap_Some in Hj as (x & -> & Hx).
    destruct (proj1 (Forall_forall _ _) Hxs x (list_elem_of_lookup_2 _ _ _ Hx)) as (id & Hid & Hjob).
    pose proof (job_of_later _ _ _ _ _ Hle2 Hjob) as Hjob2.
    destruct (tracked_listed _ _ _ _ _ Hs2 (le_tracks _ _ _ _ Hs1 Hle2 Hid) Hjob2) as ([Hlt _] & Hjid & _).
    destruct (to_summary_owner _ _ Hd) as (-> & -> & _). split; [done|]. rewrite Hjid.
    by apply (job_of_later _ _ _ _ _ Hle3).
Qed.
(** Submitting keeps the invariant, however it is interleaved. *)
Lemma safe_submit_evaluation payload req rid w :
  world_inv w → safe any (submit_evaluation st json_depth payload req rid) w.
Proof.
  intros Hw. apply (along_weaken _ _ (okay (λ _ _, True))); [|done].
  apply safe_admission; [done|]. intros t s Hs _ _.
  apply (safe_chain (λ q _, valid_request q = true)); [done| |].
  { apply safe_quiet. intros s1 Hs1 _. split.
    - constructor; simpl; try done. exists []. by rewrite app_nil_r.
    - intros s2 _ _. unfold of_res, to_evaluation_request, validate_request. cbn [fst].
      by destruct (valid_request _) eqn:E. }
  intros q s1 Hs1 _ Hq. apply (safe_chain (λ _ _, True)); [done| |].
  { apply (along_weaken _ _ any); [by apply (safe_submit (SL := mock_scorer_laws (float_of 5)))|by intros []]. }
  intros x s2 Hs2 _ _. apply safe_quiet. intros s3 Hs3 _. split; [|done].
  constructor; simpl; try done. exists []. by rewrite app_nil_r.
Qed.
End Isolation.

(** C4: whatever other tasks and other processes on the storage do between the pieces of a
    request, and whatever fails: every job in a response of the three read routes belongs
    to the tenant the request acts for, which, with authentication enabled, is the tenant of
    an authentic token in its header, whatever its parameters say. *)
Theorem tenant_isolation {R} `{RL : RepositoryLaws R} (others : UUID → Prop) (st : Settings)
    (json_depth : nat) (id : UUID)
    (tenant project : option pystr) (limit : Z) (req : HttpRequest) (request_id : pystr) (w : World R) :
  let inv := world_inv_among (others := others) in
  inv w → (0 <= limit)%Z →
  steps_along inv world_le (okay (λ d s, ∃ t, acts_for st json_depth req tenant t
      ∧ (s_job_id (r_job d) = id ∧ s_tenant_id (r_job d) = t ∧ sum_tenant_id (r_request d) = t)
      ∧ job_of t None id s))
    (get_evaluation st json_depth id tenant req request_id) w
  ∧ steps_along inv world_le (okay (λ d s, ∃ t, acts_for st json_depth req tenant t
      ∧ (s_job_id (d_job d) = id ∧ s_tenant_id (d_job d) = t ∧ req_tenant_id (d_request d) = t)
      ∧ job_of t None id s))
    (get_evaluation_details st json_depth id tenant req request_id) w
  ∧ steps_along inv world_le (okay (λ d s, ∃ t, acts_for st json_depth req tenant t
      ∧ Forall (λ x, s_tenant_id x = t ∧ job_of t project (s_job_id x) s) (jobs d)))
    (list_evaluations st json_depth tenant project limit req request_id) w
  ∧ (auth_enabled st = true → ∀ t, acts_for st json_depth req tenant t →
       ∃ scheme token now ctx, authorization req = Some (scheme ++ u" " ++ token)
         ∧ authentic json_depth st token now ctx ∧ t = ctx_tenant_id ctx).
Proof.
  intros inv Hw Hlimit. split_and!; [| |by apply safe_list|].
  - apply (safe_read_handler st json_depth (u"get_evaluation") (λ j, to_response j request_id)
      (λ t d, s_job_id (r_job d) = id ∧ s_tenant_id (r_job d) = t ∧ sum_tenant_id (r_request d) = t)); [done|].
    intros j d (s & (Hid & Ht & _)%to_summary_owner & [= <-])%res_bind_Ok Hjid Ho. simpl. split_and!; congruence.
  - apply (safe_read_handler st json_depth (u"get_evaluation_details") (λ j, to_detail_response j request_id)
      (λ t d, s_job_id (d_job d) = id ∧ s_tenant_id (d_job d) = t ∧ req_tenant_id (d_request d) = t)); [done|].
    intros j d (s & (Hid & Ht & _)%to_summary_owner & (r & Hr & [= <-])%res_bind_Ok)%res_bind_Ok Hjid Ho.
    unfold validate_request in Hr. case_match; simplify_eq. simpl. split_and!; congruence.
  - intros Hen t (now & context & Hctx & Ht).
    destruct (get_request_context_accepts json_depth st (authorization req) now Hen) as [Hiff Hne].
    destruct context as [ctx|]; [|done]. simpl in Ht. injection Ht as <-.
    destruct (proj1 (Hiff ctx) Hctx) as (scheme & token & Ha & _ & _ & _ & Hauth).
    by exists scheme, token, now, ctx.
Qed.

(** ** Examples *)

Definition sample_client : ClientInfo := mkClient None (Some (u"10.0.0.1")).
Definition sample_req : HttpRequest := mkHttpRequest (u"GET") None None sample_client.
Definition sample_payload : SubmitEvaluationRequest :=
  mkSubmitEvaluationRequest (Some (u"tenant-a")) (u"p") (u"What is water?") (u"Water is wet.") None.

(** A job submitted over the in-memory repository, as the next reader finds it. *)
Definition submitted_world : World InMemoryJobRepository :=
  (run (submit_evaluation default_settings 100 sample_payload sample_req (u"r-1")) sample_world).2.

Definition is_ok {A} (r : res A) : bool := match r with Ok _ => true | Raise _ => false end.

Lemma tenant_isolation_witness :
  (run (get_evaluation default_settings 100 0%N (Some (u"tenant-b")) sample_req (u"r-2")) submitted_world).1
    = Raise NotFound
  ∧ ∃ d s, run (get_evaluation default_settings 100 0%N (Some (u"tenant-a")) sample_req (u"r-3")) submitted_world
           = (Ok d, s) ∧ s_tenant_id (r_job d) = u"tenant-a".
Proof.
  split; [vm_compute; reflexivity|].
  assert (world_inv submitted_world) as Hw by (apply (run_along world_inv world_le any); [apply safe_submit_evaluation|]; apply sample_world_inv).
  destruct (tenant_isolation (λ _, False) default_settings 100 0%N (Some (u"tenant-a")) None 1 sample_req (u"r-3")
    submitted_world Hw) as (Hget & _); [lia|].
  pose proof (run_along _ _ _ _ _ Hget Hw) as (_ & _ & Hd).
  assert (is_ok (run (get_evaluation default_settings 100 0%N (Some (u"tenant-a")) sample_req (u"r-3"))
                   submitted_world).1 = true) as Hok by (vm_compute; reflexivity).
  destruct (run (get_evaluation _ _ _ _ _ _) _) as [[d|e] s]; [|discriminate].
  exists d, s. split; [reflexivity|]. destruct Hd as (t & (now & ctx & Hc & Ht) & (_ & Hs & _) & _).
  change (Ok (None : option RequestContext) = Ok ctx) in Hc. injection Hc as <-.
  apply (f_equal (λ r, match r with Ok x => x | Raise _ => t end)) in Ht. exact (eq_trans Hs (eq_sym Ht)).
Defined.

Lemma sample_payload_valid : valid_submit sample_payload = true.
Proof. vm_compute. reflexivity. Qed.

Lemma submitted_world_inv : world_inv submitted_world.
Proof. apply (run_along world_inv world_le any); [apply safe_submit_evaluation|]; apply sample_world_inv. Qed.

Lemma submit_evaluation_outcome_witness :
  ∃ r w', run (submit_evaluation default_settings 100 sample_payload sample_req (u"r-1")) sample_world = (r, w')
  ∧ r = Ok (mkSubmitEvaluationResponse 0%N QUEUED (u"r-1"))
  ∧ w_queue w' = mkQueue [Some 0%N] 1 None false
  ∧ event_type <$> events (w_audit w') = [ev_queued].
Proof.
  destruct (submit_evaluation_outcome default_settings 100 sample_payload sample_req (u"r-1") sample_world)
    as (r & w' & Hrun & Hspec).
  - apply sample_world_inv.
  - exact I.
  - reflexivity.
  - vm_compute. reflexivity.
  - unfold submit_spec in Hspec.
    assert (admission default_settings 100 sample_world sample_req (sub_tenant_id sample_payload)
      (u"submit_evaluation") (rate_limit_submit_per_minute default_settings) = Ok (u"tenant-a")) as Hadm
      by (vm_compute; reflexivity).
    rewrite Hadm in Hspec. destruct Hspec as (t1 & t2 & Hr & [_ _ _ Hq (t & He & _) _ _]).
    exists r, w'. split; [exact Hrun|]. split; [exact Hr|]. split; [rewrite Hq; reflexivity|].
    rewrite He. reflexivity.
Defined.

Lemma get_evaluation_outcome_witness :
  (∃ d w', run (get_evaluation default_settings 100 0%N (Some (u"tenant-a")) sample_req (u"r-2")) submitted_world
           = (Ok d, w') ∧ s_status (r_job d) = QUEUED)
  ∧ (∃ w', run (get_evaluation_details default_settings 100 7%N (Some (u"tenant-a")) sample_req (u"r-2"))
             submitted_world = (Raise NotFound, w') ∧ read_frame submitted_world w').
Proof.
  split.
  - destruct (get_evaluation_outcome default_settings 100 0%N (Some (u"tenant-a")) sample_req (u"r-2")
      submitted_world) as [(w' & Hrun & _) _]; [apply submitted_world_inv|exact I|].
    eexists _, w'. split; [rewrite Hrun; vm_compute; reflexivity|reflexivity].
  - destruct (get_evaluation_outcome default_settings 100 7%N (Some (u"tenant-a")) sample_req (u"r-2")
      submitted_world) as [_ (w' & Hrun & Hf)]; [apply submitted_world_inv|exact I|].
    exists w'. split; [rewrite Hrun; vm_compute; reflexivity|exact Hf].
Defined.

Lemma list_evaluations_outcome_witness :
  ∃ js w', run (list_evaluations default_settings 100 (Some (u"tenant-a")) None 50 sample_req (u"r-2"))
             submitted_world = (Ok (mkEvaluationListResponse (summary_of <$> js) (u"r-2")), w')
  ∧ is_listing (view (w_repo submitted_world)) (u"tenant-a") None 50 js.
Proof.
  destruct (list_evaluations_outcome default_settings 100 (Some (u"tenant-a")) None 50 sample_req (u"r-2")
    submitted_world) as (r & w' & Hrun & _ & Hm); [apply submitted_world_inv|exact I|vm_compute; reflexivity|].
  assert (admission default_settings 100 submitted_world sample_req (Some (u"tenant-a"))
    (u"list_evaluations") (rate_limit_list_per_minute default_settings) = Ok (u"tenant-a")) as Hadm
    by (vm_compute; reflexivity).
  unfold list_spec in Hm. rewrite Hadm in Hm. destruct Hm as (js & Hl & _ & _ & Hr). exists js, w'. rewrite <- Hr. split; assumption.
Defined.

Lemma submitted_evaluation_readable_witness :
  ∃ d w3, run (get_evaluation_details default_settings 100 0%N (Some (u"tenant-a")) sample_req (u"r-2"))
            submitted_world = (Ok d, w3)
  ∧ d_request d = request_of sample_payload (u"tenant-a").
Proof.
  destruct (submitted_evaluation_readable default_settings 100 sample_payload sample_req sample_req
    (u"r-1") (u"r-2") (Some (u"tenant-a")) (u"tenant-a") sample_world submitted_world submitted_world
    (mkSubmitEvaluationResponse 0%N QUEUED (u"r-1"))) as (d & w3 & Hrun & _ & Hreq & _).
  - apply sample_world_inv.
  - exact I.
  - apply sample_payload_valid.
  - rewrite (surjective_pairing (run _ _)). f_equal; vm_compute; reflexivity.
  - vm_compute. reflexivity.
  - apply submitted_world_inv.
  - reflexivity.
  - vm_compute. reflexivity.
  - exists d, w3. split; [exact Hrun|exact Hreq].
Defined.
