(* ===== verification/App.v ===== *)
(** The application around the routes: endpoints, exception handlers, the two middlewares
    of [app/main.py], the health and metrics endpoints ([app/api/health.py],
    [app/api/metrics.py]), and the start and stop of both processes ([app/main.py],
    [app/worker.py]). *)
From S2P Require Export Api.

(** ** Requests and responses *)

Inductive Endpoint :=
| Live
| Ready
| GetMetrics
| SubmitEvaluation (payload : SubmitEvaluationRequest)
| ListEvaluations (tenant project : option pystr) (limit : Z)
| GetEvaluationDetails (id : UUID) (tenant : option pystr)
| GetEvaluation (id : UUID) (tenant : option pystr)
(** A path no route matches. *)
| Unrouted (path : pystr).

(** [getattr(request.scope.get("route"), "path", request.url.path)]. *)
Definition route_path (e : Endpoint) : pystr :=
  match e with
  | Live => u"/health/live"
  | Ready => u"/health/ready"
  | GetMetrics => u"/metrics"
  | SubmitEvaluation _ | ListEvaluations _ _ _ => u"/v1/evaluations"
  | GetEvaluationDetails _ _ => u"/v1/evaluations/{job_id}/details"
  | GetEvaluation _ _ => u"/v1/evaluations/{job_id}"
  | Unrouted path => path
  end.

Inductive Body :=
| JsonBody (content : json)
| TextBody (media_type content : pystr)
| SubmitBody (r : SubmitEvaluationResponse)
| ListBody (r : EvaluationListResponse)
| DetailBody (r : EvaluationJobDetailResponse)
| JobBody (r : EvaluationJobResponse).

Record Response := mkResponse {
  response_status : Z;
  response_body : Body;
  response_headers : list (pystr * pystr);
}.

Definition of_json_response (r : JSONResponse) : Response :=
  mkResponse (resp_status r) (JsonBody (resp_content r)) [].

Definition set_header (name value : pystr) (r : Response) : Response :=
  mkResponse (response_status r) (response_body r) (dict_set name value (response_headers r)).

Section App.
Context {R : Type} `{JobRepository R}.
Context (st : Settings) (json_depth : nat).
(** What Starlette answers when no route matches. *)
Context (no_route : Response).
Notation W := (World R).

(** ** Endpoints *)

Definition live : M W Response :=
  mret (mkResponse 200 (JsonBody (JObj [(u"status", JStr (u"ok"))])) []).

(** [getattr(request.app.state, "repository", None)] is what the start-up has put there, or
    nothing in an application that was not started. *)
Definition ready_of (repository : option (M (R * clock) bool)) : co W Response :=
  ok ← match repository with
       | Some health_check => atomically (in_repo health_check)
       | None => mret true
       end;
  mret (if (ok : bool) then mkResponse 200 (JsonBody (JObj [(u"status", JStr (u"ready"))])) []
        else mkResponse 503 (JsonBody (JObj [(u"status", JStr (u"not_ready"))])) []).

(** The endpoint of a started application. *)
Definition ready : co W Response := ready_of (Some health_check).

Definition get_metrics : M W Response :=
  m ← gets w_metrics;
  mret (mkResponse 200 (TextBody (u"text/plain; version=0.0.4") (render_prometheus m)) []).

Definition call_endpoint (e : Endpoint) (req : HttpRequest) (request_id : pystr) : co W Response :=
  match e with
  | Live => atomically live
  | Ready => ready
  | GetMetrics => atomically get_metrics
  | SubmitEvaluation payload =>
      r ← submit_evaluation st json_depth payload req request_id;
      mret (mkResponse 202 (SubmitBody r) [])
  | ListEvaluations tenant project limit =>
      r ← list_evaluations st json_depth tenant project limit req request_id;
      mret (mkResponse 200 (ListBody r) [])
  | GetEvaluationDetails id tenant =>
      r ← get_evaluation_details st json_depth id tenant req request_id;
      mret (mkResponse 200 (DetailBody r) [])
  | GetEvaluation id tenant =>
      r ← get_evaluation st json_depth id tenant req request_id;
      mret (mkResponse 200 (JobBody r) [])
  | Unrouted _ => mret no_route
  end.

(** ** Exception handlers, as [create_app] registers them *)

(** The handler of [AppError], next to the routes. *)
Definition handle_app_errors (request_id : pystr) (c : co W Response) : co W Response :=
  co_except c (λ e, match e with
                    | AppExn err => mret (of_json_response (app_error_handler (Some request_id) err))
                    | e => Done (Raise e)
                    end).

(** The handler of [Exception], around all middleware. *)
Definition handle_unhandled (request_id : pystr) (c : co W Response) : co W Response :=
  co_except c (λ e, mret (of_json_response (unhandled_error_handler (Some request_id) e))).

(** ** Middleware *)

(** [new_request_id] of [app/core/logging.py]. *)
Definition new_request_id : M W pystr := u ← uuid4; mret (uuid_str u).

(** [request.headers.get("x-request-id", new_request_id())]: the default is computed even
    when it is not used. *)
Definition resolve_request_id (req : HttpRequest) : M W pystr :=
  fresh ← new_request_id;
  mret (default fresh (x_request_id req)).

(** [RequestIdMiddleware.dispatch], once the identifier is known. *)
Definition RequestIdMiddleware (request_id : pystr) (call_next : co W Response) : co W Response :=
  response ← call_next;
  mret (set_header (u"x-request-id") request_id response).

(** [MetricsMiddleware.dispatch]. *)
Definition MetricsMiddleware (method route : pystr) (call_next : co W Response) : co W Response :=
  started_at ← atomically perf_counter;
  response ← call_next;
  (if decide (route = u"/metrics") then mret tt
   else atomically (
     t ← perf_counter;
     metric (record_http_request method route (response_status response) (float_sub t started_at))));;
  mret response.

(** [create_app]: the middleware added last is the outermost.  (CORS only adds headers.) *)
Definition handle_request (e : Endpoint) (req : HttpRequest) : co W Response :=
  request_id ← atomically (resolve_request_id req);
  handle_unhandled request_id
    (MetricsMiddleware (http_method req) (route_path e)
      (RequestIdMiddleware request_id
        (handle_app_errors request_id (call_endpoint e req request_id)))).
End App.

(** ** The life of a process *)

Definition main_logger : pystr := u"app.main".
Definition worker_main_logger : pystr := u"app.worker".

Definition role_str (r : ProcessRole) : pystr :=
  match r with combined => u"combined" | api => u"api" | worker => u"worker" end.

Section Process.
Context {R : Type} `{JobRepository R}.
Context (st : Settings).
Notation W := (World R).

(** [await task]: look at the task until it is done; [None] when it is not within
    [fuel] looks.  The exception a task ended with is raised again. *)
Fixpoint await_task (task : W → option TaskState) (fuel : nat) : co W bool :=
  match fuel with
  | 0 => mret false
  | S fuel =>
      t ← atomically (gets task);
      match t with
      | Some TaskRunning => await_task task fuel
      | Some (TaskDone (Some e)) => Done (Raise e)
      | _ => mret true
      end
  end.

(** [await queue.stop()] and [await worker.stop()]. *)
Definition queue_stop (fuel : nat) : co W bool :=
  waits ← atomically Queue.stop;
  if (waits : bool) then await_task (λ w, _task (w_queue w)) fuel else mret true.
Definition worker_stop (fuel : nat) : co W bool :=
  waits ← atomically Worker.stop;
  if (waits : bool) then await_task (λ w, worker_task (w_worker w)) fuel else mret true.

(** [lifespan], up to its [yield]; [true] when it starts the queue's runner. *)
Definition lifespan_start : M W bool :=
  started ← (match process_role st with combined => Queue.start | _ => mret false end);
  log (log_info main_logger (u"service started") [(u"process_role", JStr (role_str (process_role st)))]);;
  mret started.

(** [lifespan], from its [yield]. *)
Definition lifespan_stop (fuel : nat) : co W bool :=
  ended ← queue_stop fuel;
  if (ended : bool) then
    ended ← worker_stop fuel;
    if (ended : bool) then
      atomically (in_repo close);;
      atomically (log (log_info main_logger (u"service stopped") []));;
      mret true
    else mret false
  else mret false.

(** [run_worker], up to [await stop_event.wait()], and from the signal on. *)
Definition run_worker_start : M W bool :=
  started ← Worker.start;
  log (log_info worker_main_logger (u"worker process started") []);;
  mret started.
Definition run_worker_stop (fuel : nat) : co W bool :=
  ended ← worker_stop fuel;
  if (ended : bool) then
    atomically (in_repo close);;
    atomically (log (log_info worker_main_logger (u"worker process stopped") []));;
    mret true
  else mret false.
End Process.

(** ** Answering requests *)

Section Answers.
Context {R : Type} `{RL : RepositoryLaws R}.
Context (st : Settings) (json_depth : nat) (no_route : Response).
Notation W := (World R).
Notation call_endpoint := (call_endpoint st json_depth no_route).
Notation handle_request := (handle_request st json_depth no_route).

(** The identifier a request gets: its own, or a new one. *)
Definition id_of_request (req : HttpRequest) (w : W) : pystr :=
  default (uuid_str (uuids (w_env w) 0)) (x_request_id req).

(** The state the endpoint starts from: one identifier and one reading are used up. *)
Definition request_entered (w : W) : W := (perf_counter (uuid4 w).2).2.

(** What the handlers of [AppError] and [Exception] make of an endpoint's outcome. *)
Definition answer_of (request_id : pystr) (r : res Response) : res Response :=
  match r with
  | Ok resp => Ok (set_header (u"x-request-id") request_id resp)
  | Raise (AppExn err) =>
      Ok (set_header (u"x-request-id") request_id
            (of_json_response (app_error_handler (Some request_id) err)))
  | Raise CancelledExn => Raise CancelledExn
  | Raise e => Ok (of_json_response (unhandled_error_handler (Some request_id) e))
  end.

(** Did the endpoint answer, be it by an [AppError]? *)
Definition handled (r : res Response) : bool :=
  match r with Ok _ | Raise (AppExn _) => true | Raise _ => false end.

Definition http_status (r : res Response) : Z :=
  match r with Ok resp => response_status resp | Raise (AppExn err) => status_code (err_class err)
             | Raise _ => 500 end.

Definition request_counted (e : Endpoint) (req : HttpRequest) (seconds : float) (r : res Response)
    (m : MetricsRegistry) : MetricsRegistry :=
  if handled r && bool_decide (route_path e ≠ u"/metrics")
  then record_http_request (http_method req) (route_path e) (http_status r) seconds m else m.

(** What the middlewares change after the endpoint. *)
Record answered_frame (w w' : W) : Prop := {
  answered_repo : repo_part w' = repo_part w;
  answered_queue : w_queue w' = w_queue w;
  answered_worker : w_worker w' = w_worker w;
  answered_audit : w_audit w' = w_audit w;
  answered_logs : w_logs w' = w_logs w;
  answered_spans : w_spans w' = w_spans w;
  answered_limiter : w_limiter w' = w_limiter w;
}.

Lemma request_run (e : Endpoint) (req : HttpRequest) (w : W) :
  let request_id := id_of_request req w in
  let '(r, w1) := run (call_endpoint e req request_id) (request_entered w) in
  ∃ w', run (handle_request e req) w = (answer_of request_id r, w')
        ∧ w_metrics w' = request_counted e req (float_sub (perf (w_env w1) 0) (perf (w_env w) 0)) r
                           (w_metrics w1)
        ∧ answered_frame w1 w'.
Proof.
  intros rid. destruct (run (call_endpoint e req rid) (request_entered w)) as [r w1] eqn:Hrun.
  enough (wp (handle_request e req) (λ r' w', r' = answer_of rid r
    ∧ w_metrics w' = request_counted e req (float_sub (perf (w_env w1) 0) (perf (w_env w) 0)) r (w_metrics w1)
    ∧ answered_frame w1 w') w) as (r' & w' & Hw' & -> & ? & ?)%wp_run by eauto.
  apply wp_bind. eapply wp_piece; [reflexivity|]. change (default _ _) with rid.
  apply wp_except, wp_bind. eapply wp_piece; [reflexivity|]. apply wp_bind, wp_bind, wp_except.
  match goal with |- wp _ _ ?s => change s with (request_entered w) end.
  unfold wp at 1. rewrite Hrun. cbn [fst snd]. unfold request_counted, answer_of.
  assert (∀ resp (Φ : res Response → W → Prop),
    (∀ w', w_metrics w' = (if decide (route_path e = u"/metrics") then w_metrics w1
             else record_http_request (http_method req) (route_path e) (response_status resp)
                    (float_sub (perf (w_env w1) 0) (perf (w_env w) 0)) (w_metrics w1)) →
           answered_frame w1 w' → Φ (Ok resp) w') →
    wp ((if decide (route_path e = u"/metrics") then mret tt
         else atomically (t ← perf_counter;
                metric (record_http_request (http_method req) (route_path e) (response_status resp)
                          (float_sub t (perf (w_env w) 0)))));; mret resp) Φ w1) as Hcount.
  { intros resp Φ HΦ. apply wp_bind. case_decide as Hm.
    - apply HΦ; [done|by constructor].
    - eapply wp_piece; [reflexivity|]. apply HΦ; [done|by constructor]. }
  destruct r as [resp|[err| | | | | | | | |]]; cbn [is_Exception handled andb].
  all: try (split_and!; [done|done|by constructor]).
  all: apply Hcount; intros w' -> Hf; split_and!; [done| |done].
  all: by case_decide; rewrite ?bool_decide_eq_true_2, ?bool_decide_eq_false_2 by auto.
Qed.

(** C30: every request is answered, unless it is cancelled: the endpoint's response and
    the body of an [AppError] carry the request's identifier in [x-request-id] and are
    counted and timed under the route, [/metrics] itself excepted; any other exception
    becomes a 500 that names neither the exception nor its message, but this answer has
    no identifier header and is missing from the request counters. *)
Theorem request_answered (e : Endpoint) (req : HttpRequest) (w : W) :
  let request_id := id_of_request req w in
  let '(r, w1) := run (call_endpoint e req request_id) (request_entered w) in
  ∃ w', run (handle_request e req) w = (answer_of request_id r, w')
        ∧ w_metrics w' = request_counted e req (float_sub (perf (w_env w1) 0) (perf (w_env w) 0)) r
                           (w_metrics w1)
        ∧ answered_frame w1 w'.
Proof. apply request_run. Qed.

(** ** The statuses of the service *)

Definition statuses (e : Endpoint) : list Z :=
  match e with
  | Live | Ready | GetMetrics => [200]
  | SubmitEvaluation _ => [202; 400; 401; 429]
  | ListEvaluations _ _ _ => [200; 400; 401; 429]
  | GetEvaluationDetails _ _ | GetEvaluation _ _ => [200; 400; 401; 404; 429]
  | Unrouted _ => [response_status no_route]
  end%Z.

(** FastAPI has validated the parameters. *)
Definition valid_endpoint (e : Endpoint) : bool :=
  match e with
  | SubmitEvaluation payload => valid_submit payload
  | ListEvaluations tenant project limit => valid_listing_query tenant project limit
  | _ => true
  end.

(** The two requests that fail: a token whose JSON is nested too deeply, and a submission
    for a tenant, named by the token, that the model excludes. *)
Definition token_too_deep (req : HttpRequest) (w : W) : Prop :=
  get_request_context json_depth st (authorization req) (w_clock w 0) = Raise RecursionExn.
Definition unfit_tenant (e : Endpoint) (req : HttpRequest) (w : W) : Prop :=
  ∃ payload t, e = SubmitEvaluation payload
    ∧ admission st json_depth w req (sub_tenant_id payload) (u"submit_evaluation")
        (rate_limit_submit_per_minute st) = Ok t
    ∧ len_ok 1 128 t = false.

Definition outcome_ok (e : Endpoint) (req : HttpRequest) (w : W) (r : res Response) : Prop :=
  (handled r = true ∧ http_status r ∈ statuses e)
  ∨ (handled r = false ∧ r ≠ Raise CancelledExn ∧ (token_too_deep req w ∨ unfit_tenant e req w)).

Context (key : bytes) (Hkey : utf8_encode (auth_demo_secret st) = Ok key).

Lemma admission_error w req tenant route limit e :
  admission st json_depth w req tenant route limit = Raise e →
  (∃ err, e = AppExn err ∧ status_code (err_class err) ∈ [400; 401; 429]%Z)
  ∨ (e = RecursionExn ∧ token_too_deep req w).
Proof.
  unfold admission, token_too_deep. intros [Hc|(ctx & _ & [Ht|(t & _ & Hl)]%res_bind_Raise)]%res_bind_Raise.
  - destruct (get_request_context_errors json_depth st (authorization req) (w_clock w 0) key Hkey e Hc)
      as [[m ->] | ->]; [left|by right].
    eexists. split; [reflexivity|]. apply (bool_decide_unpack _). reflexivity.
  - left. destruct ctx, tenant; simplify_eq/=.
    eexists. split; [reflexivity|]. apply (bool_decide_unpack _). reflexivity.
  - left. destruct (limit_reached _ _ _ _ _ _); simplify_eq.
    eexists. split; [reflexivity|]. apply (bool_decide_unpack _). reflexivity.
Qed.

(** An endpoint whose request is not admitted. *)
Lemma outcome_refused e req w tenant route limit x :
  (∀ n, n ∈ [400; 401; 429]%Z → n ∈ statuses e) →
  admission st json_depth w req tenant route limit = Raise x → outcome_ok e req w (Raise x).
Proof.
  intros Hst Ha. destruct (admission_error _ _ _ _ _ _ Ha) as [(err & -> & Hin)|[-> Hdeep]].
  - left. split; [done|]. by apply Hst.
  - right. split_and!; [done|done|by left].
Qed.

Lemma outcome_read {A} e req w tenant route limit id (k : pystr → EvaluationJob → A) (render : A → Response) :
  (∀ n, n ∈ [400; 401; 404; 429]%Z → n ∈ statuses e) →
  (∀ a, response_status (render a) ∈ statuses e) →
  outcome_ok e req w (a ← (t ← admission st json_depth w req tenant route limit;
                           j ← owned (view (w_repo w)) id t; Ok (k t j)); Ok (render a)).
Proof.
  intros Hst Hok. destruct (admission _ _ _ _ _ _ _) as [t|x] eqn:Ha; unfold_res.
  - unfold owned. destruct (view (w_repo w) !! id) as [j|]; [case_decide|]; unfold_res;
      (left; split; [done|]); [apply Hok|apply Hst..]; by repeat constructor.
  - eapply outcome_refused; [|exact Ha]. intros n Hn. apply Hst. set_solver.
Qed.

(** Rendering keeps the outcome. *)
Lemma wp_rendered {A} (c : co W A) (render : A → Response) e req w0 w :
  wp c (λ r _, outcome_ok e req w0 (a ← r; Ok (render a))) w →
  wp (a ← c; mret (render a)) (λ r _, outcome_ok e req w0 r) w.
Proof. intros Hc. apply wp_bind. eapply wp_mono; [exact Hc|]. by intros [a|x]. Qed.

Lemma wp_endpoint_ok e req request_id w :
  repo_inv (w_repo w) → reliable (w_repo w) → view (w_repo w) !! uuids (w_env w) 0 = None →
  valid_endpoint e = true →
  wp (call_endpoint e req request_id) (λ r _, outcome_ok e req w r) w.
Proof.
  intros Hi Hr Hfresh Hv.
  destruct e as [| | |payload|tenant project limit|id tenant|id tenant|path]; cbn [App.call_endpoint].
  - left. split; [done|]. by apply list_elem_of_singleton.
  - apply wp_bind, wp_atomically. unfold in_repo, zoom, repo_part.
    destruct (health_check (w_repo w, w_clock w)) as [r [s' c']] eqn:E.
    destruct (health_check_spec _ _ _ _ _ Hi E) as (_ & _ & _ & b & -> & Hb). rewrite (Hb Hr).
    left. split; [done|]. by apply list_elem_of_singleton.
  - apply wp_atomically. left. split; [done|]. by apply list_elem_of_singleton.
  - apply wp_rendered. eapply wp_mono; [by apply wp_submit_evaluation|]. intros r w' Hs.
    unfold submit_spec in Hs. destruct (admission _ _ _ _ _ _ _) as [t|x] eqn:Ha.
    + destruct (len_ok 1 128 t) eqn:Ht.
      * destruct Hs as (t1 & t2 & -> & _). left. split; [done|]. by left.
      * destruct Hs as [-> _]. right. split_and!; [done|done|]. right. by exists payload, t.
    + destruct Hs as [-> _]. eapply outcome_refused; [|exact Ha]. set_solver.
  - apply wp_rendered. eapply wp_mono; [by apply wp_list_evaluations|]. intros r w' [_ Hs].
    unfold list_spec in Hs. destruct (admission _ _ _ _ _ _ _) as [t|x] eqn:Ha.
    + destruct Hs as (js & _ & _ & _ & ->). left. split; [done|]. by left.
    + subst r. eapply outcome_refused; [|exact Ha]. set_solver.
  - apply wp_rendered. eapply wp_mono; [by apply wp_details|]. intros r w' [-> _].
    apply outcome_read; [set_solver|]. intros a. by left.
  - apply wp_rendered. eapply wp_mono; [by apply wp_get_evaluation|]. intros r w' [-> _].
    apply outcome_read; [set_solver|]. intros a. by left.
  - left. split; [done|]. by apply list_elem_of_singleton.
Qed.

(** C16: over a reliable repository every request with validated parameters is answered
    with one of the few statuses of its endpoint and with its identifier in
    [x-request-id]; in particular the responses always render and no stored job makes a
    read fail.  Two requests are answered 500 instead: one whose token's JSON is nested
    deeper than the parser goes, and a submission whose token names a tenant that is
    longer than the model admits. *)
Theorem request_status (e : Endpoint) (req : HttpRequest) (w : W) :
  repo_inv (w_repo w) → reliable (w_repo w) → view (w_repo w) !! uuids (w_env w) 1 = None →
  valid_endpoint e = true →
  ∃ resp w', run (handle_request e req) w = (Ok resp, w')
  ∧ ((response_status resp ∈ statuses e
      ∧ dict_get (u"x-request-id") (response_headers resp) = Some (id_of_request req w))
     ∨ (response_status resp = 500%Z ∧ (token_too_deep req w ∨ unfit_tenant e req w))).
Proof.
  intros Hi Hr Hfresh Hv.
  pose proof (wp_endpoint_ok e req (id_of_request req w) (request_entered w) Hi Hr Hfresh Hv) as Hok.
  unfold wp in Hok. pose proof (request_run e req w) as Hrun. cbv beta iota zeta in Hrun.
  destruct (run (call_endpoint e req (id_of_request req w)) (request_entered w)) as [r w1].
  destruct Hrun as (w' & Hrun & _). cbn [fst] in Hok. rewrite Hrun. unfold answer_of, set_header.
  destruct Hok as [[Hh Hst]|(Hh & Hc & Hwhy)].
  - destruct r as [resp|[]]; simplify_eq; eexists _, w'; (split; [reflexivity|]); left;
      (split; [exact Hst|]); simpl; [|done]. by rewrite dict_get_set, decide_True.
  - destruct r as [resp|[]]; simplify_eq; eexists _, w'; (split; [reflexivity|]); by right.
Qed.

(** ** The types of the answers *)

(** What the models declare of a job in a response. *)
Record summary_ok (s : EvaluationJobSummary) : Prop := {
  summary_result : SUCCEEDED = s_status s ↔ ∃ r, s_result s = Some r ∧ valid_result r = true;
  summary_error : s_status s = FAILED → is_Some (s_error_message s);
  summary_attempts : (0 ≤ s_attempt_count s ≤ s_max_attempts s)%Z ∧ (s_max_attempts s < 2 ^ 31)%Z;
}.

(** The success responses a route declares: status, response model and its constraints. *)
Definition declared (e : Endpoint) (request_id : pystr) (resp : Response) : Prop :=
  match e, response_body resp with
  | Live, JsonBody j => response_status resp = 200%Z ∧ j = JObj [(u"status", JStr (u"ok"))]
  | Ready, JsonBody j =>
      (response_status resp, j) ∈ [(200%Z, JObj [(u"status", JStr (u"ready"))]);
                                   (503%Z, JObj [(u"status", JStr (u"not_ready"))])]
  | GetMetrics, TextBody media_type _ =>
      response_status resp = 200%Z ∧ media_type = u"text/plain; version=0.0.4"
  | SubmitEvaluation _, SubmitBody r =>
      response_status resp = 202%Z ∧ submitted_status r = QUEUED ∧ submitted_request_id r = request_id
  | ListEvaluations _ _ limit, ListBody r =>
      response_status resp = 200%Z ∧ Forall summary_ok (jobs r)
      ∧ (Z.of_nat (length (jobs r)) ≤ limit)%Z ∧ list_request_id r = request_id
  | GetEvaluationDetails id _, DetailBody r =>
      response_status resp = 200%Z ∧ summary_ok (d_job r) ∧ s_job_id (d_job r) = id
      ∧ valid_request (d_request r) = true ∧ d_request_id r = request_id
  | GetEvaluation id _, JobBody r =>
      response_status resp = 200%Z ∧ summary_ok (r_job r) ∧ s_job_id (r_job r) = id
      ∧ len_ok 1 128 (sum_tenant_id (r_request r)) = true
      ∧ len_ok 1 128 (sum_project_id (r_request r)) = true
      ∧ opt_len_ok 0 10000 (sum_rubric (r_request r)) = true ∧ r_request_id r = request_id
  | Unrouted _, b => response_status resp = response_status no_route ∧ b = response_body no_route
  | _, _ => False
  end.

(** An error response: the code, the public message and the identifier, and the status of
    the error's class. *)
Definition declared_error (request_id : pystr) (resp : Response) : Prop :=
  ∃ c j, response_status resp = status_code c ∧ response_body resp = JsonBody j
         ∧ is_error_body c request_id j.

Definition typed (e : Endpoint) (request_id : pystr) (r : res Response) : Prop :=
  match r with Ok resp => declared e request_id resp | Raise x => x ≠ CancelledExn end.

Lemma summary_of_ok j : job_ok j → summary_ok (summary_of j).
Proof.
  intros [Hv Ha _ Hr Hf _ _ H32]. constructor; simpl; [|done|done].
  apply andb_true_iff in Hv as [_ Hv]. destruct (result j) as [r|]; split.
  - intros _. by exists r.
  - intros _. symmetry. by apply Hr.
  - intros E. symmetry in E. apply Hr in E as [? ?]. done.
  - by intros (? & ? & _).
Qed.

Lemma admission_not_cancelled (w : W) req tenant route limit x :
  admission st json_depth w req tenant route limit = Raise x → x ≠ CancelledExn.
Proof. intros [(err & -> & _)|[-> _]]%admission_error; done. Qed.

(** Rendering a handler's result as a response of its type. *)
Lemma wp_typed {A} (c : co W A) (render : A → Response) e rid (w : W) :
  wp c (λ r _, typed e rid (a ← r; Ok (render a))) w →
  wp (a ← c; mret (render a)) (λ r _, typed e rid r) w.
Proof. intros Hc. apply wp_bind. eapply wp_mono; [exact Hc|]. by intros [a|x]. Qed.

(** What [owned] finds is well formed. *)
Lemma wp_typed_read {A} (render : EvaluationJob → res A) (final : A → Response) e rid id
    route limit tenant req (w : W) :
  repo_inv (w_repo w) →
  (∀ j, job_ok j → job_id j = id → ∃ a, render j = Ok a ∧ declared e rid (final a)) →
  wp (context ← atomically (request_context st json_depth req);
      t ← atomically (enter st req context tenant route limit);
      x ← EvaluationJobService.get_for_tenant id t;
      atomically (j ← EvaluationJobService.read x; of_res (render j)))
     (λ r _, typed e rid (a ← r; Ok (final a))) w.
Proof.
  intros Hi Hren. apply wp_admission. intros w1 Hf.
  destruct (admission _ _ _ _ _) as [t|x] eqn:Ha; [|by eapply admission_not_cancelled].
  apply (wp_render _ _ _ _ w); [done..|]. intros w' _.
  destruct (owned (view (w_repo w)) id t) as [j|x] eqn:Ho; unfold_res.
  - destruct (owned_ok w id t j Hi Ho) as (Hok & _ & Hj). destruct (repo_inv_ok _ Hi _ _ Hj) as [Hid _].
    by destruct (Hren j Hok Hid) as (a & -> & ?).
  - unfold owned in Ho. repeat case_match; by simplify_eq.
Qed.

Lemma wp_endpoint_typed e req rid (w : W) :
  repo_inv (w_repo w) → view (w_repo w) !! uuids (w_env w) 0 = None → valid_endpoint e = true →
  wp (call_endpoint e req rid) (λ r _, typed e rid r) w.
Proof.
  intros Hi Hfresh Hv.
  destruct e as [| | |payload|tenant project limit|id tenant|id tenant|path]; cbn [App.call_endpoint].
  - done.
  - apply wp_bind, wp_atomically. unfold in_repo, zoom, repo_part.
    destruct (health_check (w_repo w, w_clock w)) as [r [s' c']] eqn:E.
    destruct (health_check_spec _ _ _ _ _ Hi E) as (_ & _ & _ & b & -> & _).
    destruct b; [by left|by right; left].
  - by apply wp_atomically.
  - apply wp_typed, wp_admission. intros w1 Hf.
    destruct (admission _ _ _ _ _) as [t|x] eqn:Ha; [|by eapply admission_not_cancelled].
    apply wp_bind, wp_atomically. unfold of_res, to_evaluation_request, validate_request. cbn [fst snd].
    destruct (valid_request _) eqn:Hreq; [|done].
    apply (wp_submit _ _ _ w); [done..|]. intros t1 t2 w' job _. done.
  - apply wp_typed, wp_admission. intros w1 Hf.
    destruct (admission _ _ _ _ _) as [t|x] eqn:Ha; [|by eapply admission_not_cancelled].
    apply (wp_listing _ _ _ _ _ w); [done|done| |done|].
    + unfold valid_endpoint, valid_listing_query in Hv. to_prop. lia.
    + intros js w' _ Hlist _ Hlen. split_and!; [done| |simpl; by rewrite length_fmap|done].
      simpl. apply Forall_forall. intros s (j & -> & Hj)%list_elem_of_fmap.
      destruct (is_listing_elem _ _ _ _ _ _ Hlist Hj) as [_ [id Hid]].
      apply summary_of_ok. by destruct (repo_inv_ok _ Hi _ _ Hid).
  - apply wp_typed, (wp_typed_read (λ j, to_detail_response j rid)); [done|].
    intros j Hok Hid. rewrite to_detail_response_ok by apply (ok_valid _ Hok). eexists. split; [done|].
    split_and!; [done|by apply summary_of_ok|done|apply job_valid_request, (ok_valid _ Hok)|done].
  - apply wp_typed, (wp_typed_read (λ j, to_response j rid)); [done|].
    intros j Hok Hid. rewrite to_response_ok by apply (ok_valid _ Hok). eexists. split; [done|].
    pose proof (job_valid_request _ (ok_valid _ Hok)) as Hreq. unfold valid_request in Hreq. to_prop.
    by split_and!; [|apply summary_of_ok|..].
  - done.
Qed.

(** C17: every request with validated parameters gets a response of the declared type, also when
    the storage fails: either the status and the response model of its route, with every
    job in it within the models' constraints (scores, attempts, a result exactly when it
    succeeded, a message when it failed) and under the identifier that was asked for; or an
    error body with the code and public message of one of the error classes and that
    class's status; both with the request's identifier. *)
Theorem answers_typed (e : Endpoint) (req : HttpRequest) (w : W) :
  repo_inv (w_repo w) → view (w_repo w) !! uuids (w_env w) 1 = None → valid_endpoint e = true →
  ∃ resp w', run (handle_request e req) w = (Ok resp, w')
             ∧ (declared e (id_of_request req w) resp ∨ declared_error (id_of_request req w) resp).
Proof.
  intros Hi Hfresh Hv.
  pose proof (wp_endpoint_typed e req (id_of_request req w) (request_entered w) Hi Hfresh Hv) as Ht.
  unfold wp in Ht. pose proof (request_run e req w) as Hrun. cbv beta iota zeta in Hrun.
  destruct (run (call_endpoint e req (id_of_request req w)) (request_entered w)) as [r w1].
  destruct Hrun as (w' & Hrun & _). cbn [fst] in Ht. rewrite Hrun. unfold answer_of.
  assert (∀ c, declared_error (id_of_request req w) (of_json_response (error_response
    (id_of_request req w) (status_code c) (code c) (public_message c)))) as Herr
    by (intros c; by eexists c, _).
  destruct r as [resp|[err| | | | | | | | |]]; try (by destruct Ht);
    eexists _, w'; (split; [reflexivity|]); [by left|right..];
    [exact (Herr (err_class err))|exact (Herr AppErrorBase)..].
Qed.
End Answers.

(** ** Stopping *)

(** Stopping a worker process whose worker has failed raises the failure, before the
    repository is closed. *)
Lemma stop_after_failure {R} `{JobRepository R} (fuel : nat) (e : exn) (w : World R) :
  worker_task (w_worker w) = Some (TaskDone (Some e)) →
  ∃ w', run (run_worker_stop (S fuel)) w = (Raise e, w')
        ∧ repo_part w' = repo_part w ∧ w_logs w' = w_logs w.
Proof.
  intros Ht.
  enough (wp (run_worker_stop (S fuel)) (λ r w', r = Raise e ∧ repo_part w' = repo_part w
    ∧ w_logs w' = w_logs w) w) as (r & w' & Hw' & -> & ? & ?)%wp_run by eauto.
  assert (∃ w1, Worker.stop w = (Ok true, w1) ∧ worker_task (w_worker w1) = Some (TaskDone (Some e))
    ∧ repo_part w1 = repo_part w ∧ w_logs w1 = w_logs w) as (w1 & Hstop & Ht1 & Hr1 & Hl1).
  { destruct w as [? ? ? ? [task stopping] ? ? ? ? ? ?]. simpl in Ht. subst task.
    by eexists. }
  apply wp_bind, wp_bind. eapply wp_piece; [exact Hstop|]. cbn [await_task].
  apply wp_bind. eapply wp_piece; [reflexivity|]. cbv beta. by rewrite Ht1.
Qed.

Definition not_found_page : Response :=
  mkResponse 404 (JsonBody (JObj [(u"detail", JStr (u"Not Found"))])) [].

(** Reading the submitted job, and a job that does not exist. *)
Lemma request_status_witness :
  ∃ resp w', run (handle_request default_settings 100 not_found_page (GetEvaluation 0%N (Some (u"tenant-a")))
                    sample_req) submitted_world = (Ok resp, w')
  ∧ (response_status resp ∈ [200; 400; 401; 404; 429]%Z
     ∨ token_too_deep default_settings 100 sample_req submitted_world
     ∨ unfit_tenant default_settings 100 (GetEvaluation 0%N (Some (u"tenant-a"))) sample_req submitted_world).
Proof.
  destruct (request_status default_settings 100 not_found_page (u"local-demo-secret")
    ltac:(vm_compute; reflexivity) (GetEvaluation 0%N (Some (u"tenant-a"))) sample_req submitted_world)
    as (resp & w' & Hrun & Hres).
  - apply submitted_world_inv.
  - exact I.
  - vm_compute. reflexivity.
  - reflexivity.
  - exists resp, w'. split; [exact Hrun|]. destruct Hres as [[Hst _]|[_ Hwhy]]; [left; exact Hst|right; exact Hwhy].
Defined.

(** The answer to a reader of the submitted job, with a listing beside it. *)
Lemma answers_typed_witness :
  (∃ resp w', run (handle_request default_settings 100 not_found_page (GetEvaluation 0%N (Some (u"tenant-a")))
                    sample_req) submitted_world = (Ok resp, w')
  ∧ (declared not_found_page (GetEvaluation 0%N (Some (u"tenant-a"))) (id_of_request sample_req submitted_world) resp
     ∨ declared_error (id_of_request sample_req submitted_world) resp))
  ∧ ∃ resp w', run (handle_request default_settings 100 not_found_page (ListEvaluations (Some (u"tenant-a")) None 10)
                    sample_req) submitted_world = (Ok resp, w')
  ∧ (declared not_found_page (ListEvaluations (Some (u"tenant-a")) None 10) (id_of_request sample_req submitted_world) resp
     ∨ declared_error (id_of_request sample_req submitted_world) resp).
Proof.
  split; apply (answers_typed default_settings 100 not_found_page (u"local-demo-secret")
                  ltac:(vm_compute; reflexivity));
    [apply submitted_world_inv|vm_compute; reflexivity|reflexivity
    |apply submitted_world_inv|vm_compute; reflexivity|reflexivity].
Defined.
