(* ===== verification/Assembly.v ===== *)
(** The application [create_app] of [app/main.py] assembles: which middleware, exception
    handlers and routers it registers and in which order, and what Starlette makes of the
    registrations.  [App.handle_request] is the same thing with the identifier of the
    request named once; here it is found in [request.state], as the code does. *)
From S2P Require Export App LogConfig.

(** ** Registrations *)

Inductive MiddlewareClass :=
| CORSMiddleware (allow_origins : list pystr) (allow_credentials : bool) (allow_methods allow_headers : list pystr)
| RequestIdMiddlewareClass
| MetricsMiddlewareClass.

Inductive ExceptionClass := AppErrorClass_ | ExceptionClass_.
#[export] Instance ExceptionClass_eq_dec : EqDecision ExceptionClass.
Proof. solve_decision. Defined.

Inductive ExceptionHandler := AppErrorHandler | UnhandledErrorHandler.

Inductive Router := HealthRouter | MetricsRouter | EvaluationRouter.
#[export] Instance Router_eq_dec : EqDecision Router.
Proof. solve_decision. Defined.

(** An application, in the order of the registrations. *)
Record FastAPI := mkFastAPI {
  user_middleware : list MiddlewareClass;
  exception_handlers : list (ExceptionClass * ExceptionHandler);
  routers : list Router;
  (** The provider [configure_tracing] installed, with the URLs it leaves alone. *)
  tracing : option TracerProvider;
}.

Definition add_middleware (m : MiddlewareClass) (a : FastAPI) : FastAPI :=
  mkFastAPI (user_middleware a ++ [m]) (exception_handlers a) (routers a) (tracing a).
Definition add_exception_handler (c : ExceptionClass) (h : ExceptionHandler) (a : FastAPI) : FastAPI :=
  mkFastAPI (user_middleware a) (dict_set c h (exception_handlers a)) (routers a) (tracing a).
Definition include_router (r : Router) (a : FastAPI) : FastAPI :=
  mkFastAPI (user_middleware a) (exception_handlers a) (routers a ++ [r]) (tracing a).
Definition instrument (p : option TracerProvider) (a : FastAPI) : FastAPI :=
  mkFastAPI (user_middleware a) (exception_handlers a) (routers a) p.

Definition create_app (st : Settings) : res FastAPI :=
  let app := mkFastAPI [] [] [] None in
  let app := add_middleware (CORSMiddleware (cors_allowed_origins st) false
               [u"GET"; u"POST"; u"OPTIONS"] [u"content-type"; u"x-request-id"]) app in
  let app := add_middleware RequestIdMiddlewareClass app in
  let app := add_middleware MetricsMiddlewareClass app in
  let app := add_exception_handler AppErrorClass_ AppErrorHandler app in
  let app := add_exception_handler ExceptionClass_ UnhandledErrorHandler app in
  let app := include_router HealthRouter app in
  let app := include_router MetricsRouter app in
  let app := include_router EvaluationRouter app in
  provider ← configure_tracing (service_name st) (otel_enabled st) (otel_exporter st) (otel_otlp_endpoint st);
  Ok (instrument provider app).

(** ** One request *)

(** Code on the process state, run with the state of a request beside it. *)
Fixpoint co_lift {S T A} (c : co S A) : co (S * T) A :=
  match c with
  | Done r => Done r
  | Step next eff => Step (λ s, co_lift (next s.1)) (λ s, (eff s.1, s.2))
  end.

Lemma run_lift {S T A} (c : co S A) (s : S) (t : T) :
  run (co_lift c) (s, t) = let '(r, s') := run c s in (r, (s', t)).
Proof. revert s. induction c as [r|next IH eff]; intros s; simpl; auto. Qed.

Section Request.
Context {R : Type} `{JobRepository R} (st : Settings) (json_depth : nat) (no_route : Response).
(** [CORSMiddleware.__call__]: Starlette's. *)
Context (cors : MiddlewareClass → HttpRequest → co (World R * option pystr) Response →
                co (World R * option pystr) Response).
Notation W := (World R).
(** The process and [request.state.request_id]. *)
Notation RS := (World R * option pystr)%type.

Definition lift {A} (m : M W A) : M RS A := λ '(w, x), let '(r, w') := m w in (r, (w', x)).
Definition set_request_id (rid : pystr) : M RS unit := modify (λ s, (s.1, Some rid)).

(** [RequestIdMiddleware.dispatch]. *)
Definition request_id_dispatch (req : HttpRequest) (call_next : co RS Response) : co RS Response :=
  request_id ← atomically (request_id ← lift (resolve_request_id req);
                           set_request_id request_id;; mret request_id);
  response ← call_next;
  mret (set_header (u"x-request-id") request_id response).

(** [MetricsMiddleware.dispatch]. *)
Definition metrics_dispatch (e : Endpoint) (req : HttpRequest) (call_next : co RS Response)
    : co RS Response :=
  started_at ← atomically (lift perf_counter);
  response ← call_next;
  (if decide (route_path e = u"/metrics") then mret tt
   else atomically (lift (
     t ← perf_counter;
     metric (record_http_request (http_method req) (route_path e) (response_status response)
               (float_sub t started_at)))));;
  mret response.

Definition dispatch (m : MiddlewareClass) (e : Endpoint) (req : HttpRequest) (call_next : co RS Response)
    : co RS Response :=
  match m with
  | CORSMiddleware _ _ _ _ => cors m req call_next
  | RequestIdMiddlewareClass => request_id_dispatch req call_next
  | MetricsMiddlewareClass => metrics_dispatch e req call_next
  end.

(** The registered exception handlers, on the exception and the request's state. *)
Definition handle (h : ExceptionHandler) (x : exn) : co RS Response :=
  atomically (λ s, (match h, x with
                    | AppErrorHandler, AppExn err => Ok (of_json_response (app_error_handler s.2 err))
                    | AppErrorHandler, x => Raise x
                    | UnhandledErrorHandler, x => Ok (of_json_response (unhandled_error_handler s.2 x))
                    end, s)).

(** The router an endpoint belongs to. *)
Definition router_of (e : Endpoint) : option Router :=
  match e with
  | Live | Ready => Some HealthRouter
  | GetMetrics => Some MetricsRouter
  | SubmitEvaluation _ | ListEvaluations _ _ _ | GetEvaluationDetails _ _ | GetEvaluation _ _ =>
      Some EvaluationRouter
  | Unrouted _ => None
  end.

(** The endpoint, which reads [request.state.request_id]. *)
Definition endpoint (e : Endpoint) (req : HttpRequest) : co RS Response :=
  request_id ← atomically (gets snd);
  co_lift (call_endpoint st json_depth no_route e req (request_id_or_unknown request_id)).

Definition route (a : FastAPI) (e : Endpoint) (req : HttpRequest) : co RS Response :=
  match router_of e with
  | Some r => if decide (r ∈ routers a) then endpoint e req else mret no_route
  | None => mret no_route
  end.

(** What Starlette documents of the stack it builds: outermost the handler of [Exception]
    ([ServerErrorMiddleware]), then the middleware, the one added last first, then the
    handlers of other exceptions ([ExceptionMiddleware]) around the router. *)
Definition server_errors (a : FastAPI) (c : co RS Response) : co RS Response :=
  match dict_get ExceptionClass_ (exception_handlers a) with
  | Some h => co_except c (handle h)
  | None => c
  end.
Definition exception_middleware (a : FastAPI) (c : co RS Response) : co RS Response :=
  match dict_get AppErrorClass_ (exception_handlers a) with
  | Some h => co_except c (λ x, match x with AppExn _ => handle h x | x => Done (Raise x) end)
  | None => c
  end.
Definition middleware_stack (a : FastAPI) (e : Endpoint) (req : HttpRequest) : co RS Response :=
  server_errors a
    (foldl (λ inner m, dispatch m e req inner) (exception_middleware a (route a e req)) (user_middleware a)).

(** A framework that builds this stack. *)
Context (application : FastAPI → Endpoint → HttpRequest → co RS Response).
Context (application_stack : ∀ a e req s,
  run (application a e req) s = run (middleware_stack a e req) s).
(** CORS only adds headers to the responses of requests that name an origin. *)
Context (no_origin : HttpRequest → Prop).
Context (cors_transparent : ∀ m req c s, no_origin req → run (cors m req c) s = run c s).

(** Pieces commute with the state of the request. *)
Lemma run_lift_piece {A} (m : M W A) w x :
  run (atomically (lift m)) (w, x) = let '(r, w') := run (atomically m) w in (r, (w', x)).
Proof. rewrite !run_atomically. reflexivity. Qed.

(** What leaves the routes, with the identifier on it. *)
Definition identified (rid : pystr) (r : res Response) : res Response :=
  match r with
  | Ok resp => Ok (set_header (u"x-request-id") rid resp)
  | Raise (AppExn err) =>
      Ok (set_header (u"x-request-id") rid (of_json_response (app_error_handler (Some rid) err)))
  | Raise x => Raise x
  end.

Lemma identified_run e req rid w :
  run (RequestIdMiddleware rid (handle_app_errors rid (call_endpoint st json_depth no_route e req rid))) w
  = let '(r, w') := run (call_endpoint st json_depth no_route e req rid) w in (identified rid r, w').
Proof.
  unfold RequestIdMiddleware, handle_app_errors. rewrite run_bind, run_except.
  destruct (run (call_endpoint _ _ _ _ _ _) w) as [[resp|[]] w']; reflexivity.
Qed.

(** The registrations of [create_app]. *)
Record assembled (a : FastAPI) : Prop := {
  assembled_middleware :
    ∃ origins credentials methods headers,
      user_middleware a = [CORSMiddleware origins credentials methods headers;
                           RequestIdMiddlewareClass; MetricsMiddlewareClass];
  assembled_app_errors : dict_get AppErrorClass_ (exception_handlers a) = Some AppErrorHandler;
  assembled_errors : dict_get ExceptionClass_ (exception_handlers a) = Some UnhandledErrorHandler;
  assembled_routers r : r ∈ routers a;
}.

Lemma create_app_assembled a : create_app st = Ok a → assembled a.
Proof.
  intros (p & _ & [= <-])%res_bind_Ok. split; cbn; [by do 4 eexists|done|done|].
  intros []; set_solver.
Qed.

Lemma route_run a e req w rid :
  assembled a →
  run (exception_middleware a (route a e req)) (w, Some rid)
  = let '(r, w') := run (call_endpoint st json_depth no_route e req rid) w in
    (match r with Raise (AppExn err) => Ok (of_json_response (app_error_handler (Some rid) err)) | r => r end,
     (w', Some rid)).
Proof.
  intros Ha. unfold exception_middleware. rewrite (assembled_app_errors _ Ha), run_except.
  assert (run (route a e req) (w, Some rid)
          = let '(r, w') := run (call_endpoint st json_depth no_route e req rid) w in (r, (w', Some rid))) as ->.
  { unfold route. destruct (router_of e) as [r|] eqn:He.
    - rewrite decide_True by apply (assembled_routers _ Ha). unfold endpoint. rewrite run_bind, run_atomically.
      apply run_lift.
    - by destruct e. }
  destruct (run (call_endpoint _ _ _ _ _ _) w) as [[resp|[]] w']; reflexivity.
Qed.

(** The stack inside [MetricsMiddleware]. *)
Lemma inner_run a e req w m :
  assembled a → no_origin req →
  run (request_id_dispatch req (cors m req (exception_middleware a (route a e req))))
    ((perf_counter w).2, None)
  = let rid := id_of_request req w in
    let '(r, w') := run (call_endpoint st json_depth no_route e req rid) (request_entered w) in
    (identified rid r, (w', Some rid)).
Proof.
  intros Ha Ho. unfold request_id_dispatch. rewrite run_bind, run_atomically.
  change ((request_id ← lift (resolve_request_id req); set_request_id request_id;; mret request_id)
            ((perf_counter w).2, None))
    with (@Ok pystr (id_of_request req w), (request_entered w, Some (id_of_request req w))).
  cbv beta iota zeta. rewrite run_bind, cors_transparent, route_run by done.
  destruct (run (call_endpoint _ _ _ _ _ _) _) as [[resp|[]] w']; reflexivity.
Qed.

(** C31: the application [create_app] assembles answers every request as [handle_request] does:
    with Starlette's order of the registrations (handlers of [Exception] outermost, the
    middleware added last first, handlers of [AppError] around the routes), requests
    without an [Origin] get the same response from the same state, in which
    [request.state.request_id] is the identifier every layer and handler has used; nothing
    keeps [create_app] from assembling it. *)
Theorem assembled_application (e : Endpoint) (req : HttpRequest) (w : W) :
  no_origin req →
  match create_app st with
  | Ok a =>
      run (application a e req) (w, None)
      = let '(r, w') := run (handle_request st json_depth no_route e req) w in
        (r, (w', Some (id_of_request req w)))
  | Raise _ => False
  end.
Proof.
  intros Ho. destruct (create_app st) as [a|x] eqn:Hc.
  - pose proof (create_app_assembled a Hc) as Ha. rewrite application_stack. unfold middleware_stack, server_errors.
    destruct (assembled_middleware _ Ha) as (o & cr & me & he & ->). rewrite (assembled_errors _ Ha).
    cbn [foldl dispatch]. rewrite run_except. unfold metrics_dispatch. rewrite run_bind, run_atomically.
    change (lift perf_counter (w, None))
      with (@Ok float (perf (w_env w) 0), ((perf_counter w).2, None : option pystr)).
    cbv beta iota. rewrite run_bind, inner_run by done. cbv zeta.
    unfold handle_request. rewrite run_bind, run_atomically.
    change (resolve_request_id req w) with (@Ok pystr (id_of_request req w), (uuid4 w).2).
    cbv beta iota. unfold handle_unhandled. rewrite run_except. unfold MetricsMiddleware.
    rewrite run_bind, run_atomically.
    change (perf_counter (uuid4 w).2) with (@Ok float (perf (w_env w) 0), request_entered w).
    cbv beta iota. rewrite run_bind, identified_run.
    destruct (run (call_endpoint _ _ _ _ _ _) _) as [r w1]. cbv beta iota.
    destruct (identified (id_of_request req w) r) as [resp|x]; cbv beta iota.
    + rewrite !run_bind. case_decide; [done|]. rewrite !run_atomically. done.
    + destruct (is_Exception x); [|done]. unfold handle. by rewrite run_atomically.
  - unfold create_app in Hc. apply res_bind_Raise in Hc as [Hc|(? & _ & ?)]; [|done].
    destruct (configure_tracing_ok (service_name st) (otel_enabled st) (otel_exporter st)
                (otel_otlp_endpoint st)) as [p Hp]. congruence.
Qed.
End Request.

(** ** The framework as documented, without CORS *)

Definition plain_cors {R} (m : MiddlewareClass) (req : HttpRequest)
    (c : co (World R * option pystr) Response) : co (World R * option pystr) Response := c.

Lemma assembled_application_witness :
  match create_app default_settings with
  | Ok a =>
      let '(r, (w', rid)) :=
        run (middleware_stack default_settings 100 not_found_page plain_cors a
               (GetEvaluation 0%N (Some (u"tenant-a"))) sample_req) (submitted_world, None) in
      rid = Some (uuid_str 1%N) ∧ is_ok r = true
      ∧ run (handle_request default_settings 100 not_found_page (GetEvaluation 0%N (Some (u"tenant-a"))) sample_req)
          submitted_world = (r, w')
  | Raise _ => False
  end.
Proof.
  pose proof (assembled_application default_settings 100 not_found_page plain_cors
    (middleware_stack default_settings 100 not_found_page plain_cors) (λ _ _ _ _, eq_refl) (λ _, True)
    (λ _ _ _ _ _, eq_refl) (GetEvaluation 0%N (Some (u"tenant-a"))) sample_req submitted_world I) as Heq.
  destruct (create_app default_settings) as [a|x] eqn:Hc.
  - destruct (run (middleware_stack _ _ _ _ _ _ _) _) as [r [w' rid]] eqn:Hrun.
    destruct (run (handle_request _ _ _ _ _) _) as [r2 w2] eqn:Hh.
    injection Heq as -> -> ->. split; [vm_compute; reflexivity|]. split; [|reflexivity].
    apply (f_equal (λ x, is_ok x.1)) in Hh. cbn [fst] in Hh. rewrite <- Hh. vm_compute. reflexivity.
  - exact Heq.
Defined.
