(* ===== verification/OpenApi.v ===== *)
(** The tool that exports the API's schema ([scripts/export_openapi.py]): [json.dumps] with an
    indentation and sorted keys, and what the check of the exported file relies on.  The schema
    itself is the one FastAPI generates for the application [create_app] assembles. *)
From S2P Require Export Assembly.


(** ** Keys in order *)

Definition by_key (p q : pystr * json) : bool := str_leb p.1 q.1.

(** What [sort_keys=True] writes: every object, at every depth, with its keys in order. *)
Fixpoint sort_keys (j : json) : json :=
  match j with
  | JList l => JList (map sort_keys l)
  | JObj fs => JObj (sort_by by_key (map (λ p, (p.1, sort_keys p.2)) fs))
  | j => j
  end.

(** Equality of values as Python compares them: the order of keys does not matter. *)
Inductive same_value : json → json → Prop :=
| same_refl j : same_value j j
| same_list l k : Forall2 same_value l k → same_value (JList l) (JList k)
| same_obj fs gs hs :
    Forall2 (λ p q, p.1 = q.1 ∧ same_value p.2 q.2) fs gs → gs ≡ₚ hs → same_value (JObj fs) (JObj hs).

Lemma by_key_total p q : by_key p q = true ∨ by_key q p = true.
Proof. exact (leb_total p.1 q.1). Qed.
Lemma by_key_trans p q r : by_key p q = true → by_key q r = true → by_key p r = true.
Proof. exact (leb_trans p.1 q.1 r.1). Qed.

Lemma key_unique (fs : list (pystr * json)) p q :
  NoDup fs.*1 → p ∈ fs → q ∈ fs → p.1 = q.1 → p = q.
Proof.
  intros Hnd Hp Hq E. destruct p as [a x], q as [b y]; simpl in E; subst b. f_equal.
  apply elem_of_list_to_map in Hp, Hq; [|done..]. congruence.
Qed.

(** The order a sort by distinct keys gives does not depend on the order it is given. *)
Lemma sort_by_key_unique fs gs :
  NoDup fs.*1 → fs ≡ₚ gs → sort_by by_key fs = sort_by by_key gs.
Proof.
  intros Hnd Hp. apply (StronglySorted_unique_strong (λ p q, by_key p q = true)).
  - intros p q Hp1 Hq1 H1 H2. rewrite elem_of_sort_by in Hp1, Hq1. rewrite <- Hp in Hq1.
    apply (key_unique fs); [done..|]. exact (leb_antisym p.1 q.1 H1 H2).
  - apply sort_by_sorted; [apply by_key_total|apply by_key_trans].
  - apply sort_by_sorted; [apply by_key_total|apply by_key_trans].
  - by rewrite !sort_by_perm.
Qed.

Local Notation sort_member := (λ p : pystr * json, (p.1, sort_keys p.2)).

Lemma sort_member_keys fs : (map sort_member fs).*1 = fs.*1.
Proof. induction fs as [|p fs IH]; [done|]. cbn. f_equal. exact IH. Qed.

Lemma sort_keys_same j k : plain j → same_value j k → sort_keys j = sort_keys k.
Proof.
  revert k. induction j as [|b|z|x|s|l IH|fs IH] using json_nested_ind; intros k Hp Hs;
    inversion Hs as [|? l' Hl|? gs hs Hg Hperm]; subst; try done.
  - inversion_clear Hp as [| | | | |? Hps|]. cbn [sort_keys]. f_equal. clear Hs.
    induction Hl as [|x y l l' Hxy Hl IHl]; [done|]. cbn [map].
    apply Forall_cons in IH as [Hx IH]. apply Forall_cons in Hps as [Hpx Hps].
    f_equal; [by apply Hx|by apply IHl].
  - inversion_clear Hp as [| | | | | |? Hnd _ Hps]. cbn [sort_keys]. f_equal. clear Hs.
    assert (map (λ p, (p.1, sort_keys p.2)) fs = map (λ p, (p.1, sort_keys p.2)) gs) as E.
    { clear Hnd Hperm. induction Hg as [|p q fs gs [H1 Hpq] Hg IHg]; [done|]. cbn [map].
      apply Forall_cons in IH as [Hx IH]. apply Forall_cons in Hps as [Hpx Hps].
      f_equal; [|by apply IHg]. by rewrite H1, (Hx q.2). }
    rewrite E. apply sort_by_key_unique; [|by apply Permutation_map].
    by rewrite <- E, sort_member_keys.
Qed.

Lemma same_sort_keys j k : sort_keys j = sort_keys k → same_value j k.
Proof.
  revert k. induction j as [|b|z|x|s|l IH|fs IH] using json_nested_ind; intros k E;
    destruct k as [|b'|z'|x'|s'|l'|gs]; simplify_eq/=; try constructor.
  - revert l' E. induction IH as [|x l Hx _ IHl]; intros [|y l'] E; simplify_eq/=; constructor; auto.
  - assert (map (λ p, (p.1, sort_keys p.2)) fs ≡ₚ map (λ p, (p.1, sort_keys p.2)) gs) as Hp.
    { by rewrite <- (sort_by_perm by_key (map _ fs)), E, sort_by_perm. }
    apply Permutation.Permutation_map_inv in Hp as (mid & Em & Hmid). apply (same_obj _ mid); [|done]. clear E Hmid.
    revert mid Em. induction IH as [|p l Hx _ IHl]; intros [|q mid] Em; simplify_eq/=; constructor; auto.
Qed.

(** Sorting the keys keeps the value, its well-formedness and its depth. *)
Lemma sort_keys_value j : same_value j (sort_keys j).
Proof.
  induction j as [|b|z|x|s|l IH|fs IH] using json_nested_ind; try constructor.
  - by apply Forall2_fmap_r, Forall_Forall2_diag.
  - apply (same_obj _ (map sort_member fs)); [|by rewrite sort_by_perm].
    apply Forall2_fmap_r, Forall_Forall2_diag. eapply Forall_impl; [exact IH|]. by intros p.
Qed.

Lemma sort_keys_plain j : plain j → plain (sort_keys j).
Proof.
  induction j as [|b|z|x|s|l IH|fs IH] using json_nested_ind; intros Hp; try done.
  - inversion_clear Hp as [| | | | |? Hps|]. constructor. apply Forall_map. rewrite Forall_forall in *. auto.
  - inversion_clear Hp as [| | | | | |? Hnd Hk Hps].
    constructor; rewrite sort_by_perm, ?sort_member_keys; [done|..]; apply Forall_map;
      rewrite Forall_forall in *; simpl; auto.
Qed.

Lemma depths_le {A} (f : A → json) l n :
  foldr (λ x n, depth (f x) `max` n) 0 l ≤ n ↔ Forall (λ x, depth (f x) ≤ n) l.
Proof. induction l as [|x l IH]; simpl; [by split; [constructor|lia]|]. rewrite Forall_cons, <- IH. lia. Qed.

Lemma sort_keys_depth j : ∀ n, depth j ≤ n → depth (sort_keys j) ≤ n.
Proof.
  induction j as [|b|z|x|s|l IH|fs IH] using json_nested_ind; intros n Hn; try done.
  - destruct n as [|n]; cbn [depth sort_keys] in *; [lia|]. apply le_n_S. apply le_S_n in Hn.
    apply (depths_le id) in Hn. apply (depths_le id), Forall_map. rewrite Forall_forall in *. intros x Hx.
    by apply IH, Hn.
  - destruct n as [|n]; cbn [depth sort_keys] in *; [lia|]. apply le_n_S. apply le_S_n in Hn.
    apply (depths_le snd) in Hn. apply (depths_le snd). rewrite sort_by_perm. apply Forall_map.
    rewrite Forall_forall in *. intros x Hx. by apply IH, Hn.
Qed.

(** ** The exported text *)

(** [json.dumps(schema, indent=2, sort_keys=True) + "\n"]. *)
Definition schema_text (schema : json) : pystr := dumps_indent 2 (sort_keys schema) ++ [10%N].

Lemma schema_text_loads d schema :
  plain schema → depth schema ≤ d → json_loads d (schema_text schema) = Parsed (sort_keys schema).
Proof.
  intros Hp Hd. apply (json_loads_write (line_break 2) [] [32%N]).
  - intros n. constructor; [done|]. by apply Forall_replicate.
  - constructor.
  - by repeat constructor.
  - by repeat constructor.
  - by apply sort_keys_plain.
  - by apply sort_keys_depth.
Qed.

(** The text is the same exactly for equal schemas. *)
Lemma schema_text_same j k :
  plain j → plain k → schema_text j = schema_text k ↔ same_value j k.
Proof.
  intros Hj Hk. split.
  - intros E. apply same_sort_keys.
    pose proof (schema_text_loads (depth j `max` depth k) j Hj ltac:(lia)) as H1.
    pose proof (schema_text_loads (depth j `max` depth k) k Hk ltac:(lia)) as H2.
    rewrite E, H2 in H1. by injection H1.
  - intros E. unfold schema_text. by rewrite (sort_keys_same j k).
Qed.

(** ** The tool *)

(** The working tree: its directories and the texts of its files, by path. *)
Record Files := mkFiles { directories : gset pystr; texts : gmap pystr pystr }.

(** [path.mkdir(parents=True, exist_ok=True)], for a path just below the root. *)
Definition mkdir (path : pystr) : M Files unit :=
  modify (λ fs, mkFiles ({[path]} ∪ directories fs) (texts fs)).

(** [(parent / name).write_text(text)]: the directory must exist. *)
Definition write_text (parent name text : pystr) : M Files unit := λ fs,
  if decide (parent ∈ directories fs)
  then (Ok tt, mkFiles (directories fs) (<[parent ++ u"/" ++ name := text]> (texts fs)))
  else (Raise (ProviderExn (u"FileNotFoundError")), fs).

Definition environ := list (pystr * pystr).

(** [os.environ.setdefault]. *)
Definition setdefault (k v : pystr) (env : environ) : environ :=
  match dict_get k env with Some _ => env | None => dict_set k v env end.

Module ExportOpenapi.
Section Main.
(** pydantic-settings' [Settings()], from the environment, and FastAPI's [app.openapi()]. *)
Context (get_settings : environ → res Settings) (openapi : FastAPI → json).

(** Importing [app.main] assembles its module-level [app]; [main] assembles another. *)
Definition main (env : environ) : M Files unit :=
  let env := setdefault (u"APP_OTEL_ENABLED") (u"false") env in
  _ ← of_res (st ← get_settings env; create_app st);
  mkdir (u"openapi");;
  app ← of_res (st ← get_settings env; create_app st);
  write_text (u"openapi") (u"openapi.json") (schema_text (openapi app)).
End Main.
End ExportOpenapi.

Definition openapi_json : pystr := u"openapi" ++ u"/" ++ u"openapi.json".

Lemma create_app_untraced st : otel_enabled st = false → ∃ a, create_app st = Ok a ∧ tracing a = None.
Proof. intros H. unfold create_app, configure_tracing. rewrite H. by eexists. Qed.

(** C40: when the settings are usable, the tool writes one file, which loads back as the schema
    of the application, its keys in order at every depth.  The check that the committed file is
    current therefore fails exactly when the schema has changed: a file exported from the
    schema [old] is left as it was if and only if the application's schema is the same value,
    whatever the order of its keys.  Unless the environment says otherwise tracing is off, so
    no exporter can keep the application from being assembled; when it cannot be, the tool
    stops before it touches a file. *)
Theorem exported_schema (get_settings : environ → res Settings) (openapi : FastAPI → json)
    (env : environ) (fs : Files) (d : nat) :
  (** the settings field of the variable [APP_OTEL_ENABLED] *)
  (∀ env st, get_settings env = Ok st → dict_get (u"APP_OTEL_ENABLED") env = Some (u"false") →
             otel_enabled st = false) →
  (∀ a, plain (openapi a) ∧ depth (openapi a) ≤ d) →
  let env' := setdefault (u"APP_OTEL_ENABLED") (u"false") env in
  match (st ← get_settings env'; create_app st) with
  | Ok app =>
      ∃ text, ExportOpenapi.main get_settings openapi env fs
              = (Ok tt, mkFiles ({[u"openapi"]} ∪ directories fs) (<[openapi_json := text]> (texts fs)))
        ∧ json_loads d text = Parsed (sort_keys (openapi app))
        ∧ same_value (openapi app) (sort_keys (openapi app))
        ∧ (∀ old, plain old → texts fs !! openapi_json = Some (schema_text old) →
             <[openapi_json := text]> (texts fs) = texts fs ↔ same_value old (openapi app))
        ∧ (dict_get (u"APP_OTEL_ENABLED") env = None → tracing app = None)
  | Raise e =>
      ExportOpenapi.main get_settings openapi env fs = (Raise e, fs)
      ∧ (dict_get (u"APP_OTEL_ENABLED") env = None → get_settings env' = Raise e)
  end.
Proof.
  intros Hotel Hplain env'.
  assert (∀ st, dict_get (u"APP_OTEL_ENABLED") env = None → get_settings env' = Ok st →
            ∃ a, create_app st = Ok a ∧ tracing a = None) as Hoff.
  { intros st Hnone Hst. apply create_app_untraced, (Hotel env'); [done|]. unfold env', setdefault.
    rewrite Hnone. by rewrite dict_get_set, decide_True. }
  unfold ExportOpenapi.main. fold env'.
  destruct (get_settings env') as [st|e] eqn:Hst; cbn [mbind res_bind]; [|by split].
  destruct (create_app st) as [app|e] eqn:Happ.
  - destruct (Hplain app) as [Hp Hd]. exists (schema_text (openapi app)). split_and!.
    + unfold of_res, mkdir, modify, write_text, mbind, M_bind. cbn [fst snd directories texts].
      rewrite decide_True by set_solver. done.
    + by apply schema_text_loads.
    + apply sort_keys_value.
    + intros old Hold Hfile. rewrite <- schema_text_same by done. split.
      * intros E. apply (f_equal (lookup openapi_json)) in E. rewrite lookup_insert_eq, Hfile in E.
        by injection E.
      * intros E. apply insert_id. by rewrite Hfile, E.
    + intros Hnone. destruct (Hoff st Hnone eq_refl) as (a & Ha & Ht). congruence.
  - split; [done|]. intros Hnone. destruct (Hoff st Hnone eq_refl) as (a & Ha & Ht). congruence.
Qed.

(** A part of the service's schema, with its keys out of order, and the text of it in
    [openapi/openapi.json]. *)
Definition score_schema : json :=
  JObj [(u"type", JStr (u"integer")); (u"title", JStr (u"Score"));
        (u"minimum", JFloat (u"0.0")); (u"maximum", JFloat (u"100.0"))].

Example score_schema_text :
  schema_text score_schema
  = join [10%N] [u"{"; u"  " ++ dump_str (u"maximum") ++ u": 100.0,"; u"  " ++ dump_str (u"minimum") ++ u": 0.0,";
      u"  " ++ dump_str (u"title") ++ u": " ++ dump_str (u"Score") ++ u",";
      u"  " ++ dump_str (u"type") ++ u": " ++ dump_str (u"integer"); u"}"; []].
Proof. vm_compute. reflexivity. Qed.

Lemma score_schema_plain : plain score_schema.
Proof.
  assert (∀ n, float_text (str_of_N n ++ u".0")) as Hf.
  { intros n. exists false, n, (u".0"), []. split; [done|]. split; [|split; [by left|by intros []]].
    right. exists [48%N]. split_and!; [done|done|by repeat constructor]. }
  assert (∀ s : string, forallb (λ c, (c <? 0xd800)%N) (u s) = true → Forall scalar (u s)) as Hs.
  { intros s H. apply Forall_forall. intros c Hc. rewrite forallb_forall in H. left.
    apply N.ltb_lt, H. by apply list_elem_of_In. }
  constructor.
  - apply (bool_decide_unpack _). vm_compute. exact I.
  - repeat (constructor; [apply Hs; reflexivity|]). constructor.
  - repeat (apply Forall_cons; split); [..|constructor]; cbn [snd].
    + by apply plain_str, Hs.
    + by apply plain_str, Hs.
    + exact (plain_float _ (Hf 0%N)).
    + exact (plain_float _ (Hf 100%N)).
Qed.

(** Settings that read the one variable the tool sets. *)
Definition sample_settings (env : environ) : res Settings :=
  let d := default_settings in
  Ok (mkSettings (service_name d) (process_role d) (environment d) (log_level_name d) (cors_allowed_origins d)
    (negb (bool_decide (dict_get (u"APP_OTEL_ENABLED") env = Some (u"false")))) (otel_exporter d)
    (otel_otlp_endpoint d) (worker_poll_seconds d) (worker_stale_job_seconds d) (evaluator_timeout_seconds d)
    (storage_backend d) (database_url d) (auto_create_schema d) (rate_limit_enabled d)
    (rate_limit_submit_per_minute d) (rate_limit_read_per_minute d) (rate_limit_list_per_minute d)
    (auth_enabled d) (auth_issuer d) (auth_audience d) (auth_demo_secret d)).

(** The committed file is the export of an older schema: the check notices. *)
Lemma exported_schema_witness :
  let fs := mkFiles ∅ {[openapi_json := schema_text (JObj [])]} in
  ∃ text, ExportOpenapi.main sample_settings (λ _, score_schema) [] fs
          = (Ok tt, mkFiles ({[u"openapi"]} ∪ ∅) (<[openapi_json := text]> (texts fs)))
        ∧ json_loads 1 text = Parsed (sort_keys score_schema)
        ∧ <[openapi_json := text]> (texts fs) ≠ texts fs.
Proof.
  intros fs.
  pose proof (exported_schema sample_settings (λ _, score_schema) [] fs 1) as H.
  assert (∃ app, (st ← sample_settings (setdefault (u"APP_OTEL_ENABLED") (u"false") []); create_app st) = Ok app)
    as [app Happ] by (eexists; reflexivity).
  cbv zeta in H. rewrite Happ in H. destruct H as (text & Hmain & Hload & _ & Hcheck & _).
  - intros env st [= <-] Henv. cbn. by rewrite bool_decide_eq_true_2.
  - intros a. split; [apply score_schema_plain|vm_compute; lia].
  - exists text. split; [exact Hmain|]. split; [exact Hload|]. intros E.
    apply (Hcheck (JObj [])) in E.
    + inversion E as [| |fs' gs hs Hf Hp]. subst. inversion Hf. subst. by apply Permutation_nil_l in Hp.
    + constructor; [constructor|constructor|constructor].
    + apply lookup_singleton_eq.
Defined.
