(* ===== verification/Boot.v ===== *)
(** The start of a process, from its settings: [create_app] and [lifespan] of
    [app/main.py], and [run_worker] of [app/worker.py].  [App] and [Worker] say what the
    parts do once they are there; here they are configured, built and wired, in the order
    of the code, and every step can fail. *)
From S2P Require Export App Factory LogConfig.

(** ** The process before there is a service *)

(** What [create_app], [lifespan] and [run_worker] find: the root logger, the tracer providers
    installed so far, the readings of the environment still to come and the process-wide
    metrics registry. *)
Record Host := mkHost {
  host_root : RootLogger;
  host_providers : list TracerProvider;
  host_clock : clock;
  host_env : Environment;
  host_metrics : MetricsRegistry;
}.

Definition set_host_root (x : RootLogger) (h : Host) : Host :=
  mkHost x (host_providers h) (host_clock h) (host_env h) (host_metrics h).

(** [trace.set_tracer_provider(provider)], where the configuration made one. *)
Definition install_provider (p : option TracerProvider) : M Host unit :=
  modify (λ h, mkHost (host_root h) (host_providers h ++ option_list p) (host_clock h) (host_env h)
                 (host_metrics h)).

(** ** What the processes build *)

(** The objects of a running process: the state they share, the numbers of seconds the settings
    give to the evaluator and the worker, and the task that was started. *)
Inductive Started := NoTask | QueueRunner | WorkerLoop.

Record Service := mkService {
  service_world : World AnyRepository;
  service_evaluator_timeout : float;
  service_poll : float;
  service_stale : float;
  service_started : Started;
}.

Section Boot.
Context `{QueryPlan}.
Context (create_async_engine : pystr → res PostgresJobRepository).
Context (create_all : PostgresJobRepository → res PostgresJobRepository).
(** [repr] of a string, in an error message. *)
Context (repr_str : pystr → pystr).

Definition host_logging (level : pystr) : M Host unit :=
  zoom host_root set_host_root (configure_logging repr_str level).

(** The objects both processes wire around a repository. *)
Definition wire (st : Settings) (repository : AnyRepository) (h : Host) : World AnyRepository :=
  init_world repository (host_clock h) (host_env h) (host_metrics h).

(** [lifespan], up to its [yield]. *)
Definition lifespan (st : Settings) : M Host Service :=
  host_logging (log_level_name st);;
  repository ← of_res (build_repository create_async_engine create_all st);
  w ← gets (wire st repository);
  let '(r, w) := lifespan_start st w in
  started ← of_res r;
  mret (mkService w (evaluator_timeout_seconds st) (worker_poll_seconds st)
          (worker_stale_job_seconds st) (if (started : bool) then QueueRunner else NoTask)).

(** [run_worker], up to [await stop_event.wait()]. *)
Definition run_worker (st : Settings) : M Host Service :=
  host_logging (log_level_name st);;
  provider ← of_res (configure_worker_tracing (service_name st) (otel_enabled st) (otel_exporter st)
                       (otel_otlp_endpoint st));
  install_provider provider;;
  repository ← of_res (build_repository create_async_engine create_all st);
  w ← gets (wire st repository);
  let '(r, w) := run_worker_start w in
  started ← of_res r;
  mret (mkService w (evaluator_timeout_seconds st) (worker_poll_seconds st)
          (worker_stale_job_seconds st) (if (started : bool) then WorkerLoop else NoTask)).

(** The task a process runs beside its requests, its loop unfolded [fuel] times. *)
Definition background (repr : exn → pystr) (s : Service) (fuel : nat)
    : list (co (World AnyRepository) unit) :=
  let evaluator := mock_scorer (service_evaluator_timeout s) in
  match service_started s with
  | NoTask => []
  | QueueRunner => [Queue.runner fuel (EvaluationJobService.process (Scorer0 := evaluator) repr)]
  | WorkerLoop => [Worker.task (Scorer0 := evaluator) repr (service_poll s) (service_stale s) fuel]
  end.

(** ** When a process starts *)

(** The settings no process can start from, and what it then raises. *)
Inductive unusable (st : Settings) : exn → Prop :=
| unknown_level msg :
    dict_get (upper (log_level_name st)) level_names = None → unusable st (ValueExn msg)
| unknown_backend msg :
    storage_backend st ∉ [u"memory"; u"postgres"] → unusable st (ValueExn msg)
| no_engine e :
    storage_backend st = u"postgres" → create_async_engine (database_url st) = Raise e →
    unusable st e
| no_schema p e :
    storage_backend st = u"postgres" → auto_create_schema st = true →
    create_async_engine (database_url st) = Ok p → create_all p = Raise e → unusable st e.

(** The repository the settings name. *)
Definition names (st : Settings) (r : AnyRepository) : Prop :=
  match r with
  | OfMemory m => storage_backend st = u"memory" ∧ m = Memory.init
  | OfPostgres p =>
      storage_backend st = u"postgres"
      ∧ ∃ p0, create_async_engine (database_url st) = Ok p0
              ∧ (if auto_create_schema st then create_all p0 = Ok p else p = p0)
  end.

Lemma build_repository_outcome st :
  match build_repository create_async_engine create_all st with
  | Ok r => names st r
  | Raise e => unusable st e
  end.
Proof.
  unfold build_repository. repeat case_decide.
  - done.
  - destruct (create_async_engine _) as [p|e] eqn:He; cbn [mbind res_bind]; [|by apply no_engine].
    destruct (auto_create_schema st) eqn:Ha; [|cbn; rewrite Ha; eauto].
    destruct (create_all p) as [p'|e] eqn:Hc; cbn [mbind res_bind]; [|by eapply no_schema].
    cbn. rewrite Ha. eauto.
  - apply unknown_backend. set_solver.
Qed.

(** What a started process looks like. *)
Record ready (st : Settings) (env : Environment) (task : Started) (logs : list LogRecord) (s : Service) : Prop := {
  ready_repository : names st (w_repo (service_world s));
  ready_inv : world_inv (service_world s);
  ready_task : service_started s = task;
  ready_logs : w_logs (service_world s) = logs;
  ready_audit : events (w_audit (service_world s)) = [];
  ready_queue : _queue (w_queue (service_world s)) = [];
  ready_env : w_env (service_world s) = env;
}.

Definition lifespan_task (st : Settings) : Started :=
  match process_role st with combined => QueueRunner | _ => NoTask end.
Definition lifespan_log (st : Settings) : LogRecord :=
  log_info main_logger (u"service started") [(u"process_role", JStr (role_str (process_role st)))].
Definition worker_log : LogRecord := log_info worker_main_logger (u"worker process started") [].

(** What SQLAlchemy and the interpreter are relied on for: the database holds well-formed jobs,
    [create_all] keeps them, and [uuid4] neither repeats itself nor returns the identifier
    of a stored job. *)
Definition sound_storage (st : Settings) (h : Host) : Prop :=
  (∀ p, create_async_engine (database_url st) = Ok p →
        repo_inv p ∧ ∀ n, view p !! uuids (host_env h) n = None)
  ∧ (∀ p p', create_all p = Ok p' → repo_inv p → repo_inv p' ∧ view p' = view p)
  ∧ ∀ m n, uuids (host_env h) m = uuids (host_env h) n → m = n.

Lemma wired_inv st h r :
  sound_storage st h → names st r → world_inv (wire st r h).
Proof.
  intros (Hp & Hc & Hu) Hr. destruct r as [m|p].
  - destruct Hr as [_ ->]. apply init_world_inv; [|intros n; apply lookup_empty|done|done].
    constructor; simpl; [apply NoDup_nil_2..|]. intros id l Hin. by apply not_elem_of_nil in Hin.
  - destruct Hr as (_ & p0 & He & Hp0). destruct (Hp _ He) as [Hi Hf].
    assert (repo_inv p ∧ view p = view p0) as [Hi' Hv].
    { destruct (auto_create_schema st); [by apply Hc|by subst]. }
    apply init_world_inv; [exact Hi'| |done|done]. intros n. cbn [view Any_laws any_view].
    rewrite Hv. apply Hf.
Qed.

(** The level and the backend are known when nothing raised. *)
Lemma known_level root level r root' :
  configure_logging repr_str level root = (r, root') →
  match r with
  | Ok _ => is_Some (dict_get (upper level) level_names)
  | Raise e => dict_get (upper level) level_names = None ∧ ∃ msg, e = ValueExn msg
  end.
Proof.
  unfold configure_logging, set_level, modify, mbind, M_bind. intros E.
  destruct (dict_get (upper level) level_names) eqn:Hl; simplify_eq; eauto.
Qed.

Lemma usable st r e :
  is_Some (dict_get (upper (log_level_name st)) level_names) →
  build_repository create_async_engine create_all st = Ok r → ¬ unusable st e.
Proof.
  intros [n Hn] Hr. unfold build_repository in Hr.
  destruct 1 as [msg Hl|msg Hb|e Hb He|p e Hb Ha Hp He].
  - congruence.
  - rewrite !decide_False in Hr by set_solver. done.
  - rewrite Hb, He in Hr. done.
  - rewrite Hb, Ha, Hp in Hr. cbn [decide mbind res_bind] in Hr. rewrite He in Hr. done.
Qed.

(** The two starts, on freshly wired objects. *)
Lemma lifespan_start_run st h r :
  sound_storage st h → names st r →
  ∃ b w', lifespan_start st (wire st r h) = (Ok b, w')
    ∧ ∀ t p k, ready st (host_env h) (lifespan_task st) [lifespan_log st]
                 (mkService w' t p k (if (b : bool) then QueueRunner else NoTask)).
Proof.
  intros Hs Hr. pose proof (wired_inv st h r Hs Hr) as []. unfold lifespan_start, lifespan_task, lifespan_log.
  destruct (process_role st); eexists _, _; (split; [reflexivity|]); intros; (constructor; [done| |done..]; by constructor).
Qed.

Lemma run_worker_start_run st h r :
  sound_storage st h → names st r →
  ∃ b w', run_worker_start (wire st r h) = (Ok b, w')
    ∧ ∀ t p k, ready st (host_env h) WorkerLoop [worker_log]
                 (mkService w' t p k (if (b : bool) then WorkerLoop else NoTask)).
Proof.
  intros Hs Hr. pose proof (wired_inv st h r Hs Hr) as []. unfold run_worker_start, worker_log.
  eexists _, _; (split; [reflexivity|]); intros; (constructor; [done| |done..]; by constructor).
Qed.

Lemma starts_ready (st : Settings) (h : Host) :
  sound_storage st h →
  match (lifespan st h).1 with
  | Ok s => (∀ e, ¬ unusable st e) ∧ ready st (host_env h) (lifespan_task st) [lifespan_log st] s
  | Raise e => unusable st e
  end
  ∧ match (run_worker st h).1 with
    | Ok s => (∀ e, ¬ unusable st e) ∧ ready st (host_env h) WorkerLoop [worker_log] s
    | Raise e => unusable st e
    end.
Proof.
  intros Hs. unfold lifespan, run_worker, host_logging, install_provider, modify, zoom, of_res, gets,
    mbind, M_bind.
  destruct (configure_logging repr_str (log_level_name st) (host_root h)) as [[[]|e] root] eqn:Hl;
    pose proof (known_level _ _ _ _ Hl) as Hlevel; cbv beta iota in Hlevel;
    [|destruct Hlevel as [Hlevel [msg ->]]; split; by apply unknown_level].
  pose proof (build_repository_outcome st) as Hr.
  split.
  - destruct (build_repository _ _ st) as [r|e] eqn:Hb; [|exact Hr]. cbv beta iota.
    destruct (lifespan_start_run st (set_host_root root h) r Hs Hr) as (b & w' & -> & Hready).
    split; [intros e; by eapply usable|apply Hready].
  - destruct (configure_worker_tracing_ok (service_name st) (otel_enabled st) (otel_exporter st)
      (otel_otlp_endpoint st)) as [p ->]. cbv beta iota.
    destruct (build_repository _ _ st) as [r|e] eqn:Hb; [|exact Hr]. cbv beta iota.
    edestruct (run_worker_start_run st) as (b & w' & -> & Hready); [..|split; [intros e; by eapply usable|apply Hready]];
      done.
Qed.

(** C26: a process starts exactly from usable settings, and what starts is what they name: an
    unknown log level or backend and a failing database each raise before there is a service;
    otherwise the repository is of the configured kind, queue and audit trail are empty, the
    state satisfies the service's invariant, the runner is started by a combined process only
    and the polling loop by a worker, and the start is the one record logged. *)
Theorem process_starts (st : Settings) (h : Host) :
  sound_storage st h →
  match (lifespan st h).1 with
  | Ok s => (∀ e, ¬ unusable st e) ∧ ready st (host_env h) (lifespan_task st) [lifespan_log st] s
  | Raise e => unusable st e
  end
  ∧ match (run_worker st h).1 with
    | Ok s => (∀ e, ¬ unusable st e) ∧ ready st (host_env h) WorkerLoop [worker_log] s
    | Raise e => unusable st e
    end.
Proof. apply starts_ready. Qed.
End Boot.

(** ** The end of a process *)

(** [try: c  finally: fin], where [fin] may wait and raise: what it raises replaces the outcome
    of [c].  [false] when [fin] has not ended within its fuel. *)
Fixpoint co_ensure {S A} (c : co S A) (fin : co S bool) : co S bool :=
  match c with
  | Done r =>
      ended ← fin;
      if (ended : bool) then Done (match r with Ok _ => Ok true | Raise e => Raise e end) else mret false
  | Step next eff => Step (λ s, co_ensure (next s) fin) eff
  end.

Lemma run_ensure {S A} (c : co S A) fin s :
  run (co_ensure c fin) s
  = let '(r, s1) := run c s in
    let '(r', s') := run fin s1 in
    (match r' with
     | Ok true => match r with Ok _ => Ok true | Raise e => Raise e end
     | r' => r'
     end, s').
Proof.
  revert s. induction c as [r|next IH eff]; intros s; cbn [co_ensure run]; [|apply IH].
  rewrite run_bind. by destruct (run fin s) as [[[]|e] s'].
Qed.

(** How the tasks a shutdown waits for have ended. *)
Inductive tasks_end := StillRunning | FailedWith (e : exn) | AllEnded.

Definition task_end (t : option TaskState) : tasks_end :=
  match t with
  | Some TaskRunning => StillRunning
  | Some (TaskDone (Some e)) => FailedWith e
  | _ => AllEnded
  end.

Section Shutdown.
Context {R : Type} `{RL : RepositoryLaws R}.
Notation W := (World R).

(** [lifespan] and [run_worker] from their [yield] and their wait for a signal on. *)
Definition lifespan_rest (serve : co W unit) (fuel : nat) : co W bool :=
  co_ensure serve (lifespan_stop fuel).
Definition run_worker_rest (wait : co W unit) (fuel : nat) : co W bool :=
  co_ensure wait (run_worker_stop fuel).

Lemma await_run (task : W → option TaskState) fuel w :
  run (await_task task (S fuel)) w
  = match task_end (task w) with
    | StillRunning => run (await_task task fuel) w
    | FailedWith e => (Raise e, w)
    | AllEnded => (Ok true, w)
    end.
Proof.
  cbn [await_task]. rewrite run_bind, run_atomically. cbn.
  by destruct (task w) as [[|[e|]]|].
Qed.

Lemma await_running (task : W → option TaskState) fuel w :
  task w = Some TaskRunning → run (await_task task fuel) w = (Ok false, w).
Proof.
  intros Ht. induction fuel as [|fuel IH]; [done|]. rewrite await_run, Ht. exact IH.
Qed.

(** What a stop of the queue or of the worker leaves alone. *)
Definition same_service (w w' : W) : Prop :=
  repo_part w' = repo_part w ∧ w_logs w' = w_logs w.

Lemma queue_stop_piece w :
  ∃ w', Queue.stop w = (Ok (bool_decide (_task (w_queue w) ≠ None)), w')
        ∧ same_service w w' ∧ w_worker w' = w_worker w ∧ _task (w_queue w') = _task (w_queue w)
        ∧ _stopping (w_queue w') = true.
Proof.
  destruct w as [? ? ? [q n [t|] b] ? ? ? ? ? ? ?]; (eexists; split; [reflexivity|]); done.
Qed.

Lemma worker_stop_piece w :
  ∃ w', Worker.stop w = (Ok (bool_decide (worker_task (w_worker w) ≠ None)), w')
        ∧ same_service w w' ∧ worker_task (w_worker w') = worker_task (w_worker w)
        ∧ worker_stopping (w_worker w') = true.
Proof. destruct w as [? ? ? ? [[t|] b] ? ? ? ? ? ?]; (eexists; split; [reflexivity|]); done. Qed.

(** How a stop ends, once its task was told to. *)
Definition stop_result (t : option TaskState) : res bool :=
  match task_end t with StillRunning => Ok false | FailedWith e => Raise e | AllEnded => Ok true end.

Lemma await_if_task (task : W → option TaskState) fuel w :
  run (if bool_decide (task w ≠ None) then await_task task (S fuel) else mret true) w
  = (stop_result (task w), w).
Proof.
  unfold stop_result. destruct (task w) as [[|[e|]]|] eqn:Ht.
  - rewrite bool_decide_true by done. by apply await_running.
  - rewrite bool_decide_true by done. by rewrite await_run, Ht.
  - rewrite bool_decide_true by done. by rewrite await_run, Ht.
  - by rewrite bool_decide_false by auto.
Qed.

Lemma queue_stop_run fuel w :
  ∃ w', run (queue_stop (S fuel)) w = (stop_result (_task (w_queue w)), w')
        ∧ same_service w w' ∧ w_worker w' = w_worker w ∧ _stopping (w_queue w') = true.
Proof.
  unfold queue_stop. rewrite run_bind, run_atomically.
  destruct (queue_stop_piece w) as (w' & -> & ? & ? & Ht & ?). exists w'. rewrite <- Ht.
  by rewrite (await_if_task (λ w, _task (w_queue w))).
Qed.

Lemma worker_stop_run fuel w :
  ∃ w', run (worker_stop (S fuel)) w = (stop_result (worker_task (w_worker w)), w')
        ∧ same_service w w' ∧ worker_stopping (w_worker w') = true.
Proof.
  unfold worker_stop. rewrite run_bind, run_atomically.
  destruct (worker_stop_piece w) as (w' & -> & ? & Ht & ?). exists w'. rewrite <- Ht.
  by rewrite (await_if_task (λ w, worker_task (w_worker w))).
Qed.

Lemma closing_run name msg w :
  repo_inv (w_repo w) →
  ∃ w', run (atomically (in_repo close);; atomically (log (log_info name msg []));; mret true : co W bool) w
        = (Ok true, w')
        ∧ repo_part w' = (close (repo_part w)).2 ∧ w_logs w' = w_logs w ++ [log_info name msg []].
Proof.
  intros Hi. rewrite run_bind, run_atomically. unfold in_repo, zoom.
  destruct (close (repo_part w)) as [r [s' c']] eqn:E. cbn.
  destruct (close_spec _ _ _ _ _ Hi E) as (_ & _ & _ & ->). by eexists.
Qed.
(** The repository is closed, and the log says that the process stopped. *)
Definition closed (record : LogRecord) (w w' : W) : Prop :=
  repo_part w' = (close (repo_part w)).2 ∧ w_logs w' = w_logs w ++ [record].

Lemma lifespan_stop_run fuel w :
  repo_inv (w_repo w) →
  ∃ w', match stop_result (_task (w_queue w)), stop_result (worker_task (w_worker w)) with
        | Ok true, Ok true =>
            run (lifespan_stop (S fuel)) w = (Ok true, w')
            ∧ closed (log_info main_logger (u"service stopped") []) w w'
        | Ok true, s | s, _ => run (lifespan_stop (S fuel)) w = (s, w') ∧ same_service w w'
        end.
Proof.
  intros Hi. unfold lifespan_stop. rewrite run_bind.
  destruct (queue_stop_run fuel w) as (w1 & -> & [Hr1 Hl1] & Hk1 & _). rewrite <- Hk1.
  destruct (stop_result (_task (w_queue w))) as [[|]|e]; [|by exists w1..].
  rewrite run_bind. destruct (worker_stop_run fuel w1) as (w2 & -> & [Hr2 Hl2] & _).
  destruct (stop_result (worker_task (w_worker w1))) as [[|]|e];
    [|by exists w2; unfold same_service; rewrite Hr2, Hl2..].
  destruct (closing_run main_logger (u"service stopped") w2) as (w3 & -> & Hr3 & Hl3).
  { unfold repo_part in *. simplify_eq. congruence. }
  exists w3. split; [done|]. unfold closed. by rewrite Hr3, Hl3, Hr2, Hl2, Hr1, Hl1.
Qed.

Lemma run_worker_stop_run fuel w :
  repo_inv (w_repo w) →
  ∃ w', match stop_result (worker_task (w_worker w)) with
        | Ok true =>
            run (run_worker_stop (S fuel)) w = (Ok true, w')
            ∧ closed (log_info worker_main_logger (u"worker process stopped") []) w w'
        | s => run (run_worker_stop (S fuel)) w = (s, w') ∧ same_service w w'
        end.
Proof.
  intros Hi. unfold run_worker_stop. rewrite run_bind.
  destruct (worker_stop_run fuel w) as (w1 & -> & [Hr1 Hl1] & _).
  destruct (stop_result (worker_task (w_worker w))) as [[|]|e]; [|by exists w1..].
  destruct (closing_run worker_main_logger (u"worker process stopped") w1) as (w2 & -> & Hr2 & Hl2).
  { unfold repo_part in *. simplify_eq. congruence. }
  exists w2. split; [done|]. unfold closed. by rewrite Hr2, Hl2, Hr1, Hl1.
Qed.

(** C27: however the serving phase of a process ends, by a shutdown or an exception, its
    [finally] clause runs, and what it does is decided by how the tasks ended: with every
    task ended the repository is closed, the stop is logged last and the outcome of the
    serving phase stands; while a task still runs the shutdown waits for it; a task that
    had failed makes the shutdown raise that failure in place of the outcome, with the
    rest skipped: the repository is not closed and nothing is logged. *)
Theorem shutdown_outcome (serve : co W unit) (fuel : nat) (w : W) :
  let '(r, w1) := run serve w in
  let outcome := match r with Ok _ => Ok true | Raise e => Raise e end in
  repo_inv (w_repo w1) →
  (∃ w', match stop_result (_task (w_queue w1)), stop_result (worker_task (w_worker w1)) with
         | Ok true, Ok true =>
             run (lifespan_rest serve (S fuel)) w = (outcome, w')
             ∧ closed (log_info main_logger (u"service stopped") []) w1 w'
         | Ok true, s | s, _ =>
             run (lifespan_rest serve (S fuel)) w = (s, w') ∧ same_service w1 w'
         end)
  ∧ ∃ w', match stop_result (worker_task (w_worker w1)) with
          | Ok true =>
              run (run_worker_rest serve (S fuel)) w = (outcome, w')
              ∧ closed (log_info worker_main_logger (u"worker process stopped") []) w1 w'
          | s => run (run_worker_rest serve (S fuel)) w = (s, w') ∧ same_service w1 w'
          end.
Proof.
  destruct (run serve w) as [r w1] eqn:Hserve. cbv zeta. intros Hi.
  unfold lifespan_rest, run_worker_rest. rewrite !run_ensure, Hserve.
  destruct (lifespan_stop_run fuel w1 Hi) as [w2 Hl]. destruct (run_worker_stop_run fuel w1 Hi) as [w3 Hk].
  split; [exists w2|exists w3].
  - destruct (stop_result (_task (w_queue w1))) as [[|]|e];
      [destruct (stop_result (worker_task (w_worker w1))) as [[|]|e]|..];
      destruct Hl as [-> Hl]; done.
  - destruct (stop_result (worker_task (w_worker w1))) as [[|]|e]; destruct Hk as [-> Hk]; done.
Qed.
End Shutdown.

(** ** Examples *)

(** A process whose serving phase is cancelled closes its repository; one whose worker had
    failed raises the failure instead. *)
Definition failed_world : World InMemoryJobRepository :=
  set_worker (mkWorker (Some (TaskDone (Some TimeoutExn))) false) sample_world.

Lemma shutdown_outcome_witness :
  (∃ w', run (lifespan_rest (Done (Raise CancelledExn)) 1) sample_world = (Raise CancelledExn, w')
         ∧ log_message <$> w_logs w' = [u"service stopped"])
  ∧ ∃ w', run (run_worker_rest (Done (Ok tt)) 1) failed_world = (Raise TimeoutExn, w')
          ∧ same_service failed_world w'.
Proof.
  split.
  - destruct (shutdown_outcome (Done (Raise CancelledExn)) 0 sample_world (inv_repo _ sample_world_inv))
      as [(w' & Hrun & _ & Hl) _].
    exists w'. split; [exact Hrun|]. rewrite Hl. vm_compute. reflexivity.
  - destruct (shutdown_outcome (Done (Ok tt)) 0 failed_world (inv_repo _ sample_world_inv)) as [_ (w' & Hrun & Hs)].
    exists w'. split; [exact Hrun|exact Hs].
Defined.

Section Examples.
#[local] Existing Instance key_order.

(** The defaults with another backend, log level and role. *)
Definition settings_for (backend level : pystr) (role : ProcessRole) : Settings :=
  let d := default_settings in
  mkSettings (service_name d) role (environment d) level (cors_allowed_origins d)
    (otel_enabled d) (otel_exporter d) (otel_otlp_endpoint d) (worker_poll_seconds d)
    (worker_stale_job_seconds d) (evaluator_timeout_seconds d) backend (database_url d)
    (auto_create_schema d) (rate_limit_enabled d) (rate_limit_submit_per_minute d)
    (rate_limit_read_per_minute d) (rate_limit_list_per_minute d) (auth_enabled d)
    (auth_issuer d) (auth_audience d) (auth_demo_secret d).

(** A database without jobs, whose schema cannot be created when it is down. *)
Definition sample_engine (url : pystr) : res PostgresJobRepository := Ok (mkPg ∅ ∅ (λ _, Fine)).
Definition sample_create_all (up : bool) (p : PostgresJobRepository) : res PostgresJobRepository :=
  if up then Ok p else Raise (StorageExn (u"connection refused")).

Definition sample_host : Host :=
  mkHost fresh_root [] (λ n, Z.of_nat n)
    (mkEnv N.of_nat (λ n, float_of (Z.of_nat n)) (λ n, float_of (Z.of_nat n)) (λ _ _, None))
    (mkMetrics ∅).

Lemma sample_storage_sound up st : sound_storage sample_engine (sample_create_all up) st sample_host.
Proof.
  split_and!.
  - intros p [= <-]. assert (holds (mkPg ∅ ∅ (λ _, Fine)) ∅) as Hh
      by (split; [done|by intros id j Hj%lookup_empty_Some]).
    split; [exact (holds_inv _ _ Hh)|]. intros n.
    change (pg_view (mkPg ∅ ∅ (λ _, Fine)) !! uuids (host_env sample_host) n = None).
    rewrite (holds_view _ _ Hh). apply lookup_empty.
  - unfold sample_create_all. by intros p p' E Hp; destruct up; simplify_eq.
  - intros m n. simpl. lia.
Qed.

(** A combined process in memory and a worker on a database start; with the database down or
    an unknown level they do not. *)
Lemma process_starts_witness :
  (∃ s, (lifespan sample_engine (sample_create_all true) id (settings_for (u"memory") (u"info") combined) sample_host).1 = Ok s
        ∧ service_started s = QueueRunner ∧ w_repo (service_world s) = OfMemory Memory.init)
  ∧ (∃ s, (run_worker sample_engine (sample_create_all true) id (settings_for (u"postgres") (u"info") worker) sample_host).1 = Ok s
          ∧ service_started s = WorkerLoop)
  ∧ (∃ e, (run_worker sample_engine (sample_create_all false) id (settings_for (u"postgres") (u"info") worker) sample_host).1 = Raise e
          ∧ unusable sample_engine (sample_create_all false) (settings_for (u"postgres") (u"info") worker) e)
  ∧ ∃ e, (lifespan sample_engine (sample_create_all true) id (settings_for (u"memory") (u"verbose") combined) sample_host).1 = Raise e
         ∧ unusable sample_engine (sample_create_all true) (settings_for (u"memory") (u"verbose") combined) e.
Proof.
  split; [|split; [|split]].
  - destruct (process_starts sample_engine (sample_create_all true) id (settings_for (u"memory") (u"info") combined)
      sample_host (sample_storage_sound true _)) as [H _].
    destruct (lifespan _ _ _ _ _).1 as [s|e] eqn:E.
    + exists s. split; [reflexivity|]. destruct H as [_ [Hn _ Ht _ _ _ _]]. split; [exact Ht|].
      destruct (w_repo (service_world s)) as [m|p]; [destruct Hn as [_ ->]; reflexivity|].
      destruct Hn as [Hn _]. discriminate.
    + exfalso. apply (f_equal failure) in E. vm_compute in E. discriminate.
  - destruct (process_starts sample_engine (sample_create_all true) id (settings_for (u"postgres") (u"info") worker)
      sample_host (sample_storage_sound true _)) as [_ H].
    destruct (run_worker _ _ _ _ _).1 as [s|e] eqn:E.
    + exists s. split; [reflexivity|]. apply H.
    + exfalso. apply (f_equal failure) in E. vm_compute in E. discriminate.
  - destruct (process_starts sample_engine (sample_create_all false) id (settings_for (u"postgres") (u"info") worker)
      sample_host (sample_storage_sound false _)) as [_ H].
    destruct (run_worker _ _ _ _ _).1 as [s|e] eqn:E; [|exists e; split; [reflexivity|exact H]].
    exfalso. apply (f_equal failure) in E. vm_compute in E. discriminate.
  - destruct (process_starts sample_engine (sample_create_all true) id (settings_for (u"memory") (u"verbose") combined)
      sample_host (sample_storage_sound true _)) as [H _].
    destruct (lifespan _ _ _ _ _).1 as [s|e] eqn:E; [|exists e; split; [reflexivity|exact H]].
    exfalso. apply (f_equal failure) in E. vm_compute in E. discriminate.
Defined.
End Examples.
