(* ===== verification/Service.v ===== *)
(** The whole program: a process started from its settings, answering HTTP requests while
    its background task works and a shutdown waits, in any interleaving. *)
From S2P Require Export Boot.

(** ** Requests and the shutdown among the other tasks *)

Section Tasks.
Context {R : Type} `{RL : RepositoryLaws R} (st : Settings) (json_depth : nat) (no_route : Response).
(** The identifiers other processes on the same storage will draw. *)
Context {others : UUID → Prop}.
Notation W := (World R).
Notation world_inv := (world_inv_among (others := others)).
Notation safe := (steps_along world_inv world_le).

Lemma safe_ret {A} (a : A) w : safe any (mret a : co W A) w.
Proof. by apply along_ret. Qed.

Lemma safe_raise {A} e w : safe any (Done (Raise e) : co W A) w.
Proof. intros s _ _. exact I. Qed.

(** A piece that touches only what the invariant does not look at. *)
Lemma safe_piece {A} (m : M W A) w : (∀ s, quiet s (m s).2) → safe any (atomically m) w.
Proof. intros Hm. by apply safe_quiet. Qed.

(** Drawing an identifier. *)
Lemma safe_uuid4 w : safe any (atomically uuid4 : co W UUID) w.
Proof.
  apply along_atomically. intros s [Hi Hf Hd Ho Ha Hq] _. split; [|split; [|done]].
  - constructor; cbn; [done|auto| | |done|done].
    + intros m n E%Hd. lia.
    + intros id Hid. destruct (Ho id Hid) as [? Hne]. auto.
  - constructor; cbn; try reflexivity. intros n. by exists (S n).
Qed.

Lemma safe_health_check w : safe any (atomically (in_repo health_check) : co W bool) w.
Proof.
  apply safe_repo. intros s c r s' c' Hs Hrun.
  destruct (health_check_spec _ _ _ _ _ Hs Hrun) as (? & ? & Hv & _). by rewrite Hv.
Qed.

Lemma safe_close w : safe any (atomically (in_repo close) : co W unit) w.
Proof.
  apply safe_repo. intros s c r s' c' Hs Hrun.
  destruct (close_spec _ _ _ _ _ Hs Hrun) as (? & ? & Hv & _). by rewrite Hv.
Qed.

(** What follows the work of a handler is pure. *)
Lemma safe_then {A B} (f : A → B) (c : co W A) w : world_inv w → safe any c w → safe any (a ← c; mret (f a)) w.
Proof. intros Hw Hc. apply (along_bind _ _ any); [done|done| |done]. intros. apply safe_ret. Qed.

Lemma safe_reading {A} route (render : EvaluationJob → res A) id tenant req w :
  world_inv w →
  safe any (context ← atomically (request_context st json_depth req);
            t ← atomically (enter st req context tenant route (rate_limit_read_per_minute st));
            x ← EvaluationJobService.get_for_tenant id t;
            atomically (j ← EvaluationJobService.read x; of_res (render j))) w.
Proof.
  intros Hw. eapply (along_weaken _ _ (okay _)); [|done].
  by apply (safe_read_handler st json_depth route render (λ _ _, True)).
Qed.

(** Every endpoint keeps the invariant, whatever runs between its pieces. *)
Lemma safe_call_endpoint e req rid w :
  world_inv w → valid_endpoint e = true → safe any (call_endpoint st json_depth no_route e req rid) w.
Proof.
  intros Hw Hv.
  destruct e as [| | |payload|tenant project limit|id tenant|id tenant|path]; cbn [call_endpoint].
  - apply safe_piece. intros s. quiet_step.
  - by apply safe_then, safe_health_check.
  - apply safe_piece. intros s. quiet_step.
  - by apply safe_then, safe_submit_evaluation.
  - apply safe_then; [done|]. eapply (along_weaken _ _ (okay _)); [|done]. apply safe_list; [done|].
    unfold valid_endpoint, valid_listing_query in Hv. to_prop. lia.
  - by apply safe_then, safe_reading.
  - by apply safe_then, safe_reading.
  - apply safe_ret.
Qed.

Lemma safe_handle_request e req w :
  world_inv w → valid_endpoint e = true → safe any (handle_request st json_depth no_route e req) w.
Proof.
  intros Hw Hv. unfold handle_request, resolve_request_id.
  apply (along_bind _ _ any); [done| | |done].
  { intros s Hs H0. exact (safe_uuid4 w s Hs H0). }
  intros rid s Hs _ _. apply safe_except; [done| |intros; apply safe_ret].
  unfold MetricsMiddleware. apply (along_bind _ _ any); [done|by apply safe_piece; intros ?; quiet_step| |done].
  intros t s1 Hs1 _ _. apply (along_bind _ _ any); [done| | |done].
  - apply safe_then; [done|]. unfold handle_app_errors. apply safe_except; [done|by apply safe_call_endpoint|].
    intros [] s2 Hs2 _; apply safe_ret || apply safe_raise.
  - intros resp s2 Hs2 _ _. apply safe_seq; [done| |intros; apply safe_ret].
    case_decide; [apply safe_ret|]. apply safe_piece. intros s3. quiet_step.
Qed.

(** Waiting for a task changes nothing. *)
Lemma safe_await task fuel w : safe any (await_task task fuel : co W bool) w.
Proof.
  revert w. induction fuel as [|fuel IH]; intros w; cbn [await_task]; [apply safe_ret|].
  intros s Hs _. split_and!; [exact Hs|done|].
  change (safe any (match task s with
                    | Some TaskRunning => await_task task fuel
                    | Some (TaskDone (Some e)) => Done (Raise e)
                    | _ => mret true
                    end : co W bool) s).
  destruct (task s) as [[|[e|]]|]; [apply IH|apply safe_raise|apply safe_ret..].
Qed.

Lemma safe_queue_stop fuel w : world_inv w → safe any (queue_stop fuel : co W bool) w.
Proof.
  intros Hw. unfold queue_stop. apply (along_bind _ _ any); [done| | |done].
  - apply safe_piece. intros s. unfold Queue.stop, Queue.on_queue, modify, gets, mbind, M_bind.
    cbn. destruct (_task (w_queue s)); constructor; cbn; try done;
      try (by exists []; rewrite app_nil_r).
    intros Hq. apply Forall_app. split; [done|]. by apply Forall_singleton.
  - intros [|] s Hs _ _; [apply safe_await|apply safe_ret].
Qed.

Lemma safe_worker_stop fuel w : world_inv w → safe any (worker_stop fuel : co W bool) w.
Proof.
  intros Hw. unfold worker_stop. apply (along_bind _ _ any); [done| | |done].
  - apply safe_piece. intros s. quiet_step.
  - intros [|] s Hs _ _; [apply safe_await|apply safe_ret].
Qed.

Lemma safe_closing fuel name w :
  world_inv w →
  safe any (atomically (in_repo close);; atomically (log (log_info name fuel []));; mret true : co W bool) w.
Proof.
  intros Hw. apply safe_seq; [done|apply safe_close|]. intros s Hs _.
  apply safe_seq; [done|apply safe_piece; intros ?; quiet_step|]. intros; apply safe_ret.
Qed.

Lemma safe_lifespan_stop fuel w : world_inv w → safe any (lifespan_stop fuel : co W bool) w.
Proof.
  intros Hw. unfold lifespan_stop. apply (along_bind _ _ any); [done|by apply safe_queue_stop| |done].
  intros [|] s Hs _ _; [|apply safe_ret].
  apply (along_bind _ _ any); [done|by apply safe_worker_stop| |done].
  intros [|] s1 Hs1 _ _; [by apply safe_closing|apply safe_ret].
Qed.

Lemma safe_run_worker_stop fuel w : world_inv w → safe any (run_worker_stop fuel : co W bool) w.
Proof.
  intros Hw. unfold run_worker_stop. apply (along_bind _ _ any); [done|by apply safe_worker_stop| |done].
  intros [|] s1 Hs1 _ _; [by apply safe_closing|apply safe_ret].
Qed.
End Tasks.

(** ** A configured process at work *)

Section Service.
Context `{QueryPlan}.
Context (create_async_engine : pystr → res PostgresJobRepository).
Context (create_all : PostgresJobRepository → res PostgresJobRepository).
Context (repr_str : pystr → pystr) (repr : exn → pystr) (json_depth : nat) (no_route : Response).
Notation W := (World AnyRepository).

(** What runs in a process: requests with validated parameters, and the shutdown of either
    kind of process, however long it waits. *)
Inductive foreground (st : Settings) : co W unit → Prop :=
| a_request e req :
    valid_endpoint e = true → foreground st (handle_request st json_depth no_route e req;; mret tt)
| a_shutdown fuel : foreground st (lifespan_stop fuel;; mret tt)
| a_worker_shutdown fuel : foreground st (run_worker_stop fuel;; mret tt).

Notation inv_among others := (world_inv_among (others := others)).

Lemma foreground_safe others st c w :
  inv_among others w → foreground st c → steps_along (inv_among others) world_le any c w.
Proof.
  intros Hw [e req Hv|fuel|fuel]; apply safe_then; try done;
    [by apply safe_handle_request|by apply safe_lifespan_stop|by apply safe_run_worker_stop].
Qed.

Lemma background_safe others s fuel w :
  inv_among others w →
  Forall (λ c, steps_along (inv_among others) world_le any c w) (background repr s fuel).
Proof.
  intros Hw. unfold background.
  destruct (service_started s); [constructor|apply Forall_singleton..];
    eapply (service_task_safe (SL := mock_scorer_laws (service_evaluator_timeout s)) repr); [done|..];
    [apply task_runner|done|apply task_worker].
Qed.

(** C3: the service from its configuration on.  Whatever settings a process of either kind was
    started from, let any number of HTTP requests, its background task and its shutdown
    interleave piece by piece, with any storage failures and timeouts: the repository stays
    of the configured kind, every stored job well formed, no job is lost, each only moves
    along its life, and the audit trail is true of the store. *)
Theorem configured_service_safety (st : Settings) (h : Host) (s : Service) (fuel : nat)
    (fg ts' : list (co W unit)) (w' : W) :
  sound_storage create_async_engine create_all st h →
  (lifespan create_async_engine create_all repr_str st h).1 = Ok s
  ∨ (run_worker create_async_engine create_all repr_str st h).1 = Ok s →
  Forall (foreground st) fg →
  rtc pool_step (background repr s fuel ++ fg, service_world s) (ts', w') →
  storage_backend st = (match w_repo w' with OfMemory _ => u"memory" | OfPostgres _ => u"postgres" end)
  ∧ store_ok (view (w_repo w'))
  ∧ evolves (view (w_repo (service_world s))) (view (w_repo w'))
  ∧ Forall (event_ok (view (w_repo w'))) (events (w_audit w'))
  ∧ Forall (entry_ok (view (w_repo w'))) (_queue (w_queue w')).
Proof.
  intros Hs Hstart Hfg Hrun.
  assert (∃ task logs, ready create_async_engine create_all st (host_env h) task logs s) as (task & logs & [Hn Hw _ _ _ _ _]).
  { destruct (starts_ready create_async_engine create_all repr_str st h Hs) as [Hl Hk].
    destruct Hstart as [E|E]; [rewrite E in Hl|rewrite E in Hk]; naive_solver. }
  destruct (pool_along world_inv world_le any _ _ ts' w' Hrun Hw) as (Hw' & Hle & _).
  { apply Forall_app. split; [by apply background_safe|].
    eapply Forall_impl; [exact Hfg|]. intros c. by apply foreground_safe. }
  pose proof (le_repo _ _ Hle) as Hkind. pose proof Hw' as [Hi _ _ _ Ha Hq].
  split_and!; [|by apply repo_inv_ok|by apply le_evolves|done..].
  destruct (w_repo (service_world s)), (w_repo w'); by destruct Hn, Hkind.
Qed.
End Service.

(** ** A combined process in memory *)

Section Example.
#[local] Existing Instance key_order.

Definition memory_settings : Settings := settings_for (u"memory") (u"info") combined.

(** The service [lifespan] makes of them. *)
Definition memory_service : Service :=
  match (lifespan sample_engine (sample_create_all true) id memory_settings sample_host).1 with
  | Ok s => s
  | Raise _ => mkService (init_world (OfMemory Memory.init) (host_clock sample_host)
                 (host_env sample_host) (host_metrics sample_host)) (float_of 5) (float_of 1) (float_of 1) NoTask
  end.

Definition memory_requests : list (co (World AnyRepository) unit) :=
  [handle_request memory_settings 100 not_found_page (SubmitEvaluation sample_payload) sample_req;; mret tt;
   lifespan_stop 10;; mret tt].

(** The request is answered, the runner processes the job, the process stops. *)
Definition memory_run : list (co (World AnyRepository) unit) * World AnyRepository :=
  schedule (replicate 20 1 ++ replicate 20 0 ++ replicate 2 2 ++ replicate 20 0 ++ replicate 10 2)
    (background sample_repr memory_service 10 ++ memory_requests, service_world memory_service).

Lemma memory_service_started :
  (lifespan sample_engine (sample_create_all true) id memory_settings sample_host).1 = Ok memory_service.
Proof.
  unfold memory_service. destruct (lifespan _ _ _ _ _).1 as [s|e] eqn:E; [reflexivity|].
  exfalso. apply (f_equal failure) in E. vm_compute in E. discriminate.
Qed.

Lemma configured_service_safety_witness :
  status <$> (map_to_list (view (w_repo memory_run.2))).*2 = [SUCCEEDED]
  ∧ log_message <$> w_logs memory_run.2
    = [u"service started"; u"audit event recorded"; u"audit event recorded"; u"audit event recorded";
       u"evaluation job succeeded"; u"service stopped"]
  ∧ event_type <$> events (w_audit memory_run.2) = [ev_queued; ev_running; ev_succeeded]
  ∧ store_ok (view (w_repo memory_run.2))
  ∧ Forall (event_ok (view (w_repo memory_run.2))) (events (w_audit memory_run.2)).
Proof.
  destruct (configured_service_safety sample_engine (sample_create_all true) id sample_repr 100 not_found_page
    memory_settings sample_host memory_service 10 memory_requests memory_run.1 memory_run.2)
    as (_ & Hok & _ & Ha & _).
  - apply sample_storage_sound.
  - left. apply memory_service_started.
  - repeat apply Forall_cons_2; [by apply a_request|by apply a_shutdown|constructor].
  - rewrite <- surjective_pairing. apply schedule_steps.
  - split; [vm_compute; reflexivity|]. split; [vm_compute; reflexivity|].
    split; [vm_compute; reflexivity|]. split; [exact Hok|exact Ha].
Defined.
End Example.
