(* ===== verification/Cluster.v ===== *)
(** Several processes on one storage: API processes that accept evaluations and worker
    processes that score them, started and killed at any time.  Every process has its own
    queue, audit trail, clocks and telemetry ([app/main.py], [app/worker.py]); only the
    repository is shared.  What a process is made of is [Deployment]'s. *)
From S2P Require Export Safety.

(** ** Processes *)

(** The state of a process without its storage, and the two put together. *)
Definition with_repo {R S} (r : R) (w : World S) : World R :=
  mkWorld r (w_clock w) (w_env w) (w_queue w) (w_worker w) (w_audit w) (w_metrics w) (w_logs w)
    (w_spans w) (w_limiter w) (w_sleeps w).
Definition private_part {R} (w : World R) : World unit := with_repo tt w.

Lemma with_private {R} (w : World R) : with_repo (w_repo w) (private_part w) = w.
Proof. by destruct w. Qed.

Record Process (R : Type) := mkProcess {
  (** What [uuid4] returns over the life of the process. *)
  identifiers : nat → UUID;
  tasks : list (co (World R) unit);
  private : World unit;
}.
Arguments mkProcess {_} _ _ _.
Arguments identifiers {_} _.
Arguments tasks {_} _.
Arguments private {_} _.

(** The processes alive, by their number, and what they share. *)
Record Cluster (R : Type) := mkCluster { storage : R; processes : gmap nat (Process R) }.
Arguments mkCluster {_} _ _.
Arguments storage {_} _.
Arguments processes {_} _.

Section Cluster.
Context {R : Type} `{RL : RepositoryLaws R}.
Notation W := (World R).

(** What a process sees. *)
Definition seen (s : R) (p : Process R) : W := with_repo s (private p).

(** Process [p] has run the piece [eff] of its [k]-th task in state [w]. *)
Definition advance (p : Process R) (k : nat) (next : W → co W unit) (eff : W → W) (w : W) : Process R :=
  mkProcess (identifiers p) (<[k := next w]> (tasks p)) (private_part (eff w)).

(** [uuid4] does not repeat itself, nor what is stored or another process may draw. *)
Definition unique_identifiers (cl : Cluster R) (ids : nat → UUID) : Prop :=
  (∀ m n, ids m = ids n → m = n)
  ∧ (∀ n, view (storage cl) !! ids n = None)
  ∧ ∀ i q m n, processes cl !! i = Some q → ids m ≠ identifiers q n.

(** The processes that may be started on a storage. *)
Context (launched : R → Process R → Prop).

Inductive cluster_step : Cluster R → Cluster R → Prop :=
(** One process runs one atomic piece of one task. *)
| cluster_run cl i p k next eff :
    processes cl !! i = Some p → tasks p !! k = Some (Step next eff) →
    let w := seen (storage cl) p in
    cluster_step cl (mkCluster (w_repo (eff w)) (<[i := advance p k next eff w]> (processes cl)))
| cluster_start cl i p :
    processes cl !! i = None → unique_identifiers cl (identifiers p) → launched (storage cl) p →
    cluster_step cl (mkCluster (storage cl) (<[i := p]> (processes cl)))
(** A process dies, wherever it is. *)
| cluster_kill cl i :
    cluster_step cl (mkCluster (storage cl) (delete i (processes cl))).

(** ** The invariant of one process among the others *)

(** The identifiers other processes are still to draw. *)
Definition drawn_elsewhere (cl : Cluster R) (i : nat) (id : UUID) : Prop :=
  ∃ j q n, j ≠ i ∧ processes cl !! j = Some q ∧ id = uuids (w_env (private q)) n.

Notation inv_among others := (world_inv_among (others := others)).
Notation safe_among others := (steps_along (inv_among others) world_le any).

(** A process as it starts: nothing drawn, queued or audited, and tasks that keep the
    invariant among any other processes. *)
Record fresh_process (p : Process R) : Prop := {
  fresh_identifiers n : uuids (w_env (private p)) n = identifiers p n;
  fresh_audit : events (w_audit (private p)) = [];
  fresh_queue : _queue (w_queue (private p)) = [];
  fresh_tasks : Forall (λ c, ∀ (others : UUID → Prop) w, inv_among others w → safe_among others c w) (tasks p);
}.

Context (launched_fresh : ∀ cl p,
  repo_inv (storage cl) → unique_identifiers cl (identifiers p) → launched (storage cl) p → fresh_process p).

(** A task is safe among any processes that stay away from the identifiers of its own. *)
Definition task_safe (ids : nat → UUID) (w : W) (c : co W unit) : Prop :=
  ∀ others : UUID → Prop, (∀ id n, others id → id ≠ ids n) →
    inv_among others w → safe_among others c w.

Record process_inv (cl : Cluster R) (i : nat) (p : Process R) : Prop := {
  process_world : inv_among (drawn_elsewhere cl i) (seen (storage cl) p);
  process_identifiers n : ∃ m, uuids (w_env (private p)) n = identifiers p m;
  process_tasks : Forall (task_safe (identifiers p) (seen (storage cl) p)) (tasks p);
}.

Record cluster_inv (cl : Cluster R) : Prop := {
  cluster_process i p : processes cl !! i = Some p → process_inv cl i p;
  cluster_disjoint i j p q m n :
    processes cl !! i = Some p → processes cl !! j = Some q → i ≠ j →
    identifiers p m ≠ identifiers q n;
  cluster_storage : repo_inv (storage cl);
}.

(** The invariant among other processes than those it was shown for. *)
Lemma inv_among_change (o o' : UUID → Prop) (w : W) :
  inv_among o w → (∀ id, o' id → view (w_repo w) !! id = None ∧ ∀ n, id ≠ uuids (w_env w) n) →
  inv_among o' w.
Proof. intros [] Ho'. by constructor. Qed.

(** What is not stored now was not stored before. *)
Lemma not_stored_before (v v' : store) id : evolves v v' → v' !! id = None → v !! id = None.
Proof.
  intros He Hn. destruct (v !! id) as [j|] eqn:Hj; [|done].
  destruct (He id j Hj) as (j' & Hj' & _). congruence.
Qed.

(** ** Steps keep it *)

Lemma started_inv cl i p :
  cluster_inv cl → processes cl !! i = None → unique_identifiers cl (identifiers p) → fresh_process p →
  cluster_inv (mkCluster (storage cl) (<[i := p]> (processes cl))).
Proof.
  intros [Hp Hd Hs] Hi (Hinj & Hnew & Hother) [Hid0 Ha Hq Hts].
  assert (∀ j q n, processes cl !! j = Some q → ∃ m, uuids (w_env (private q)) n = identifiers q m)
    as Hids by (intros j q n Hj; apply (Hp j q Hj)).
  split; cbn [processes storage]; [| |done].
  - intros j q Hj. destruct (decide (j = i)) as [->|Hne].
    + rewrite lookup_insert_eq in Hj. simplify_eq. split.
      * constructor; cbn [w_repo w_env w_audit w_queue seen with_repo]; [done|..|by rewrite Ha|by rewrite Hq].
        -- intros n. by rewrite Hid0.
        -- intros m n. rewrite !Hid0. apply Hinj.
        -- intros id (j & q' & n & Hj & Hq' & ->). cbn [processes] in Hq'.
           rewrite lookup_insert_ne in Hq' by done. destruct (Hids j q' n Hq') as [m Hm]. split.
           ++ apply (inv_fresh _ (process_world _ _ _ (Hp j q' Hq'))).
           ++ intros n' E. apply (Hother j q' n' m Hq'). by rewrite <- Hm, <- Hid0.
      * intros n. by exists n.
      * eapply Forall_impl; [exact Hts|]. intros t Ht others _ Hw. by apply Ht.
    + rewrite lookup_insert_ne in Hj by done. destruct (Hp j q Hj) as [Hw Hid Ht].
      split; [|exact Hid|exact Ht]. apply (inv_among_change _ _ _ Hw).
      intros id (k & q' & n & Hk & Hq' & ->). cbn [processes] in Hq'.
      destruct (decide (k = i)) as [->|].
      * rewrite lookup_insert_eq in Hq'. simplify_eq. rewrite Hid0. split; [apply Hnew|]. intros m.
        destruct (Hid m) as [m' E]. change (w_env (seen (storage cl) q)) with (w_env (private q)).
        rewrite E. by apply (Hother j).
      * rewrite lookup_insert_ne in Hq' by done. apply (inv_others _ Hw). by exists k, q', n.
  - intros j k q q' m n. rewrite !lookup_insert_Some.
    intros [[<- <-]|[? Hj]] [[<- <-]|[? Hk]] Hne; [done|by apply (Hother k)|
      intros E; by apply (Hother j q n m Hj)|by apply (Hd j k)].
Qed.

Lemma killed_inv cl i :
  cluster_inv cl → cluster_inv (mkCluster (storage cl) (delete i (processes cl))).
Proof.
  intros [Hp Hd Hs]. split; cbn [processes storage]; [| |done].
  - intros j q [Hne Hq]%lookup_delete_Some. destruct (Hp j q Hq) as [Hw Hid Ht].
    split; [|done..]. apply (inv_among_change _ _ _ Hw).
    intros id (k & q' & n & Hk & Hq' & ->). cbn [processes] in Hq'.
    apply lookup_delete_Some in Hq' as [_ Hq']. apply (inv_others _ Hw). by exists k, q', n.
  - intros j k q q' m n [_ Hq]%lookup_delete_Some [_ Hq']%lookup_delete_Some. by apply Hd.
Qed.

(** Among processes away from its identifiers, what a process may assume now it could
    before. *)
Lemma inv_among_before (ids : nat → UUID) (o others : UUID → Prop) (w w' : W) :
  inv_among o w → (∀ n, ∃ m, uuids (w_env w) n = ids m) → world_le w w' →
  (∀ id n, others id → id ≠ ids n) → inv_among others w' → inv_among others w.
Proof.
  intros Hw Hids Hle Haway Hw'. apply (inv_among_change _ _ _ Hw). intros id Hid. split.
  - apply (not_stored_before _ _ _ (le_evolves _ _ Hle)), (inv_others _ Hw' _ Hid).
  - intros n. destruct (Hids n) as [m ->]. by apply Haway.
Qed.

Lemma task_safe_later (ids : nat → UUID) o (w w' : W) c :
  inv_among o w → (∀ n, ∃ m, uuids (w_env w) n = ids m) → world_le w w' →
  task_safe ids w c → task_safe ids w' c.
Proof.
  intros Hw Hids Hle Hc others Haway Hw'. eapply along_later; [apply _| |exact Hle].
  apply Hc; [done|]. by eapply inv_among_before.
Qed.

Lemma task_safe_step (ids : nat → UUID) o (w : W) next eff :
  inv_among o w → (∀ n, ∃ m, uuids (w_env w) n = ids m) →
  (∀ id n, o id → id ≠ ids n) → task_safe ids w (Step next eff) →
  inv_among o (eff w) ∧ world_le w (eff w) ∧ task_safe ids (eff w) (next w).
Proof.
  intros Hw Hids Ho Hc. destruct (Hc o Ho Hw w Hw ltac:(done)) as (Hw' & Hle & _).
  split_and!; [done..|]. intros others Haway Heff.
  pose proof (inv_among_before ids o others w (eff w) Hw Hids Hle Haway Heff) as Hbefore.
  by destruct (Hc others Haway Hbefore w Hbefore ltac:(done)) as (_ & _ & ?).
Qed.

Lemma drawn_elsewhere_away cl i p id n :
  cluster_inv cl → processes cl !! i = Some p → drawn_elsewhere cl i id → id ≠ identifiers p n.
Proof.
  intros [Hp Hd _] Hi (j & q & m & Hne & Hq & ->). destruct (Hp j q Hq) as [_ Hids _].
  destruct (Hids m) as [m' ->]. by apply (Hd j i).
Qed.

(** What a step of one process is for another: the storage has moved on. *)
Lemma seen_le s s' (q : Process R) : repo_le s s' → world_le (seen s q) (seen s' q).
Proof. intros. constructor; simpl; eauto. Qed.

Lemma process_run_inv cl i p k next eff :
  cluster_inv cl → processes cl !! i = Some p → tasks p !! k = Some (Step next eff) →
  let w := seen (storage cl) p in
  let cl' := mkCluster (w_repo (eff w)) (<[i := advance p k next eff w]> (processes cl)) in
  cluster_inv cl' ∧ repo_le (storage cl) (storage cl').
Proof.
  intros Hcl Hi Hk w cl'. pose proof Hcl as [Hp Hd Hs]. destruct (Hp i p Hi) as [Hw Hids Ht].
  pose proof (proj1 (Forall_lookup _ _) Ht k _ Hk) as Hstep.
  destruct (task_safe_step (identifiers p) _ w next eff Hw Hids (λ id n, drawn_elsewhere_away cl i p id n Hcl Hi) Hstep)
    as (Hw' & Hle & Hnext).
  assert (seen (storage cl') (advance p k next eff w) = eff w) as Hseen by apply with_private.
  assert (∀ n, ∃ m, uuids (w_env (eff w)) n = identifiers p m) as Hids'.
  { intros n. destruct (le_uuids _ _ Hle n) as [m ->]. apply Hids. }
  split; [|apply (le_repo _ _ Hle)].
  split; [| |apply (inv_repo _ Hw')].
  - intros j q. cbn [cl' processes]. rewrite lookup_insert_Some. intros [[<- <-]|[Hne Hq]].
    + split; rewrite ?Hseen.
      * apply (inv_among_change _ _ _ Hw'). intros id (j & q & n & Hj & Hq & ->).
        cbn [cl' processes] in Hq. rewrite lookup_insert_ne in Hq by done.
        apply (inv_others _ Hw'). by exists j, q, n.
      * exact Hids'.
      * cbn [advance tasks]. apply Forall_insert; [|exact Hnext].
        eapply Forall_impl; [exact Ht|]. intros c. by eapply task_safe_later.
    + destruct (Hp j q Hq) as [Hwj Hidj Htj].
      pose proof (seen_le _ _ q (le_repo _ _ Hle)) as Hlej.
      assert (∀ n, drawn_elsewhere cl i (uuids (w_env (private q)) n)) as Hmine
        by (intros n; by exists j, q, n).
      split; [|exact Hidj|].
      * pose proof (le_evolves _ _ Hlej) as He. destruct Hwj as [_ _ Hdist Hoth Ha Hqu].
        constructor; [apply (inv_repo _ Hw')| |exact Hdist| | |].
        -- intros n. apply (inv_others _ Hw'), Hmine.
        -- intros id (m & q' & n & Hm & Hq' & ->). cbn [cl' processes] in Hq'.
           apply lookup_insert_Some in Hq' as [[<- <-]|[Hmi Hq']].
           ++ split; [apply (inv_fresh _ Hw')|]. intros n'.
              apply not_eq_sym, (proj2 (inv_others _ Hw' _ (Hmine n'))).
           ++ split; [apply (inv_others _ Hw'); by exists m, q', n|].
              apply Hoth. by exists m, q', n.
        -- eapply Forall_impl; [exact Ha|]. intros e. by apply event_ok_evolves.
        -- eapply Forall_impl; [exact Hqu|]. intros x. by apply entry_ok_evolves.
      * eapply Forall_impl; [exact Htj|]. intros c. by eapply task_safe_later.
  - intros j1 j2 q1 q2 m n. cbn [cl' processes]. rewrite !lookup_insert_Some.
    intros [[<- <-]|[? Hq1]] [[<- <-]|[? Hq2]] Hne;
      [done|by apply (Hd i j2 p q2)|by apply (Hd j1 i q1 p)|by apply (Hd j1 j2)].
Qed.

Lemma cluster_step_inv cl cl' :
  cluster_inv cl → cluster_step cl cl' → cluster_inv cl' ∧ repo_le (storage cl) (storage cl').
Proof.
  intros Hcl Hstep. destruct Hstep as [cl i p k next eff Hi Hk w|cl i p Hi Hu Hl|cl i].
  - by apply process_run_inv.
  - split; [|done]. apply started_inv; [done..|]. eapply launched_fresh; [apply Hcl|done..].
  - split; [by apply killed_inv|done].
Qed.

Lemma cluster_run_inv cl cl' :
  cluster_inv cl → rtc cluster_step cl cl' → cluster_inv cl' ∧ repo_le (storage cl) (storage cl').
Proof.
  intros Hcl Hrun. induction Hrun as [|cl1 cl2 cl3 Hs _ IH]; [done|].
  destruct (cluster_step_inv _ _ Hcl Hs) as [Hcl2 Hle]. destruct (IH Hcl2) as [? ?].
  split; [done|by etrans].
Qed.

(** A storage without processes. *)
Lemma no_process_inv s : repo_inv s → cluster_inv (mkCluster s ∅).
Proof.
  intros Hs. by split; [intros i p Hi|intros i j p q m n Hi|];
    [cbn in Hi; rewrite lookup_empty in Hi..|].
Qed.
End Cluster.

(** ** Histories *)

(** Process [i] runs the next piece of its [k]-th task, if it has one. *)
Definition turn {R} (i k : nat) (cl : Cluster R) : Cluster R :=
  match processes cl !! i with
  | Some p =>
      match tasks p !! k with
      | Some (Step next eff) =>
          let w := seen (storage cl) p in
          mkCluster (w_repo (eff w)) (<[i := advance p k next eff w]> (processes cl))
      | _ => cl
      end
  | None => cl
  end.

(** What can happen next: a turn, the start of a process under a free number, its death. *)
Inductive Event (R : Type) :=
| Turn (i k : nat)
| Launch (i : nat) (p : Process R)
| Kill (i : nat).
Arguments Turn {_} _ _.
Arguments Launch {_} _ _.
Arguments Kill {_} _.

Definition act {R} (e : Event R) (cl : Cluster R) : Cluster R :=
  match e with
  | Turn i k => turn i k cl
  | Launch i p =>
      match processes cl !! i with
      | None => mkCluster (storage cl) (<[i := p]> (processes cl))
      | Some _ => cl
      end
  | Kill i => mkCluster (storage cl) (delete i (processes cl))
  end.

(** The cluster after the first [n] events of an endless history. *)
Fixpoint history {R} (evs : nat → Event R) (n : nat) (cl : Cluster R) : Cluster R :=
  match n with
  | 0 => cl
  | S n => act (evs n) (history evs n cl)
  end.

(** The events that may happen to a cluster. *)
Definition possible {R} `{RepositoryLaws R} (launched : R → Process R → Prop) (cl : Cluster R) (e : Event R) : Prop :=
  match e with
  | Launch _ p => unique_identifiers cl (identifiers p) ∧ launched (storage cl) p
  | _ => True
  end.

(** A concrete schedule: which task of which process moves next. *)
Fixpoint turns {R} (ks : list (nat * nat)) (cl : Cluster R) : Cluster R :=
  match ks with
  | [] => cl
  | (i, k) :: ks => turns ks (turn i k cl)
  end.

Section Histories.
Context {R : Type} `{RL : RepositoryLaws R} (launched : R → Process R → Prop).

Lemma turn_steps i k (cl : Cluster R) : rtc (cluster_step launched) cl (turn i k cl).
Proof.
  unfold turn. destruct (processes cl !! i) as [p|] eqn:Hi; [|done].
  destruct (tasks p !! k) as [[r|next eff]|] eqn:Hk; [done| |done].
  apply rtc_once. by apply (cluster_run launched cl i p k).
Qed.

Lemma turns_steps ks (cl : Cluster R) : rtc (cluster_step launched) cl (turns ks cl).
Proof. revert cl. induction ks as [|[i k] ks IH]; intros cl; [done|]. etrans; [apply turn_steps|apply IH]. Qed.

Lemma act_steps e (cl : Cluster R) : possible launched cl e → rtc (cluster_step launched) cl (act e cl).
Proof.
  destruct e as [i k|i p|i]; cbn [possible act].
  - intros _. apply turn_steps.
  - intros [Hu Hl]. destruct (processes cl !! i) eqn:Hi; [done|]. apply rtc_once. by constructor.
  - intros _. apply rtc_once. constructor.
Qed.

Lemma history_steps evs n m (cl : Cluster R) :
  (∀ k, possible launched (history evs k cl) (evs k)) → n ≤ m →
  rtc (cluster_step launched) (history evs n cl) (history evs m cl).
Proof.
  intros Hp. induction 1 as [|m _ IH]; [done|]. etrans; [exact IH|]. by apply act_steps.
Qed.
End Histories.
