(* ===== verification/Deployment.v ===== *)
(** A deployment: API, combined and worker processes, each started from settings of its own,
    on one database.  [Service] is one process, [Cluster] what several of them share; here
    they are put together. *)
From S2P Require Export Service Cluster.

Section Deployment.
Context `{QueryPlan}.
Context (repr_str : pystr → pystr) (repr : exn → pystr) (json_depth : nat) (no_route : Response).

(** A process on the database as it is now: [lifespan] or [run_worker] from settings that name
    it (its tables exist, so [create_all] finds nothing to create), with its background task,
    its requests and its shutdown. *)
Inductive launched (s : AnyRepository) : Process AnyRepository → Prop :=
| launch pg st h svc fuel fg :
    s = OfPostgres pg → storage_backend st = u"postgres" →
    (lifespan (λ _, Ok pg) Ok repr_str st h).1 = Ok svc
    ∨ (run_worker (λ _, Ok pg) Ok repr_str st h).1 = Ok svc →
    Forall (foreground json_depth no_route st) fg →
    launched s (mkProcess (uuids (host_env h)) (background repr svc fuel ++ fg)
                  (private_part (service_world svc))).

Lemma launched_fresh (cl : Cluster AnyRepository) p :
  repo_inv (storage cl) → unique_identifiers cl (identifiers p) → launched (storage cl) p →
  fresh_process p.
Proof.
  intros Hi Hu Hl. revert Hu. destruct Hl as [pg st h svc fuel fg Hs Hb Hstart Hfg].
  intros (Hinj & Hnew & _). cbn [identifiers] in *.
  assert (sound_storage (λ _, Ok pg) Ok st h) as Hsound.
  { rewrite Hs in Hi, Hnew. split_and!; [intros p0 [= <-]; split; [exact Hi|exact Hnew]|by intros p1 p2 [= ->]|exact Hinj]. }
  assert (∃ task logs, ready (λ _, Ok pg) Ok st (host_env h) task logs svc)
    as (task & logs & [_ _ _ _ Ha Hq He]).
  { destruct (starts_ready (λ _, Ok pg) Ok repr_str st h Hsound) as [Hl Hk].
    destruct Hstart as [E|E]; [rewrite E in Hl|rewrite E in Hk]; naive_solver. }
  constructor; cbn [private private_part with_repo w_env w_audit w_queue tasks identifiers]; [|done|done|].
  - intros n. by rewrite He.
  - apply Forall_app. split; apply Forall_forall.
    + intros c Hc others w Hw. pose proof (background_safe repr others svc fuel w Hw) as Hall.
      by apply (proj1 (Forall_forall _ _) Hall).
    + intros c Hc others w Hw. apply (foreground_safe json_depth no_route others st); [done|].
      by apply (proj1 (Forall_forall _ _) Hfg).
Qed.

(** C2: the service scales out.  Start any number of processes on one database, at any time,
    each from its own settings, with any HTTP requests, its queue runner or polling worker
    and its shutdown; interleave them piece by piece, with any storage failures and timeouts;
    kill processes in the middle of anything.  Then every stored job stays well formed, no
    job is lost, each only moves along its life, and in every process alive the audit trail
    is true of the shared store and the queue names stored jobs only. *)
Theorem deployment_safety (pg : PostgresJobRepository) (cl : Cluster AnyRepository) :
  repo_inv pg → rtc (cluster_step launched) (mkCluster (OfPostgres pg) ∅) cl →
  ∃ pg', storage cl = OfPostgres pg' ∧ store_ok (view pg') ∧ evolves (view pg) (view pg')
    ∧ ∀ i p, processes cl !! i = Some p →
        Forall (event_ok (view pg')) (events (w_audit (private p)))
        ∧ Forall (entry_ok (view pg')) (_queue (w_queue (private p))).
Proof.
  intros Hs Hrun. change (repo_inv (OfPostgres pg)) in Hs.
  destruct (cluster_run_inv launched launched_fresh _ _ (no_process_inv (OfPostgres pg) Hs) Hrun)
    as [[Hp _ Hi] Hle].
  cbn [storage] in Hle. destruct (storage cl) as [m|pg'] eqn:E; [done|]. exists pg'.
  split_and!; [done|by apply repo_inv_ok|by apply repo_le_evolves|].
  intros i p Hip. destruct (Hp i p Hip) as [[_ _ _ _ Ha Hq] _ _].
  rewrite E in Ha, Hq. done.
Qed.
End Deployment.

(** ** An API process and a worker process on one database *)

Section Example.
#[local] Existing Instance key_order.

Definition empty_database : PostgresJobRepository := mkPg ∅ ∅ (λ _, Fine).

(** The [i]-th of two machines: their identifiers are apart. *)
Definition machine (i : N) : Host :=
  mkHost fresh_root [] (λ n, Z.of_nat n)
    (mkEnv (λ n, (2 * N.of_nat n + i)%N) (λ n, float_of (Z.of_nat n)) (λ n, float_of (Z.of_nat n)) (λ _ _, None))
    (mkMetrics ∅).

Definition api_settings : Settings := settings_for (u"postgres") (u"info") api.
Definition worker_settings : Settings := settings_for (u"postgres") (u"info") worker.

Definition started_or (r : res Service) : Service :=
  match r with Ok s => s | Raise _ => memory_service end.
Definition api_service : Service := started_or (lifespan (λ _, Ok empty_database) Ok id api_settings (machine 0)).1.
Definition worker_service : Service :=
  started_or (run_worker (λ _, Ok empty_database) Ok id worker_settings (machine 1)).1.

Definition api_requests : list (co (World AnyRepository) unit) :=
  [handle_request api_settings 100 not_found_page (SubmitEvaluation sample_payload) sample_req;; mret tt].
Definition api_process : Process AnyRepository :=
  mkProcess (uuids (host_env (machine 0))) (background sample_repr api_service 0 ++ api_requests)
    (private_part (service_world api_service)).
Definition worker_process : Process AnyRepository :=
  mkProcess (uuids (host_env (machine 1))) (background sample_repr worker_service 1 ++ [])
    (private_part (service_world worker_service)).

(** The request is answered, the API process is killed, the worker scores the job. *)
Definition two_processes : Cluster AnyRepository :=
  mkCluster (OfPostgres empty_database) (<[1 := worker_process]> (<[0 := api_process]> ∅)).
Definition served : Cluster AnyRepository := turns (replicate 12 (0, 0)) two_processes.
Definition sample_deployment : Cluster AnyRepository :=
  turns (replicate 30 (1, 0)) (mkCluster (storage served) (delete 0 (processes served))).

Lemma empty_database_holds : holds empty_database ∅.
Proof. split; [done|]. by intros id j Hj%lookup_empty_Some. Qed.

Lemma empty_database_inv : repo_inv empty_database.
Proof. exact (holds_inv _ _ empty_database_holds). Qed.

Lemma empty_database_view id : view (OfPostgres empty_database) !! id = None.
Proof.
  change (pg_view empty_database !! id = None). rewrite (holds_view _ _ empty_database_holds).
  apply lookup_empty.
Qed.

Lemma started_or_ok (r : res Service) : failure r = None → r = Ok (started_or r).
Proof. by destruct r. Qed.

Notation sample_launched := (launched id sample_repr 100 not_found_page).

Lemma sample_deployment_run :
  rtc (cluster_step sample_launched) (mkCluster (OfPostgres empty_database) ∅) sample_deployment.
Proof.
  eapply rtc_l.
  { apply (cluster_start sample_launched _ 0 api_process); [done| |].
    - split_and!; [simpl; lia| |intros i q m n Hq; simpl in Hq; by rewrite lookup_empty in Hq].
      intros n. apply empty_database_view.
    - eapply (launch id sample_repr 100 not_found_page _ empty_database api_settings); [done|done| |].
      + left. apply started_or_ok. vm_compute. reflexivity.
      + apply Forall_singleton. by apply a_request. }
  eapply rtc_l.
  { apply (cluster_start sample_launched _ 1 worker_process); [done| |].
    - split_and!; [simpl; lia| |].
      + intros n. apply empty_database_view.
      + intros i q m n. cbn [processes].
        intros [[<- <-]|[_ Hq]]%lookup_insert_Some; [simpl; lia|].
        simpl in Hq. by rewrite lookup_empty in Hq.
    - eapply (launch id sample_repr 100 not_found_page _ empty_database worker_settings); [done|done| |constructor].
      right. apply started_or_ok. vm_compute. reflexivity. }
  transitivity served; [exact (turns_steps sample_launched (replicate 12 (0, 0)) two_processes)|].
  apply (rtc_l _ _ (mkCluster (storage served) (delete 0 (processes served)))); [apply (cluster_kill _ _ 0)|].
  exact (turns_steps sample_launched (replicate 30 (1, 0)) _).
Qed.

Lemma deployment_safety_witness :
  status <$> (map_to_list (view (storage sample_deployment))).*2 = [SUCCEEDED]
  ∧ store_ok (view (storage sample_deployment))
  ∧ (∃ p, processes sample_deployment !! 1 = Some p
     ∧ event_type <$> events (w_audit (private p)) = [ev_running; ev_succeeded]
     ∧ Forall (event_ok (view (storage sample_deployment))) (events (w_audit (private p)))).
Proof.
  destruct (deployment_safety id sample_repr 100 not_found_page empty_database sample_deployment
    empty_database_inv sample_deployment_run) as (pg & Hpg & Hok & _ & Hp).
  split; [vm_compute; reflexivity|]. rewrite Hpg. split; [exact Hok|].
  destruct (processes sample_deployment !! 1) as [p|] eqn:E.
  - exists p. split; [reflexivity|]. split; [|exact (proj1 (Hp 1 p E))].
    assert (p = default api_process (processes sample_deployment !! 1)) as -> by (by rewrite E).
    vm_compute. reflexivity.
  - exfalso. assert (match processes sample_deployment !! 1 with Some _ => true | None => false end = true)
      as H by (vm_compute; reflexivity). by rewrite E in H.
Defined.
End Example.
