(* ===== verification/Runs.v ===== *)
(** What the two consumers of jobs achieve: the polling worker of a worker process and the
    queue's runner of a combined process, run on their own. *)
From S2P Require Export App.

(** ** What processing a job leaves alone *)

Section Frame.
Context {R : Type} `{JobRepository R, !ClockedRepository R, SL : ScorerLaws R}.
Context (repr : exn → pystr).
Notation W := (World R).

(** The queue and the worker's own state are untouched, and the clock and the timeouts
    are only read. *)
Record consumer_frame (w w' : W) : Prop := {
  consumer_queue : w_queue w' = w_queue w;
  consumer_worker : w_worker w' = w_worker w;
  consumer_clock : rest_of (w_clock w) (w_clock w');
  consumer_late : rest_of (late (w_env w)) (late (w_env w'));
}.

#[export] Instance consumer_frame_preorder : PreOrder consumer_frame.
Proof.
  split; [intros w; by constructor|]. intros w1 w2 w3 [] [].
  constructor; [congruence|congruence|by etrans|by etrans].
Qed.

(** Processing moves the state along any relation that allows this much. *)
Context (F : W → W → Prop) `{!PreOrder F} (HF : ∀ w w', consumer_frame w w' → F w w').
Notation framed_code := (kept_code F).

Lemma framed_repo {A} (m : M (R * clock) A) : clocked m → framed_code (atomically (in_repo m)).
Proof.
  intros Hm. apply kept_piece. intros w. unfold in_repo, zoom, repo_part.
  specialize (Hm (w_repo w) (w_clock w)). destruct (m _) as [r [s' c']].
  by apply HF.
Qed.
Lemma framed_score r : framed_code (evaluator_score r).
Proof.
  intros w. apply (along_weaken _ _ (okay (λ v _, valid_result v = true))); [|done].
  apply score_along; [apply _| |done]. intros w1 w2 [Hr _ Hq Hw _ _ _ _ Hl] _. split; [done|].
  unfold repo_part in Hr. injection Hr as _ Hc. apply HF. constructor; [done|done|by rewrite Hc|done].
Qed.
Hint Resolve kept_done framed_score framed_repo : frames.

(** A piece that only logs, audits, counts or traces. *)
Ltac frame_piece :=
  apply kept_piece; intros ?; apply HF; constructor; simpl; first [reflexivity | apply rest_of_next].
Ltac solve_framed :=
  repeat first
    [ solve [eauto with frames]
    | apply kept_bind; [apply _| |intros ?]
    | apply kept_except; [apply _| |intros ?]
    | frame_piece ].

Lemma framed_or_fail x id body :
  framed_code body → framed_code (EvaluationJobService.or_fail repr x id body).
Proof.
  intros Hb. unfold EvaluationJobService.or_fail, EvaluationJobService._record_failure. solve_framed.
Qed.

Lemma framed_process id : framed_code (EvaluationJobService.process repr id).
Proof.
  unfold EvaluationJobService.process, EvaluationJobService.get, EvaluationJobService.succeed.
  apply kept_bind; [apply _|solve_framed|]. intros x. apply kept_bind; [apply _|solve_framed|]. intros _.
  apply framed_or_fail. solve_framed.
Qed.

Lemma framed_process_claimed x : framed_code (EvaluationJobService.process_claimed repr x).
Proof.
  unfold EvaluationJobService.process_claimed, EvaluationJobService.succeed.
  apply kept_bind; [apply _|solve_framed|]. intros id. apply framed_or_fail. solve_framed.
Qed.

End Frame.

(** ** The polling worker *)

Section Polling.
Context {R : Type} `{RL : RepositoryLaws R, !ClockedRepository R}.
Context (timeout : float) (repr : exn → pystr) (poll_seconds stale_job_seconds : float).
Notation W := (World R).
#[local] Instance polling_scorer : Scorer R := Evaluator.score timeout.
#[local] Instance polling_scorer_laws : ScorerLaws R := mock_scorer_laws timeout.

(** Every attempt to score ends in time. *)
Definition prompt (w : W) : Prop := ∀ k, in_time timeout w k = true.

(** A worker of its own, on a reliable repository: no job is being processed elsewhere, no
    row is locked, and the cutoff of a recovery is a date. *)
Record lone (w : W) : Prop := {
  lone_inv : repo_inv (w_repo w);
  lone_reliable : reliable (w_repo w);
  lone_held : held (w_repo w) = ∅;
  lone_idle id j : view (w_repo w) !! id = Some j → status j ≠ RUNNING;
  lone_starts : worker_stopping (w_worker w) = false;
  lone_dated n : ∃ cutoff, (d ← timedelta_seconds stale_job_seconds;
                            datetime_add (w_clock w n) (- d)) = Ok cutoff;
}.

(** The jobs a claim may take. *)
Definition waiting (v : store) : store := filter (λ '(_, j), claimable j = true) v.

(** A job that was claimed once, scored, and stored with the score of its request. *)
Definition worked (j j' : EvaluationJob) : Prop :=
  ∃ r t t', score_mock_response (request j) = Ok r ∧ succeeded r (claim_job t t' j) j'.

Definition drained (v v' : store) : Prop :=
  ∀ id, match v !! id with
        | None => v' !! id = None
        | Some j => ∃ j', v' !! id = Some j' ∧ if claimable j then worked j j' else j' = j
        end.

Lemma worked_done j j' : worked j j' → status j' = SUCCEEDED ∧ claimable j' = false.
Proof. intros (r & t & t' & _ & c & t2 & _ & ->). done. Qed.

Lemma drained_step v v' id j j' :
  v !! id = Some j → claimable j = true → worked j j' → drained (<[id := j']> v) v' → drained v v'.
Proof.
  intros Hj Hc Hw Hd i. specialize (Hd i). rewrite lookup_insert in Hd. case_decide as Hi; [|done].
  subst i. rewrite Hj, Hc. destruct Hd as (j2 & Hj2 & Heq). exists j2. split; [done|].
  destruct (worked_done _ _ Hw) as [_ Hn]. rewrite Hn in Heq. by subst j2.
Qed.

Lemma waiting_step v id j j' :
  v !! id = Some j → claimable j = true → claimable j' = false →
  size (waiting v) = S (size (waiting (<[id := j']> v))).
Proof.
  intros Hj Hc Hn. unfold waiting. rewrite map_filter_insert_False by (by rewrite Hn).
  rewrite map_filter_delete.
  assert (filter (λ '(_, j), claimable j = true) v !! id = Some j) as Hin
    by (by apply map_lookup_filter_Some_2).
  rewrite map_size_delete_Some by (by eexists).
  assert (size (filter (λ '(_, j), claimable j = true) v) ≠ 0); [|lia].
  apply map_size_ne_0_lookup. eauto.
Qed.

(** What a worker's turn keeps. *)
Lemma lone_later w w' :
  lone w → consumer_frame w w' → repo_inv (w_repo w') → repo_le (w_repo w) (w_repo w') →
  (∀ id j, view (w_repo w') !! id = Some j → status j ≠ RUNNING) → lone w'.
Proof.
  intros [Hi Hr Hh _ Hs Hd] [_ Hw Hc _] Hi' Hle Hidle. constructor; [done| | |done| |].
  - by eapply repo_le_reliable.
  - by rewrite (repo_le_held _ _ Hle).
  - by rewrite Hw.
  - by apply (rest_of_all (λ t, ∃ cutoff, (d ← timedelta_seconds stale_job_seconds;
                            datetime_add t (- d)) = Ok cutoff) _ _ Hc).
Qed.

Lemma prompt_rest w w' : rest_of (late (w_env w)) (late (w_env w')) → prompt w → prompt w'.
Proof. intros [k Hk] Hp n. unfold in_time. rewrite Hk. apply Hp. Qed.
Lemma prompt_later w w' : prompt w → consumer_frame w w' → prompt w'.
Proof. intros Hp [_ _ _ Hl]. by eapply prompt_rest. Qed.

(** A repository operation as a piece of the worker. *)
Lemma wp_in_repo {A} (m : M (R * clock) A) (Φ : res A → W → Prop) w :
  clocked m →
  (∀ r s' c' w', m (w_repo w, w_clock w) = (r, (s', c')) → w_repo w' = s' →
     consumer_frame w w' → late (w_env w') = late (w_env w) → Φ r w') →
  wp (atomically (in_repo m)) Φ w.
Proof.
  intros Hm HΦ. apply wp_atomically. unfold in_repo, zoom, repo_part.
  specialize (Hm (w_repo w) (w_clock w)). destruct (m _) as [r [s' c']]. apply (HΦ r s' c'); [done..| |done].
  by constructor.
Qed.

(** With nobody else at work there is nothing to take back. *)
Lemma nothing_recovered v rows cutoff v' :
  (∀ id j, v !! id = Some j → status j ≠ RUNNING) → recovered v rows cutoff v' →
  recoverable v rows cutoff = ∅ ∧ v' = v.
Proof.
  intros Hidle Hrec.
  assert (∀ id j, v !! id = Some j → stale cutoff j = false) as Hno.
  { intros id j Hj. destruct (stale cutoff j) eqn:E; [|done]. apply stale_spec in E as [E _].
    by destruct (Hidle id j Hj). }
  split; apply map_eq; intros id; [rewrite lookup_empty|].
  - apply map_lookup_filter_None_2. right. intros j Hj [E _]. by rewrite (Hno _ _ Hj) in E.
  - specialize (Hrec id). destruct (v !! id) as [j|] eqn:Hj; [|done].
    rewrite decide_False in Hrec; [done|]. intros [E _]. by rewrite (Hno _ _ Hj) in E.
Qed.

Lemma wp_recover_stale w Φ :
  lone w → (∀ w', lone w' → consumer_frame w w' → late (w_env w') = late (w_env w) →
                  view (w_repo w') = view (w_repo w) → repo_le (w_repo w) (w_repo w') → Φ (Ok tt) w') →
  wp (Worker.recover_stale stale_job_seconds) Φ w.
Proof.
  intros Hw HΦ. pose proof Hw as [Hi Hr Hh Hidle _ Hd]. destruct (Hd 0) as [cutoff Hcut].
  apply wp_bind, wp_atomically. unfold Worker.stale_cutoff, wall_now, zoom, repo_part, now, of_res, mbind, M_bind.
  cbn [fst snd]. destruct (timedelta_seconds _) as [d|e]; [|done]. cbn [mbind res_bind] in Hcut.
  cbn [fst snd]. rewrite Hcut. cbn [fst snd].
  match goal with |- wp _ _ ?s => set (w1 := s) end.
  assert (consumer_frame w w1) as Hf1 by (constructor; simpl; auto with frames).
  apply wp_bind, wp_in_repo; [apply recover_stale_running_clocked|].
  intros r s' c' w2 Hrun Hs2 Hf2 Hl2. subst s'. change (w_repo w1) with (w_repo w) in Hrun.
  destruct (recover_stale_running_spec _ _ _ _ _ _ Hi Hrun) as (Hi2 & Hle & [[-> Hrec]|[? _]]); [|done].
  destruct (nothing_recovered _ _ _ _ Hidle Hrec) as [-> Hv].
  cbn [map_size]. rewrite map_size_empty. cbn [Z.of_nat Z.eqb].
  assert (consumer_frame w w2) as Hf by (by etrans).
  change (Φ (Ok tt) w2). apply HΦ; [|exact Hf|exact Hl2|exact Hv|exact Hle]. apply (lone_later w); [done..|by rewrite Hv].
Qed.

(** One turn of the loop: the oldest waiting job is claimed and processed. *)
Definition turn_taken (w w' : W) (r : res unit) : Prop :=
  ∃ id j t t' evs, is_next (view (w_repo w)) ∅ id j
    ∧ let j1 := claim_job t t' j in
      evaluated timeout w id j1 (<[id := j1]> (view (w_repo w))) r (view (w_repo w')) evs.

Lemma wp_turn fuel w Φ :
  lone w →
  (∀ w', waiting (view (w_repo w)) = ∅ → lone w' → consumer_frame w w' →
         repo_le (w_repo w) (w_repo w') → view (w_repo w') = view (w_repo w) →
         wp (Worker.run_loop repr poll_seconds stale_job_seconds fuel) Φ w') →
  (∀ w' r, turn_taken w w' r → consumer_frame w w' → repo_inv (w_repo w') →
         repo_le (w_repo w) (w_repo w') →
         match r with
         | Ok _ => wp (Worker.run_loop repr poll_seconds stale_job_seconds fuel) Φ w'
         | Raise e => Φ (Raise e) w'
         end) →
  wp (Worker.run_loop repr poll_seconds stale_job_seconds (S fuel)) Φ w.
Proof.
  intros Hw Hidle Hturn. cbn [Worker.run_loop]. apply wp_bind. eapply wp_piece; [reflexivity|].
  cbv beta iota. rewrite (lone_starts _ Hw). apply wp_bind, wp_recover_stale; [done|].
  intros w1 Hw1 Hf1 Hl1 Hv1 Hle1. pose proof Hw1 as [Hi1 Hr1 Hh1 Hid1 _ _].
  apply wp_bind, wp_in_repo; [apply claim_next_queued_clocked|].
  intros r s' c' w2 Hrun Hs2 Hf2 Hl2. subst s'.
  destruct (claim_next_queued_spec _ _ _ _ _ Hi1 Hrun) as (Hi2 & Hle2 & [(-> & Hv2 & Hnone)|[Hclaim|[? _]]]);
    [| |done].
  - apply wp_bind. eapply wp_piece; [reflexivity|]. cbv beta iota.
    match goal with |- wp _ _ ?s => set (w3 := s) end.
    assert (consumer_frame w w3) as Hf by (etrans; [exact Hf1|]; etrans; [exact Hf2|]; by constructor).
    apply Hidle.
    + apply map_empty. intros id. apply map_lookup_filter_None_2. right. intros j Hj Hc.
      rewrite <- Hv1 in Hj. specialize (Hnone id j Hj Hc). rewrite Hh1 in Hnone. set_solver.
    + apply (lone_later w1); [done| |done|done|].
      * etrans; [exact Hf2|]. by constructor.
      * change (w_repo w3) with (w_repo w2). by rewrite Hv2.
    + exact Hf.
    + change (w_repo w3) with (w_repo w2). by etrans.
    + change (w_repo w3) with (w_repo w2). by rewrite Hv2.
  - destruct Hclaim as (x & id & j & t & t' & -> & Hnext & Hx & Htr & Hv2). cbv beta iota.
    assert (reliable (w_repo w2)) as Hr2 by (by eapply repo_le_reliable).
    assert (view (w_repo w2) !! id = Some (claim_job t t' j)) as Hj2 by (rewrite Hv2; apply lookup_insert_eq).
    pose proof (wp_process_claimed timeout repr x id _ w2 Hi2 Hr2 Htr Hj2) as Hp.
    assert (consumer_frame w w2) as Hf by (by etrans).
    apply wp_bind. unfold wp in Hp |- * at 1. destruct Hp as (evs & (Hi3 & Hle3 & _) & Hev).
    pose proof (kept_run _ _ w2 (framed_process_claimed repr consumer_frame (λ _ _ H, H) x)) as Hf3.
    specialize (Hturn (run (EvaluationJobService.process_claimed repr x) w2).2
                  (run (EvaluationJobService.process_claimed repr x) w2).1).
    assert (repo_le (w_repo w) (w_repo w2)) as Hle by (by etrans).
    apply Hturn; [|by etrans|done|by etrans].
    exists id, j, t, t', evs. rewrite <- Hh1, <- Hv1. split; [done|]. cbv zeta. rewrite <- Hv2.
    unfold evaluated, scores, in_time in *. by rewrite Hl2, Hl1 in Hev.
Qed.

(** A turn in which scoring ends in time. *)
Lemma turn_worked w w' r :
  prompt w → turn_taken w w' r →
  r = Ok tt ∧ ∃ id j j', view (w_repo w) !! id = Some j ∧ claimable j = true ∧ worked j j'
    ∧ view (w_repo w') = <[id := j']> (view (w_repo w)).
Proof.
  intros Hp (id & j & t & t' & evs & (Hj & Hc & _) & Hev). unfold evaluated in Hev.
  assert (scores timeout w = true) as Hs by (unfold scores; by rewrite Hp).
  rewrite Hs, bool_decide_eq_true_2 in Hev by done. cbn [andb] in Hev.
  destruct Hev as (-> & v & j' & Hv & Hsuc & Hview & _). split; [done|].
  exists id, j, j'. split_and!; [done|done|by exists v, t, t'|]. by rewrite Hview, insert_insert_eq.
Qed.

Lemma worker_loop_drains fuel : ∀ w,
  lone w → prompt w → size (waiting (view (w_repo w))) <= fuel →
  wp (Worker.run_loop repr poll_seconds stale_job_seconds fuel)
    (λ r w', r = Ok false ∧ drained (view (w_repo w)) (view (w_repo w'))
             ∧ waiting (view (w_repo w')) = ∅
             ∧ repo_inv (w_repo w') ∧ repo_le (w_repo w) (w_repo w')) w.
Proof.
  assert (∀ v, waiting v = ∅ → drained v v) as Hrefl.
  { intros v Hv id. destruct (v !! id) as [j|] eqn:Hj; [|done]. exists j. split; [done|].
    destruct (claimable j) eqn:Hc; [|done]. exfalso.
    assert (waiting v !! id = Some j) as Hin by (by apply map_lookup_filter_Some_2).
    by rewrite Hv in Hin. }
  induction fuel as [|fuel IH]; intros w Hw Hp Hsize.
  { assert (waiting (view (w_repo w)) = ∅) as He by (apply map_size_empty_inv; lia).
    split_and!; [done|by apply Hrefl|done|apply Hw|done]. }
  apply wp_turn; [done| |].
  - intros w1 He Hw1 Hf1 Hle1 Hv1. rewrite <- Hv1. eapply wp_mono;
      [apply IH; [done|by eapply prompt_later|rewrite Hv1, He, map_size_empty; lia]|].
    intros r w2 (? & ? & ? & ? & ?). split_and!; [done..|by etrans].
  - intros w1 r Ht Hf1 Hi1 Hle1.
    destruct (turn_worked _ _ _ Hp Ht) as (-> & id & j & j' & Hj & Hc & Hwk & Hv1).
    destruct (worked_done _ _ Hwk) as [Hst Hn].
    eapply wp_mono; [apply IH| ].
    + apply (lone_later w); [done..|]. rewrite Hv1. intros i k. rewrite lookup_insert.
      case_decide; [intros [= <-]; by rewrite Hst|apply (lone_idle _ Hw)].
    + by eapply prompt_later.
    + rewrite Hv1. rewrite (waiting_step _ _ _ j') in Hsize by done. lia.
    + intros r w2 (-> & Hd & He & Hi2 & Hle2). split_and!; [done| |done|done|by etrans]. rewrite Hv1 in Hd.
      by eapply drained_step.
Qed.

(** C18: a worker left alone gets every waiting job done, on the conditions that the repository
    is reliable, nobody else is at work on it (no job is running, no row locked), the worker was
    not told to stop, its clock gives a date to recover from, and none of its scorings runs out
    of time (one that does ends the worker, see [worker_stops_on_failure]): within as many turns
    as there are waiting jobs each has been claimed exactly once and stored as succeeded with the
    score of its request, every other job is as it was, and the worker is still running. *)
Theorem worker_drains (fuel : nat) (w : W) :
  lone w → prompt w → size (waiting (view (w_repo w))) <= fuel →
  ∃ w', run (Worker.run_loop repr poll_seconds stale_job_seconds fuel) w = (Ok false, w')
        ∧ drained (view (w_repo w)) (view (w_repo w')) ∧ waiting (view (w_repo w')) = ∅.
Proof.
  intros Hw Hp Hsize. destruct (wp_run _ _ _ (worker_loop_drains fuel w Hw Hp Hsize)) as (r & w' & Hrun & -> & ? & ? & _).
  by exists w'.
Qed.

(** A turn in which scoring runs out of time. *)
Lemma turn_failed w w' r :
  scores timeout w = false → turn_taken w w' r →
  r = Raise TimeoutExn ∧ ∃ id j t t' j', is_next (view (w_repo w)) ∅ id j
    ∧ failed failure_message (claim_job t t' j) j'
    ∧ view (w_repo w') = <[id := j']> (view (w_repo w)).
Proof.
  intros Hs (id & j & t & t' & evs & Hnext & Hev). unfold evaluated in Hev. rewrite Hs in Hev.
  cbn [andb] in Hev. destruct Hev as (-> & ev & Hends & _). split; [done|].
  unfold ends_failed in Hends. cbn [status claim_job] in Hends.
  destruct Hends as ((j' & Hf & Hv) & _). exists id, j, t, t', j'. split_and!; [done|done|].
  by rewrite Hv, insert_insert_eq.
Qed.

(** C25: one evaluation that runs out of time ends the worker.  The job is marked failed
    and the exception leaves the loop: the worker's task is done, nothing starts it again,
    and the jobs still queued stay queued.  The process notices nothing until it is told to
    stop; then the exception comes out of [worker.stop()], the repository is not closed and
    the end is not logged. *)
Theorem worker_stops_on_failure (fuel fuel' : nat) (w : W) :
  lone w → waiting (view (w_repo w)) ≠ ∅ → scores timeout w = false →
  ∃ w1 w2 id j t t' j',
    run (Worker.task repr poll_seconds stale_job_seconds (S fuel)) w = (Raise TimeoutExn, w1)
    ∧ worker_task (w_worker w1) = Some (TaskDone (Some TimeoutExn))
    ∧ is_next (view (w_repo w)) ∅ id j ∧ failed failure_message (claim_job t t' j) j'
    ∧ view (w_repo w1) = <[id := j']> (view (w_repo w))
    ∧ run (run_worker_stop (S fuel')) w1 = (Raise TimeoutExn, w2)
    ∧ repo_part w2 = repo_part w1 ∧ w_logs w2 = w_logs w1.
Proof.
  intros Hw Hwait Hs.
  assert (wp (Worker.task repr poll_seconds stale_job_seconds (S fuel)) (λ r w1, r = Raise TimeoutExn
    ∧ worker_task (w_worker w1) = Some (TaskDone (Some TimeoutExn))
    ∧ ∃ id j t t' j', is_next (view (w_repo w)) ∅ id j ∧ failed failure_message (claim_job t t' j) j'
        ∧ view (w_repo w1) = <[id := j']> (view (w_repo w))) w)
    as (r & w1 & Hrun & -> & Ht & id & j & t & t' & j' & Hn & Hf & Hv)%wp_run.
  { apply wp_bind, wp_finally, wp_bind. eapply wp_piece; [reflexivity|]. apply wp_finally.
    match goal with |- wp _ _ ?s => set (w0 := s) end.
    assert (lone w0) as Hw0 by (apply (lone_later w); [done|by constructor|apply Hw|done|apply Hw]).
    apply wp_turn; [done|done|]. intros w1 r Hturn _ _ _.
    destruct (turn_failed w0 w1 r Hs Hturn) as (-> & id & j & t & t' & j' & Hnext & Hfail & Hview).
    cbn [ended failure]. split_and!; [done|done|]. by exists id, j, t, t', j'. }
  destruct (stop_after_failure fuel' _ _ Ht) as (w2 & Hstop & Hr2 & Hl2).
  exists w1, w2, id, j, t, t', j'. by split_and!.
Qed.

(** ** The queue's runner *)

(** A queued job the runner has processed: scored, unless both attempts ran out of time. *)
Definition handled_job (all_in_time : Prop) (j j' : EvaluationJob) : Prop :=
  ∃ t, (∃ r, score_mock_response (request j) = Ok r ∧ succeeded r (move_job RUNNING t j) j')
       ∨ (¬ all_in_time ∧ failed failure_message (move_job RUNNING t j) j').

Definition jobs_handled (all_in_time : Prop) (ids : list UUID) (v v' : store) : Prop :=
  ∀ id, match v !! id with
        | None => v' !! id = None
        | Some j => ∃ j', v' !! id = Some j'
                    ∧ if decide (id ∈ ids) then handled_job all_in_time j j' else j' = j
        end.

(** The jobs of the queue, each once and still to be done. *)
Definition queue_of (ids : list UUID) (w : W) : Prop :=
  Queue.queued_ids w = Some <$> ids ∧ NoDup ids
  ∧ ∀ id, id ∈ ids → ∃ j, view (w_repo w) !! id = Some j ∧ status j = QUEUED.

(** One job through the runner. *)
Lemma wp_handle id j w Φ :
  repo_inv (w_repo w) → reliable (w_repo w) → view (w_repo w) !! id = Some j → status j = QUEUED →
  (∀ w' j', handled_job (prompt w) j j' → view (w_repo w') = <[id := j']> (view (w_repo w)) →
     repo_inv (w_repo w') → repo_le (w_repo w) (w_repo w') →
     rest_of (late (w_env w)) (late (w_env w')) →
     w_queue w' = mkQueue (_queue (w_queue w)) (_unfinished (w_queue w) - 1) (_task (w_queue w))
                    (_stopping (w_queue w)) → Φ (Ok tt) w') →
  wp (Queue.handle (EvaluationJobService.process repr) id) Φ w.
Proof.
  intros Hi Hr Hj Hst HΦ. pose proof (wp_process timeout repr id w Hi Hr) as Hp.
  pose proof (kept_run _ _ w (framed_process repr consumer_frame (λ _ _ H, H) id)) as [Hq _ _ Hl]. unfold wp in Hp.
  apply wp_finally, wp_except. unfold wp at 1.
  destruct (run (EvaluationJobService.process repr id) w) as [r w1]. cbn [fst snd] in *.
  destruct Hp as (evs & (Hi1 & Hle1 & _) & Hspec). rewrite Hj, decide_True in Hspec by done.
  destruct Hspec as (t & Hev).
  assert (∃ j', handled_job (prompt w) j j' ∧ view (w_repo w1) = <[id := j']> (view (w_repo w))
          ∧ (r = Ok tt ∨ r = Raise TimeoutExn)) as (j' & Hj' & Hv & Hres).
  { unfold evaluated in Hev. rewrite bool_decide_eq_true_2, andb_true_r in Hev by done.
    destruct (scores timeout w) eqn:Hs.
    - destruct Hev as (-> & v & j' & Hv & Hsuc & Hview & _). exists j'.
      split_and!; [exists t; left; by exists v|by rewrite Hview, insert_insert_eq|by left].
    - destruct Hev as (-> & ev & ((j' & Hf & Hview) & _) & _). exists j'.
      split_and!; [exists t; right; split; [|done]|by rewrite Hview, insert_insert_eq|by right].
      intros Hprompt. unfold scores in Hs. by rewrite Hprompt in Hs. }
  destruct Hres as [-> | ->]; cbn [is_Exception].
  - apply (HΦ _ j'); [done..|]. simpl. by rewrite Hq.
  - eapply wp_piece; [reflexivity|]. apply (HΦ _ j'); [done..|]. simpl. by rewrite Hq.
Qed.

Lemma handled_earlier (P P' : Prop) j j' : (P → P') → handled_job P' j j' → handled_job P j j'.
Proof. intros Hpp (t & [Hs|[Hn Hf]]); exists t; [by left|right; auto]. Qed.

Lemma jobs_handled_step P P' id ids v v' j j' :
  (P → P') → v !! id = Some j → handled_job P j j' → id ∉ ids →
  jobs_handled P' ids (<[id := j']> v) v' → jobs_handled P (id :: ids) v v'.
Proof.
  intros Hpp Hj Hh Hid Hd i. specialize (Hd i). rewrite lookup_insert in Hd. case_decide as Hi.
  - subst i. rewrite Hj. destruct Hd as (j2 & Hj2 & Heq). rewrite decide_False in Heq by done.
    subst j2. exists j'. split; [done|]. by rewrite decide_True by left.
  - destruct (v !! i) as [k|]; [|done]. destruct Hd as (k' & Hk' & Hk). exists k'. split; [done|].
    destruct (decide (i ∈ ids)) as [Hin|Hin].
    + rewrite decide_True by (by right). by eapply handled_earlier.
    + rewrite decide_False; [done|]. intros [?|?]%elem_of_cons; congruence.
Qed.

Lemma run_queue ids : ∀ fuel w,
  repo_inv (w_repo w) → reliable (w_repo w) → _stopping (w_queue w) = false → queue_of ids w →
  length ids ≤ fuel →
  wp (Queue._run fuel (EvaluationJobService.process repr) false)
    (λ r w', r = Ok false ∧ jobs_handled (prompt w) ids (view (w_repo w)) (view (w_repo w'))
             ∧ w_queue w' = mkQueue [] (_unfinished (w_queue w) - Z.of_nat (length ids))
                              (_task (w_queue w)) false
             ∧ repo_inv (w_repo w') ∧ repo_le (w_repo w) (w_repo w')) w.
Proof.
  induction ids as [|id ids IH]; intros fuel w Hi Hr Hs (Hq & Hnd & Hall) Hf.
  - assert (∀ n b, run (Queue._run n (EvaluationJobService.process repr) b) w = (Ok false, w)) as Hidle.
    { induction n as [|n IHn]; intros b; [done|]. cbn [Queue._run]. rewrite run_bind, run_atomically.
      unfold Queue.poll, gets, mbind, M_bind. rewrite Hs, andb_false_r.
      unfold Queue.queued_ids in Hq. rewrite Hq. apply IHn. }
    unfold wp. rewrite Hidle. cbn [fst snd]. split_and!; [done| | |done|done].
    + intros id. destruct (view (w_repo w) !! id) as [j|]; [|done]. exists j. by rewrite decide_False by apply not_elem_of_nil.
    + cbn [length fst snd]. rewrite Z.sub_0_r. unfold Queue.queued_ids in Hq.
      destruct (w_queue w); simpl in *; congruence.
  - destruct fuel as [|fuel]; cbn [length] in Hf; [lia|]. apply NoDup_cons in Hnd as [Hid Hnd].
    destruct (Hall id) as (j & Hj & Hst); [by left|]. cbn [Queue._run].
    set (w1 := set_queue (mkQueue (Some <$> ids) (_unfinished (w_queue w)) (_task (w_queue w))
                            (_stopping (w_queue w))) w).
    apply wp_bind, (wp_piece _ _ _ (Ok (Queue.Got (Some id))) w1).
    { unfold Queue.poll, gets, mbind, M_bind. unfold Queue.queued_ids in Hq. by rewrite Hs, Hq. }
    apply wp_bind, (wp_handle id j); [done..|]. intros w2 j' Hh Hv Hi2 Hle Hl Hq2.
    change (w_repo w1) with (w_repo w) in *. change (late (w_env w1)) with (late (w_env w)) in Hl.
    eapply wp_mono; [apply IH|].
    + done.
    + by eapply repo_le_reliable.
    + by rewrite Hq2.
    + split_and!; [by unfold Queue.queued_ids; rewrite Hq2|done|]. intros i Hin.
      destruct (Hall i) as (k & Hk & Hkst); [by right|]. exists k. split; [|done].
      rewrite Hv, lookup_insert_ne; [done|]. by intros ->.
    + lia.
    + intros r w3 (-> & Hd & Hq3 & Hi3 & Hle3). split_and!; [done| | |done|by etrans].
      * eapply jobs_handled_step; [by apply (prompt_rest w w2)|exact Hj|exact Hh|exact Hid|]. by rewrite <- Hv.
      * rewrite Hq3, Hq2. cbn. f_equal. lia.
Qed.

(** The runner of a combined process on a reliable repository, left alone with a queue
    of submitted jobs, processes each of them: every job ends succeeded with the score of
    its request or, only if some scoring runs out of time, failed; all other jobs are
    untouched, the queue is empty with no task left unfinished, and, unlike a worker, the
    runner survives the failures. *)
Theorem runner_finishes (ids : list UUID) (fuel : nat) (w : W) :
  repo_inv (w_repo w) → reliable (w_repo w) → _stopping (w_queue w) = false → queue_of ids w →
  _unfinished (w_queue w) = Z.of_nat (length ids) → length ids <= fuel →
  ∃ w', run (Queue._run fuel (EvaluationJobService.process repr) false) w = (Ok false, w')
        ∧ jobs_handled (prompt w) ids (view (w_repo w)) (view (w_repo w'))
        ∧ w_queue w' = mkQueue [] 0 (_task (w_queue w)) false.
Proof.
  intros Hi Hr Hs Hq Hu Hf. destruct (wp_run _ _ _ (run_queue ids fuel w Hi Hr Hs Hq Hf)) as (r & w' & Hrun & -> & Hd & Hw' & _).
  exists w'. split_and!; [done|done|]. by rewrite Hw', Hu, Z.sub_diag.
Qed.
End Polling.

(** ** Examples *)

(** A worker process that finds one submitted job. *)
Definition one_job (cut : nat → float → option nat) : World InMemoryJobRepository :=
  set_repo_part (w_repo (submitted cut), λ _, 0%Z) (submitted cut).

Lemma one_job_lone cut : lone (float_of 300) (one_job cut).
Proof.
  constructor.
  - apply submitted_inv.
  - exact I.
  - reflexivity.
  - intros id j Hj. change (im_view (w_repo (submitted cut)) !! id = Some j) in Hj.
    assert (im_view (w_repo (submitted cut)) = im_view (w_repo (submitted never))) as E by reflexivity.
    rewrite E in Hj. assert (map_Forall (λ _ j, status j ≠ RUNNING) (im_view (w_repo (submitted never)))) as Hall.
    { apply (bool_decide_unpack _). vm_compute. exact I. }
    exact (Hall id j Hj).
  - reflexivity.
  - intros n. eexists. reflexivity.
Qed.

Lemma worker_drains_witness :
  ∃ w', run (Worker.run_loop (Scorer0 := polling_scorer (float_of 5)) sample_repr float_0_05 (float_of 300) 1)
          (one_job never) = (Ok false, w')
        ∧ drained (view (w_repo (one_job never))) (view (w_repo w'))
        ∧ size (waiting (view (w_repo (one_job never)))) = 1.
Proof.
  destruct (worker_drains (float_of 5) sample_repr float_0_05 (float_of 300) 1 (one_job never))
    as (w' & Hrun & Hd & _).
  - apply one_job_lone.
  - intros k. reflexivity.
  - vm_compute. lia.
  - exists w'. split; [exact Hrun|]. split; [exact Hd|]. vm_compute. reflexivity.
Defined.

Lemma worker_stops_on_failure_witness :
  ∃ w1 w2, run (Worker.task (Scorer0 := polling_scorer (float_of 5)) sample_repr float_0_05 (float_of 300) 3)
             (one_job always) = (Raise TimeoutExn, w1)
           ∧ run (run_worker_stop 1) w1 = (Raise TimeoutExn, w2) ∧ repo_part w2 = repo_part w1.
Proof.
  destruct (worker_stops_on_failure (float_of 5) sample_repr float_0_05 (float_of 300) 2 0 (one_job always))
    as (w1 & w2 & id & j & t & t' & j' & Hrun & _ & _ & _ & _ & Hstop & Hr & _).
  - apply one_job_lone.
  - intros H. apply (f_equal map_size) in H. vm_compute in H. discriminate.
  - reflexivity.
  - exists w1, w2. split; [exact Hrun|]. split; [exact Hstop|exact Hr].
Defined.

Lemma runner_finishes_witness :
  ∃ w', run (Queue._run (R := InMemoryJobRepository) 4
               (EvaluationJobService.process (Scorer0 := polling_scorer (float_of 5)) sample_repr) false)
          (submitted always) = (Ok false, w')
        ∧ w_queue w' = mkQueue [] 0 None false
        ∧ ∃ j, view (w_repo w') !! 0%N = Some j.
Proof.
  destruct (runner_finishes (float_of 5) sample_repr [0%N] 4 (submitted always)) as (w' & Hrun & Hd & Hq).
  - apply submitted_inv.
  - exact I.
  - reflexivity.
  - split; [reflexivity|]. split; [apply NoDup_singleton|]. intros id Hin. apply list_elem_of_singleton in Hin as ->.
    eexists. split; vm_compute; reflexivity.
  - reflexivity.
  - simpl. lia.
  - exists w'. split; [exact Hrun|]. split; [exact Hq|]. specialize (Hd 0%N).
    assert (view (w_repo (submitted always)) !! 0%N ≠ None) as Hn by (vm_compute; discriminate).
    destruct (view (w_repo (submitted always)) !! 0%N); [|destruct (Hn eq_refl)].
    destruct Hd as (j' & Hj' & _). exists j'. exact Hj'.
Defined.
