(* ===== verification/Stopping.v ===== *)
(** Stopping the queue's runner while the process goes on answering requests: the runner ends,
    under every fair schedule of the event loop, and leaves the other queued jobs alone. *)
From S2P Require Export Runs.

#[export] Existing Instance Queue.stop_rely_preorder.

(** ** What answering a request leaves alone *)

Section Requests.
Context {R : Type} `{JobRepository R} (st : Settings) (json_depth : nat) (no_route : Response).
Notation W := (World R).

(** What a piece of a request may do: it adds jobs to the queue at most, and leaves the rest of
    the queue, the worker and the timeouts alone. *)
Record request_frame (w w' : W) : Prop := {
  frame_stopping : _stopping (w_queue w') = _stopping (w_queue w);
  frame_task : _task (w_queue w') = _task (w_queue w);
  frame_queue : ∃ later, Queue.queued_ids w' = Queue.queued_ids w ++ later;
  frame_worker : w_worker w' = w_worker w;
  frame_late : late (w_env w') = late (w_env w);
}.

#[export] Instance request_frame_preorder : PreOrder request_frame.
Proof.
  split; [intros w; constructor; [done|done|by exists []; rewrite app_nil_r|done|done]|].
  intros w1 w2 w3 [? ? [l1 Q1]] [? ? [l2 Q2]]. constructor; [congruence|congruence| |congruence|congruence].
  exists (l1 ++ l2). by rewrite Q2, Q1, app_assoc.
Qed.

Definition adds_only {A} (m : M W A) : Prop := ∀ w, request_frame w (m w).2.

Lemma adds_bind {A B} (m : M W A) (k : A → M W B) :
  adds_only m → (∀ a, adds_only (k a)) → adds_only (m ≫= k).
Proof.
  intros Hm Hk w. unfold mbind, M_bind. specialize (Hm w). destruct (m w) as [[a|e] w']; [|done].
  etrans; [exact Hm|apply Hk].
Qed.
Lemma request_frame_same w w' :
  w_queue w' = w_queue w → w_worker w' = w_worker w → late (w_env w') = late (w_env w) → request_frame w w'.
Proof.
  intros Hq Hw Hl. constructor; unfold Queue.queued_ids; rewrite ?Hq; [done|done|by exists []; rewrite app_nil_r|done|done].
Qed.
Lemma adds_zoom {T A} (get : W → T) (set : T → W → W) (m : M T A) :
  (∀ t w, request_frame w (set t w)) → adds_only (zoom get set m).
Proof. intros Hset w. unfold zoom. destruct (m (get w)). apply Hset. Qed.
Lemma adds_repo {A} (m : M (R * clock) A) : adds_only (in_repo m).
Proof. apply adds_zoom. intros t w. by apply request_frame_same. Qed.
Lemma adds_enqueue id : adds_only (Queue.enqueue id).
Proof. intros w. constructor; [done|done|by exists [Some id]|done|done]. Qed.
Hint Resolve adds_repo adds_enqueue : adds.

Ltac solve_adds :=
  repeat first
    [ solve [eauto with adds]
    | apply adds_bind; [|intros ?]
    | apply adds_zoom; intros ??; by apply request_frame_same
    | intros ?; by apply request_frame_same
    | case_match ].

Lemma adds_entering req context tenant route limit : adds_only (enter st req context tenant route limit).
Proof. unfold enter, check_rate_limit. solve_adds. Qed.
Lemma adds_context req : adds_only (request_context st json_depth req).
Proof. unfold request_context, wall_now. solve_adds. Qed.
Lemma adds_submit_create request : adds_only (EvaluationJobService.submit_create request).
Proof. unfold EvaluationJobService.submit_create, wall_now. solve_adds. Qed.
Lemma adds_submit_announce x : adds_only (EvaluationJobService.submit_announce x).
Proof.
  unfold EvaluationJobService.submit_announce, EvaluationJobService.audit_job, audit_record. solve_adds.
Qed.
Hint Resolve adds_entering adds_context adds_submit_create adds_submit_announce : adds.

(** Code made of such pieces. *)
Notation moves := (each_piece (λ _, True) request_frame).

Lemma moves_piece {A} (m : M W A) : adds_only m → moves (atomically m).
Proof. intros Hm. by apply each_atomically. Qed.

Ltac solve_moves :=
  repeat first
    [ exact I
    | apply moves_piece; solve [solve_adds]
    | apply each_bind; [|intros ?]
    | apply each_except; [|intros ?]
    | case_match ].

Lemma endpoint_moves e req rid : moves (call_endpoint st json_depth no_route e req rid).
Proof.
  destruct e; cbn [call_endpoint]; unfold ready, submit_evaluation, list_evaluations, get_evaluation_details,
    get_evaluation, EvaluationJobService.submit, EvaluationJobService.get_for_tenant,
    EvaluationJobService.list_recent, EvaluationJobService.read; solve_moves.
Qed.

Lemma request_moves e req : moves (handle_request st json_depth no_route e req).
Proof.
  pose proof (endpoint_moves e req).
  unfold handle_request, handle_unhandled, MetricsMiddleware, RequestIdMiddleware, handle_app_errors,
    resolve_request_id, new_request_id. solve_moves. all: eauto.
Qed.
End Requests.

(** ** The runner *)

#[export] Instance trivial_preorder {S} : PreOrder (λ _ _ : S, True).
Proof. by split. Qed.

Lemma along_trivial {S A} (c : co S A) s : steps_along (λ _, True) (λ _ _, True) any c s.
Proof. revert s. induction c as [r|next IH eff]; simpl; intros s; [done|]. intros s' _ _. by split_and!. Qed.

Section Runner.
Context {R : Type} `{JobRepository R, !ClockedRepository R, SL : ScorerLaws R}.
Context (st : Settings) (json_depth : nat) (no_route : Response) (repr : exn → pystr).
Notation W := (World R).
Notation process := (EvaluationJobService.process repr).

Lemma process_kept id : kept_code Queue.stop_rely (process id).
Proof. apply framed_process; [apply _|]. intros w w' []. by apply Queue.stop_rely_same. Qed.

(** A request being answered. *)
Definition request_task (q : Endpoint * HttpRequest) : co W unit :=
  handle_request st json_depth no_route q.1 q.2;; mret tt.

Lemma request_task_moves q : each_piece (λ _, True) request_frame (request_task q).
Proof. apply each_bind; [apply request_moves|done]. Qed.

Lemma request_task_waits q : each_piece (λ _, True) Queue.stop_rely (request_task q).
Proof.
  apply (each_weaken (λ _, True) _ request_frame); [done| |apply request_task_moves].
  intros w w' [Hs Ht Hq _ _]. constructor; [by rewrite Hs|done|done].
Qed.

(** A background task among requests. *)
Definition tasks_of (before : list (Endpoint * HttpRequest)) (background : co W unit)
    (behind : list (Endpoint * HttpRequest)) : list (co W unit) :=
  (request_task <$> before) ++ background :: (request_task <$> behind).

Lemma tasks_of_background before c behind : tasks_of before c behind !! length before = Some c.
Proof. apply list_lookup_middle. by rewrite length_fmap. Qed.

Lemma tasks_of_other before c behind i c' :
  i ≠ length before → tasks_of before c behind !! i = Some c' →
  ∃ q, c' = request_task q ∧ q ∈ before ++ behind.
Proof.
  unfold tasks_of. intros Hi [Hc|[Hle Hc]]%lookup_app_Some.
  - apply list_lookup_fmap_Some in Hc as (q & -> & Hin%list_elem_of_lookup_2). exists q. set_solver.
  - rewrite length_fmap in *. destruct (i - length before) as [|i'] eqn:E; [lia|].
    apply list_lookup_fmap_Some in Hc as (q & -> & Hin%list_elem_of_lookup_2). exists q. set_solver.
Qed.

(** C28: a combined process that is told to stop ends its runner however the event loop goes on,
    as long as the loop keeps giving the runner turns: while requests, old and new submissions
    among them, are being answered and whatever storage and scoring do, the runner's task is done
    after some turn.  It has taken at most the job it was already waiting for: everything that
    was queued before, the sentinel if the runner never got to it, and what was submitted since,
    is still in the queue, and this process does not process it any more. *)
Theorem runner_stops_among_requests (waiting : bool) (fuel : nat) (w : W)
    (before behind : list (Endpoint * HttpRequest)) (sched : nat → nat) :
  _task (w_queue w) ≠ None → 2 ≤ fuel → fair sched (length before) →
  let tasks := tasks_of before (Queue.runner_at waiting fuel process) behind in
  ∃ w1 n r, Queue.stop w = (Ok true, w1)
  ∧ (turns sched n (tasks, w1)).1 !! length before = Some (Done r)
  ∧ (r = Ok tt ∨ r = Raise CancelledExn)
  ∧ let s := (turns sched n (tasks, w1)).2 in
    _task (w_queue s) = Some (TaskDone (failure r))
    ∧ ∃ later, Queue.queued_ids s
               = drop (if waiting then 1 else 0) (Queue.queued_ids w ++ [None]) ++ later.
Proof.
  intros Ht Hf Hfair tasks.
  set (w1 := set_queue (mkQueue (_queue (w_queue w) ++ [None]) (_unfinished (w_queue w) + 1)
                          (_task (w_queue w)) true) w).
  assert (Queue.stop w = (Ok true, w1)) as Hstop.
  { subst w1. destruct w as [? ? ? [? ? [task|] ?] ? ? ? ? ? ? ?]; [done|by destruct Ht]. }
  destruct (rely_ends (λ _, True) (λ _ _, True) Queue.stop_rely (Queue.runner_ended waiting w1) sched
    (length before) (tasks, w1) (Queue.runner_at waiting fuel process) Hfair 0)
    as (n & r & Hd & (Hr & Htask & Hq) & _); [apply tasks_of_background| | |].
  - apply (rely_stronger Queue.stop_rely); [by intros s s' (_ & _ & ?)|].
    apply Queue.stopping_task_ends; [apply process_kept|done| |done].
    unfold Queue.queued_ids, w1. cbn. by destruct (_queue (w_queue w)).
  - constructor; [done|by apply Forall_true; intros; apply along_trivial|].
    intros i c Hi (q & -> & _)%tasks_of_other; [|done]. apply request_task_waits.
  - exists w1, n, r. by split_and!.
Qed.
End Runner.

(** ** Example *)

(** A runner that waits, with two jobs announced and a submission on its way. *)
Definition busy_world : World InMemoryJobRepository :=
  set_queue (mkQueue [Some 0%N; Some 7%N] 2 (Some TaskRunning) false) submitted_world.

Lemma runner_stops_among_requests_witness :
  let tasks := tasks_of default_settings 100 not_found_page [(SubmitEvaluation sample_payload, sample_req)]
                 (Queue.runner_at true 2 (EvaluationJobService.process (Scorer0 := polling_scorer (float_of 5)) sample_repr))
                 [] in
  ∃ w1 n r later, Queue.stop busy_world = (Ok true, w1)
  ∧ (turns (λ n, n `mod` 2) n (tasks, w1)).1 !! 1 = Some (Done r)
  ∧ Queue.queued_ids (turns (λ n, n `mod` 2) n (tasks, w1)).2 = [Some 7%N; None] ++ later.
Proof.
  destruct (runner_stops_among_requests (SL := polling_scorer_laws (float_of 5)) default_settings 100 not_found_page
    sample_repr true 2 busy_world [(SubmitEvaluation sample_payload, sample_req)] [] (λ n, n `mod` 2))
    as (w1 & n & r & Hstop & Hd & _ & _ & later & Hq).
  - discriminate.
  - reflexivity.
  - intros n. exists (1 + n * 2). split; [lia|]. cbn [length]. by rewrite Nat.Div0.mod_add.
  - exists w1, n, r, later. split; [exact Hstop|]. split; [exact Hd|exact Hq].
Defined.
