(* ===== verification/EndToEnd.v ===== *)
(** The life of one evaluation, over HTTP: it is submitted, processed by the runner of a combined
    process or by the worker of another process on the same storage, and read back with its
    score. *)
From S2P Require Export Stopping.

Section EndToEnd.
Context {R : Type} `{RL : RepositoryLaws R, !ClockedRepository R}.
Context (st : Settings) (json_depth : nat) (no_route : Response) (timeout : float) (repr : exn → pystr).
Notation W := (World R).
Notation handle_request := (handle_request st json_depth no_route).
Notation admission := (admission st json_depth).
#[local] Instance served_scorer : Scorer R := polling_scorer timeout.

(** ** Submitting *)

(** The state after an admitted submission of [payload] by [t]. *)
Record posted (payload : SubmitEvaluationRequest) (t : pystr) (w : W) (job : EvaluationJob) (w1 : W) : Prop := {
  posted_job : ∃ t1 t2, job = new_job (uuids (w_env w) 1) (request_of payload t) t1 t2;
  posted_inv : repo_inv (w_repo w1);
  posted_le : repo_le (w_repo w) (w_repo w1);
  posted_view : view (w_repo w1) = <[job_id job := job]> (view (w_repo w));
  posted_queue : w_queue w1 = Queue.put (Some (job_id job)) (w_queue w);
  posted_frame : request_frame w w1;
}.

Lemma post_evaluation payload req t w :
  repo_inv (w_repo w) → reliable (w_repo w) → view (w_repo w) !! uuids (w_env w) 1 = None →
  valid_submit payload = true → len_ok 1 128 t = true →
  admission w req (sub_tenant_id payload) (u"submit_evaluation") (rate_limit_submit_per_minute st) = Ok t →
  ∃ resp w1 job, run (handle_request (SubmitEvaluation payload) req) w = (Ok resp, w1)
    ∧ response_status resp = 202%Z
    ∧ response_body resp = SubmitBody (mkSubmitEvaluationResponse (job_id job) QUEUED (id_of_request req w))
    ∧ posted payload t w job w1.
Proof.
  intros Hi Hr Hfresh Hp Ht Hadm. set (rid := id_of_request req w).
  pose proof (wp_submit_evaluation st json_depth payload req rid (request_entered w) Hi Hr Hfresh Hp) as Hs.
  pose proof (request_run st json_depth no_route (SubmitEvaluation payload) req w) as Hrun.
  pose proof (each_run request_frame _ w
    (request_moves st json_depth no_route (SubmitEvaluation payload) req)) as Hframe.
  cbv zeta in Hrun. fold rid in Hrun. cbn [call_endpoint] in Hrun. rewrite run_bind in Hrun.
  apply wp_run in Hs as (r & wa & Hsub & Hs). rewrite Hsub in Hrun. unfold submit_spec in Hs.
  change (Api.admission st json_depth (request_entered w) req) with (admission w req) in Hs.
  rewrite Hadm, Ht in Hs. destruct Hs as (t1 & t2 & -> & [Hi1 Hle1 Hv1 Hq1 _ _ _]).
  rewrite run_ret in Hrun. destruct Hrun as (w1 & Hrun & _ & [Hrepo Hq _ _ _ _ _]).
  rewrite Hrun in Hframe. injection Hrepo as Hrepo _.
  eexists _, w1, _. split; [exact Hrun|]. split; [done|]. split; [done|].
  constructor; [by exists t1, t2|by rewrite Hrepo|by rewrite Hrepo|by rewrite Hrepo|by rewrite Hq|exact Hframe].
Qed.

(** ** Reading *)

(** A job that has been scored, as the answers show it. *)
Definition finished_scored (j j' : EvaluationJob) : Prop :=
  ∃ v, score_mock_response (request j) = Ok v ∧ status j' = SUCCEEDED ∧ result j' = Some v
       ∧ error_message j' = error_message j ∧ request j' = request j.

Lemma succeeded_scored v j j1 j' :
  score_mock_response (request j) = Ok v → request j1 = request j → error_message j1 = error_message j →
  succeeded v j1 j' → finished_scored j j'.
Proof. intros Hv Hr He (c & t & _ & ->). exists v. by split_and!. Qed.

Lemma worked_scored j j' : worked j j' → finished_scored j j'.
Proof. intros (v & t & t' & Hv & Hs). by apply (succeeded_scored v j (claim_job t t' j)). Qed.

Lemma handled_scored (all_in_time : Prop) j j' : all_in_time → handled_job all_in_time j j' → finished_scored j j'.
Proof. 
  intros Ht (t & [(v & Hv & Hs)|[Hn _]]); [by apply (succeeded_scored v j (move_job RUNNING t j))|by destruct Hn].
 Qed.

(** The answer to a reader of job [id] of [t]: its score [v]. *)
Definition answers_score (payload : SubmitEvaluationRequest) (t : pystr) (id : UUID)
    (v : EvaluationResult) (w : W) : Prop :=
  ∀ req tenant,
    admission w req tenant (u"get_evaluation") (rate_limit_read_per_minute st) = Ok t →
    ∃ resp w' summary, run (handle_request (GetEvaluation id tenant) req) w = (Ok resp, w')
    ∧ response_status resp = 200%Z
    ∧ response_body resp
      = JobBody (mkEvaluationJobResponse summary
          (mkEvaluationRequestSummary t (sub_project_id payload) (sub_rubric payload)) (id_of_request req w))
    ∧ s_job_id summary = id ∧ s_status summary = SUCCEEDED ∧ s_result summary = Some v
    ∧ s_error_message summary = None.

Lemma get_evaluation_answer id tenant req t j w :
  repo_inv (w_repo w) → reliable (w_repo w) → view (w_repo w) !! id = Some j → tenant_id j = t →
  admission w req tenant (u"get_evaluation") (rate_limit_read_per_minute st) = Ok t →
  ∃ resp w', run (handle_request (GetEvaluation id tenant) req) w = (Ok resp, w')
  ∧ response_status resp = 200%Z
  ∧ response_body resp = JobBody (mkEvaluationJobResponse (summary_of j)
      (mkEvaluationRequestSummary t (project_id j) (req_rubric (request j))) (id_of_request req w)).
Proof.
  intros Hi Hr Hj Ht Hadm. set (rid := id_of_request req w).
  pose proof (wp_get_evaluation st json_depth id tenant req rid (request_entered w) Hi Hr) as Hg.
  pose proof (request_run st json_depth no_route (GetEvaluation id tenant) req w) as Hrun.
  cbv zeta in Hrun. fold rid in Hrun. cbn [call_endpoint] in Hrun. rewrite run_bind in Hrun.
  apply wp_run in Hg as (r & wa & Hget & -> & _). rewrite Hget in Hrun.
  change (Api.admission st json_depth (request_entered w) req) with (admission w req) in Hrun.
  change (w_repo (request_entered w)) with (w_repo w) in Hrun. unfold owned in Hrun.
  rewrite Hadm in Hrun. cbn [mbind res_bind] in Hrun. rewrite Hj, decide_True in Hrun by done.
  cbn [mbind res_bind] in Hrun. rewrite run_ret in Hrun. destruct Hrun as (w' & Hrun & _).
  eexists _, w'. split; [exact Hrun|]. by split.
Qed.

(** Once stored, a score is answered from then on: a finished job never changes. *)
Lemma scored_answered payload t t1 t2 id w2 j' :
  reliable (w_repo w2) → view (w_repo w2) !! id = Some j' →
  finished_scored (new_job id (request_of payload t) t1 t2) j' →
  ∃ v, score_mock_response (request_of payload t) = Ok v
       ∧ ∀ w3, repo_inv (w_repo w3) → repo_le (w_repo w2) (w_repo w3) → answers_score payload t id v w3.
Proof.
  intros Hr Hj (v & Hv & Hst & Hres & Herr & Hreq). exists v. split; [exact Hv|].
  intros w3 Hi Hle req tenant Hadm.
  assert (view (w_repo w3) !! id = Some j') as Hj3.
  { destruct (repo_le_evolves _ _ Hle id j' Hj) as (j3 & Hj3 & Hsteps).
    rewrite Hj3. f_equal. apply (terminal_rtc j'); [by left|done]. }
  destruct (repo_inv_ok _ Hi _ _ Hj3) as [Hid Hok].
  destruct (ok_owner _ Hok) as [Ht Hp]. rewrite Hreq in Ht, Hp.
  destruct (get_evaluation_answer id tenant req t j' w3) as (resp & w' & Hrun & Hs & Hb);
    [done|by eapply repo_le_reliable|done|done|done|].
  exists resp, w', (summary_of j'). split_and!; [done|done| |done|done|done|done].
  rewrite Hb, Hreq. by rewrite Hp.
Qed.

(** ** The combined process *)

(** C8: an evaluation submitted to a combined process, over HTTP, on the conditions that the
    storage is reliable, every attempt to score ends in time (a job whose scoring times out twice
    fails instead, see [Processing.process_outcome]), the queue holds queued jobs only, each once,
    and nobody tells the runner to stop.  The admitted request is accepted with 202 and an
    identifier; the runner, given a turn for it and for each job queued before it and run with no
    other task in between, processes it; and from then on, whatever the job's life allows to
    happen to the storage, every admitted request of its tenant for that identifier is answered
    with 200, the status [SUCCEEDED] and exactly the score [score_mock_response] gives for the
    submitted question, answer and rubric. *)
Theorem runner_serves (payload : SubmitEvaluationRequest) (req : HttpRequest) (t : pystr) (ids : list UUID)
    (fuel : nat) (w : W) :
  repo_inv (w_repo w) → reliable (w_repo w) → view (w_repo w) !! uuids (w_env w) 1 = None →
  valid_submit payload = true → len_ok 1 128 t = true →
  admission w req (sub_tenant_id payload) (u"submit_evaluation") (rate_limit_submit_per_minute st) = Ok t →
  queue_of ids w → _stopping (w_queue w) = false → prompt timeout w → length ids < fuel →
  ∃ resp w1 w2 id v,
    run (handle_request (SubmitEvaluation payload) req) w = (Ok resp, w1)
    ∧ response_status resp = 202%Z
    ∧ response_body resp = SubmitBody (mkSubmitEvaluationResponse id QUEUED (id_of_request req w))
    ∧ run (Queue._run fuel (EvaluationJobService.process repr) false) w1 = (Ok false, w2)
    ∧ score_mock_response (request_of payload t) = Ok v
    ∧ repo_inv (w_repo w2)
    ∧ ∀ w3, repo_inv (w_repo w3) → repo_le (w_repo w2) (w_repo w3) → answers_score payload t id v w3.
Proof.
  intros Hi Hr Hfresh Hp Ht Hadm (Hq & Hnd & Hall) Hs Hprompt Hf.
  destruct (post_evaluation payload req t w) as (resp & w1 & job & Hrun & Hst & Hb & Hpost); [done..|].
  destruct Hpost as [(t1 & t2 & ->) Hi1 Hle1 Hv1 Hq1 [Hs1 _ _ _ Hl1]].
  set (id := uuids (w_env w) 1) in *. set (job := new_job id (request_of payload t) t1 t2) in *.
  change (job_id job) with id in *.
  assert (queue_of (ids ++ [id]) w1) as Hqueue.
  { split; [|split].
    - unfold Queue.queued_ids in *. rewrite Hq1. cbn. by rewrite Hq, fmap_app.
    - apply NoDup_app. split_and!; [done| |apply NoDup_singleton]. intros i Hin ->%list_elem_of_singleton.
      destruct (Hall _ Hin) as (j & Hj & _). congruence.
    - intros i. rewrite elem_of_app, list_elem_of_singleton, Hv1. intros [Hin| ->].
      + destruct (Hall _ Hin) as (j & Hj & Hjs). exists j. split; [|done].
        rewrite lookup_insert_ne; [done|]. intros ->. congruence.
      + exists job. split; [apply lookup_insert_eq|done]. }
  assert (prompt timeout w1) as Hprompt1 by (intros k; unfold in_time; rewrite Hl1; apply Hprompt).
  destruct (wp_run _ _ _ (run_queue timeout repr (ids ++ [id]) fuel w1 Hi1
    (repo_le_reliable _ _ Hle1 Hr) ltac:(by rewrite Hs1) Hqueue ltac:(rewrite length_app; simpl; lia)))
    as (r & w2 & Hrun2 & -> & Hd & _ & Hi2 & Hle2).
  specialize (Hd id). rewrite Hv1, lookup_insert_eq in Hd. destruct Hd as (j' & Hj' & Hhandled).
  rewrite decide_True in Hhandled by (apply elem_of_app; right; by apply list_elem_of_singleton).
  destruct (scored_answered payload t t1 t2 id w2 j') as (v & Hv & Hans);
    [apply (repo_le_reliable (w_repo w1)); [done|by eapply repo_le_reliable]|done|exact (handled_scored _ _ _ Hprompt1 Hhandled)|].
  exists resp, w1, w2, id, v. by split_and!.
Qed.

(** ** A worker process *)

(** C9: the same across processes, again on a reliable storage: an admitted evaluation is accepted
    by an API process with 202 and an identifier, and a worker that then finds the storage as that
    process left it gets it done, whatever the worker's process has logged, counted or been
    through, on the conditions that nobody else is at work on the storage (no job is running, no
    row locked), the worker was not told to stop, its clock gives a date to recover from, none of
    its scorings runs out of time (one that does ends the worker, see
    [Runs.worker_stops_on_failure]) and it gets a turn for every waiting job, with nothing in
    between.  From then on the API process, or any other that serves the storage, answers every
    admitted request of the tenant for it with its score. *)
Theorem worker_serves (payload : SubmitEvaluationRequest) (req : HttpRequest) (t : pystr)
    (poll_seconds stale_job_seconds : float) (w : W) :
  repo_inv (w_repo w) → reliable (w_repo w) → view (w_repo w) !! uuids (w_env w) 1 = None →
  valid_submit payload = true → len_ok 1 128 t = true →
  admission w req (sub_tenant_id payload) (u"submit_evaluation") (rate_limit_submit_per_minute st) = Ok t →
  ∃ resp w1 id v,
    run (handle_request (SubmitEvaluation payload) req) w = (Ok resp, w1)
    ∧ response_status resp = 202%Z
    ∧ response_body resp = SubmitBody (mkSubmitEvaluationResponse id QUEUED (id_of_request req w))
    ∧ score_mock_response (request_of payload t) = Ok v
    ∧ ∀ fuel ww, w_repo ww = w_repo w1 → lone stale_job_seconds ww → prompt timeout ww →
        size (waiting (view (w_repo ww))) ≤ fuel →
        ∃ ww', run (Worker.run_loop repr poll_seconds stale_job_seconds fuel) ww = (Ok false, ww')
        ∧ repo_inv (w_repo ww')
        ∧ ∀ w3, repo_inv (w_repo w3) → repo_le (w_repo ww') (w_repo w3) → answers_score payload t id v w3.
Proof.
  intros Hi Hr Hfresh Hp Ht Hadm.
  destruct (post_evaluation payload req t w) as (resp & w1 & job & Hrun & Hst & Hb & Hpost); [done..|].
  destruct Hpost as [(t1 & t2 & ->) Hi1 Hle1 Hv1 _ _].
  set (id := uuids (w_env w) 1) in *. set (job := new_job id (request_of payload t) t1 t2) in *.
  change (job_id job) with id in *.
  assert (∃ v, score_mock_response (request_of payload t) = Ok v) as [v Hv].
  { destruct (score_mock_response_run (request_of payload t)) as [_ E]. by eexists. }
  exists resp, w1, id, v. split_and!; [done..|]. intros fuel ww Hww Hlone Hprompt Hf.
  destruct (wp_run _ _ _ (worker_loop_drains timeout repr poll_seconds stale_job_seconds fuel ww Hlone Hprompt Hf))
    as (r & ww' & Hloop & -> & Hd & _ & Hi2 & Hle2).
  exists ww'. split; [exact Hloop|]. split; [done|].
  specialize (Hd id). rewrite Hww, Hv1, lookup_insert_eq in Hd. destruct Hd as (j' & Hj' & Hworked).
  change (claimable job) with true in Hworked.
  destruct (scored_answered payload t t1 t2 id ww' j') as (v' & Hv' & Hans);
    [|done|by apply worked_scored|].
  - apply (repo_le_reliable (w_repo ww)); [done|]. rewrite Hww. by eapply repo_le_reliable.
  - rewrite Hv in Hv'. by injection Hv' as <-.
Qed.
End EndToEnd.

(** ** Examples *)

Lemma sample_world_prompt : prompt (float_of 5) sample_world.
Proof. intros k. reflexivity. Qed.

Lemma runner_serves_witness :
  ∃ resp w1 w2 id v,
    run (handle_request default_settings 100 not_found_page (SubmitEvaluation sample_payload) sample_req)
      sample_world = (Ok resp, w1)
    ∧ run (Queue._run 1 (EvaluationJobService.process (Scorer0 := polling_scorer (float_of 5)) sample_repr) false) w1
      = (Ok false, w2)
    ∧ answers_score default_settings 100 not_found_page sample_payload (u"tenant-a") id v w2.
Proof.
  destruct (runner_serves default_settings 100 not_found_page (float_of 5) sample_repr sample_payload sample_req
    (u"tenant-a") [] 1 sample_world) as (resp & w1 & w2 & id & v & Hpost & _ & _ & Hrun & _ & Hi & Hans).
  - apply sample_world_inv.
  - exact I.
  - apply sample_world_inv.
  - apply sample_payload_valid.
  - reflexivity.
  - vm_compute. reflexivity.
  - split; [reflexivity|]. split; [constructor|]. intros id Hin. by apply elem_of_nil in Hin.
  - reflexivity.
  - apply sample_world_prompt.
  - simpl. lia.
  - exists resp, w1, w2, id, v. split; [exact Hpost|]. split; [exact Hrun|]. apply Hans; [exact Hi|reflexivity].
Defined.

(** The storage after the submission, as a worker that has just started finds it. *)
Definition worker_world (w1 : World InMemoryJobRepository) : World InMemoryJobRepository :=
  set_repo_part (w_repo w1, λ _, 0%Z) sample_world.

Lemma posted_lone resp w1 :
  run (handle_request default_settings 100 not_found_page (SubmitEvaluation sample_payload) sample_req)
    sample_world = (Ok resp, w1) → lone (float_of 300) (worker_world w1).
Proof.
  intros Hrun.
  destruct (post_evaluation default_settings 100 not_found_page sample_payload sample_req (u"tenant-a") sample_world)
    as (resp' & w1' & job & Hrun' & _ & _ & [(t1 & t2 & ->) Hi _ Hv _ _]);
    [apply sample_world_inv|exact I|apply sample_world_inv|apply sample_payload_valid|reflexivity
    |vm_compute; reflexivity|].
  rewrite Hrun in Hrun'. injection Hrun' as <- <-. constructor.
  - exact Hi.
  - exact I.
  - reflexivity.
  - intros id j Hj. change (view (w_repo w1) !! id = Some j) in Hj. rewrite Hv in Hj.
    apply lookup_insert_Some in Hj as [[_ <-]|[_ Hj]]; [done|].
    change (im_view (w_repo sample_world) !! id = Some j) in Hj.
    assert (im_view (w_repo sample_world) = ∅) as E by reflexivity. by rewrite E in Hj.
  - reflexivity.
  - intros n. eexists. reflexivity.
Qed.

(** The worker of another process: its own clock and counters, the storage of the first. *)
Lemma worker_serves_witness :
  ∃ resp w1 id v,
    run (handle_request default_settings 100 not_found_page (SubmitEvaluation sample_payload) sample_req)
      sample_world = (Ok resp, w1)
    ∧ ∃ ww', run (Worker.run_loop (Scorer0 := polling_scorer (float_of 5)) sample_repr float_0_05 (float_of 300) 1)
               (worker_world w1) = (Ok false, ww')
      ∧ answers_score default_settings 100 not_found_page sample_payload (u"tenant-a") id v ww'.
Proof.
  destruct (worker_serves default_settings 100 not_found_page (float_of 5) sample_repr sample_payload sample_req
    (u"tenant-a") float_0_05 (float_of 300) sample_world) as (resp & w1 & id & v & Hpost & _ & _ & _ & Hworker).
  - apply sample_world_inv.
  - exact I.
  - apply sample_world_inv.
  - apply sample_payload_valid.
  - reflexivity.
  - vm_compute. reflexivity.
  - exists resp, w1, id, v. split; [exact Hpost|].
    assert (w1 = (run (handle_request default_settings 100 not_found_page (SubmitEvaluation sample_payload) sample_req)
      sample_world).2) as E by (by rewrite Hpost).
    destruct (Hworker 1 (worker_world w1)) as (ww' & Hloop & Hi & Hans).
    + reflexivity.
    + exact (posted_lone _ _ Hpost).
    + apply sample_world_prompt.
    + clear Hpost Hworker. subst w1. vm_compute. lia.
    + exists ww'. split; [exact Hloop|]. apply Hans; [exact Hi|reflexivity].
Defined.
