(* ===== verification/Serving.v ===== *)
(** What answering requests leaves alone, and how one job is processed beside them: the
    relation the background task of a process relies on, and its pieces under it. *)
From S2P Require Export EndToEnd Service.

(** ** Old jobs and new ones *)

(** A store that holds the jobs of [v], and besides only queued ones, created at times that
    are [dated]. *)
Definition only_new (dated : datetime → Prop) (v v' : store) : Prop :=
  v ⊆ v' ∧ ∀ id j, v' !! id = Some j → v !! id = Some j ∨ status j = QUEUED ∧ dated (created_at j).

Lemma only_new_refl dated v : only_new dated v v.
Proof. split; [done|]. by left. Qed.

Lemma only_new_trans dated v1 v2 v3 : only_new dated v1 v2 → only_new dated v2 v3 → only_new dated v1 v3.
Proof. intros [H12 N12] [H23 N23]. split; [by etrans|]. intros id j Hj. destruct (N23 id j Hj); auto. Qed.

Lemma only_new_weaken (dated dated' : datetime → Prop) v v' :
  (∀ d, dated d → dated' d) → only_new dated v v' → only_new dated' v v'.
Proof. intros Hd [Hv Hn]. split; [done|]. intros id j Hj. destruct (Hn id j Hj) as [?|[? ?]]; auto. Qed.

Lemma only_new_insert dated v v' id j : only_new dated v v' → only_new dated (<[id := j]> v) (<[id := j]> v').
Proof.
  intros [Hv Hn]. split; [by apply insert_mono|]. intros i k. rewrite !lookup_insert. case_decide; [by left|apply Hn].
Qed.

(** A time the clock [c] will show. *)
Definition reading (c : clock) (d : datetime) : Prop := ∃ n, d = c n.

Lemma reading_rest c c' d : rest_of c c' → reading c' d → reading c d.
Proof. intros [k Hk] [n ->]. exists (k + n). by rewrite Hk. Qed.

Lemma only_new_lookup dated v v' id j : only_new dated v v' → v !! id = Some j → v' !! id = Some j.
Proof. intros [Hv _] Hj. by eapply lookup_weaken. Qed.

Section Serving.
Context {R : Type} `{RL : RepositoryLaws R, !ClockedRepository R}.
Context (st : Settings) (json_depth : nat) (no_route : Response) (timeout : float) (repr : exn → pystr).
(** The identifiers other processes on the same storage will draw. *)
Context {others : UUID → Prop}.
Notation W := (World R).
Notation world_inv := (world_inv_among (others := others)).
Notation safe := (steps_along world_inv world_le).
#[local] Instance serving_scorer : Scorer R := polling_scorer timeout.
#[local] Instance serving_scorer_laws : ScorerLaws R := polling_scorer_laws timeout.
Notation process := (EvaluationJobService.process repr).

(** ** What requests leave alone *)

(** Stored jobs stay as they are; new ones may come, dated by the clock. *)
Record jobs_kept (w w' : W) : Prop := {
  kept_inv : repo_inv (w_repo w) → repo_inv (w_repo w');
  kept_view : only_new (reading (w_clock w)) (view (w_repo w)) (view (w_repo w'));
  kept_clock : rest_of (w_clock w) (w_clock w');
}.

#[export] Instance jobs_kept_preorder : PreOrder jobs_kept.
Proof.
  split; [intros w; constructor; [done|apply only_new_refl|done]|].
  intros w1 w2 w3 [] []. constructor; [auto| |by etrans]. eapply only_new_trans; [done|].
  eapply only_new_weaken; [|done]. intros d. by apply reading_rest.
Qed.

Notation keeps := (each_piece world_inv jobs_kept).

(** A piece that reads the clock at most. *)
Definition still {A} (m : M W A) : Prop :=
  ∀ w, w_repo (m w).2 = w_repo w ∧ rest_of (w_clock w) (w_clock (m w).2).

Lemma still_bind {A B} (m : M W A) (k : A → M W B) : still m → (∀ a, still (k a)) → still (m ≫= k).
Proof.
  intros Hm Hk w. unfold mbind, M_bind. specialize (Hm w). destruct (m w) as [[a|e] w']; [|done].
  destruct (Hk a w') as [E ?], Hm. split; [by rewrite E|by etrans].
Qed.

Lemma keeps_still {A} (m : M W A) : still m → keeps (atomically m).
Proof.
  intros Hm. apply each_atomically. intros w _. destruct (Hm w) as [E Hc].
  constructor; rewrite ?E; [done|apply only_new_refl|done].
Qed.

(** A method that stores nothing. *)
Lemma keeps_read {A} (m : M (R * clock) A) :
  clocked m →
  (∀ s c r s' c', repo_inv s → m (s, c) = (r, (s', c')) → repo_inv s' ∧ view s' = view s) →
  keeps (atomically (in_repo m)).
Proof.
  intros Hc Hm. apply each_atomically. intros w Hw. unfold in_repo, zoom, repo_part.
  specialize (Hc (w_repo w) (w_clock w)). destruct (m _) as [r [s' c']] eqn:E.
  destruct (Hm _ _ _ _ _ (inv_repo _ Hw) E) as [Hi Hv]. constructor; cbn; [done| |done].
  rewrite Hv. apply only_new_refl.
Qed.

Lemma keeps_of_res {A B} (r : res A) (k : A → co W B) :
  (∀ a, r = Ok a → keeps (k a)) → keeps (atomically (of_res r) ≫= k).
Proof. intros Hk w Hw. split; [reflexivity|]. cbn. destruct r; [by apply Hk|done]. Qed.

Lemma keeps_get_for_tenant id t : keeps (atomically (in_repo (get_for_tenant id t)) : co W ref).
Proof. apply keeps_read; [auto with frames|]. intros s c r s' c' Hs Hrun. by destruct (get_for_tenant_spec _ _ _ _ _ _ _ Hs Hrun) as (? & _ & ? & _). Qed.

Lemma keeps_list t p limit : (0 ≤ limit)%Z → keeps (atomically (in_repo (list_recent t p limit)) : co W (list ref)).
Proof.
  intros Hl. apply keeps_read; [auto with frames|]. intros s c r s' c' Hs Hrun.
  by destruct (list_recent_spec _ _ _ _ _ _ _ _ Hs Hl Hrun) as (? & _ & ? & _).
Qed.

Lemma keeps_health : keeps (atomically (in_repo health_check) : co W bool).
Proof. apply keeps_read; [auto with frames|]. intros s c r s' c' Hs Hrun. by destruct (health_check_spec _ _ _ _ _ Hs Hrun) as (? & _ & ? & _). Qed.

(** Creating a job under a fresh identifier. *)
Lemma keeps_create request :
  valid_request request = true → keeps (atomically (EvaluationJobService.submit_create request)).
Proof.
  intros Hreq. apply each_atomically. intros s Hs.
  unfold EvaluationJobService.submit_create, uuid4, wall_now, open_span, in_repo, zoom, modify, now,
    repo_part, mbind, M_bind; simpl.
  set (job := new_job _ request _ _).
  pose proof (create_clocked job (w_repo s) (λ n, w_clock s (2 + n))) as Hc.
  destruct (create job _) as [r [s' c']] eqn:E. simpl.
  pose proof (new_job_ok (uuids (w_env s) 0) request (w_clock s 0) (w_clock s 1) Hreq) as Hok.
  destruct (create_spec _ _ _ _ _ _ (inv_repo _ Hs) Hok eq_refl (inv_fresh _ Hs 0) E) as (Hi & _ & HH).
  constructor; cbn; [done| |].
  - assert (view s' = view (w_repo s) ∨ view s' = <[job_id job := job]> (view (w_repo s))) as [->| ->]
      by (destruct HH as [(x & _ & _ & _ & ?)|(_ & _ & ?)]; auto); [apply only_new_refl|].
    split; [apply insert_subseteq, (inv_fresh _ Hs 0)|]. intros id j. rewrite lookup_insert.
    case_decide; [|by left]. intros [= <-]. right. split; [done|]. by exists 0.
  - etrans; [|exact Hc]. by exists 2.
Qed.

Ltac solve_still :=
  repeat first
    [ apply still_bind; [|intros ?]
    | intros ?; split; [reflexivity|first [reflexivity|apply rest_of_next]]
    | match goal with |- still (zoom _ _ ?m) => intros ?; unfold zoom; destruct (m _); by split end
    | case_match ].

Lemma still_enter req context tenant route limit : still (enter st req context tenant route limit).
Proof. unfold enter, check_rate_limit. solve_still. Qed.
Lemma still_context req : still (request_context st json_depth req).
Proof. intros w. split; [reflexivity|apply rest_of_next]. Qed.
Lemma still_announce x : still (EvaluationJobService.submit_announce x).
Proof.
  unfold EvaluationJobService.submit_announce, EvaluationJobService.audit_job, audit_record, Queue.enqueue,
    Queue.gauge_depth. solve_still.
Qed.

Ltac solve_keeps :=
  repeat first
    [ exact I
    | solve [eauto using keeps_get_for_tenant, keeps_list, keeps_health, keeps_create]
    | apply keeps_still; solve [eauto using still_enter, still_context, still_announce | solve_still]
    | apply keeps_of_res; intros ?? | apply each_bind; [|intros ?] | apply each_except; [|intros ?] | case_match ].

Lemma to_evaluation_request_valid payload t request :
  to_evaluation_request payload t = Ok request → valid_request request = true.
Proof. unfold to_evaluation_request, validate_request. case_match eqn:E; [|done]. by intros [= <-]. Qed.

Lemma listing_limit tenant project limit : valid_listing_query tenant project limit = true → (0 ≤ limit)%Z.
Proof. unfold valid_listing_query. intros. to_prop. lia. Qed.
Hint Resolve to_evaluation_request_valid listing_limit : core.

Lemma endpoint_keeps e req rid :
  valid_endpoint e = true → keeps (call_endpoint st json_depth no_route e req rid).
Proof.
  intros Hv. destruct e; cbn [call_endpoint valid_endpoint] in *;
    unfold App.ready, App.ready_of, submit_evaluation, list_evaluations, get_evaluation_details, get_evaluation,
      EvaluationJobService.submit, EvaluationJobService.get_for_tenant, EvaluationJobService.list_recent,
      EvaluationJobService.read; solve_keeps.
Qed.

Lemma request_keeps e req :
  valid_endpoint e = true → keeps (handle_request st json_depth no_route e req).
Proof.
  intros Hv. pose proof (λ rid, endpoint_keeps e req rid Hv).
  unfold handle_request, handle_unhandled, MetricsMiddleware, RequestIdMiddleware, handle_app_errors,
    resolve_request_id, new_request_id. solve_keeps. all: eauto.
Qed.

(** Nor does the shutdown of a process change a job. *)
Lemma await_keeps task fuel : keeps (await_task task fuel : co W bool).
Proof. induction fuel as [|fuel IH]; cbn [await_task]; solve_keeps. Qed.

Lemma still_queue_stop : still (Queue.stop : M W bool).
Proof. intros w. unfold Queue.stop, Queue.on_queue, gets, modify, mbind, M_bind. cbn. by destruct (_task (w_queue w)). Qed.
Lemma still_worker_stop : still (Worker.stop : M W bool).
Proof. intros w. by split. Qed.

Lemma keeps_close : keeps (atomically (in_repo close) : co W unit).
Proof. apply keeps_read; [auto with frames|]. intros s c r s' c' Hs Hrun. by destruct (close_spec _ _ _ _ _ Hs Hrun) as (? & _ & ? & _). Qed.

Hint Resolve await_keeps still_queue_stop still_worker_stop keeps_close : core.

Lemma lifespan_stop_keeps fuel : keeps (lifespan_stop fuel : co W bool).
Proof. unfold lifespan_stop, queue_stop, worker_stop. solve_keeps. Qed.
Lemma run_worker_stop_keeps fuel : keeps (run_worker_stop fuel : co W bool).
Proof. unfold run_worker_stop, worker_stop. solve_keeps. Qed.

(** ** What the background task relies on *)

(** The times at which jobs are submitted meanwhile, by this process or by others. *)
Context (dated : datetime → Prop).

(** Between two turns of the background task: the invariant is kept, the state evolves, stored
    jobs stay as they are, and the queue is at most added to. *)
Record leaves_alone (w w' : W) : Prop := {
  alone_inv : repo_inv (w_repo w) → repo_inv (w_repo w');
  alone_view : only_new dated (view (w_repo w)) (view (w_repo w'));
  alone_clock : rest_of (w_clock w) (w_clock w');
  alone_frame : request_frame w w';
}.

#[export] Instance leaves_alone_preorder : PreOrder leaves_alone.
Proof.
  split; [intros w; constructor; [done|apply only_new_refl|done..]|].
  intros w1 w2 w3 [] []. constructor; [auto|by eapply only_new_trans|by etrans..].
Qed.

Lemma kept_alone w w' :
  (∀ d, reading (w_clock w) d → dated d) → jobs_kept w w' → request_frame w w' → leaves_alone w w'.
Proof. intros Hd [] ?. constructor; [done|by eapply only_new_weaken|done..]. Qed.

Definition meanwhile : W → W → Prop := amid world_inv world_le leaves_alone.
#[local] Instance meanwhile_preorder : PreOrder meanwhile := amid_preorder world_inv world_le leaves_alone.

Notation relies := (under_rely meanwhile).

(** The state in which the background task starts to work. *)
Context (start : W).

(** The jobs [v] are stored, all others are new; scoring and storage do not fail, and the
    worker and the sessions of others are as they were at the start. *)
Record serving (v : store) (w : W) : Prop := {
  serving_inv : repo_inv (w_repo w);
  serving_reliable : reliable (w_repo w);
  serving_view : only_new dated v (view (w_repo w));
  serving_clock : rest_of (w_clock start) (w_clock w);
  serving_held : held (w_repo w) = held (w_repo start);
  serving_worker : w_worker w = w_worker start;
  serving_prompt : prompt timeout w;
}.

(** Besides, [x] is the object of job [id]. *)
Record at_work (x : ref) (id : UUID) (v : store) (w : W) : Prop := {
  work_serving : serving v w;
  work_tracks : tracks (w_repo w) x id;
}.

Lemma meanwhile_inv w w' : world_inv w → meanwhile w w' → world_inv w'.
Proof. intros Hw (Hi & _). auto. Qed.

Lemma serving_meanwhile v w w' : serving v w → meanwhile w w' → serving v w'.
Proof.
  intros [Hi Hr Hv Hc Hh Hw Hp] (_ & [Hle _ _ _ _] & [Hki Hkv Hkc [_ _ _ Hk Hl]]). constructor.
  - auto.
  - by eapply repo_le_reliable.
  - by eapply only_new_trans.
  - by etrans.
  - by rewrite (repo_le_held _ _ Hle).
  - by rewrite Hk.
  - intros k. unfold in_time. rewrite Hl. apply Hp.
Qed.

Lemma at_work_meanwhile x id v w w' : at_work x id v w → meanwhile w w' → at_work x id v w'.
Proof.
  intros [Hs Ht] Hm. constructor; [by eapply serving_meanwhile|].
  destruct Hm as (_ & [Hle _ _ _ _] & _). eapply repo_le_tracks; [apply Hs|done|done].
Qed.

(** A piece of the repository. *)
Lemma rely_repo {A} (m : M (R * clock) A) (Q : res A → W → Prop) v w :
  clocked m → serving v w →
  (∀ s w1 c r s' c', meanwhile w w1 → w_repo w1 = s → repo_inv s → reliable s → only_new dated v (view s) →
     m (s, c) = (r, (s', c')) →
     ∃ v', repo_inv s' ∧ repo_le s s' ∧ only_new dated v' (view s')
           ∧ ∀ w', serving v' w' → repo_le s' (w_repo w') → Q r w') →
  relies Q (atomically (in_repo m)) w.
Proof.
  intros Hmc Hw Hm. apply (rely_atomically meanwhile). intros s1 s2 H1 H2.
  pose proof (serving_meanwhile _ _ _ Hw H1) as [Hi Hr Hv Hc Hh Hk Hp].
  unfold in_repo, zoom, repo_part in *. specialize (Hmc (w_repo s1) (w_clock s1)).
  destruct (m _) as [r [s' c']] eqn:E.
  cbn [fst snd] in *. destruct (Hm _ s1 _ _ _ _ H1 eq_refl Hi Hr Hv E) as (v' & Hi' & Hle & Hv' & HQ). apply HQ.
  - refine (serving_meanwhile v' _ _ _ H2). constructor; cbn; [done| |done|by etrans| |done|done].
    + by eapply repo_le_reliable.
    + by rewrite (repo_le_held _ _ Hle).
  - by destruct H2 as (_ & [? _ _ _ _] & _).
Qed.

Lemma serving_env v w w' :
  serving v w → w_repo w' = w_repo w → w_worker w' = w_worker w → rest_of (w_clock w) (w_clock w') →
  rest_of (late (w_env w)) (late (w_env w')) → serving v w'.
Proof.
  intros [] Hr Hk Hc Hl. constructor; rewrite ?Hr, ?Hk; [done..|by etrans|done|done|]. by eapply prompt_rest.
Qed.

Lemma at_work_env x id v w w' :
  at_work x id v w → w_repo w' = w_repo w → w_worker w' = w_worker w → rest_of (w_clock w) (w_clock w') →
  rest_of (late (w_env w)) (late (w_env w')) → at_work x id v w'.
Proof. intros [Hs Ht] Hr Hk Hc Hl. constructor; [by eapply serving_env|by rewrite Hr]. Qed.

(** A piece that does not touch the repository. *)
Definition aside {A} (m : M W A) : Prop :=
  ∀ w, w_repo (m w).2 = w_repo w ∧ w_worker (m w).2 = w_worker w
       ∧ rest_of (w_clock w) (w_clock (m w).2)
       ∧ rest_of (late (w_env w)) (late (w_env (m w).2)).

Ltac aside_piece := intros ?; split_and!; simpl; first [reflexivity | apply rest_of_next].

Lemma rely_aside {A} (m : M W A) (Q : res A → W → Prop) x id v w :
  aside m → at_work x id v w →
  (∀ w1 w', at_work x id v w1 → at_work x id v w' → Q (m w1).1 w') → relies Q (atomically m) w.
Proof.
  intros Hm Hw HQ. apply (rely_atomically meanwhile). intros s1 s2 H1 H2.
  pose proof (at_work_meanwhile _ _ _ _ _ Hw H1) as Hs1. apply HQ; [done|].
  destruct (Hm s1) as (? & ? & ? & ?). eapply at_work_meanwhile; [by eapply at_work_env|exact H2].
Qed.

(** ** Scoring *)

Lemma serving_in_time v w n : serving v w → late (w_env w) 0 timeout = Some n → 2 ≤ n.
Proof. intros [_ _ _ _ _ _ Hp] E. specialize (Hp 0). unfold in_time in Hp. rewrite E in Hp. by apply Nat.leb_le in Hp. Qed.

(** An operation that is given time enough. *)
Lemma rely_operation r (Q : res EvaluationResult → W → Prop) x id v w cut :
  at_work x id v w → (∀ w', at_work x id v w' → Q (score_mock_response r) w') →
  (∀ n, cut = Some n → 2 ≤ n) →
  relies Q (match cut with Some n => cancel_after n (Evaluator.operation r) | None => Evaluator.operation r end) w.
Proof.
  intros Hw HQ Hcut.
  assert (relies Q (Evaluator.operation r) w) as Hop.
  { intros s H1 s2 H2 s3 H3. cbn. apply HQ. do 2 (eapply at_work_meanwhile; [|eassumption]).
    eapply at_work_env; [eapply (at_work_meanwhile _ _ _ _ _ Hw H1)|done..]. }
  destruct cut as [[|[|n]]|]; [by specialize (Hcut _ eq_refl); lia..| |done].
  exact Hop.
Qed.

Lemma rely_score r (Q : res EvaluationResult → W → Prop) x id v w :
  at_work x id v w → (∀ w', at_work x id v w' → Q (score_mock_response r) w') →
  relies Q (evaluator_score r) w.
Proof.
  intros Hw HQ. unfold evaluator_score, serving_scorer, polling_scorer, Evaluator.score.
  apply (rely_bind meanwhile), (rely_aside _ _ x id v); [aside_piece|done|].
  intros w0 w1 _ Hw1. match goal with |- match ?t with _ => _ end => destruct t eqn:E; [clear E|discriminate E] end.
  apply (rely_finally meanwhile). unfold retry_async. change (Z.to_nat 2) with 2. cbn [retry_loop].
  apply (rely_except meanwhile). unfold with_timeout. apply (rely_bind meanwhile), (rely_atomically meanwhile).
  intros s1 s2 H1 H2. unfold outlives in *. cbn [fst snd] in *.
  destruct (score_mock_response_valid r) as (res & Hres & _).
  pose proof (at_work_meanwhile _ _ _ _ _ Hw1 H1) as Hs1.
  eapply (rely_operation _ _ x id v).
  - eapply at_work_meanwhile; [|exact H2]. eapply at_work_env; [exact Hs1|done|done|done|apply rest_of_next].
  - intros w2 Hw2. rewrite Hres. intros w3 H3. rewrite <- Hres. apply HQ.
    eapply at_work_meanwhile; [|exact H3]. eapply at_work_env; [exact Hw2|done..].
  - intros n. apply (serving_in_time v), Hs1.
Qed.

(** ** One job *)

Lemma work_identity x id v w j :
  at_work x id v w → v !! id = Some j →
  request (deref (w_repo w) x) = request j ∧ job_id (deref (w_repo w) x) = id.
Proof.
  intros [[Hi _ Hv _ _ _ _] Hx] Hj. destruct (tracks_deref _ _ _ Hi Hx) as (j' & Hj' & Hid).
  destruct (repo_inv_ok _ Hi _ _ Hj') as [Hjid _].
  pose proof (only_new_lookup _ _ _ _ _ Hv Hj) as E. rewrite Hj' in E. injection E as ->.
  by destruct Hid as (-> & _ & _ & -> & _).
Qed.

Lemma rely_get id j (Q : res ref → W → Prop) v w :
  serving v w → v !! id = Some j → (∀ x w', at_work x id v w' → Q (Ok x) w') →
  relies Q (EvaluationJobService.get id) w.
Proof.
  intros Hw Hj HQ. apply (rely_repo _ _ v); [auto with frames|done|]. intros s w1 c r s' c' _ _ Hi Hr Hv Hrun.
  destruct (get_spec _ _ _ _ _ _ Hi Hrun) as (Hi' & Hle & Hv' & Hres). exists v. split_and!; [done|done|by rewrite Hv'|].
  intros w' Hw' Hle'. rewrite (only_new_lookup _ _ _ _ _ Hv Hj) in Hres.
  destruct Hres as [(x & -> & _ & Ht)|[? _]]; [|done]. apply HQ. constructor; [done|]. by eapply repo_le_tracks.
Qed.

(** A status change that is allowed. *)
Lemma rely_change m from upd id j x (Q : res ref → W → Prop) v w :
  clocked m → at_work x id v w → v !! id = Some j → status j ∈ from →
  (∀ s c r s' c', repo_inv s → reliable s → m (s, c) = (r, (s', c')) →
     repo_inv s' ∧ repo_le s s'
     ∧ transition_spec (view s) id from upd
         (match r with Ok x => Ok (deref s' x) | Raise e => Raise e end) (view s')) →
  (∀ y j' w', upd j j' → at_work x id (<[id := j']> v) w' → Q (Ok y) w') →
  relies Q (atomically (in_repo m)) w.
Proof.
  intros Hc [Hw Hx] Hj Hst Hm HQ. apply (rely_repo _ _ v); [done|done|]. intros s w1 c r s' c' H1 <- Hi Hr Hv Hrun.
  destruct (Hm _ _ _ _ _ Hi Hr Hrun) as (Hi' & Hle & Htr). unfold transition_spec in Htr.
  rewrite (only_new_lookup _ _ _ _ _ Hv Hj), decide_True in Htr by done. destruct Htr as (j' & Hu & Hr' & Hv').
  destruct r as [y|]; [|done]. exists (<[id := j']> v). split_and!; [done|done|by rewrite Hv'; apply only_new_insert|].
  intros w' Hw' Hle'. apply (HQ _ j'); [done|]. constructor; [done|]. apply (repo_le_tracks s'); [done|done|].
  apply (repo_le_tracks (w_repo w1)); [done|done|]. by apply (at_work_meanwhile x id v w w1).
Qed.

(** A note on the side, on the way to the rest. *)
Lemma rely_noted {B} (m : M W unit) (c : co W B) (Q : res B → W → Prop) x id v w :
  (∀ w, (m w).1 = Ok tt) → aside m → at_work x id v w → (∀ w', at_work x id v w' → relies Q c w') →
  relies Q (atomically m;; c) w.
Proof.
  intros Hok Hm Hw Hc. apply (rely_bind meanwhile), (rely_aside _ _ x id v); [done|done|].
  intros w1 w' _ Hw'. rewrite Hok. by apply Hc.
Qed.

(** A running job, from its request to its stored score. *)
Definition job_scored (id : UUID) (j : EvaluationJob) (v : store) (r : res unit) (s : W) : Prop :=
  r = Ok tt ∧ ∃ j', finished_scored j j' ∧ serving (<[id := j']> v) s.

Lemma rely_evaluate x id j0 j v w :
  at_work x id (<[id := j]> v) w → status j = RUNNING → request j = request j0 → error_message j = error_message j0 →
  relies (job_scored id j0 v)
    (request ← atomically (j ← EvaluationJobService.read x; mret (request j));
     res ← evaluator_score request;
     EvaluationJobService.succeed id res) w.
Proof.
  intros Hw Hst Hreq Herr.
  apply (rely_bind meanwhile), (rely_aside _ _ x id (<[id := j]> v)); [aside_piece|done|]. intros w1 w2 Hw1 Hw2.
  cbv [EvaluationJobService.read gets mbind M_bind mret M_ret fst].
  destruct (work_identity _ _ _ _ j Hw1 (lookup_insert_eq _ _ _)) as [-> _].
  destruct (score_mock_response_valid (request j)) as (res & Hres & Hvalid).
  apply (rely_bind meanwhile), (rely_score _ _ x id _ _ Hw2). intros w3 Hw3. rewrite Hres.
  apply (rely_bind meanwhile).
  apply (rely_change _ [RUNNING] (succeeded res) id j x _ (<[id := j]> v)); [auto with frames|done|by apply lookup_insert_eq| | |].
  { rewrite Hst. by left. }
  { intros s c r s' c' Hi Hr Hrun.
    destruct (set_succeeded_spec _ _ _ _ _ _ _ Hi Hvalid Hrun) as (? & ? & _ & [?|[? _]]); [by split_and!|done]. }
  intros y j2 w4 Hj2 Hw4. rewrite insert_insert_eq in Hw4.
  apply (rely_aside _ _ x id (<[id := j2]> v)); [aside_piece|done|]. intros w5 w6 _ Hw6. split; [done|].
  exists j2. split; [by apply (succeeded_scored res j0 j); rewrite <- ?Hreq|apply Hw6].
Qed.

Lemma rely_or_fail x id body Q w :
  relies (λ r s, r = Ok tt ∧ Q s) body w →
  relies (λ r s, r = Ok tt ∧ Q s) (EvaluationJobService.or_fail repr x id body) w.
Proof.
  intros Hb. apply (rely_except meanwhile). eapply (rely_weaken meanwhile); [exact Hb|]. by intros r s [-> ?].
Qed.

Lemma rely_process id j v w :
  serving v w → v !! id = Some j → status j = QUEUED → relies (job_scored id j v) (process id) w.
Proof.
  intros Hw Hj Hst. apply (rely_bind meanwhile), (rely_get id j _ v); [done|done|]. intros x w1 Hw1.
  apply (rely_noted _ _ _ x id v); [by intros ?|aside_piece|done|]. intros w2 Hw2.
  apply rely_or_fail, (rely_bind meanwhile).
  apply (rely_change _ [QUEUED] started id j x _ v); [auto with frames|done|done|rewrite Hst; by left| |].
  { intros s c r s' c' Hi Hr Hrun. destruct (set_running_spec _ _ _ _ _ _ Hi Hrun) as (? & ? & _ & [?|[? _]]); [by split_and!|done]. }
  intros _ j1 w3 [t ->] Hw3. set (j1 := move_job RUNNING t j) in *.
  apply (rely_noted _ _ _ x id (<[id := j1]> v)); [by intros ?|aside_piece|done|]. intros w4 Hw4.
  by apply (rely_evaluate x id j j1).
Qed.

Lemma rely_process_claimed x id j0 j v w :
  at_work x id (<[id := j]> v) w → status j = RUNNING → request j = request j0 → error_message j = error_message j0 →
  relies (job_scored id j0 v) (EvaluationJobService.process_claimed repr x) w.
Proof.
  intros Hw Hst Hreq Herr. apply (rely_bind meanwhile), (rely_aside _ _ x id (<[id := j]> v)); [aside_piece|done|].
  intros w1 w2 Hw1 Hw2. destruct (work_identity _ _ _ _ j Hw1 (lookup_insert_eq _ _ _)) as [_ Hid].
  match goal with |- match ?t with _ => _ end => assert (t = Ok id) as -> by (transitivity (Ok (job_id (deref (w_repo w1) x))); [reflexivity|by rewrite Hid]) end.
  apply rely_or_fail, (rely_noted _ _ _ x id (<[id := j]> v)); [by intros ?|aside_piece|done|].
  intros w3 Hw3. by apply (rely_evaluate x id j0 j).
Qed.

(** The code's own promise, kept while the others keep theirs. *)
Lemma rely_safe {A} (Q : res A → W → Prop) (c : co W A) w :
  world_inv w → safe Q c w → relies (λ r s, world_inv s ∧ world_le w s ∧ Q r s) c w.
Proof.
  intros Hw Hc.
  assert (∀ s0, world_inv s0 → world_le w s0 → safe Q c s0 →
            relies (λ r s, world_inv s ∧ world_le w s ∧ Q r s) c s0) as H; [|by apply H].
  clear Hw Hc. induction c as [r|next IH eff]; simpl; intros s0 H0 Hle Hc s (Hi & Hs & _).
  - split_and!; [auto|by etrans|by apply Hc; auto].
  - destruct (Hc s (Hi H0) Hs) as (He & Hle2 & Hn). apply IH; [done| |done]. do 2 (etrans; [eassumption|]). done.
Qed.
End Serving.
