(* ===== verification/Liveness.v ===== *)
(** The two background tasks among others: what the runner of a combined process achieves while
    requests are being answered, under every fair schedule of the event loop, and what a polling
    worker achieves whenever the rest of the world only submits jobs ([Scaling] shows that this
    is so of API processes on the same database). *)
From S2P Require Export Serving.

Section Liveness.
Context {R : Type} `{RL : RepositoryLaws R, !ClockedRepository R}.
Context (st : Settings) (json_depth : nat) (no_route : Response) (timeout : float) (repr : exn → pystr).
(** The identifiers other processes on the same storage will draw. *)
Context {others : UUID → Prop}.
Notation W := (World R).
Notation world_inv := (world_inv_among (others := others)).
Notation safe := (steps_along world_inv world_le).
#[local] Instance live_scorer : Scorer R := serving_scorer timeout.
#[local] Instance live_scorer_laws : ScorerLaws R := serving_scorer_laws timeout.
Notation process := (EvaluationJobService.process repr).

Section Start.
(** The state the background task starts in, and the times at which jobs are submitted while
    it works. *)
Context (start : W) (dated : datetime → Prop).
Notation meanwhile := (meanwhile (others := others) dated).
#[local] Instance live_preorder : PreOrder meanwhile := meanwhile_preorder dated.
Notation relies := (under_rely meanwhile).
Notation serving := (serving timeout dated start).
Notation job_scored := (job_scored timeout dated start).

(** ** The queue's runner *)

Lemma rely_handle id j v w :
  serving v w → v !! id = Some j → status j = QUEUED →
  relies (job_scored id j v) (Queue.handle process id) w.
Proof.
  intros Hw Hj Hst. apply (rely_finally meanwhile), (rely_except meanwhile).
  eapply (rely_weaken meanwhile); [by apply (rely_process timeout repr dated start id j v)|].
  intros r s (-> & j' & Hd & Hs) s' Hs'. split; [done|]. exists j'. split; [done|].
  eapply serving_meanwhile; [|exact Hs']. by eapply serving_env.
Qed.

(** Only the tail of the queue changes. *)
Definition queue_grows (w w' : W) : Prop :=
  _stopping (w_queue w') = _stopping (w_queue w) ∧ Queue.queued_ids w `prefix_of` Queue.queued_ids w'.

#[local] Instance queue_grows_preorder : PreOrder queue_grows.
Proof. split; [by intros w|]. intros w1 w2 w3 [? ?] [? ?]. split; [congruence|by etrans]. Qed.

Lemma meanwhile_queue w w' : meanwhile w w' → queue_grows w w'.
Proof. intros (_ & _ & [_ _ _ [Hs _ [later Hq] _ _]]). split; [done|]. by exists later. Qed.

Lemma handle_queue id : kept_code queue_grows (Queue.handle process id).
Proof.
  apply kept_finally; [apply _| |by intros r s]. apply kept_except; [apply _| |intros e; by apply kept_piece].
  apply framed_process; [apply _|]. intros w w' [Hq _ _ _]. unfold queue_grows, Queue.queued_ids. by rewrite Hq.
Qed.

(** The jobs [ids] are next, and nobody stops the runner. *)
Definition next_up (ids : list UUID) (w : W) : Prop :=
  _stopping (w_queue w) = false ∧ (Some <$> ids) `prefix_of` Queue.queued_ids w.

Lemma next_up_grows ids w w' : next_up ids w → queue_grows w w' → next_up ids w'.
Proof. intros [Hs Hp] [Hs' Hp']. split; [congruence|by etrans]. Qed.

(** One job through the runner, among the others. *)
Lemma rely_head id j ids v w :
  world_inv w → serving v w → v !! id = Some j → status j = QUEUED → next_up ids w →
  relies (λ r s, r = Ok tt ∧ world_inv s ∧ next_up ids s ∧ ∃ j', finished_scored j j' ∧ serving (<[id := j']> v) s)
    (Queue.handle process id) w.
Proof.
  intros Hw Hs Hj Hst Hn. eapply (rely_weaken meanwhile).
  - eapply (rely_and meanwhile); [by apply (rely_handle id j v)|eapply (rely_and meanwhile)].
    + apply (rely_stronger queue_grows); [exact meanwhile_queue|].
      apply (rely_kept queue_grows (next_up ids)); [exact (next_up_grows ids)|apply handle_queue|exact Hn].
    + apply (rely_safe dated any); [done|]. apply safe_handle; [done|]. intros. by apply safe_process.
  - intros r s ((-> & j' & Hd & Hv) & Hn' & Hi & _). split_and!; [done..|]. by exists j'.
Qed.

(** The jobs [ids] of [v] are stored with their scores. *)
Definition all_scored (ids : list UUID) (v : store) (w : W) : Prop :=
  ∀ id j, id ∈ ids → v !! id = Some j →
    ∃ j', view (w_repo w) !! id = Some j' ∧ finished_scored j j'.

Lemma all_scored_later ids v w w' : all_scored ids v w → world_le w w' → all_scored ids v w'.
Proof.
  intros Hall Hle id j Hin Hj. destruct (Hall id j Hin Hj) as (j' & Hj' & Hd). exists j'. split; [|done].
  apply (evolves_terminal _ _ _ _ (le_evolves _ _ Hle) Hj'). destruct Hd as (_ & _ & Hst & _). by left.
Qed.

Lemma safe_run fuel b w : world_inv w → safe any (Queue._run fuel process b) w.
Proof. intros Hw. apply safe_runner_loop; [done|]. intros. by apply safe_process. Qed.

(** The runner takes the head of the queue. *)
Definition popped (w : W) : W :=
  set_queue (mkQueue (tail (_queue (w_queue w))) (_unfinished (w_queue w)) (_task (w_queue w))
               (_stopping (w_queue w))) w.

Lemma poll_next b id ids w :
  next_up (id :: ids) w → Queue.poll b w = (Ok (Queue.Got (Some id)), popped w) ∧ next_up ids (popped w).
Proof.
  intros [Hs [later Hq]]. unfold next_up, popped, Queue.poll, Queue.queued_ids, gets, mbind, M_bind in *.
  cbn [fmap list_fmap app] in Hq. destruct w as [? ? ? [q u t stp] ? ? ? ? ? ? ?]. cbn in *. subst q stp. rewrite andb_false_r. split; [done|]. split; [done|]. by exists later.
Qed.

Lemma popped_inv v w : world_inv w → serving v w → world_inv (popped w) ∧ serving v (popped w).
Proof.
  intros Hw Hs. split; [|by eapply serving_env].
  destruct (quiet_ok (others := others) w (popped w)); [|done..]. quiet_step. intros Hq. by destruct Hq.
Qed.

Lemma rely_run ids : ∀ fuel b v w,
  world_inv w → serving v w → next_up ids w → NoDup ids → length ids ≤ fuel →
  (∀ id, id ∈ ids → ∃ j, v !! id = Some j ∧ status j = QUEUED) →
  relies (λ _ s, all_scored ids v s) (Queue._run fuel process b) w.
Proof.
  induction ids as [|id ids IH]; intros fuel b v w Hw Hs Hn Hnd Hf Hall.
  { eapply (rely_weaken meanwhile); [apply (rely_safe dated any); [done|by apply safe_run]|].
    intros r s _ id j Hin%elem_of_nil. done. }
  destruct fuel as [|fuel]; cbn [length] in Hf; [lia|]. apply NoDup_cons in Hnd as [Hid Hnd].
  destruct (Hall id) as (j & Hj & Hst); [by left|]. cbn [Queue._run].
  apply (rely_bind meanwhile), (rely_atomically meanwhile). intros s1 s2 H1 H2.
  assert (next_up (id :: ids) s1) as Hn1 by (eapply next_up_grows, meanwhile_queue; done).
  destruct (poll_next b id ids s1 Hn1) as [Hp Hn1']. rewrite Hp in *. cbn [fst snd] in *.
  destruct (popped_inv v s1) as [Hi1 Hs1]; [by eapply meanwhile_inv|by eapply serving_meanwhile|].
  apply (rely_bind meanwhile). eapply (rely_weaken meanwhile).
  { apply (rely_head id j ids v); [by eapply meanwhile_inv|by eapply serving_meanwhile|done|done|].
    eapply next_up_grows, meanwhile_queue; done. }
  intros r s3 (-> & Hi3 & Hn3 & j' & Hd & Hs3).
  eapply (rely_weaken meanwhile).
  - eapply (rely_and meanwhile).
    + apply (IH fuel false (<[id := j']> v) s3); [done..|lia|]. intros i Hin.
      destruct (Hall i) as (k & Hk & Hkst); [by right|]. exists k. split; [|done].
      rewrite lookup_insert_ne; [done|]. by intros ->.
    + apply (rely_safe dated any); [done|by apply safe_run].
  - intros r s4 (H4 & _ & Hle & _) i k Hin Hk. apply elem_of_cons in Hin as [->|Hin].
    + assert (k = j) as -> by congruence.
      apply (all_scored_later [id] v s3 s4); [|done|by apply list_elem_of_singleton|done].
      intros i k ->%list_elem_of_singleton Hk'. assert (k = j) as -> by congruence. exists j'. split; [|done].
      apply (only_new_lookup _ _ _ _ _ (serving_view _ _ _ _ _ Hs3)), lookup_insert_eq.
    + apply (H4 i k Hin). rewrite lookup_insert_ne; [done|]. by intros ->.
Qed.

(** A clean-up outside of the storage. *)
Ltac le_step :=
  case_match; [|done]; constructor; simpl; first [done | by eexists | intros n; by exists n].

(** What is stable is still so after a clean-up. *)
Lemma rely_cleanup {A} (c : co W A) fin (Q : W → Prop) w :
  (∀ s s', Q s → world_le s s' → Q s') → (∀ r s, world_le s (fin r s)) →
  relies (λ _, Q) c w → relies (λ _, Q) (co_finally c fin) w.
Proof.
  intros HQ Hf Hc. apply (rely_finally meanwhile). eapply (rely_weaken meanwhile); [exact Hc|].
  intros r s Hs s' (_ & Hle & _). by eapply HQ, Hle; eapply HQ.
Qed.

Lemma rely_ends_task {A} (c : co W A) (Q : W → Prop) w :
  (∀ s s', Q s → world_le s s' → Q s') → relies (λ _, Q) c w → relies (λ _, Q) (c;; mret tt) w.
Proof.
  intros HQ Hc. apply (rely_bind meanwhile). eapply (rely_weaken meanwhile); [exact Hc|].
  intros [a|e] s Hs; [|done]. apply (rely_ret meanwhile). intros s' (_ & Hle & _). by eapply HQ.
Qed.

Lemma rely_runner waiting fuel ids v w :
  world_inv w → serving v w → next_up ids w → NoDup ids → length ids ≤ fuel →
  (∀ id, id ∈ ids → ∃ j, v !! id = Some j ∧ status j = QUEUED) →
  relies (λ _, all_scored ids v) (Queue.runner_at waiting fuel process) w.
Proof.
  intros. apply rely_ends_task, rely_cleanup; [apply all_scored_later..| |by apply rely_run].
  intros r s. le_step.
Qed.

(** ** The polling worker *)

Section Worker.
Context (poll_seconds stale_job_seconds : float).
Notation run_loop := (Worker.run_loop repr poll_seconds stale_job_seconds).

(** No job is being processed elsewhere, and what waits is older than anything to come. *)
Definition at_rest (v : store) : Prop :=
  ∀ id j, v !! id = Some j → status j ≠ RUNNING ∧ (claimable j = true → ∀ d, dated d → (created_at j < d)%Z).

Context (Hstart : lone stale_job_seconds start).

Lemma at_rest_idle v v' : at_rest v → only_new dated v v' → ∀ id j, v' !! id = Some j → status j ≠ RUNNING.
Proof.
  intros Hrest [_ Hn] id j Hj. destruct (Hn id j Hj) as [Hv|[Hs _]]; [by apply (Hrest id)|by rewrite Hs].
Qed.

(** Nothing is stale, so nothing is taken back. *)
Lemma rely_recover v w :
  serving v w → at_rest v →
  relies (λ r s, r = Ok tt ∧ serving v s) (Worker.recover_stale stale_job_seconds) w.
Proof.
  intros Hw Hrest. apply (rely_bind meanwhile), (rely_atomically meanwhile). intros s1 s2 H1 H2.
  pose proof (serving_meanwhile _ _ _ _ _ _ Hw H1) as Hs1.
  assert (∃ cutoff, Worker.stale_cutoff stale_job_seconds s1
            = (Ok cutoff, set_repo_part (w_repo s1, λ n, w_clock s1 (1 + n)) s1)) as [cutoff Hcut].
  { destruct Hs1 as [_ _ _ [k Hk] _ _ _]. destruct (lone_dated _ _ Hstart (k + 0)) as [cutoff Hcut].
    exists cutoff. rewrite <- Hk in Hcut.
    unfold Worker.stale_cutoff, wall_now, zoom, repo_part, now, of_res, mbind, M_bind.
    destruct (timedelta_seconds _) as [d|e]; [|done]. cbn [mbind res_bind] in Hcut. cbn. by rewrite Hcut. }
  rewrite Hcut in *. cbn [fst snd] in *.
  assert (serving v s2) as Hs2.
  { eapply serving_meanwhile; [|exact H2]. eapply serving_env; [exact Hs1|done|done|apply rest_of_next|done]. }
  apply (rely_bind meanwhile), (rely_repo timeout dated start _ _ v); [auto with frames|done|].
  intros s w1 c r s' c' _ <- Hi Hr Hv Hrun.
  destruct (recover_stale_running_spec _ _ _ _ _ _ Hi Hrun) as (Hi' & Hle & [[-> Hrec]|[? _]]); [|done].
  destruct (nothing_recovered _ _ _ _ (at_rest_idle _ _ Hrest Hv) Hrec) as [-> Hv'].
  exists v. split_and!; [done|done|by rewrite Hv'|]. intros w' Hw' _.
  apply (rely_ret meanwhile). intros s3 H3. split; [done|]. by eapply serving_meanwhile.
Qed.

(** The oldest job waits for its turn no longer. *)
Lemma rely_claim v w (Q : res (option ref) → W → Prop) :
  serving v w → at_rest v → waiting v ≠ ∅ →
  (∀ x id j t t' s, v !! id = Some j → claimable j = true → at_work timeout dated start x id (<[id := claim_job t t' j]> v) s →
     Q (Ok (Some x)) s) →
  relies Q (atomically (in_repo claim_next_queued)) w.
Proof.
  intros Hw Hrest Hwait HQ. pose proof (serving_held _ _ _ _ _ Hw) as Hh. rewrite (lone_held _ _ Hstart) in Hh.
  assert (∃ i k, v !! i = Some k ∧ claimable k = true) as (i & k & Hk & Hck).
  { destruct (map_choose _ Hwait) as (i & k & [Hk Hc]%map_lookup_filter_Some). by exists i, k. }
  apply (rely_repo timeout dated start _ _ v); [auto with frames|done|]. intros s w1 c r s' c' Hm <- Hi Hr Hv Hrun.
  destruct Hm as (_ & [Hle1 _ _ _ _] & _). rewrite <- (repo_le_held _ _ Hle1) in Hh.
  destruct (claim_next_queued_spec _ _ _ _ _ Hi Hrun) as (Hi' & Hle & [(_ & _ & Hnone)|[Hclaim|[? _]]]); [| |done].
  { specialize (Hnone i k (only_new_lookup _ _ _ _ _ Hv Hk) Hck). rewrite Hh in Hnone. set_solver. }
  destruct Hclaim as (x & id & j & t & t' & -> & (Hj & Hc & Hmin) & _ & Hx & Hv').
  exists (<[id := claim_job t t' j]> v). split_and!; [done|done|rewrite Hv'; by apply only_new_insert|].
  intros w' Hw' Hle'. apply (HQ x id j t t'); [|done|constructor; [done|by apply (repo_le_tracks s')]].
  destruct (proj2 Hv id j Hj) as [?|[_ Hn]]; [done|].
  specialize (Hmin i k (only_new_lookup _ _ _ _ _ Hv Hk) Hck ltac:(rewrite Hh; set_solver)).
  pose proof (proj2 (Hrest i k Hk) Hck _ Hn). lia.
Qed.

(** What waited in [v] is scored, what was finished is as it was. *)
Definition worked_off (v v' : store) : Prop :=
  ∀ id j, v !! id = Some j →
    (terminal j → v' !! id = Some j)
    ∧ (claimable j = true → ∃ j', v' !! id = Some j' ∧ finished_scored j j').

Lemma worked_off_evolves v v1 v2 : worked_off v v1 → evolves v1 v2 → worked_off v v2.
Proof.
  intros Hv Hle id j Hj. destruct (Hv id j Hj) as [Ht Hc]. split.
  - intros Hterm. apply (evolves_terminal _ _ _ _ Hle); auto.
  - intros E. destruct (Hc E) as (j' & Hj' & Hd). exists j'. split; [|done].
    apply (evolves_terminal _ _ _ _ Hle Hj'). destruct Hd as (_ & _ & Hst & _). by left.
Qed.

(** In the storage of a state. *)
Definition off_now (v : store) (w : W) : Prop := worked_off v (view (w_repo w)).

Lemma off_now_later v w w' : off_now v w → world_le w w' → off_now v w'.
Proof. intros Hv Hle%le_evolves. by eapply worked_off_evolves. Qed.

Lemma off_now_nothing v w : serving v w → waiting v = ∅ → off_now v w.
Proof.
  intros [_ _ Hv _ _ _ _] He id j Hj. split; [intros _; by eapply only_new_lookup|]. intros Hc. exfalso.
  assert (waiting v !! id = Some j) as Hin by (by apply map_lookup_filter_Some_2). by rewrite He in Hin.
Qed.

Lemma worked_off_step v (w : store) id j j' :
  v !! id = Some j → status j = QUEUED → finished_scored j j' → worked_off (<[id := j']> v) w → worked_off v w.
Proof.
  intros Hj Hst Hd Hw i k Hk. destruct (decide (i = id)) as [->|Hne].
  - assert (k = j) as -> by congruence. split; [intros [?|?]; congruence|]. intros _. exists j'. split; [|done].
    apply (Hw id j' (lookup_insert_eq _ _ _)). destruct Hd as (_ & _ & ? & _). by left.
  - apply Hw. by rewrite lookup_insert_ne.
Qed.

Lemma at_rest_step v id j j' : at_rest v → finished_scored j j' → at_rest (<[id := j']> v).
Proof.
  intros Hrest (_ & _ & Hst & _) i k. rewrite lookup_insert. case_decide; [|apply Hrest]. intros [= <-].
  unfold claimable. rewrite Hst. by split.
Qed.

(** One job: claimed, scored and stored. *)
Lemma rely_turn {A} (idle rest : co W A) (Q : res A → W → Prop) v w :
  world_inv w → serving v w → at_rest v → waiting v ≠ ∅ →
  (∀ id j j' s, v !! id = Some j → claimable j = true → finished_scored j j' →
     world_inv s → serving (<[id := j']> v) s → relies Q rest s) →
  relies Q
    (Worker.recover_stale stale_job_seconds;;
     claimed ← atomically (in_repo claim_next_queued);
     match claimed with
     | None => idle
     | Some x => EvaluationJobService.process_claimed repr x;; rest
     end) w.
Proof.
  intros Hw Hs Hrest Hwait HQ. apply (rely_bind meanwhile). eapply (rely_weaken meanwhile).
  { eapply (rely_and meanwhile); [by apply (rely_recover v)|by apply (rely_safe dated any), safe_recover_stale]. }
  intros r w1 ((-> & Hs1) & Hw1 & _). apply (rely_bind meanwhile). eapply (rely_weaken meanwhile).
  { eapply (rely_and meanwhile); [|by eapply (rely_safe dated _), safe_claim].
    apply (rely_claim v _ (λ r s, ∃ x id j t t', r = Ok (Some x) ∧ v !! id = Some j ∧ claimable j = true
      ∧ at_work timeout dated start x id (<[id := claim_job t t' j]> v) s)); [done..|]. naive_solver. }
  intros r w2 ((x & id & j & t & t' & -> & Hj & Hc & Hx) & Hw2 & _).
  apply (rely_bind meanwhile). eapply (rely_weaken meanwhile).
  { eapply (rely_and meanwhile); [|apply (rely_safe dated any); [done|]].
    - by apply (rely_process_claimed timeout repr dated start x id j (claim_job t t' j) v).
    - apply (safe_process_claimed repr x id); [done|apply Hx]. }
  intros r w3 ((-> & j' & Hd & Hs3) & Hw3 & _). by apply (HQ id j j').
Qed.

Lemma rely_loop fuel : ∀ v w,
  world_inv w → serving v w → at_rest v → size (waiting v) ≤ fuel →
  relies (λ _, off_now v) (run_loop fuel) w.
Proof.
  induction fuel as [|fuel IH]; intros v w Hw Hs Hrest Hf.
  all: destruct (decide (waiting v = ∅)) as [He|Hne];
    [eapply (rely_weaken meanwhile); [by apply (rely_safe dated any), safe_worker_loop|];
     intros r s (_ & Hle & _); by eapply off_now_later, Hle; apply off_now_nothing|].
  { destruct Hne. apply map_size_empty_inv. lia. }
  cbn [Worker.run_loop]. apply (rely_bind meanwhile), (rely_atomically meanwhile). intros s1 s2 H1 H2.
  pose proof (serving_meanwhile _ _ _ _ _ _ Hs H1) as Hs1. cbn [gets fst snd] in *.
  rewrite (serving_worker _ _ _ _ _ Hs1), (lone_starts _ _ Hstart).
  apply (rely_turn _ _ _ v); [by do 2 (eapply meanwhile_inv; [|eassumption])|by eapply serving_meanwhile|done|done|].
  intros id j j' s3 Hj Hc Hd Hw3 Hs3. eapply (rely_weaken meanwhile).
  - apply (IH (<[id := j']> v)); [done|done|by eapply at_rest_step|].
    assert (claimable j' = false) as Hn by (destruct Hd as (_ & _ & Hst & _); unfold claimable; by rewrite Hst).
    rewrite (waiting_step _ _ _ j' Hj Hc Hn) in Hf. lia.
  - intros r s4. apply (worked_off_step _ _ _ j); [done| |done]. by apply claimable_spec in Hc as [? _].
Qed.

Lemma rely_worker fuel v w :
  world_inv w → serving v w → at_rest v → size (waiting v) ≤ fuel →
  relies (λ _, off_now v) (Worker.task repr poll_seconds stale_job_seconds fuel) w.
Proof.
  intros Hw Hs Hrest Hf. apply rely_ends_task, rely_cleanup; [apply off_now_later..| |].
  { intros r s. le_step. }
  apply (rely_bind meanwhile), (rely_atomically meanwhile). intros s1 s2 H1 H2. cbn [fst snd log modify] in *.
  apply rely_cleanup; [apply off_now_later| |].
  { intros r s. le_step. }
  apply rely_loop; [|eapply serving_meanwhile; [|exact H2]|done|done].
  - eapply meanwhile_inv; [|exact H2]. pose proof (meanwhile_inv _ _ _ Hw H1).
    apply (quiet_ok s1); [quiet_step|done].
  - by eapply serving_env; [eapply serving_meanwhile|..].
Qed.
End Worker.
End Start.

(** ** A process that serves *)

(** Submissions may come at any time. *)
Notation whenever := (λ _ : datetime, True).
Notation meanwhile := (meanwhile (others := others) whenever).

Notation request_task := (request_task st json_depth no_route).
Notation tasks_of := (tasks_of st json_depth no_route).

Lemma request_task_alone q :
  valid_endpoint q.1 = true → each_piece world_inv (leaves_alone whenever) (request_task q).
Proof.
  intros Hv. apply (each_weaken world_inv _ (λ w w', jobs_kept w w' ∧ request_frame w w'));
    [done|by intros w w' [? ?]; apply kept_alone|]. apply each_and.
  - apply each_bind; [by apply request_keeps|done].
  - by apply (each_weaken (λ _, True) _ request_frame), request_task_moves.
Qed.

Lemma request_task_safe q w : world_inv w → valid_endpoint q.1 = true → safe any (request_task q) w.
Proof. intros Hw Hv. by apply safe_then, safe_handle_request. Qed.

(** What the background task achieves among requests, it achieves for good. *)
Lemma serves_finish (Q : W → Prop) (c : co W unit) before behind sched w :
  (∀ s s', Q s → world_le s s' → Q s') → world_inv w → safe any c w → under_rely meanwhile (λ _, Q) c w →
  Forall (λ q, valid_endpoint q.1 = true) (before ++ behind) → fair sched (length before) →
  ∃ n, ∀ m, n ≤ m → Q (turns sched m (tasks_of before c behind, w)).2.
Proof.
  intros HQ Hw Hsafe Hc Hvalid Hfair.
  destruct (rely_ends world_inv world_le (leaves_alone whenever) (λ _, Q) sched (length before)
    (tasks_of before c behind, w) c Hfair 0) as (n & r & _ & Hd & Hok); [|exact Hc| |].
  - apply tasks_of_background.
  - rewrite Forall_forall in Hvalid. constructor; [exact Hw| |].
    + apply Forall_app. split; [|apply Forall_cons; split; [done|]];
        apply Forall_fmap, Forall_forall; intros q Hin; apply request_task_safe; set_solver.
    + intros i c' Hi (q & -> & Hin)%tasks_of_other; [|done]. by apply request_task_alone, Hvalid.
  - exists n. intros m Hle. eapply HQ; [exact Hd|].
    by apply (turns_along world_inv world_le (leaves_alone whenever) _ _ _ _ _ Hle Hok).
Qed.

Lemma serving_now w : world_inv w → reliable (w_repo w) → prompt timeout w → ∀ dated, serving timeout dated w (view (w_repo w)) w.
Proof. intros Hw Hr Hp dated. constructor; [apply Hw|done|apply only_new_refl|done..]. Qed.

(** C10: a combined process gets every job it has accepted done while it goes on serving:
    whatever requests, new submissions among them, are being answered meanwhile, and however
    the event loop interleaves them with the runner, as long as it keeps giving the runner
    turns, storage and scoring are reliable and nobody tells it to stop, there is a moment
    from which on every job that was queued is stored as succeeded with the score of its
    request. *)
Theorem accepted_jobs_finish (waiting : bool) (fuel : nat) (ids : list UUID) (w : W)
    (before behind : list (Endpoint * HttpRequest)) (sched : nat → nat) :
  world_inv w → reliable (w_repo w) → prompt timeout w → _stopping (w_queue w) = false →
  queue_of ids w → length ids ≤ fuel →
  Forall (λ q, valid_endpoint q.1 = true) (before ++ behind) → fair sched (length before) →
  let tasks := tasks_of before (Queue.runner_at waiting fuel process) behind in
  ∃ n, ∀ m, n ≤ m → all_scored ids (view (w_repo w)) (turns sched m (tasks, w)).2.
Proof.
  intros Hw Hr Hp Hs (Hq & Hnd & Hall) Hf. apply serves_finish; [apply all_scored_later|done| |].
  - apply safe_seq; [done| |done]. apply safe_finally; [by apply safe_run|]. intros [[]|] s Hs'; quiet_step.
  - apply (rely_runner w whenever); [done|by apply serving_now| |done..]. split; [done|]. by rewrite Hq.
Qed.
End Liveness.

(** ** Example *)

(** A submission arrives while the runner works on the job submitted before. *)
Lemma accepted_jobs_finish_witness :
  let tasks := tasks_of default_settings 100 not_found_page [(SubmitEvaluation sample_payload, sample_req)]
                 (Queue.runner_at true 1 (EvaluationJobService.process (Scorer0 := polling_scorer (float_of 5)) sample_repr))
                 [] in
  ∃ n, ∀ m, n ≤ m → ∃ j, view (w_repo (turns (λ n, n `mod` 2) m (tasks, submitted_world)).2) !! 0%N = Some j
                         ∧ status j = SUCCEEDED.
Proof.
  destruct (accepted_jobs_finish (others := λ _, False) default_settings 100 not_found_page (float_of 5) sample_repr
    true 1 [0%N] submitted_world [(SubmitEvaluation sample_payload, sample_req)] [] (λ n, n `mod` 2)) as [n Hn].
  - apply submitted_world_inv.
  - exact I.
  - intros k. reflexivity.
  - reflexivity.
  - split; [reflexivity|]. split; [apply NoDup_singleton|]. intros id Hin. apply list_elem_of_singleton in Hin as ->.
    eexists. split; vm_compute; reflexivity.
  - simpl. lia.
  - repeat constructor.
  - intros n. exists (1 + n * 2). split; [lia|]. cbn [length]. by rewrite Nat.Div0.mod_add.
  - exists n. intros m Hle.
    assert (view (w_repo submitted_world) !! 0%N ≠ None) as Hj by (vm_compute; discriminate).
    destruct (view (w_repo submitted_world) !! 0%N) as [j|] eqn:E; [|destruct (Hj eq_refl)].
    destruct (Hn m Hle 0%N j) as (j' & Hj' & _ & _ & Hst & _); [by apply list_elem_of_singleton|exact E|].
    exists j'. split; [exact Hj'|exact Hst].
Defined.
