(* ===== verification/Scaling.v ===== *)
(** API processes and a worker process on one database: whatever API processes come, accept
    evaluations and go, the worker gets every job done that waited when it started. *)
From S2P Require Export Liveness Deployment.

(** ** A worker among API processes *)

Section Fleet.
Context {R : Type} `{RL : RepositoryLaws R, !ClockedRepository R}.
Notation W := (World R).
Notation world_inv := (world_inv_among (others := λ _ : UUID, False)).

(** An API process: its tasks leave stored jobs as they are. *)
Definition serves (q : Process R) : Prop := Forall (each_piece world_inv jobs_kept) (tasks q).

(** The API processes that may be started. *)
Context (launched : R → Process R → Prop).
Context (launched_fresh : ∀ cl p,
  repo_inv (storage cl) → unique_identifiers cl (identifiers p) → launched (storage cl) p → fresh_process p).
Context (launched_serves : ∀ s p, launched s p → serves p).

(** The worker's number, and the times at which the API processes submit. *)
Context (worker : nat) (dated : datetime → Prop).
Notation meanwhile := (meanwhile (others := λ _ : UUID, False) dated).
#[local] Instance fleet_preorder : PreOrder meanwhile := meanwhile_preorder dated.

Definition dates_of (q : Process R) : Prop := ∀ d, reading (w_clock (private q)) d → dated d.

(** Process [p] is the worker, with [c] still to run; all others are API processes. *)
Record manned (cl : Cluster R) (p : Process R) (c : co W unit) : Prop := {
  manned_inv : cluster_inv cl;
  manned_worker : processes cl !! worker = Some p;
  manned_task : tasks p = [c];
  manned_others i q : i ≠ worker → processes cl !! i = Some q → serves q ∧ dates_of q;
}.

(** The events of a history in which nobody kills the worker. *)
Definition allowed (cl : Cluster R) (e : Event R) : Prop :=
  possible launched cl e
  ∧ match e with
    | Launch _ q => dates_of q
    | Kill i => i ≠ worker
    | Turn _ _ => True
    end.

Definition own_turn (e : Event R) : Prop := e = Turn worker 0.

#[local] Instance own_turn_dec e : Decision (own_turn e).
Proof.
  destruct e as [i k|i q|i]; [|by right..].
  destruct (decide (i = worker ∧ k = 0)) as [[-> ->]|Hne]; [by left|right; intros [= -> ->]; by apply Hne].
Defined.

Lemma process_inv_alone cl i p : process_inv cl i p → world_inv (seen (storage cl) p).
Proof. intros [Hw _ _]. by apply (inv_among_change _ _ _ Hw). Qed.

Lemma advance_serves cl i q k next eff :
  cluster_inv cl → processes cl !! i = Some q → serves q → tasks q !! k = Some (Step next eff) →
  let w := seen (storage cl) q in serves (advance q k next eff w) ∧ jobs_kept w (eff w).
Proof.
  intros Hcl Hq Hs Hk w. destruct (proj1 (Forall_lookup _ _) Hs k _ Hk w) as [Hkept Hnext].
  { eapply process_inv_alone. by apply (cluster_process _ Hcl i). }
  split; [|done]. unfold serves. cbn [advance tasks]. by apply Forall_insert.
Qed.

(** Where only API processes have been at work. *)
Lemma only_api cl cl' :
  cluster_inv cl → (∀ i q, processes cl !! i = Some q → serves q) → rtc (cluster_step launched) cl cl' →
  cluster_inv cl' ∧ ∀ i q, processes cl' !! i = Some q → serves q.
Proof.
  intros Hcl Hs Hrun. induction Hrun as [|cl cl1 cl2 Hstep _ IH]; [done|].
  apply IH; [by apply (cluster_step_inv launched launched_fresh cl)|]. clear IH.
  intros i' q'. destruct Hstep as [cl i q k next eff Hq Hk w|cl i q Hi Hu Hl|cl i]; cbn [processes].
  - intros [[<- <-]|[_ Hq']]%lookup_insert_Some; [by eapply advance_serves; eauto|by eapply Hs].
  - intros [[<- <-]|[_ Hq']]%lookup_insert_Some; [by eapply launched_serves|by eapply Hs].
  - intros [_ Hq']%lookup_delete_Some. by eapply Hs.
Qed.

(** What the storage goes through is all the worker sees. *)
Lemma seen_meanwhile cl cl' p :
  cluster_inv cl' → processes cl' !! worker = Some p → repo_le (storage cl) (storage cl') →
  only_new dated (view (storage cl)) (view (storage cl')) →
  meanwhile (seen (storage cl) p) (seen (storage cl') p).
Proof.
  intros Hcl Hp Hle Hv. pose proof (process_inv_alone _ _ _ (cluster_process _ Hcl worker p Hp)) as Hw.
  split_and!; [done|by apply seen_le|]. constructor; [intros _; apply Hw|done|done|by apply request_frame_same].
Qed.

(** A piece of an API process. *)
Lemma turn_of_api i k cl p c :
  manned cl p c → i ≠ worker →
  manned (turn i k cl) p c ∧ meanwhile (seen (storage cl) p) (seen (storage (turn i k cl)) p).
Proof.
  intros [Hcl Hp Hc Ho] Hi. unfold turn.
  destruct (processes cl !! i) as [q|] eqn:Hq; [|by split].
  destruct (tasks q !! k) as [[r|next eff]|] eqn:Hk; [by split| |by split].
  destruct (process_run_inv cl i q k next eff Hcl Hq Hk) as [Hcl' Hle]. cbv zeta in *.
  destruct (Ho i q Hi Hq) as [Hserves Hdates].
  destruct (advance_serves cl i q k next eff Hcl Hq Hserves Hk) as [Hnext [_ Hv Hclock]].
  set (w := seen (storage cl) q) in *.
  assert (processes (mkCluster (w_repo (eff w)) (<[i := advance q k next eff w]> (processes cl))) !! worker = Some p)
    as Hp' by (cbn [processes]; by rewrite lookup_insert_ne).
  split.
  - constructor; [done|done|done|]. cbn [processes]. intros j q' Hj.
    rewrite lookup_insert_Some. intros [[<- <-]|[_ Hq']]; [|by apply (Ho j)]. split.
    + exact Hnext.
    + intros d Hd. apply Hdates. by eapply reading_rest.
  - apply seen_meanwhile; [done..|]. eapply only_new_weaken; [|exact Hv]. exact Hdates.
Qed.

(** Whatever happens between two turns of the worker. *)
Lemma other_event e cl p c :
  manned cl p c → allowed cl e → ¬ own_turn e →
  manned (act e cl) p c ∧ meanwhile (seen (storage cl) p) (seen (storage (act e cl)) p).
Proof.
  intros Hm He Hown. pose proof Hm as [Hcl Hp Hc Ho].
  destruct e as [i k|i q|i]; cbn [act allowed possible] in *.
  - destruct (decide (i = worker)) as [->|Hi]; [|by apply turn_of_api]. unfold turn. rewrite Hp, Hc.
    destruct k; [by destruct Hown|by split].
  - destruct He as [[Hu Hl] Hd]. destruct (processes cl !! i) eqn:Hi; [by split|]. split; [|done].
    constructor; cbn [processes]; [| |done|].
    + apply started_inv; [done..|]. by apply (launched_fresh cl); [apply Hcl|..].
    + rewrite lookup_insert_ne; [done|]. intros ->. congruence.
    + intros j q' Hj [[<- <-]|[_ Hq']]%lookup_insert_Some; [|by apply (Ho j)]. split; [by eapply launched_serves|done].
  - destruct He as [_ Hi]. split; [|done]. constructor; cbn [processes]; [by apply killed_inv| |done|].
    + by rewrite lookup_delete_ne.
    + intros j q' Hj [_ Hq']%lookup_delete_Some. by apply (Ho j).
Qed.

(** The worker's own turn. *)
Lemma own_event cl p next eff :
  manned cl p (Step next eff) →
  let w := seen (storage cl) p in
  ∃ p', manned (turn worker 0 cl) p' (next w) ∧ seen (storage (turn worker 0 cl)) p' = eff w.
Proof.
  intros [Hcl Hp Hc Ho] w. assert (tasks p !! 0 = Some (Step next eff)) as Hk by (by rewrite Hc).
  exists (advance p 0 next eff w). unfold turn. rewrite Hp, Hk. cbv zeta. split; [|apply with_private]. constructor.
  - by apply (process_run_inv cl worker p 0 next eff Hcl Hp Hk).
  - apply lookup_insert_eq.
  - cbn [advance tasks]. by rewrite Hc.
  - cbn [processes]. intros j q Hj. rewrite lookup_insert_ne by done. by apply Ho.
Qed.

(** ** Fair histories *)

Context (evs : nat → Event R) (cl : Cluster R).
Context (evs_allowed : ∀ n, allowed (history evs n cl) (evs n)).

(** The worker gets a turn again and again. *)
Definition worker_runs : Prop := ∀ n, ∃ m, n ≤ m ∧ evs m = Turn worker 0.

(** After [n] events the worker is about to run [c], which will end in [Q]. *)
Definition working (Q : W → Prop) (c : co W unit) (n : nat) : Prop :=
  ∃ p, manned (history evs n cl) p c
       ∧ under_rely meanwhile (λ _, Q) c (seen (storage (history evs n cl)) p).

Lemma own_soon Q next eff k : ∀ n,
  own_turn (evs (k + n)) → working Q (Step next eff) n → ∃ m s, working Q (next s) m.
Proof.
  induction k as [|k IH]; intros n Hown (p & Hm & Hc).
  all: destruct (decide (own_turn (evs n))) as [Hn|Hn]; [clear IH Hown || clear Hown|].
  1, 3: destruct (own_event _ p next eff Hm) as (p' & Hm' & Hseen);
    exists (S n), (seen (storage (history evs n cl)) p), p'; cbn [history]; rewrite Hn; cbn [act];
    (split; [exact Hm'|]); rewrite Hseen; by apply Hc.
  - done.
  - apply (IH (S n)); [by rewrite Nat.add_succ_r|]. cbn [history].
    destruct (other_event (evs n) _ p _ Hm (evs_allowed n) Hn) as [Hm' Hmw].
    exists p. split; [done|]. by eapply (rely_later meanwhile).
Qed.

Lemma worker_ends Q c : worker_runs → ∀ n, working Q c n →
  ∃ m p r, manned (history evs m cl) p (Done r) ∧ Q (seen (storage (history evs m cl)) p).
Proof.
  intros Hfair. induction c as [r|next IH eff]; intros n Hw.
  - destruct Hw as (p & Hm & Hc). exists n, p, r. split; [done|]. by apply Hc.
  - destruct (Hfair n) as (m & Hle & Hm). replace m with (m - n + n) in Hm by lia.
    destruct (own_soon Q next eff (m - n) n Hm Hw) as (m' & s & Hw'). by apply (IH s m').
Qed.

(** What is then true of the storage stays true. *)
Lemma settled (P : store → Prop) Q c :
  worker_runs → working Q c 0 →
  (∀ w, Q w → P (view (w_repo w))) → (∀ v v', P v → evolves v v' → P v') →
  ∃ n, ∀ m, n ≤ m → P (view (storage (history evs m cl))).
Proof.
  intros Hfair Hw HQ HP. destruct (worker_ends Q c Hfair 0 Hw) as (n & p & r & [Hcl _ _ _] & Hd).
  exists n. intros m Hle. eapply HP; [by apply HQ in Hd|]. apply repo_le_evolves.
  apply (cluster_run_inv launched launched_fresh (history evs n cl)); [done|].
  apply history_steps; [|done]. intros k. apply evs_allowed.
Qed.
End Fleet.

(** ** The deployed service *)

Section Deployed.
Context `{QueryPlan}.
Context (repr_str : pystr → pystr) (repr : exn → pystr) (json_depth : nat) (no_route : Response).
Notation R := AnyRepository.

(** An API process: [lifespan] with the role [api] on the database as it is now, with its
    requests and its shutdown. *)
Inductive api_launched (s : R) : Process R → Prop :=
| api_launch pg st h svc fg :
    s = OfPostgres pg → storage_backend st = u"postgres" → process_role st = api →
    (lifespan (λ _, Ok pg) Ok repr_str st h).1 = Ok svc →
    Forall (foreground json_depth no_route st) fg →
    api_launched s (mkProcess (uuids (host_env h)) fg (private_part (service_world svc))).

Notation launched := (launched repr_str repr json_depth no_route).

(** A service on the database as it is: what is started, and where. *)
Lemma started_on (pg : PostgresJobRepository) st h svc task logs :
  ready (λ _, Ok pg) Ok st (host_env h) task logs svc → storage_backend st = u"postgres" →
  with_repo (OfPostgres pg) (private_part (service_world svc)) = service_world svc.
Proof.
  intros [Hn _ _ _ _ _ _] Hb. rewrite <- (with_private (service_world svc)) at 2. f_equal.
  destruct (w_repo (service_world svc)) as [m|p]; cbn [names] in Hn.
  - destruct Hn as [E _]. by rewrite Hb in E.
  - destruct Hn as (_ & p0 & [= <-] & Hp). f_equal. destruct (auto_create_schema st); [by injection Hp|done].
Qed.

Lemma fresh_storage (cl : Cluster R) pg (h : Host) st :
  storage cl = OfPostgres pg → repo_inv (storage cl) → unique_identifiers cl (uuids (host_env h)) →
  sound_storage (λ _, Ok pg) Ok st h.
Proof.
  intros Hs Hi (Hinj & Hnew & _). rewrite Hs in Hi, Hnew.
  split_and!; [intros p [= <-]; split; [exact Hi|exact Hnew]|by intros p1 p2 [= ->]|exact Hinj].
Qed.

(** [run_worker] on the database of a cluster. *)
Lemma worker_starts_on (cl : Cluster R) pg st h svc :
  storage cl = OfPostgres pg → repo_inv (storage cl) → unique_identifiers cl (uuids (host_env h)) →
  storage_backend st = u"postgres" → (run_worker (λ _, Ok pg) Ok repr_str st h).1 = Ok svc →
  ready (λ _, Ok pg) Ok st (host_env h) WorkerLoop [worker_log] svc
  ∧ with_repo (storage cl) (private_part (service_world svc)) = service_world svc.
Proof.
  intros Hs Hi Hu Hb Hstart.
  destruct (starts_ready (λ _, Ok pg) Ok repr_str st h (fresh_storage cl pg h st Hs Hi Hu)) as [_ Hready].
  rewrite Hstart in Hready. destruct Hready as [_ Hready]. split; [done|]. rewrite Hs. by eapply started_on.
Qed.

Lemma api_fresh (cl : Cluster R) p :
  repo_inv (storage cl) → unique_identifiers cl (identifiers p) → api_launched (storage cl) p → fresh_process p.
Proof.
  intros Hi Hu Hl. pose proof Hu as Hu'. revert Hu'.
  destruct Hl as [pg st h svc fg Hs Hb Hrole Hstart Hfg]. cbn [identifiers]. intros Hu'.
  assert (service_started svc = NoTask) as Ht.
  { destruct (starts_ready (λ _, Ok pg) Ok repr_str st h (fresh_storage cl pg h st Hs Hi Hu')) as [Hl _].
    rewrite Hstart in Hl. destruct Hl as [_ [_ _ Ht _ _ _ _]]. rewrite Ht. unfold lifespan_task. by rewrite Hrole. }
  apply (launched_fresh repr_str repr json_depth no_route cl); [done..|].
  assert (background repr svc 0 = []) as Hbg by (unfold background; by rewrite Ht).
  change fg with ([] ++ fg). rewrite <- Hbg. eapply launch; eauto.
Qed.

Lemma foreground_keeps st c :
  foreground json_depth no_route st c → each_piece (world_inv_among (others := λ _, False)) jobs_kept c.
Proof.
  intros [e req Hv|fuel|fuel]; (apply each_bind; [|done]).
  - by apply (request_keeps st json_depth no_route).
  - apply lifespan_stop_keeps.
  - apply run_worker_stop_keeps.
Qed.

Lemma api_serves s p : api_launched s p → serves p.
Proof.
  intros [pg st h svc fg Hs Hb Hrole Hstart Hfg]. eapply Forall_impl; [exact Hfg|]. apply foreground_keeps.
Qed.

(** The worker process [run_worker] made, its loop unfolded [fuel] times. *)
Definition worker_at_work (svc : Service) (h : Host) (fuel : nat) : Process R :=
  mkProcess (uuids (host_env h)) (background repr svc fuel) (private_part (service_world svc)).

(** The times after which the jobs waiting in [v] were not submitted. *)
Definition after_waiting (v : store) (d : datetime) : Prop :=
  ∀ id j, v !! id = Some j → claimable j = true → (created_at j < d)%Z.

(** C11: with API processes and a worker process on one database, nothing that was accepted is
    left undone.  API processes have been started, have answered any requests and have been
    killed; then [run_worker] starts the one worker, from any settings, and while it works
    further API processes come, answer requests, shut down or are killed, their pieces and
    the worker's interleaved in any way that gives the worker turns again and again.  If the
    database does not fail, no other process claims jobs (no job is running, no row locked and
    no combined process among them), nobody stops or kills the worker, no scoring runs out of
    time, the worker's clock gives a date to recover from, the clocks of the API processes are
    not behind the waiting jobs, and the loop is unfolded once for each of these, then there is
    a moment from which on every job that waited when the worker started is stored as succeeded
    with the score of its request, and every job finished by then is what it was. *)
Theorem waiting_jobs_finish (pg pg' : PostgresJobRepository) (cl : Cluster R) (i : nat) (st : Settings)
    (h : Host) (svc : Service) (fuel : nat) (evs : nat → Event R) :
  repo_inv pg → rtc (cluster_step api_launched) (mkCluster (OfPostgres pg) ∅) cl →
  storage cl = OfPostgres pg' → storage_backend st = u"postgres" →
  (run_worker (λ _, Ok pg') Ok repr_str st h).1 = Ok svc →
  processes cl !! i = None → unique_identifiers cl (uuids (host_env h)) →
  lone (service_stale svc) (service_world svc) → prompt (service_evaluator_timeout svc) (service_world svc) →
  (∀ k q, processes cl !! k = Some q → dates_of (after_waiting (view pg')) q) →
  size (waiting (view pg')) ≤ fuel →
  let start := mkCluster (storage cl) (<[i := worker_at_work svc h fuel]> (processes cl)) in
  (∀ n, allowed api_launched i (after_waiting (view pg')) (history evs n start) (evs n)) → worker_runs i evs →
  ∃ n, ∀ m, n ≤ m → worked_off (view pg') (view (storage (history evs m start))).
Proof.
  intros Hpg Hrun Hs Hb Hstart Hfree Hu Hlone Hprompt Hdates Hfuel start Hallowed Hfair.
  change (repo_inv (OfPostgres pg)) in Hpg.
  destruct (only_api api_launched api_fresh api_serves _ _ (no_process_inv _ Hpg)
    ltac:(intros ??; cbn [processes]; by intros ?%lookup_empty_Some) Hrun) as [Hcl Hserves].
  destruct (worker_starts_on cl pg' st h svc Hs (cluster_storage _ Hcl) Hu Hb Hstart) as [Hready Hworld].
  assert (fresh_process (worker_at_work svc h fuel)) as Hfresh.
  { apply (launched_fresh repr_str repr json_depth no_route cl); [apply Hcl|done|].
    unfold worker_at_work. rewrite <- (app_nil_r (background repr svc fuel)). eapply launch; eauto. }
  assert (background repr svc fuel
          = [Worker.task (Scorer0 := mock_scorer (service_evaluator_timeout svc)) repr (service_poll svc) (service_stale svc) fuel]) as Htask
    by (unfold background; by rewrite (ready_task _ _ _ _ _ _ _ Hready)).
  eapply (settled api_launched api_fresh api_serves i (after_waiting (view pg')) evs start Hallowed
    (worked_off (view pg')) (off_now (view pg')) _ Hfair); [|done|intros v v'; apply worked_off_evolves].
  exists (worker_at_work svc h fuel). split.
  - constructor; [by apply started_inv|by apply lookup_insert_eq|exact Htask|].
    cbn [history start processes]. intros k q Hk. rewrite lookup_insert_ne by done. eauto.
  - assert (view (w_repo (service_world svc)) = view pg') as Hview by (by rewrite <- Hworld, Hs).
    change (seen (storage (history evs 0 start)) (worker_at_work svc h fuel))
      with (with_repo (storage cl) (private_part (service_world svc))). rewrite Hworld.
    pose proof (inv_among_change (λ _, False) (λ _, False) _ (ready_inv _ _ _ _ _ _ _ Hready) ltac:(done)) as Hinv.
    rewrite <- Hview.
    apply (rely_worker (service_evaluator_timeout svc) repr (service_world svc) _ _ _ Hlone); [| | |by rewrite Hview].
    + exact Hinv.
    + eapply serving_now; [exact Hinv|apply Hlone|done].
    + intros id j Hj. split; [by apply (lone_idle _ _ Hlone id)|]. intros Hc d Hd. rewrite Hview in Hd, Hj. by eapply Hd.
Qed.
End Deployed.

(** ** A worker started between two API processes *)

Section Example.
#[local] Existing Instance key_order.

(** The [i]-th of three machines, at a given time. *)
Definition machine_at (time : datetime) (i : N) : Host :=
  mkHost fresh_root [] (λ _, time)
    (mkEnv (λ n, (3 * N.of_nat n + i)%N) (λ n, float_of (Z.of_nat n)) (λ n, float_of (Z.of_nat n)) (λ _ _, None))
    (mkMetrics ∅).

Definition api_at (pg : PostgresJobRepository) (h : Host) : Process AnyRepository :=
  mkProcess (uuids (host_env h)) api_requests
    (private_part (service_world (started_or (lifespan (λ _, Ok pg) Ok id api_settings h).1))).

(** The first API process accepts an evaluation and dies. *)
Definition accepted : Cluster AnyRepository :=
  let cl := turns (replicate 12 (0, 0))
              (mkCluster (OfPostgres empty_database) (<[0 := api_at empty_database (machine_at 5%Z 0)]> ∅)) in
  mkCluster (storage cl) (delete 0 (processes cl)).

Definition accepted_database : PostgresJobRepository :=
  match storage accepted with OfPostgres pg => pg | OfMemory _ => empty_database end.

Definition worker_on_it : Service :=
  started_or (run_worker (λ _, Ok accepted_database) Ok id worker_settings (machine_at 20%Z 1)).1.

(** A second API process comes, accepts another evaluation and takes turns with the worker. *)
Definition second_api : Process AnyRepository := api_at accepted_database (machine_at 10%Z 2).
Definition sample_events (n : nat) : Event AnyRepository :=
  match n with
  | 0 => Launch 2 second_api
  | S n => Turn (if Nat.even n then 1 else 2) 0
  end.

Notation sample_api := (api_launched id 100 not_found_page).

Lemma api_at_launched pg h :
  failure (lifespan (λ _, Ok pg) Ok id api_settings h).1 = None → sample_api (OfPostgres pg) (api_at pg h).
Proof.
  intros Hf. eapply (api_launch id 100 not_found_page _ pg api_settings h); [done..|by apply started_or_ok|].
  apply Forall_singleton. by apply a_request.
Qed.

Lemma accepted_run : rtc (cluster_step sample_api) (mkCluster (OfPostgres empty_database) ∅) accepted.
Proof.
  eapply rtc_l.
  { apply (cluster_start sample_api _ 0 (api_at empty_database (machine_at 5%Z 0))); [done| |].
    - split_and!; [simpl; lia| |intros i q m n Hq; simpl in Hq; by rewrite lookup_empty in Hq].
      intros n. apply empty_database_view.
    - apply api_at_launched. vm_compute. reflexivity. }
  eapply rtc_r; [exact (turns_steps sample_api (replicate 12 (0, 0)) _)|]. apply (cluster_kill _ _ 0).
Qed.

Lemma accepted_storage : storage accepted = OfPostgres accepted_database.
Proof.
  unfold accepted_database. destruct (storage accepted) as [m|pg] eqn:E; [|done]. exfalso.
  assert (match storage accepted with OfMemory _ => true | _ => false end = false) as H by (vm_compute; reflexivity).
  by rewrite E in H.
Qed.

(** What was accepted: one queued job of the first machine. *)
Lemma accepted_jobs :
  map_Forall (λ id j, (id mod 3 = 0)%N ∧ status j = QUEUED ∧ claimable j = true ∧ created_at j = 5%Z)
    (view (OfPostgres accepted_database)).
Proof. apply (bool_decide_unpack _). vm_compute. exact I. Qed.

Lemma accepted_processes : processes accepted = ∅.
Proof.
  unfold accepted. cbn [processes]. apply map_eq. intros i. rewrite lookup_empty.
  destruct (decide (i = 0)) as [->|Hne]; [apply lookup_delete_eq|].
  assert (∀ n (cl : Cluster AnyRepository), processes cl !! i = None →
            processes (turns (replicate n (0, 0)) cl) !! i = None) as Hturns.
  { induction n as [|n IH]; intros cl Hi; [done|]. cbn [replicate turns]. apply IH. unfold turn.
    destruct (processes cl !! 0) as [p|]; [|done]. destruct (tasks p !! 0) as [[|]|]; [done| |done].
    cbn [processes]. by rewrite lookup_insert_ne. }
  rewrite lookup_delete_ne by done. apply Hturns. cbn [processes]. by rewrite lookup_insert_ne.
Qed.

Lemma none_alive k q : processes accepted !! k ≠ Some q.
Proof. rewrite accepted_processes, lookup_empty. discriminate. Qed.

Lemma other_machine time i n : (i < 3)%N → i ≠ 0%N → (uuids (host_env (machine_at time i)) n mod 3 ≠ 0)%N.
Proof.
  intros Hi Hne. cbn. rewrite N.mul_comm, N.add_comm, N.Div0.mod_add, N.mod_small by exact Hi. exact Hne.
Qed.

Lemma accepted_new time i n :
  (i < 3)%N → i ≠ 0%N → view (storage accepted) !! uuids (host_env (machine_at time i)) n = None.
Proof.
  intros Hi Hne. rewrite accepted_storage.
  destruct (view _ !! _) as [j|] eqn:Hj; [exfalso|reflexivity].
  exact (other_machine time i n Hi Hne (proj1 (accepted_jobs _ j Hj))).
Qed.

Lemma accepted_unique time i : (i < 3)%N → i ≠ 0%N → unique_identifiers accepted (uuids (host_env (machine_at time i))).
Proof.
  intros Hi Hne. split_and!; [simpl; lia|intros n; by apply accepted_new|].
  intros k q m n Hq. destruct (none_alive k q Hq).
Qed.

Lemma accepted_inv : cluster_inv accepted ∧ repo_le (OfPostgres empty_database) (storage accepted).
Proof.
  apply (cluster_run_inv sample_api (api_fresh id sample_repr 100 not_found_page) (mkCluster (OfPostgres empty_database) ∅));
    [exact (no_process_inv (OfPostgres empty_database) empty_database_inv)|exact accepted_run].
Qed.

Lemma worker_started : (run_worker (λ _, Ok accepted_database) Ok id worker_settings (machine_at 20%Z 1)).1 = Ok worker_on_it.
Proof. apply started_or_ok. vm_compute. reflexivity. Qed.

Lemma worker_world : with_repo (storage accepted) (private_part (service_world worker_on_it)) = service_world worker_on_it.
Proof.
  assert (storage_backend worker_settings = u"postgres") as Hb by reflexivity.
  assert (unique_identifiers accepted (uuids (host_env (machine_at 20%Z 1)))) as Hu by (by apply accepted_unique).
  exact (proj2 (worker_starts_on id accepted accepted_database worker_settings (machine_at 20%Z 1) worker_on_it
    accepted_storage (cluster_storage _ (proj1 accepted_inv)) Hu Hb worker_started)).
Qed.

Lemma lone_on (s : AnyRepository) (p : World unit) stale :
  repo_inv s → reliable s → held s = ∅ → (∀ id j, view s !! id = Some j → status j ≠ RUNNING) →
  worker_stopping (w_worker p) = false →
  (∀ n, ∃ cutoff, (d ← timedelta_seconds stale; datetime_add (w_clock p n) (- d)) = Ok cutoff) →
  lone stale (with_repo s p).
Proof. by constructor. Qed.

Lemma worker_lone : lone (service_stale worker_on_it) (service_world worker_on_it).
Proof.
  destruct accepted_inv as [Hcl Hle]. rewrite <- worker_world. apply lone_on.
  - exact (cluster_storage _ Hcl).
  - exact (repo_le_reliable _ _ Hle (λ _, eq_refl)).
  - exact (repo_le_held _ _ Hle).
  - intros k j Hj. rewrite accepted_storage in Hj.
    destruct (accepted_jobs k j Hj) as (_ & Hst & _). rewrite Hst. discriminate.
  - vm_compute. reflexivity.
  - intros n. eexists. vm_compute. reflexivity.
Qed.

Lemma second_dates : dates_of (after_waiting (view accepted_database)) second_api.
Proof.
  intros d [n ->] id j Hj _. destruct (accepted_jobs id j Hj) as (_ & _ & _ & ->). vm_compute. reflexivity.
Qed.

Lemma waiting_jobs_finish_witness :
  let start := mkCluster (storage accepted)
                 (<[1 := worker_at_work sample_repr worker_on_it (machine_at 20%Z 1) 1]> (processes accepted)) in
  ∃ n, ∀ m, n ≤ m → ∃ j, view (storage (history sample_events m start)) !! 3%N = Some j ∧ status j = SUCCEEDED.
Proof.
  intros start.
  destruct (waiting_jobs_finish id sample_repr 100 not_found_page empty_database accepted_database accepted 1
    worker_settings (machine_at 20%Z 1) worker_on_it 1 sample_events) as [n Hn].
  - exact empty_database_inv.
  - exact accepted_run.
  - exact accepted_storage.
  - reflexivity.
  - exact worker_started.
  - rewrite accepted_processes. apply lookup_empty.
  - by apply accepted_unique.
  - exact worker_lone.
  - intros k. vm_compute. reflexivity.
  - intros k q Hq. destruct (none_alive k q Hq).
  - apply (bool_decide_unpack _). vm_compute. exact I.
  - intros [|k]; [|split; exact I]. cbn [sample_events history allowed possible]. split; [split|].
    + split_and!; [simpl; lia|intros k; by apply accepted_new|].
      intros i q k l. cbn [processes]. intros [[<- <-]|[_ Hq]]%lookup_insert_Some; [simpl; lia|].
      destruct (none_alive i q Hq).
    + cbn [storage]. rewrite accepted_storage. apply api_at_launched. vm_compute. reflexivity.
    + exact second_dates.
  - intros k. exists (1 + 2 * k). split; [lia|]. cbn [sample_events Nat.add].
    by rewrite (proj2 (Nat.even_spec (2 * k)) (ex_intro _ k eq_refl)).
  - exists n. intros m Hle.
    assert (match view accepted_database !! 3%N with Some _ => true | None => false end = true) as Hsome
      by (vm_compute; reflexivity).
    destruct (view accepted_database !! 3%N) as [j|] eqn:Hj; [|discriminate Hsome].
    destruct (Hn m Hle 3%N j Hj) as [_ Hs].
    destruct (Hs (proj1 (proj2 (proj2 (accepted_jobs 3%N j Hj))))) as (j' & Hj' & _ & _ & Hst & _).
    exists j'. split; [exact Hj'|exact Hst].
Defined.
End Example.
