(* ===== verification/Scripts.v ===== *)
(** The policy checks of the deployment files: [scripts/validate_dockerfile_policy.py] and
    [scripts/validate_k8s_manifests.py].  Reading files is the caller's; parsing YAML is the
    library's, so the second check starts from parsed documents. *)
From S2P Require Export PyFloat.

Definition backslash : pystr := [92%N].
Definition hash : pystr := u"#".

Module Dockerfile.

(** ** Instructions *)

(** The loop of [_instructions] over raw lines, with the instruction read so far. *)
Fixpoint instructions_from (raw_lines : list pystr) (current : pystr) : list pystr :=
  match raw_lines with
  | [] => if decide (current = []) then [] else [current]
  | raw_line :: rest =>
      let stripped := strip raw_line in
      if decide (stripped = []) then instructions_from rest current
      else if starts_with hash stripped then instructions_from rest current
      else
        let piece := strip (removesuffix backslash stripped) in
        let current := if decide (current = []) then piece else current ++ u" " ++ piece in
        if ends_with backslash stripped then instructions_from rest current
        else current :: instructions_from rest []
  end.

Definition _instructions (text : pystr) : list pystr := instructions_from (splitlines text) [].

Definition has_prefix (name : pystr) (instruction : pystr) : bool :=
  starts_with (name ++ u" ") (upper instruction).

Definition _first_instruction (instructions : list pystr) (name : pystr) : option pystr :=
  find (has_prefix name) instructions.

Definition _has_instruction (instructions : list pystr) (name value : pystr) : bool :=
  existsb (λ i, bool_decide (upper i = upper (name ++ u" " ++ value))) instructions.

(** The prefix is cut off the instruction itself, not off its upper case. *)
Definition _has_exec_form_command (instructions : list pystr) (name : pystr) : bool :=
  match _first_instruction instructions name with
  | Some i => starts_with (u"[") (strip (drop (length (name ++ u" ")) i))
  | None => false
  end.

(** ** The regular expression

    As much of [re.search] with [MULTILINE] and [DOTALL] as the script's pattern uses. *)

#[local] Open Scope lazy_bool_scope.

Inductive regex :=
| LineStart                          (* ^ *)
| One (p : N → bool)
| Many (p : N → bool).               (* a starred class *)

Definition any : N → bool := λ _, true.
Definition text_of (s : string) : list regex := (λ c, One (N.eqb c)) <$> u s.

(** Does the pattern match at this place?  [at_start] says that a line starts here. *)
Fixpoint matches (pattern : list regex) (at_start : bool) (s : pystr) : bool :=
  match pattern with
  | [] => true
  | LineStart :: rest => at_start &&& matches rest at_start s
  | One p :: rest => match s with c :: s' => p c &&& matches rest (c =? 10)%N s' | [] => false end
  | Many p :: rest =>
      (fix go at_start s :=
         matches rest at_start s
         ||| match s with c :: s' => p c &&& go (c =? 10)%N s' | [] => false end) at_start s
  end.

(** [re.search(pattern, text) is not None]. *)
Fixpoint search (pattern : list regex) (at_start : bool) (s : pystr) : bool :=
  matches pattern at_start s
  ||| match s with c :: s' => search pattern (c =? 10)%N s' | [] => false end.

Definition pip_pattern : list regex :=
  [LineStart; Many is_space] ++ text_of "RUN" ++ [One is_space; Many is_space; Many any]
  ++ text_of "pip install " ++ [Many any] ++ text_of "--no-cache-dir".

(** ** The check *)

Definition errors (text : pystr) : list pystr :=
  let instructions := _instructions text in
  match _first_instruction instructions (u"FROM") with
  | None => [u"Dockerfile must define a base image with FROM."]
  | Some from_instruction =>
      if substring_of (u":latest") (lower from_instruction)
      then [u"Dockerfile base image must not use the latest tag."] else []
  end
  ++ (if _has_instruction instructions (u"USER") (u"app") then []
      else [u"Dockerfile must switch to the non-root app user."])
  ++ (if search pip_pattern true text then []
      else [u"Dockerfile pip installs must use --no-cache-dir."])
  ++ (if _has_exec_form_command instructions (u"CMD") then []
      else [u"Dockerfile must use exec-form CMD."]).

(** The lines [main] prints, and whether it exits with 1. *)
Definition main (text : pystr) : list pystr * bool :=
  match errors text with
  | [] => ([u"Dockerfile policy checks passed"], false)
  | es => (es, true)
  end.
End Dockerfile.

(** ** Kubernetes manifests *)

(** What [yaml.safe_load] builds; [YOther] is a date or the like, never falsy. *)
Inductive yaml :=
| YNull
| YBool (b : bool)
| YInt (z : Z)
| YFloat (x : float)
| YStr (s : pystr)
| YSeq (l : list yaml)
| YMap (l : list (yaml * yaml))
| YOther.

Module Manifests.

(** [bool(value)]. *)
Definition truthy (v : yaml) : bool :=
  match v with
  | YNull => false
  | YBool b => b
  | YInt z => negb (z =? 0)%Z
  | YFloat (S754_zero _) => false
  | YFloat _ => true
  | YStr s => negb (bool_decide (s = []))
  | YSeq l => match l with [] => false | _ => true end
  | YMap l => match l with [] => false | _ => true end
  | YOther => true
  end.

(** [mapping.get(key)]; a missing key is [None]. *)
Definition get (key : pystr) (l : list (yaml * yaml)) : yaml :=
  match find (λ '(k, _), match k with YStr s => bool_decide (s = key) | _ => false end) l with
  | Some (_, v) => v
  | None => YNull
  end.

Definition REQUIRED_FIELDS : list pystr := [u"apiVersion"; u"kind"; u"metadata"].

Definition _validate_document (path : pystr) (index : Z) (document : yaml) : list pystr :=
  let location := path ++ u" document " ++ str_of_Z index in
  match document with
  | YMap m =>
      (REQUIRED_FIELDS ≫= λ field,
         if truthy (get field m) then [] else [location ++ u": missing " ++ field])
      ++ match get (u"metadata") m with
         | YMap md => if truthy (get (u"name") md) then [] else [location ++ u": missing metadata.name"]
         | _ => [location ++ u": metadata must be a mapping"]
         end
  | _ => [location ++ u": expected a mapping"]
  end.

(** What reading one file gives: its documents, or the message of the [YAMLError]. *)
Inductive parsed := Documents (ds : list yaml) | Invalid (message : pystr).

(** One file: its errors and the number of its resources; [index] numbers the documents. *)
Fixpoint check_documents (path : pystr) (index : Z) (ds : list yaml) : list pystr * nat :=
  match ds with
  | [] => ([], 0)
  | d :: rest =>
      let '(es, n) := check_documents path (index + 1) rest in
      match d with
      | YNull => (es, n)
      | _ => (_validate_document path index d ++ es, S n)
      end
  end.

Definition check_file (file : pystr * parsed) : list pystr * nat :=
  match file with
  | (path, Documents ds) => check_documents path 1 ds
  | (path, Invalid message) => ([path ++ u": invalid YAML: " ++ message], 0)
  end.

Fixpoint check_files (files : list (pystr * parsed)) : list pystr * nat :=
  match files with
  | [] => ([], 0)
  | file :: rest =>
      let '(es, n) := check_file file in
      let '(es', n') := check_files rest in
      (es ++ es', (n + n')%nat)
  end.

(** [files] are the paths of the directory, in any order, with what reading them gives;
    the answer holds the lines printed and whether the exit status is 1. *)
Definition main (files : list (pystr * parsed)) : list pystr * bool :=
  match sort_by (λ p q, str_leb p.1 q.1) files with
  | [] => ([u"No Kubernetes manifests found in deploy/k8s"], true)
  | manifests =>
      let '(errors, resource_count) := check_files manifests in
      let errors :=
        errors ++ if decide (resource_count = 0) then [u"No Kubernetes resources found in deploy/k8s"]
                  else [] in
      match errors with
      | [] => ([u"Validated " ++ str_of_Z (Z.of_nat resource_count)
                ++ u" Kubernetes resources in deploy/k8s"], false)
      | _ => (errors, true)
      end
  end.
End Manifests.

(** * Instructions and their layout *)

Import Dockerfile.

Definition spaces (s : pystr) : Prop := Forall (λ c, is_space c = true) s.

(** Lines the parser skips. *)
Definition noise (line : pystr) : Prop := strip line = [] ∨ starts_with hash (strip line) = true.

(** A part of an instruction as the parser keeps it. *)
Record part (w : pystr) : Prop := {
  part_ne : w ≠ [];
  part_stripped : strip w = w;
  part_no_comment : starts_with hash w = false;
  part_complete : ends_with backslash w = false;
}.

(** The lines an instruction of these parts can take: all its lines but the last end
    with a backslash, blank lines and comments may come before each. *)
Inductive spread : list pystr → list pystr → Prop :=
| spread_last pre w post :
    spaces pre → spaces post → part w → spread [pre ++ w ++ post] [w]
| spread_more pre w gap post lines ws :
    spaces pre → spaces gap → spaces post → part w → spread lines ws →
    spread ((pre ++ w ++ gap ++ backslash ++ post) :: lines) (w :: ws)
| spread_noise line lines ws :
    noise line → spread lines ws → spread (line :: lines) ws.

(** The lines of a whole Dockerfile, and the parts of its instructions. *)
Inductive laid_out : list pystr → list (list pystr) → Prop :=
| laid_out_nil : laid_out [] []
| laid_out_noise line lines parts : noise line → laid_out lines parts → laid_out (line :: lines) parts
| laid_out_instruction block ws lines parts :
    spread block ws → laid_out lines parts → laid_out (block ++ lines) (ws :: parts).

Lemma strip_around pre w post :
  spaces pre → spaces post → strip (pre ++ w ++ post) = strip w.
Proof.
  intros Hpre Hpost. unfold strip, strip_by, lstrip_by.
  rewrite drop_while_app_all by done.
  destruct (drop_while_spec is_space w) as (s & Hw & Hs). rewrite Hw at 1.
  rewrite <- (assoc_L (++)), drop_while_app_all by done.
  destruct (drop_while is_space w) as [|c t] eqn:E; simpl.
  - rewrite <- (app_nil_r post), drop_while_app_all by done. done.
  - rewrite (drop_while_head _ _ _ _ E). by rewrite app_comm_cons, rstrip_by_app_all.
Qed.

Lemma strip_nonspace_head w c s : strip w = c :: s → is_space c = false.
Proof.
  unfold strip, strip_by, lstrip_by. intros H.
  destruct (drop_while is_space w) as [|d t] eqn:E; [done|].
  pose proof (drop_while_head _ _ _ _ E) as Hd.
  destruct (rstrip_by_head is_space d t Hd) as [t' Ht]. congruence.
Qed.

(** A text is its own [strip] when its first and last characters are not spaces. *)
Lemma strip_fixed c s d :
  is_space c = false → is_space d = false → strip (c :: s ++ [d]) = c :: s ++ [d].
Proof.
  intros Hc Hd. unfold strip, strip_by, lstrip_by. simpl. rewrite Hc.
  unfold rstrip_by. rewrite app_comm_cons, reverse_app. simpl. rewrite Hd.
  change (d :: reverse (c :: s)) with (reverse [d] ++ reverse (c :: s)).
  by rewrite <- reverse_app, reverse_involutive.
Qed.

Lemma ends_with_app s p : ends_with p (s ++ p) = true.
Proof. unfold ends_with. rewrite reverse_app. apply starts_with_spec. by eexists. Qed.

Lemma removesuffix_app s p : removesuffix p (s ++ p) = s.
Proof.
  unfold removesuffix. rewrite ends_with_app, length_app.
  by rewrite Nat.add_sub, take_app_length.
Qed.

(** What the parser sees of an instruction's line with and without the backslash. *)
Lemma last_part_line pre w post :
  spaces pre → spaces post → part w → strip (pre ++ w ++ post) = w.
Proof. intros ?? []. by rewrite strip_around. Qed.

Lemma more_part_line pre w gap post :
  spaces pre → spaces gap → spaces post → part w →
  strip (pre ++ w ++ gap ++ backslash ++ post) = w ++ gap ++ backslash
  ∧ strip (w ++ gap) = w ∧ starts_with hash (w ++ gap ++ backslash) = false.
Proof.
  intros Hpre Hgap Hpost [Hne Hstrip Hhash _]. split_and!.
  - replace (w ++ gap ++ backslash ++ post) with ((w ++ gap ++ backslash) ++ post)
      by by rewrite <- !(assoc_L (++)).
    rewrite strip_around by done. destruct w as [|c w]; [done|].
    rewrite <- app_comm_cons, (assoc_L (++)). apply strip_fixed; [|done].
    by apply (strip_nonspace_head (c :: w) c w).
  - pose proof (strip_around [] w gap) as H. simpl in H. rewrite H; [done|constructor|done].
  - destruct w; [done|]. exact Hhash.
Qed.

Lemma spread_ne block ws : spread block ws → ws ≠ [].
Proof. by induction 1. Qed.

(** The lines of one instruction give its parts joined by spaces. *)
Lemma instructions_spread block ws rest :
  spread block ws →
  ∀ current, instructions_from (block ++ rest) current
    = (if decide (current = []) then join (u" ") ws else current ++ u" " ++ join (u" ") ws)
      :: instructions_from rest [].
Proof.
  induction 1 as [pre w post Hpre Hpost Hw|pre w gap post lines ws Hpre Hgap Hpost Hw Hs IH
                 |line lines ws Hn Hs IH]; intros current.
  - cbn [app instructions_from]. rewrite last_part_line by done. destruct Hw as [Hne Hstrip Hh He].
    rewrite decide_False, Hh by done. unfold removesuffix. rewrite He, Hstrip. done.
  - cbn [app instructions_from].
    destruct (more_part_line pre w gap post) as (-> & Hp & ->); [done..|].
    destruct Hw as [Hne _ _ _].
    rewrite decide_False by (destruct w; [done|by intros ?]).
    rewrite (assoc_L (++) w gap), removesuffix_app, ends_with_app, Hp, IH.
    apply spread_ne in Hs.
    destruct ws as [|w' ws]; [done|]. cbn [join]. repeat case_decide; try done.
    + by destruct current.
    + by rewrite <- !(assoc_L (++)).
  - cbn [app instructions_from]. destruct Hn as [->|Hn]; [by rewrite decide_True|].
    case_decide; [by rewrite IH|]. by rewrite Hn, IH.
Qed.

Lemma instructions_laid_out lines parts rest :
  laid_out lines parts →
  instructions_from (lines ++ rest) [] = (join (u" ") <$> parts) ++ instructions_from rest [].
Proof.
  induction 1 as [|line lines parts Hn _ IH|block ws lines parts Hb _ IH]; [done|..].
  - cbn [app instructions_from]. destruct Hn as [->|Hn]; [by rewrite decide_True|].
    case_decide; [done|]. by rewrite Hn.
  - rewrite <- (assoc_L (++)), (instructions_spread _ _ _ Hb), IH. done.
Qed.

(** * The regular expression *)

(** Whether a line starts after [a], when [at_start] says it of the text before. *)
Definition line_starts (at_start : bool) (a : pystr) : bool :=
  match last a with Some c => (c =? 10)%N | None => at_start end.

Definition all_of (p : N → bool) (s : pystr) : Prop := Forall (λ c, p c = true) s.

Lemma line_starts_cons b c a : line_starts (c =? 10)%N a = line_starts b (c :: a).
Proof. destruct a as [|d a]; [done|]. unfold line_starts. change (last (c :: d :: a)) with (last (d :: a)). destruct (last (d :: a)) eqn:E; [done|]. by apply last_None in E. Qed.

Lemma matches_many p r b s :
  matches (Many p :: r) b s = true
  ↔ ∃ s1 s2, s = s1 ++ s2 ∧ all_of p s1 ∧ matches r (line_starts b s1) s2 = true.
Proof.
  revert b. induction s as [|c s IH]; intros b; cbn [matches] in *; rewrite <- orb_lazy_alt, orb_true_iff.
  - split; [intros [H|?]; [|done]; exists [], []; split_and!; [done|constructor|done]|].
    intros (s1 & s2 & Hs & _ & H). left. by destruct s1, s2.
  - rewrite <- andb_lazy_alt, andb_true_iff, IH. split.
    + intros [H|(Hc & s1 & s2 & -> & H1 & H)]; [exists [], (c :: s); split_and!; [done|constructor|done]|].
      exists (c :: s1), s2. split_and!; [done|by constructor|]. by rewrite (line_starts_cons b) in H.
    + intros ([|c' s1] & s2 & Hs & H1 & H); [left; simpl in Hs; by subst|right]; simplify_eq/=.
      apply Forall_cons in H1 as [Hc H1]. split; [done|]. exists s1, s2.
      by rewrite (line_starts_cons b).
Qed.

Lemma matches_line_start r b s :
  matches (LineStart :: r) b s = true ↔ b = true ∧ matches r b s = true.
Proof. cbn [matches]. by rewrite <- andb_lazy_alt, andb_true_iff. Qed.

Lemma matches_one p r b s :
  matches (One p :: r) b s = true
  ↔ ∃ c s', s = c :: s' ∧ p c = true ∧ matches r (c =? 10)%N s' = true.
Proof. destruct s; simpl; [naive_solver|]. rewrite <- andb_lazy_alt, andb_true_iff. naive_solver. Qed.

Lemma search_spec r b s :
  search r b s = true ↔ ∃ a s', s = a ++ s' ∧ matches r (line_starts b a) s' = true.
Proof.
  revert b. induction s as [|c s IH]; intros b; cbn [search]; rewrite <- orb_lazy_alt, orb_true_iff.
  - split; [intros [H|?]; [|done]; by exists [], []|].
    intros (a & s' & Hs & H). left. by destruct a, s'.
  - rewrite IH. split.
    + intros [H|(a & s' & -> & H)]; [by exists [], (c :: s)|].
      exists (c :: a), s'. by rewrite (line_starts_cons b) in H.
    + intros ([|c' a] & s' & Hs & H); [left; simpl in Hs; by subst|right]; simplify_eq/=.
      exists a, s'. by rewrite (line_starts_cons b).
Qed.

Lemma matches_text t r b s :
  matches (text_of t ++ r) b s = true
  ↔ ∃ s', s = u t ++ s' ∧ matches r (line_starts b (u t)) s' = true.
Proof.
  unfold text_of. generalize (u t) as l. intros l. revert b s.
  induction l as [|c l IH]; intros b s; simpl.
  - split; [by exists s|by intros (s' & -> & ?)].
  - destruct s as [|d s]; [split; [done|by intros (? & ? & ?)]|].
    rewrite <- andb_lazy_alt, andb_true_iff, N.eqb_eq, IH, (line_starts_cons b). split.
    + intros (-> & s' & -> & H). by exists s'.
    + intros (s' & Hs & H). simplify_eq. eauto.
Qed.

Lemma matches_text_end t b s : matches (text_of t) b s = true ↔ ∃ s', s = u t ++ s'.
Proof. rewrite <- (app_nil_r (text_of t)), matches_text. naive_solver. Qed.

(** A match stays one when text is appended. *)
Lemma matches_app r b s t : matches r b s = true → matches r b (s ++ t) = true.
Proof.
  revert b s. induction r as [|[|p|p] r IH]; intros b s; [done|..].
  - rewrite !matches_line_start. intros [? ?]. auto.
  - rewrite !matches_one. intros (c & s' & -> & ? & ?). exists c, (s' ++ t). auto.
  - rewrite !matches_many. intros (s1 & s2 & -> & H1 & H). exists s1, (s2 ++ t).
    rewrite (assoc_L (++)). auto.
Qed.

Lemma search_app r b s t : search r b s = true → search r b (s ++ t) = true.
Proof.
  rewrite !search_spec. intros (a & s' & -> & H). exists a, (s' ++ t).
  rewrite (assoc_L (++)). eauto using matches_app.
Qed.

(** What the pattern finds: a line whose first word is RUN, and after it anywhere, also on
    later lines, a pip install and after that, also anywhere, the flag. *)
Definition pip_without_cache (text : pystr) : Prop :=
  ∃ before indent c x y after,
    text = before ++ indent ++ u"RUN" ++ c :: x ++ u"pip install " ++ y ++ u"--no-cache-dir" ++ after
    ∧ line_starts true before = true ∧ spaces indent ∧ is_space c = true.

Lemma search_pip text : search pip_pattern true text = true ↔ pip_without_cache text.
Proof.
  unfold pip_without_cache, pip_pattern. rewrite search_spec. cbn [app]. split.
  - intros (before & s & -> & H).
    apply matches_line_start in H as [Hb H].
    apply matches_many in H as (indent & s1 & -> & Hi & H).
    apply matches_text in H as (s2 & -> & H).
    apply matches_one in H as (c & s3 & -> & Hc & H).
    apply matches_many in H as (x1 & s4 & -> & _ & H).
    apply matches_many in H as (x2 & s5 & -> & _ & H).
    apply matches_text in H as (s6 & -> & H).
    apply (matches_many any) in H as (y & s7 & -> & _ & H).
    apply matches_text_end in H as (after & ->).
    exists before, indent, c, (x1 ++ x2), y, after. by rewrite <- (assoc_L (++) x1).
  - intros (before & indent & c & x & y & after & -> & Hb & Hi & Hc).
    eexists before, _. split; [done|]. apply matches_line_start. split; [done|].
    apply matches_many. eexists indent, _. split_and!; [done..|].
    apply matches_text. eexists. split; [done|].
    apply matches_one. eexists c, _. split_and!; [done..|].
    apply matches_many. eexists [], _. split_and!; [done|constructor|].
    apply matches_many. eexists x, _. split_and!; [done|by apply Forall_true|].
    apply matches_text. eexists. split; [done|].
    apply (matches_many any). eexists y, _. split_and!; [done|by apply Forall_true|].
    apply matches_text_end. by eexists.
Qed.

(** * The Dockerfile check *)

(** The first instruction of a name. *)
Definition first_of (name : pystr) (instructions : list pystr) (i : pystr) : Prop :=
  ∃ before after, instructions = before ++ i :: after ∧ has_prefix name i = true
                  ∧ ∀ j, j ∈ before → has_prefix name j = false.

Lemma first_instruction_spec instructions name i :
  _first_instruction instructions name = Some i ↔ first_of name instructions i.
Proof.
  unfold _first_instruction, first_of. induction instructions as [|j l IH]; simpl.
  { split; [done|]. intros ([|] & ? & ? & _); done. }
  destruct (has_prefix name j) eqn:Hj.
  - split; [intros [= ->]; exists [], l; split_and!; [done..|set_solver]|].
    intros ([|k before] & after & ? & Hi & Hb); simplify_eq/=; [done|].
    rewrite (Hb k) in Hj; [done|set_solver].
  - rewrite IH. split.
    + intros (before & after & -> & Hi & Hb). exists (j :: before), after. split_and!; [done..|].
      intros k [->|?]%elem_of_cons; auto.
    + intros ([|k before] & after & ? & Hi & Hb); simplify_eq/=; [congruence|].
      exists before, after. split_and!; [done..|]. intros. apply Hb. set_solver.
Qed.

Lemma first_of_app name l l' i : first_of name l i → first_of name (l ++ l') i.
Proof.
  intros (before & after & -> & Hi & Hb). exists before, (after ++ l').
  by rewrite <- (assoc_L (++)).
Qed.

(** What each of the four rules asks for. *)
Definition pinned_base (instructions : list pystr) : Prop :=
  ∃ i, first_of (u"FROM") instructions i ∧ ¬ ∃ a b, lower i = a ++ u":latest" ++ b.
Definition drops_root (instructions : list pystr) : Prop :=
  ∃ i, i ∈ instructions ∧ upper i = u"USER APP".
Definition exec_form (instructions : list pystr) : Prop :=
  ∃ i rest, first_of (u"CMD") instructions i ∧ strip (drop 4 i) = u"[" ++ rest.

Lemma has_instruction_spec l :
  _has_instruction l (u"USER") (u"app") = true ↔ drops_root l.
Proof.
  unfold _has_instruction, drops_root. rewrite existsb_exists.
  setoid_rewrite <- list_elem_of_In. setoid_rewrite bool_decide_eq_true. done.
Qed.

Lemma exec_form_spec l : _has_exec_form_command l (u"CMD") = true ↔ exec_form l.
Proof.
  unfold _has_exec_form_command, exec_form. setoid_rewrite <- first_instruction_spec.
  destruct (_first_instruction _ _) as [i|]; [|naive_solver].
  change (length (u "CMD" ++ u " ")) with 4. rewrite starts_with_spec. naive_solver.
Qed.

Lemma passes_iff text :
  (main text).2 = false
  ↔ pinned_base (_instructions text) ∧ drops_root (_instructions text)
    ∧ search pip_pattern true text = true ∧ exec_form (_instructions text).
Proof.
  unfold main, errors, pinned_base. setoid_rewrite <- first_instruction_spec.
  rewrite <- has_instruction_spec, <- exec_form_spec.
  setoid_rewrite <- substring_of_spec.
  destruct (_first_instruction _ (u "FROM")) as [i|]; [|naive_solver].
  destruct (_has_instruction _ _ _), (search _ _ _), (_has_exec_form_command _ _),
    (substring_of _ (lower i)) eqn:E; cbn [app]; split; try done; try naive_solver.
  intros _. split_and!; [|done..]. exists i. by rewrite E.
Qed.

(** The rules hold on when instructions and text are appended. *)
Lemma rules_app l l' :
  pinned_base l → drops_root l → exec_form l →
  pinned_base (l ++ l') ∧ drops_root (l ++ l') ∧ exec_form (l ++ l').
Proof.
  intros (i & Hi & ?) (j & Hj & ?) (k & rest & Hk & ?).
  split_and!; [exists i|exists j|exists k, rest]; eauto using first_of_app.
  split; [set_solver|done].
Qed.

Lemma instructions_unlines lines parts more :
  laid_out lines parts → Forall one_line lines →
  _instructions (unlines lines ++ more) = (join (u" ") <$> parts) ++ _instructions more.
Proof.
  intros Hl H1. unfold _instructions. rewrite splitlines_unlines by done.
  by apply instructions_laid_out.
Qed.

(** The parser undoes the layout of a Dockerfile: whatever way the parts of its
    instructions are spread over lines with backslashes, indented, and mixed with blank lines
    and comments, [_instructions] gives each instruction as its parts joined by spaces. *)
Theorem instructions_round_trip lines parts :
  laid_out lines parts → Forall one_line lines →
  _instructions (unlines lines) = join (u" ") <$> parts.
Proof.
  intros Hl H1. pose proof (instructions_unlines lines parts [] Hl H1) as H.
  by rewrite !app_nil_r in H.
Qed.

(** The Dockerfile check exits with 0 exactly when the first FROM does not name a
    [:latest] image in any case, some instruction is USER app, the first CMD has the exec form,
    and somewhere after a line that starts with RUN there is a pip install and after it, on
    any line, the flag. *)
Theorem dockerfile_policy text :
  (main text).2 = false
  ↔ pinned_base (_instructions text) ∧ drops_root (_instructions text)
    ∧ pip_without_cache text ∧ exec_form (_instructions text).
Proof. by rewrite passes_iff, search_pip. Qed.

(** Once a Dockerfile passes the check, it still does with anything appended: a later USER root,
    a second stage on a [:latest] image, a pip install that caches, a shell-form CMD. *)
Theorem dockerfile_check_misses lines parts more :
  laid_out lines parts → Forall one_line lines →
  (main (unlines lines)).2 = false → (main (unlines lines ++ more)).2 = false.
Proof.
  intros Hl H1. rewrite !passes_iff. intros (Hb & Hu & Hp & Hc).
  pose proof (instructions_unlines lines parts [] Hl H1) as E. rewrite !app_nil_r in E.
  rewrite (instructions_unlines lines parts more) by done. rewrite <- E in *.
  destruct (rules_app _ (_instructions more) Hb Hu Hc) as (? & ? & ?).
  split_and!; [done..| |done]. by apply search_app.
Qed.

(** A Dockerfile in three instructions, one of them on two lines. *)
Definition sample_lines : list pystr :=
  [u"# syntax=docker/dockerfile:1"; u"FROM python:3.12-slim"; []; u"RUN pip install " ++ backslash;
   u"    --no-cache-dir ."; u"USER app"; u"CMD [uvicorn]"].
Definition sample_parts : list (list pystr) :=
  [[u"FROM python:3.12-slim"]; [u"RUN pip install"; u"--no-cache-dir ."]; [u"USER app"];
   [u"CMD [uvicorn]"]].

Lemma sample_laid_out : laid_out sample_lines sample_parts.
Proof.
  assert (∀ w lines parts, part w → laid_out lines parts → laid_out (w :: lines) ([w] :: parts)) as Hone.
  { intros w lines parts Hw. apply (laid_out_instruction [w]).
    rewrite <- (app_nil_r w) at 1. apply (spread_last [] w []); [constructor..|done]. }
  unfold sample_lines, sample_parts.
  apply laid_out_noise; [by right|]. apply Hone; [by split|].
  apply laid_out_noise; [by left|].
  apply (laid_out_instruction [u"RUN pip install " ++ backslash; u"    --no-cache-dir ."]).
  - change (u"RUN pip install " ++ backslash)
      with ([] ++ u"RUN pip install" ++ u" " ++ backslash ++ []).
    change (u"    --no-cache-dir .") with (u"    " ++ u"--no-cache-dir ." ++ []).
    apply spread_more.
    + constructor.
    + by apply Forall_singleton.
    + constructor.
    + by split.
    + apply spread_last.
      * by repeat apply Forall_cons_2.
      * constructor.
      * by split.
  - apply Hone; [by split|]. apply Hone; [by split|]. constructor.
Qed.

Lemma sample_one_line : Forall one_line sample_lines.
Proof. repeat constructor. Qed.

Lemma instructions_round_trip_witness :
  _instructions (unlines sample_lines)
  = [u"FROM python:3.12-slim"; u"RUN pip install --no-cache-dir ."; u"USER app"; u"CMD [uvicorn]"].
Proof. exact (instructions_round_trip sample_lines sample_parts sample_laid_out sample_one_line). Defined.

Definition sample_stage : pystr := unlines [u"FROM app:latest"; u"USER root"; u"RUN pip install x"].

Lemma dockerfile_check_misses_witness :
  main (unlines sample_lines) = ([u"Dockerfile policy checks passed"], false)
  ∧ (main (unlines sample_lines ++ sample_stage)).2 = false.
Proof.
  assert (main (unlines sample_lines) = ([u"Dockerfile policy checks passed"], false)) as E
    by (vm_compute; reflexivity).
  split; [exact E|].
  apply (dockerfile_check_misses _ _ _ sample_laid_out sample_one_line). by rewrite E.
Defined.

(** * The manifest check *)

Import Manifests.

(** A Kubernetes resource: a mapping with its fields and a named metadata mapping. *)
Definition resource (d : yaml) : Prop :=
  ∃ m md, d = YMap m ∧ truthy (get (u"apiVersion") m) = true ∧ truthy (get (u"kind") m) = true
          ∧ get (u"metadata") m = YMap md ∧ truthy (get (u"name") md) = true.

Definition is_null (d : yaml) : bool := match d with YNull => true | _ => false end.

Definition documents (file : pystr * parsed) : list yaml :=
  match file.2 with Documents ds => ds | Invalid _ => [] end.

(** The documents that are not empty, of all files. *)
Definition resources (files : list (pystr * parsed)) : list yaml :=
  filter (λ d, is_null d = false) (files ≫= documents).

Lemma validate_document_nil path index d : _validate_document path index d = [] ↔ resource d.
Proof.
  unfold resource. destruct d as [| | | | | |m|]; try (split; [done|naive_solver]).
  cbn [_validate_document REQUIRED_FIELDS]. rewrite app_nil. simpl.
  destruct (truthy (get (u "apiVersion") m)) eqn:E1, (truthy (get (u "kind") m)) eqn:E2,
    (get (u "metadata") m) as [| | | | | |md|] eqn:E3;
    try (split; [by intros []|intros (m' & md' & ? & ? & ? & ? & ?); simplify_eq; congruence]).
  destruct (truthy (get (u "name") md)) eqn:E4; simpl;
    [|split; [by intros []|intros (m' & md' & ? & ? & ? & ? & ?); simplify_eq; congruence]].
  assert (md ≠ []) as Hmd by (by intros ->). destruct md; [done|].
  split; [|done]. intros _. by exists m, (p :: md).
Qed.

Lemma check_documents_cons path index d ds :
  check_documents path index (d :: ds)
  = let r := check_documents path (index + 1) ds in
    if is_null d then r else (_validate_document path index d ++ r.1, S r.2).
Proof. cbn [check_documents]. destruct (check_documents _ _ ds). by destruct d. Qed.

Lemma check_documents_spec path index ds :
  (check_documents path index ds).2 = length (filter (λ d, is_null d = false) ds)
  ∧ ((check_documents path index ds).1 = [] ↔ ∀ d, d ∈ ds → is_null d = false → resource d).
Proof.
  revert index. induction ds as [|d ds IH]; intros index; [simpl; split; [done|set_solver]|].
  destruct (IH (index + 1)%Z) as [IHn IHe]. rewrite check_documents_cons, filter_cons. cbn zeta.
  setoid_rewrite elem_of_cons. destruct (is_null d) eqn:E; cbn [fst snd].
  - rewrite decide_False by done. split; [exact IHn|]. rewrite IHe.
    split; [intros H d' [->|?]; [congruence|auto]|auto].
  - rewrite decide_True by done. split; [by rewrite IHn|].
    rewrite app_nil, validate_document_nil, IHe.
    split; [intros [? H] d' [->|?]; auto|auto].
Qed.

Definition checks (file : pystr * parsed) : Prop :=
  ∃ ds, file.2 = Documents ds ∧ ∀ d, d ∈ ds → is_null d = false → resource d.

Lemma check_files_spec files :
  (check_files files).2 = length (resources files)
  ∧ ((check_files files).1 = [] ↔ ∀ f, f ∈ files → checks f).
Proof.
  unfold resources. induction files as [|f files [IHn IHe]]; [simpl; split; [done|set_solver]|].
  cbn [check_files mbind list_bind]. fold (mbind (M := list) documents).
  rewrite filter_app, length_app. cbn [mbind list_bind] in IHn. rewrite <- IHn.
  assert ((check_file f).2 = length (filter (λ d, is_null d = false) (documents f))
          ∧ ((check_file f).1 = [] ↔ checks f)) as [Hn He].
  { destruct f as [path [ds|msg]]; unfold checks; simpl.
    - destruct (check_documents_spec path 1 ds) as [? ->]. split; [done|]. naive_solver.
    - split; [done|]. split; [done|]. naive_solver. }
  destruct (check_file f) as [es n], (check_files files) as [es' n']. cbn [fst snd] in *.
  split; [by rewrite Hn|]. rewrite app_nil, He, IHe. setoid_rewrite elem_of_cons. naive_solver.
Qed.

Lemma resources_perm files files' : files ≡ₚ files' → length (resources files) = length (resources files').
Proof. intros H. unfold resources. by rewrite H. Qed.

(** The manifest check exits with 0 exactly when there is a manifest, every file parses, every
    document that is not empty is a resource, and there is a resource; it then prints their
    number.  The order of the directory does not matter. *)
Theorem manifests_policy files :
  ((Manifests.main files).2 = false
   ↔ (∀ f, f ∈ files → checks f) ∧ resources files ≠ [])
  ∧ ((Manifests.main files).2 = false →
     (Manifests.main files).1
     = [u"Validated " ++ str_of_Z (Z.of_nat (length (resources files)))
        ++ u" Kubernetes resources in deploy/k8s"]).
Proof.
  unfold Manifests.main. set (sorted := sort_by _ files).
  assert (sorted ≡ₚ files) as Hp by apply sort_by_perm.
  assert (∀ l : list yaml, l ≠ [] ↔ length l ≠ 0) as Hne by (intros []; naive_solver).
  destruct (check_files_spec sorted) as [Hn He].
  assert ((check_files sorted).1 = [] ↔ ∀ f, f ∈ files → checks f) as He'
    by (rewrite He; by setoid_rewrite Hp).
  rewrite Hne, <- (resources_perm sorted files), <- He', <- Hn by done. clear Hn He He'.
  destruct sorted as [|f fs]; [simpl; naive_solver|].
  destruct (check_files (f :: fs)) as [es n]. cbn [fst snd].
  case_decide as Hz; [split; [split; [by destruct es|naive_solver]|by destruct es]|].
  rewrite app_nil_r. destruct es; [split; [done|done]|]. split; [split; [done|]|done]. by intros [].
Qed.

Definition sample_metadata (name : yaml) : yaml := YMap [(YStr (u"name"), name)].
Definition sample_resource : yaml :=
  YMap [(YStr (u"apiVersion"), YStr (u"v1")); (YStr (u"kind"), YStr (u"Service"));
        (YStr (u"metadata"), sample_metadata (YStr (u"api")))].

Example manifests_ex :
  Manifests.main [(u"deploy/k8s/b.yaml", Documents [YNull; YMap [(YStr (u"kind"), YBool false)]]);
                  (u"deploy/k8s/a.yaml", Documents [sample_resource])]
  = ([u"deploy/k8s/b.yaml document 2: missing apiVersion";
      u"deploy/k8s/b.yaml document 2: missing kind";
      u"deploy/k8s/b.yaml document 2: missing metadata";
      u"deploy/k8s/b.yaml document 2: metadata must be a mapping"], true).
Proof. vm_compute. reflexivity. Qed.

Lemma manifests_policy_witness :
  let files := [(u"deploy/k8s/b.yaml", Documents [YNull]);
                (u"deploy/k8s/a.yaml", Documents [sample_resource; sample_resource])] in
  ((∀ f, f ∈ files → checks f) ∧ resources files ≠ [])
  ∧ (Manifests.main files).1 = [u"Validated 2 Kubernetes resources in deploy/k8s"].
Proof.
  intros files. assert ((Manifests.main files).2 = false) as E by (vm_compute; reflexivity).
  split; [apply (proj1 (proj1 (manifests_policy files)) E)|].
  exact (proj2 (manifests_policy files) E).
Defined.
