(* ===== verification/Tools.v ===== *)
(** The command line tool that prints a demo token ([scripts/create_demo_jwt.py]), from the
    arguments [argparse] has read. *)
From S2P Require Export Auth.

(** The parsed arguments; [--scope] may be repeated and [--expires-minutes] is 60 by default. *)
Record Args := mkArgs {
  arg_tenant_id : pystr;
  arg_subject : pystr;
  arg_scope : list pystr;
  arg_expires_minutes : Z;
}.

(** [timedelta(minutes=n)] in microseconds. *)
Definition timedelta_minutes (n : Z) : res Z :=
  let us := (n * 60000000)%Z in
  if (Z.abs (us / 86400000000) <=? 999999999)%Z then Ok us
  else Raise (OverflowExn (u"days; must have magnitude <= 999999999")).

Module DemoJwt.
(** What [main] prints, at time [now]. *)
Definition main (args : Args) (st : Settings) (now : datetime) : res pystr :=
  expires_delta ← timedelta_minutes (arg_expires_minutes args);
  token ← create_demo_jwt st (arg_tenant_id args) (arg_subject args) (arg_scope args) expires_delta now;
  Ok (token ++ [10%N]).
End DemoJwt.

(** What is printed is a token the service accepts, under the same settings, for that many minutes
    from the second it was made in; too large a number of minutes raises [OverflowError]. *)
Theorem printed_token (args : Args) (st : Settings) (made now : datetime) (depth : nat) (key : bytes) :
  2 ≤ depth → utf8_encode (auth_demo_secret st) = Ok key →
  Forall (Forall scalar)
    (auth_issuer st :: auth_audience st :: arg_tenant_id args :: arg_subject args :: arg_scope args) →
  auth_issuer st ≠ [] → arg_tenant_id args ≠ [] → arg_subject args ≠ [] →
  (datetime_min <= made <= datetime_max)%Z →
  let expires := (made + arg_expires_minutes args * 60000000)%Z in
  match DemoJwt.main args st made with
  | Ok line =>
      ∃ token, line = token ++ [10%N]
        ∧ validate_demo_jwt depth st token now
          = if (epoch_seconds expires <=? epoch_seconds now)%Z
            then Raise (Unauthorized (u"Token has expired."))
            else Ok (mkContext (arg_tenant_id args) (arg_subject args) (arg_scope args))
  | Raise e =>
      ∃ msg, e = OverflowExn msg ∧ ¬ (datetime_min <= expires <= datetime_max)%Z
  end.
Proof.
  intros Hd Hkey Hsc Hi Ht Hs Hrange expires. unfold DemoJwt.main, timedelta_minutes. cbv zeta.
  destruct (Z.leb_spec (Z.abs (arg_expires_minutes args * 60000000 / 86400000000)) 999999999) as [Hle|Hgt];
    cbn [mbind res_bind].
  - destruct (datetime_add made (arg_expires_minutes args * 60000000)) as [texp|e] eqn:Hadd.
    + destruct (created_token_validates depth st (arg_tenant_id args) (arg_subject args) (arg_scope args)
        _ made texp now key Hd Hkey Hsc Hi Ht Hs Hrange Hadd) as (token & -> & Hv).
      cbn [mbind res_bind]. exists token. split; [done|]. rewrite Hv.
      revert Hadd. unfold datetime_add. destruct (_ && _); [|done]. by intros [= <-].
    + unfold create_demo_jwt. rewrite Hadd. cbn [mbind res_bind]. unfold datetime_add in Hadd.
      case_match eqn:E; simplify_eq. eexists. split; [done|]. subst expires. to_prop. lia.
  - eexists. split; [done|]. subst expires. unfold datetime_min, datetime_max in *.
    pose proof (Z.div_mod (arg_expires_minutes args * 60000000) 86400000000 ltac:(lia)).
    pose proof (Z.mod_pos_bound (arg_expires_minutes args * 60000000) 86400000000 ltac:(lia)). lia.
Qed.

Example too_many_minutes :
  DemoJwt.main (mkArgs (u"t") (u"s") [] 999999999999999) auth_settings sample_now
  = Raise (OverflowExn (u"days; must have magnitude <= 999999999")).
Proof. vm_compute. reflexivity. Qed.
